(* ===== verification/_CoqProject ===== *)
-Q . S2P
Prelude.v
GoStd.v
Sha256.v
LevelDB.v
GoText.v
Float.v
Pow.v
RawHeader.v
HeaderStore.v
HeaderChain.v
HeaderSync.v
RawChain.v
Ec.v
Envelope.v
EnvelopeStore.v
EnvelopeProps.v
EnvelopeRuns.v
Slash.v
Gossip.v
GossipProps.v
GossipRuns.v
Transport.v
Tx.v
Brc.v
Directory.v
DirectoryProps.v
Engine.v
Uhrp.v
EngineProps.v
OverlayRuns.v
Http.v
Content.v
ContentProps.v
RateLimit.v
Payment.v
TokenGate.v
Server.v
DataApi.v
PaymentProps.v
ServerProps.v
ServerRuns.v
MempoolIndex.v
NoncePool.v
TxRelay.v
Spv.v
SpvProps.v
SpvRuns.v
Watcher.v
WatcherProps.v
WatcherRuns.v
P2P.v
P2PProps.v
ProofApi.v
ProofApiProps.v
ProofApiRuns.v
NodeApi.v
Bond.v
MeshNodes.v
Config.v
Host.v
Release.v
ReleaseProps.v
Deploy.v
DeployProps.v
Doctor.v
DoctorProps.v
Feeds.v
WalletServices.v
WalletLib.v
Scanner.v
ScannerProps.v
Wallet.v
WalletProps.v
NonceProvider.v
WalletRuns.v
Status.v
Discovery.v
StatusProps.v
Start.v
StatusRuns.v
