(* ===== verification/Prelude.v ===== *)
(** * Anvil: a verification library for the Anvil BSV overlay node

    Anvil (Go, [internal/], [pkg/], [cmd/]) is a node of an overlay network on BSV. It
    follows the header chain, checks transactions against it (SPV), keeps and
    gossips signed data envelopes, keeps a directory of other nodes, admits
    outputs to overlay topics, serves inscriptions, and sells access to its
    endpoints for micropayments. This library is a shallow embedding of that
    code: one definition per type, function, handler or loop, named as in the
    source, and theorems about those definitions.

    ** How the code is represented

    A Go [string] or [[]byte] is [bytes] (a list of bytes), an [int] or
    [int64] a [Z] with [i64] written where the code can wrap, [uint32] likewise
    [u32]; a map is a [gmap], a struct a [Record], an enumeration an
    [Inductive]. A call that can fail or panic returns [res E A]: [Ok], [Err]
    with an error value, or [Panic] (index out of range, nil dereference). State
    is passed explicitly, and what a mutex protects is one step; where an
    operation takes a lock twice it is two steps ([Payment], [NoncePool],
    [MempoolIndex]). Times are numbers of nanoseconds given to the operation
    that reads the clock. An HTTP handler is a function from the request and the
    state to the state and the response, [None] for a panic ([Http.Handler]).
    Log lines and the texts of errors are left out unless a response shows them.

    What is not in the repository is an interface: goleveldb
    ([LevelDB.LevelDB] with its laws and a memory instance), elliptic curves
    ([Ec.EC]), transactions ([Tx.TxLib]), push-drop tokens ([Brc.SdkTokens]),
    BEEF ([Spv.BeefLib]), the wire format of go-p2p ([HeaderStore] and
    [P2P.P2PLib]), JSON ([LevelDB.JsonCodec]), answers of remote services
    (functions of the URL, or lists of answers still to come), the order in
    which Go visits a map ([GoStd.MapOrder]) and what [sort.Slice] leaves open
    ([GoStd.SortSlice]). Each interface has a concrete instance in a [Runs] file,
    at which the theorems with hypotheses are applied.

    ** Files, parts and sources

    - [Prelude], [GoStd], [GoText], [LevelDB], [Float], [Sha256], [Http], [Ec],
      [Tx], [Host]: Go integers, hex, base64, varints, strings, URLs and paths,
      binary64 arithmetic, SHA-256, key-value stores, requests and responses, and
      the file system and programs of the host ([Host.script], a monad).
    - Headers ([internal/headers]): [Pow] (pow.go), [HeaderStore] (store.go) with
      the abstract chain in [HeaderChain], [HeaderSync] (sync.go) over the
      interface of a peer; [RawHeader] and [RawChain] are the 80-byte instance.
    - Envelopes ([internal/envelope]): [Envelope], [EnvelopeStore],
      [EnvelopeProps], [EnvelopeRuns]; the publishers of [internal/feeds] are in
      [Feeds].
    - Gossip ([internal/gossip]): [Slash], [Gossip] (manager.go, handlers.go,
      manager_seed.go, connection_log.go), [GossipProps], [GossipRuns], and
      [Transport] (transport.go and the handler of inbound connections); it
      ingests into the envelope store and registers in the directory.
    - Overlay ([internal/overlay], [pkg/brc]): [Brc] (SHIP and SLAP tokens, invoice
      keys), [Directory], [DirectoryProps], [Engine] (engine.go), [Uhrp] (topics/),
      [EngineProps], [OverlayRuns]; [NodeApi] has the endpoints.
    - Payments and access ([internal/api]): [RateLimit] (auth.go), [Payment]
      (payment*.go), [TokenGate], [Server] (the wrappers of server.go),
      [DataApi] (/data and sse.go), [NoncePool], [NonceProvider] (which mints the
      nonces with the wallet), with [PaymentProps], [ServerProps], [ServerRuns].
    - The server as a whole: [Status] (the [Server] record, [NewServer],
      handlers_status.go, mesh_status.go), [Discovery] (the route table with its
      guards and the discovery documents), [MeshNodes] (/mesh/nodes), with
      [StatusProps] and [StatusRuns].
    - Transactions: [Spv] ([internal/spv]) over the header store, [TxRelay]
      ([internal/txrelay]), [ProofApi] (/tx/{txid}/beef and /broadcast, which
      join the two), [MempoolIndex] and [Watcher] ([internal/mempool]), [P2P]
      ([internal/p2p]), [Content] ([internal/content]), [Bond] ([internal/bond]).
    - The wallet ([internal/wallet]): [WalletLib] (the wallet and script libraries
      it uses), [WalletServices] (services.go), [Scanner] (scanner.go), [Wallet]
      (wallet.go: invoices, their keys, payments and routes), with [ScannerProps],
      [WalletProps] and [WalletRuns].
    - The command ([cmd/anvil], [internal/config]): [Config] (config.go, info.go,
      token.go), [Deploy], [Doctor] and [Release] (deploy.go, doctor.go, upgrade.go)
      as scripts over [Host], and [Start] (the decisions of main.go and
      setup_mempool.go: which parts run and how they are wired).

    Each [XProps] file proves the theorems of [X] and each [XRuns] file
    evaluates it at concrete inputs; for the smaller parts both are at the end
    of the file of the part.

    ** What the theorems show

    - Refinement. [AddHeaders_refines] and [Rollback_refines]: the header store
      is an abstract list of headers, also after failures of the disk.
      [submit_refines_ledger]: a submission to the UHRP topic is one step of a
      ledger of live outputs. [CheckTx_refines]: the watcher is a ledger of
      unspent outputs. [index_is_flat_map]: the sharded index is one map.
    - Invariants. [Ingest_spec], [peer_table_invariant],
      [one_identity_per_domain], [nonces_issued_once], [proof_store_validated],
      [acknowledged_invoices_kept] (over restarts and interleavings).
    - Safety. Who gets past a gate: [verifyProof_accepts],
      [verifyProof_one_time], [verifyToken_iff], [openRead_redacts],
      [write_routes_guarded], [gate_needs_wallet], [VerifyBond_backed]; what may
      be believed: [valid_beef_on_chain], [invalid_beef_not_imported],
      [fetchers_authentic], [canonical_binds_fields], [onData_accepts]; what the
      host keeps: [upgrade_safe], [deploy_keeps].
    - Composition. [status_reads_chain]: the status documents show the header
      store. [announced_prices_charged]: the prices of the discovery document are
      those of the gate. [deployed_identity_loads]: the identity
      that one command writes is the one the others load.
      [printed_token_authenticates]: the token that is printed is the one the
      node asks for.
      [inbound_cleaned_up]: the read loop of a connection and the peer table.
    - Round trips. [NewStore_recovers], [issue_then_pay],
      [BuildSHIPScript_validates], [parseInscription_roundtrip].
    - Termination and liveness. [SyncWith_honest], [push_fields_terminates],
      [RunBlockTip_announces], [monitor_stops].
    - Departures. Some theorems state what the code does where that is not what
      its comments say ([SigningDigest_ambiguous], [forged_reporters_remove_peer],
      [authOrPay_token_bypass], [extractOutputScript_spins],
      [accept_failure_leaks]); others of the kind are lemmas and examples
      ([concurrent_replay], [register_evicts_subtopic], [announced_again],
      [monitor_stays_connected], [tips_between_polls], [failed_tip_not_retried],
      [upgrade_into_link_dir], [deploy_into_link_dir], [failed_identity_unnoticed]).

    ** Fuel

    The locator has 32 turns, the bound of the Go loop. The sync loop takes a
    turn per batch of 2000 headers and a last one, and [SyncWith_honest] is
    proved for any larger fuel. [push_fields] takes the length of the script and
    one ([push_fields_terminates]). The walk over a transaction takes a turn per
    input or output; [extractOutputScript_spins] shows that no smaller bound
    would do. [chunks_of] takes the length of the list, which
    [chunks_of_concat] shows to be enough. All other recursion is structural.

    ** Not modelled

    Input and output itself: sockets and the websocket library (the transport
    takes what they answer), the listeners, signals and timers of main.go, and the
    goroutines that call the operations modelled here (one turn of each loop is a
    definition). The help text of the command. Third-party libraries are
    interfaces: of the wallet library, go-sdk, goleveldb and the TOML and BEEF
    parsers the model has what the source relies on. The JungleBus subscriber's
    connection is a library's; its handler of a transaction is modelled. *)

From Stdlib Require Import Init.Byte Strings.Byte Strings.String Lia ZArith.
From stdpp Require Import base gmap sets list strings numbers sorting fin_maps.

(** ** Bytes and Go strings

    A Go [string] and a Go [[]byte] are both finite byte sequences: the model
    has one type for them, [bytes], so that [string(b)] and [[]byte(s)] are
    identities, [+] is [++], [len] is [length] and slicing is [take]/[drop]. *)

Abbreviation byte := Byte.byte (only parsing).
Abbreviation bytes := (list Byte.byte).

#[export] Instance byte_eq_dec : EqDecision Byte.byte := Byte.byte_eq_dec.

#[export] Program Instance byte_countable : Countable Byte.byte :=
  inj_countable Byte.to_N Byte.of_N _.
Next Obligation. intros b. apply Byte.of_to_N. Qed.

(** A Go string literal. *)
Definition lit (s : string) : bytes := list_byte_of_string s.
Arguments lit s%_string.

(** The numeric value of a byte, and the low byte of a number. *)
Definition byte_z (b : byte) : Z := Z.of_N (Byte.to_N b).
Definition z_byte (z : Z) : byte := default x00 (Byte.of_N (Z.to_N (z mod 256))).

Lemma byte_z_bound b : (0 ≤ byte_z b < 256)%Z.
Proof. pose proof (Byte.to_N_bounded b). unfold byte_z. lia. Qed.

Lemma z_byte_z b : z_byte (byte_z b) = b.
Proof.
  unfold z_byte. rewrite Z.mod_small by apply byte_z_bound.
  unfold byte_z. rewrite N2Z.id, Byte.of_to_N. done.
Qed.

Lemma byte_z_z z : byte_z (z_byte z) = (z mod 256)%Z.
Proof.
  pose proof (Z.mod_pos_bound z 256 ltac:(lia)) as Hb.
  unfold z_byte. destruct (Byte.of_N (Z.to_N (z mod 256))) as [b|] eqn:E; simpl.
  - apply Byte.to_of_N in E. unfold byte_z. rewrite E. lia.
  - apply Byte.of_N_None_iff in E. lia.
Qed.

Lemma byte_z_inj b1 b2 : byte_z b1 = byte_z b2 → b1 = b2.
Proof. intros E. by rewrite <- (z_byte_z b1), E, z_byte_z. Qed.

#[export] Instance byte_z_Inj : Inj (=) (=) byte_z := byte_z_inj.

(** ** Machine integers

    Go integers wrap: [uintw] is the value modulo [2^w], [intw] the signed
    representative. [int] is 64 bits wide on the supported platforms. *)

Definition wrapU (w z : Z) : Z := z mod 2 ^ w.
Definition wrapS (w z : Z) : Z := (z + 2 ^ (w - 1)) mod 2 ^ w - 2 ^ (w - 1).

Definition u8 (z : Z) : Z := wrapU 8 z.
Definition u32 (z : Z) : Z := wrapU 32 z.
Definition u64 (z : Z) : Z := wrapU 64 z.
Definition i64 (z : Z) : Z := wrapS 64 z.

Lemma wrapU_bound w z : (0 ≤ w)%Z → (0 ≤ wrapU w z < 2 ^ w)%Z.
Proof. intros. unfold wrapU. apply Z.mod_pos_bound. lia. Qed.

Lemma wrapU_small w z : (0 ≤ z < 2 ^ w)%Z → wrapU w z = z.
Proof. intros. unfold wrapU. by apply Z.mod_small. Qed.

Lemma wrapS_small w z :
  (1 ≤ w)%Z → (- 2 ^ (w - 1) ≤ z < 2 ^ (w - 1))%Z → wrapS w z = z.
Proof.
  intros Hw Hz. unfold wrapS.
  assert (2 ^ w = 2 * 2 ^ (w - 1))%Z as E.
  { rewrite <- Z.pow_succ_r by lia. f_equal. lia. }
  rewrite Z.mod_small by lia. lia.
Qed.

Lemma u32_bound z : (0 ≤ u32 z < 2 ^ 32)%Z.
Proof. apply wrapU_bound. lia. Qed.
Lemma u64_bound z : (0 ≤ u64 z < 2 ^ 64)%Z.
Proof. apply wrapU_bound. lia. Qed.
Lemma u32_small z : (0 ≤ z < 2 ^ 32)%Z → u32 z = z.
Proof. apply wrapU_small. Qed.
Lemma u64_small z : (0 ≤ z < 2 ^ 64)%Z → u64 z = z.
Proof. apply wrapU_small. Qed.
Lemma i64_small z : (- 2 ^ 63 ≤ z < 2 ^ 63)%Z → i64 z = z.
Proof. intros. apply wrapS_small; [lia|]. done. Qed.
Lemma i64_congr x y : i64 (i64 x + y)%Z = i64 (x + y)%Z.
Proof.
  unfold i64, wrapS. f_equal.
  replace ((x + 2 ^ (64 - 1)) mod 2 ^ 64 - 2 ^ (64 - 1) + y + 2 ^ (64 - 1))%Z with
    ((x + 2 ^ (64 - 1)) mod 2 ^ 64 + y)%Z by lia.
  rewrite Zplus_mod_idemp_l. f_equal. lia.
Qed.

(** The sum of a list. *)
Definition zsum (l : list Z) : Z := foldr Z.add 0%Z l.
Lemma zsum_app l1 l2 : zsum (l1 ++ l2) = (zsum l1 + zsum l2)%Z.
Proof. induction l1 as [|z l1 IH]; cbn; [done|]. unfold zsum in IH. rewrite IH. unfold zsum. lia. Qed.

(** ** Outcomes of a call

    A Go call returns a value, returns an error, or panics (an index or slice
    out of range, a nil dereference). *)

Inductive res (E A : Type) : Type :=
  | Ok (a : A)
  | Err (e : E)
  | Panic.
Arguments Ok {E A} a.
Arguments Err {E A} e.
Arguments Panic {E A}.

#[export] Instance res_mret {E} : MRet (res E) := λ A, Ok.
#[export] Instance res_mbind {E} : MBind (res E) := λ A B f m,
  match m with Ok a => f a | Err e => Err e | Panic => Panic end.


(** [e.Wrap]: the same outcome under another error type. *)
Definition res_map_err {E E' A} (f : E → E') (m : res E A) : res E' A :=
  match m with Ok a => Ok a | Err e => Err (f e) | Panic => Panic end.

Definition res_of_option {E A} (e : E) (o : option A) : res E A :=
  match o with Some a => Ok a | None => Err e end.

Lemma res_bind_Ok {E A B} (m : res E A) (f : A → res E B) b :
  m ≫= f = Ok b ↔ ∃ a, m = Ok a ∧ f a = Ok b.
Proof. destruct m; simpl; naive_solver. Qed.

(** Go's [if cond { return err }] in a chain of guards. *)
Definition guard_err {E} (cond : bool) (e : E) : res E unit :=
  if cond then Err e else Ok ().

Lemma guard_err_Ok {E} c (e : E) : guard_err c e = Ok () ↔ c = false.
Proof. destruct c; simpl; naive_solver. Qed.

(** Calls that cannot panic, step by step. *)
Lemma bind_no_panic {E A B} (m : res E A) (f : A → res E B) :
  m ≠ Panic → (∀ a, m = Ok a → f a ≠ Panic) → m ≫= f ≠ Panic.
Proof. destruct m; simpl; auto. Qed.
Lemma guard_no_panic {E} c (e : E) : guard_err c e ≠ Panic.
Proof. by destruct c. Qed.
Lemma option_no_panic {E A} (e : E) (o : option A) : res_of_option e o ≠ Panic.
Proof. by destruct o. Qed.
Lemma map_err_no_panic {E E' A} (f : E → E') (m : res E A) : m ≠ Panic → res_map_err f m ≠ Panic.
Proof. by destruct m. Qed.
Lemma Ok_no_panic {E A} (a : A) : Ok (E:=E) a ≠ Panic.
Proof. done. Qed.
Lemma Err_no_panic {E A} (e : E) : Err (A:=A) e ≠ Panic.
Proof. done. Qed.

(** ** Automation *)

Create HintDb anvil discriminated.
Create Rewrite HintDb anvil_list.
#[export] Hint Rewrite @length_app @length_take @length_drop @length_map
  @length_rev : anvil_list.
#[export] Hint Resolve bind_no_panic guard_no_panic option_no_panic map_err_no_panic
  Ok_no_panic Err_no_panic : anvil.
#[export] Hint Resolve byte_z_bound u32_bound u64_bound : anvil.

(** Case analysis on every [match]/[if] of the hypotheses and the goal. *)
Ltac case_all :=
  repeat first
    [ progress simplify_eq/=
    | case_decide
    | case_match ].

(** A chain of calls none of which panics. *)
Ltac no_panic :=
  repeat first
    [ apply Ok_no_panic | apply Err_no_panic | apply guard_no_panic | apply option_no_panic
    | apply map_err_no_panic | apply bind_no_panic; [|intros ? ?] | case_match ];
  eauto with anvil.

(** Split a hypothesis [m ≫= f = Ok b] of the [res] monad into its steps. *)
Ltac res_inv :=
  repeat match goal with
  | H : (_ ≫= _) = Ok _ |- _ =>
      let x := fresh "a" in apply res_bind_Ok in H as (x & ? & H)
  | H : guard_err _ _ = Ok _ |- _ =>
      match type of H with guard_err _ _ = Ok ?u => destruct u end;
      apply guard_err_Ok in H
  | H : res_of_option _ ?o = Ok _ |- _ =>
      destruct o eqn:?; simpl in H; [|discriminate H]; simplify_eq
  | H : Ok _ = Ok _ |- _ => injection H as H
  | H : Err _ = Ok _ |- _ => discriminate H
  | H : Panic = Ok _ |- _ => discriminate H
  end.

(** A decidable closed proposition, by evaluation. *)
Ltac eval_true := apply (bool_decide_unpack _); vm_compute; exact I.

(** A run named by its own outcome, so that its evaluation checks the outcome
    alone and not the state. *)
Lemma run_ok {A B} (p : A * B) b : p.2 = b → p = (p.1, b).
Proof. by destruct p; simpl; intros ->. Qed.

Lemma res_is_ok {E A} (d : A) (r : res E A) :
  match r with Ok _ => true | _ => false end = true →
  r = Ok (match r with Ok s => s | _ => d end).
Proof. by destruct r. Qed.

Lemma run3_ok {A B C} (p : A * B * C) c : p.2 = c → p = (p.1.1, p.1.2, c).
Proof. by destruct p as [[] ?]; simpl; intros ->. Qed.

(** ** Generic list lemmas *)

Lemma filter_true {A} (P : A → Prop) `{!∀ x, Decision (P x)} (l : list A) :
  (∀ x, x ∈ l → P x) → filter P l = l.
Proof.
  induction l as [|a l IH]; intros HP; [done|].
  rewrite filter_cons_True by (apply HP; left).
  f_equal. apply IH. intros x Hx. apply HP. by right.
Qed.

Lemma rev_list_case {A} (l : list A) : l = [] ∨ ∃ l' x, l = l' ++ [x].
Proof. induction l using rev_ind; eauto. Qed.

Lemma foldl_snoc {A B} (f : A → B → A) a l x :
  foldl f a (l ++ [x]) = f (foldl f a l) x.
Proof. by rewrite foldl_app. Qed.

Lemma prefix_of_app_split (p q k : bytes) :
  p `prefix_of` k → q `prefix_of` k → p `prefix_of` q ∨ q `prefix_of` p.
Proof. apply prefix_weak_total. Qed.
