(* ===== verification/GoStd.v ===== *)
(** * The Go standard library functions the node uses on bytes and strings

    Hexadecimal ([encoding/hex]), decimal ([strconv]), byte order
    ([encoding/binary]), searching and prefixes ([strings], [bytes]), and the
    contract of [sort.Slice]. *)

From Stdlib Require Import Init.Byte Strings.Byte Strings.String DecimalString DecimalZ Lia ZArith.
From stdpp Require Import base gmap sets list strings numbers sorting fin_maps.
From S2P Require Import Prelude.
Open Scope Z_scope.

(** ** encoding/hex *)

Definition hex_digit (n : Z) : byte :=
  if n <? 10 then z_byte (48 + n) else z_byte (87 + n).

Definition hex_encode (b : bytes) : bytes :=
  b ≫= λ x, [hex_digit (byte_z x / 16); hex_digit (byte_z x mod 16)].

Definition hex_value (c : byte) : option Z :=
  let z := byte_z c in
  if (48 <=? z) && (z <=? 57) then Some (z - 48)
  else if (97 <=? z) && (z <=? 102) then Some (z - 87)
  else if (65 <=? z) && (z <=? 70) then Some (z - 55)
  else None.

(** [hex.DecodeString]: the bytes decoded before the first problem, and
    whether there was none. *)
Fixpoint hex_decode_string (s : bytes) : bytes * bool :=
  match s with
  | [] => ([], true)
  | [_] => ([], false)
  | p :: q :: s' =>
      match hex_value p, hex_value q with
      | Some a, Some b =>
          let '(r, ok) := hex_decode_string s' in (z_byte (16 * a + b) :: r, ok)
      | _, _ => ([], false)
      end
  end.

Definition hex_decode (s : bytes) : option bytes :=
  match hex_decode_string s with (r, true) => Some r | (_, false) => None end.

Lemma hex_value_digit n : 0 ≤ n < 16 → hex_value (hex_digit n) = Some n.
Proof.
  intros Hn.
  assert (∃ k : nat, n = Z.of_nat k ∧ (k < 16)%nat) as (k & -> & Hk)
    by (exists (Z.to_nat n); lia).
  do 16 (destruct k as [|k]; [reflexivity|]). lia.
Qed.

Lemma hex_decode_encode b : hex_decode_string (hex_encode b) = (b, true).
Proof.
  induction b as [|x b IH]; [done|]. cbn [hex_encode mbind list_bind app].
  change (hex_decode_string
    (hex_digit (byte_z x / 16) :: hex_digit (byte_z x mod 16) :: hex_encode b)
    = (x :: b, true)).
  pose proof (byte_z_bound x).
  cbn [hex_decode_string].
  pose proof (Z.mod_pos_bound (byte_z x) 16 ltac:(lia)).
  assert (0 ≤ byte_z x / 16 < 16)
    by (split; [apply Z.div_pos; lia|apply Z.div_lt_upper_bound; lia]).
  rewrite !hex_value_digit by done.
  rewrite IH. do 2 f_equal.
  rewrite <- Z.div_mod by lia. apply z_byte_z.
Qed.

Lemma hex_decode_encode_Some b : hex_decode (hex_encode b) = Some b.
Proof. unfold hex_decode. by rewrite hex_decode_encode. Qed.

#[export] Instance hex_encode_inj : Inj (=) (=) hex_encode.
Proof.
  intros b1 b2 E. apply (f_equal hex_decode_string) in E.
  rewrite !hex_decode_encode in E. by simplify_eq.
Qed.

Lemma length_hex_encode b : length (hex_encode b) = (2 * length b)%nat.
Proof.
  induction b as [|x b IH]; [done|].
  change (hex_encode (x :: b)) with
    (hex_digit (byte_z x / 16) :: hex_digit (byte_z x mod 16) :: hex_encode b).
  cbn [length]. rewrite IH. lia.
Qed.

Lemma hex_decode_length s b : hex_decode s = Some b → length s = (2 * length b)%nat.
Proof.
  unfold hex_decode. destruct (hex_decode_string s) as [r ok] eqn:E.
  destruct ok; [|done]. intros [= ->]. revert b E.
  induction s as [s IH] using (induction_ltof1 _ length); unfold ltof in IH.
  intros b E. destruct s as [|p [|q s]]; simplify_eq/=; [done|].
  case_match; [|done]. case_match; [|done].
  destruct (hex_decode_string s) as [r' ok'] eqn:E'. simplify_eq/=.
  rewrite (IH s ltac:(simpl; lia) r' E'). lia.
Qed.

(** ** strconv *)

(** [strconv.Itoa], [strconv.FormatInt(_, 10)] and [%d]. *)
Definition itoa (z : Z) : bytes := lit (NilZero.string_of_int (Z.to_int z)).

#[export] Instance lit_inj : Inj (=) (=) lit.
Proof.
  intros s1 s2 E. rewrite <- (string_of_list_byte_of_string s1).
  unfold lit in E. rewrite E. apply string_of_list_byte_of_string.
Qed.

Lemma to_int_non_nil z :
  Z.to_int z ≠ Decimal.Pos Decimal.Nil ∧ Z.to_int z ≠ Decimal.Neg Decimal.Nil.
Proof.
  split; intros E.
  - pose proof (DecimalZ.of_to z) as H. rewrite E in H. cbn in H. subst z. discriminate E.
  - pose proof (DecimalZ.of_to z) as H. rewrite E in H. cbn in H. subst z. discriminate E.
Qed.

#[export] Instance itoa_inj : Inj (=) (=) itoa.
Proof.
  intros x y E. apply (inj lit) in E.
  apply (f_equal NilZero.int_of_string) in E.
  destruct (to_int_non_nil x), (to_int_non_nil y).
  rewrite !NilZero.isi in E by done.
  rewrite <- (DecimalZ.of_to x), <- (DecimalZ.of_to y). congruence.
Qed.

Definition digit_char (c : byte) : Prop := 48 ≤ byte_z c ≤ 57.

#[export] Instance digit_char_dec c : Decision (digit_char c).
Proof. unfold digit_char. apply _. Defined.

Lemma uint_digits d : Forall digit_char (lit (NilEmpty.string_of_uint d)).
Proof.
  induction d; [constructor|..];
    (apply Forall_cons_iff; split; [eval_true|exact IHd]).
Qed.

(** A decimal number is written with digits, after an optional minus sign. *)
Lemma itoa_chars z c : c ∈ itoa z → c = x2d ∨ digit_char c.
Proof.
  assert (∀ d c, c ∈ lit (NilZero.string_of_uint d) → digit_char c) as Hu.
  { intros d x Hx. assert (Forall digit_char (lit (NilZero.string_of_uint d))) as HF.
    { destruct d; try apply uint_digits.
      apply Forall_singleton. eval_true. }
    by eapply Forall_forall in Hx. }
  unfold itoa. destruct (Z.to_int z) as [d|d].
  - intros Hc. right. by eapply Hu.
  - change (lit (NilZero.string_of_int (Decimal.Neg d)))
      with (x2d :: lit (NilZero.string_of_uint d)).
    intros [->|Hc]%elem_of_cons; [by left|right; by eapply Hu].
Qed.

Lemma itoa_nonempty z : itoa z ≠ [].
Proof. unfold itoa. destruct (Z.to_int z) as [[]|d]; discriminate. Qed.

Lemma itoa_no_colon z : x3a ∉ itoa z.
Proof. intros [E|E]%itoa_chars; [discriminate E|]. unfold digit_char in E. change (byte_z x3a) with 58 in E. lia. Qed.

(** What stands after the last separator. *)
Lemma app_last_sep_inj {A} (c : A) a1 b1 a2 b2 :
  c ∉ b1 → c ∉ b2 → a1 ++ c :: b1 = a2 ++ c :: b2 → a1 = a2 ∧ b1 = b2.
Proof.
  intros H1 H2 [(k & -> & E)|(k & -> & E)]%app_eq_inv; destruct k as [|x k]; simplify_eq/=;
    rewrite ?app_nil_r; try done; exfalso; set_solver.
Qed.

(** ** encoding/binary *)

Definition put_uint32_be (z : Z) : bytes :=
  [z_byte (z / 2 ^ 24); z_byte (z / 2 ^ 16); z_byte (z / 2 ^ 8); z_byte z].

(** [BigEndian.Uint32] panics on fewer than four bytes. *)
Definition uint32_be {E} (b : bytes) : res E Z :=
  match b with
  | b0 :: b1 :: b2 :: b3 :: _ =>
      Ok (byte_z b0 * 2 ^ 24 + byte_z b1 * 2 ^ 16 + byte_z b2 * 2 ^ 8 + byte_z b3)
  | _ => Panic
  end.

Lemma uint32_be_put {E} z : 0 ≤ z < 2 ^ 32 → uint32_be (E:=E) (put_uint32_be z) = Ok z.
Proof.
  intros Hz. unfold uint32_be, put_uint32_be. f_equal. rewrite !byte_z_z.
  pose proof (Z.div_mod z 256 ltac:(lia)).
  pose proof (Z.div_mod (z / 256) 256 ltac:(lia)).
  pose proof (Z.div_mod (z / 256 / 256) 256 ltac:(lia)).
  change (2 ^ 24) with (256 * 256 * 256). change (2 ^ 16) with (256 * 256).
  change (2 ^ 8) with 256. rewrite <- !Z.div_div by lia.
  rewrite (Z.mod_small (z / 256 / 256 / 256)); [lia|].
  rewrite !Z.div_div by lia. split; [apply Z.div_pos; lia|].
  apply Z.div_lt_upper_bound; lia.
Qed.

Lemma put_uint32_be_inj x y :
  0 ≤ x < 2 ^ 32 → 0 ≤ y < 2 ^ 32 → put_uint32_be x = put_uint32_be y → x = y.
Proof.
  intros Hx Hy E. pose proof (uint32_be_put (E:=unit) x Hx) as H1.
  rewrite E, uint32_be_put in H1 by done. by injection H1.
Qed.

(** Little-endian and big-endian numbers of any length. *)
Fixpoint le_bytes_z (b : bytes) : Z :=
  match b with [] => 0 | x :: b' => byte_z x + 256 * le_bytes_z b' end.
Definition be_bytes_z (b : bytes) : Z := le_bytes_z (rev b).

Fixpoint z_le_bytes (n : nat) (z : Z) : bytes :=
  match n with O => [] | S n' => z_byte z :: z_le_bytes n' (z / 256) end.

Lemma le_bytes_z_bound b : 0 ≤ le_bytes_z b < 256 ^ Z.of_nat (length b).
Proof.
  induction b as [|x b IH]; [simpl; lia|].
  cbn [le_bytes_z length]. rewrite Nat2Z.inj_succ, Z.pow_succ_r by lia.
  pose proof (byte_z_bound x). nia.
Qed.

Lemma le_bytes_z_le n z : le_bytes_z (z_le_bytes n z) = z mod 256 ^ Z.of_nat n.
Proof.
  revert z. induction n as [|n IH]; intros z; [cbn; by rewrite Z.mod_1_r|].
  cbn [z_le_bytes le_bytes_z]. rewrite IH, byte_z_z, Nat2Z.inj_succ, Z.pow_succ_r by lia.
  by rewrite Z.rem_mul_r by lia.
Qed.

Lemma z_le_bytes_le b : z_le_bytes (length b) (le_bytes_z b) = b.
Proof.
  induction b as [|x b IH]; [done|]. cbn [length le_bytes_z z_le_bytes].
  pose proof (byte_z_bound x). f_equal.
  - apply byte_z_inj. rewrite byte_z_z.
    rewrite Z.add_comm, (Z.mul_comm 256), Z.add_comm, Z.mod_add by lia.
    by rewrite Z.mod_small.
  - rewrite Z.add_comm, (Z.mul_comm 256), Z.div_add_l by lia.
    rewrite (Z.div_small (byte_z x)) by lia. by rewrite Z.add_0_r.
Qed.

Lemma length_z_le_bytes n z : length (z_le_bytes n z) = n.
Proof. revert z. induction n; intros; simpl; auto. Qed.

(** ** strings and bytes *)

Definition has_prefix (s p : bytes) : bool := bool_decide (p `prefix_of` s).

(** [bytes.Index]: the offset of the first occurrence of [sep]. *)
Fixpoint bytes_index (s sep : bytes) : option nat :=
  if has_prefix s sep then Some 0%nat
  else match s with [] => None | _ :: s' => S <$> bytes_index s' sep end.

(** [strings.SplitN(s, sep, 2)] with a one-byte separator. *)
Fixpoint split2 (c : byte) (s : bytes) : bytes * option bytes :=
  match s with
  | [] => ([], None)
  | x :: s' =>
      if decide (x = c) then ([], Some s')
      else let '(a, r) := split2 c s' in (x :: a, r)
  end.

Definition is_ascii (s : bytes) : bool := forallb (λ c, byte_z c <? 128) s.

Definition lower_byte (c : byte) : byte :=
  if (65 <=? byte_z c) && (byte_z c <=? 90) then z_byte (byte_z c + 32) else c.

(** [strings.ToLower]: byte-wise on ASCII; on other text the Unicode tables
    decide, which are the argument [uni]. *)
Definition to_lower (uni : bytes → bytes) (s : bytes) : bytes :=
  if is_ascii s then lower_byte <$> s else uni s.

Definition is_space (c : byte) : bool :=
  let z := byte_z c in (z =? 32) || ((9 <=? z) && (z <=? 13)).

Fixpoint trim_left (s : bytes) : bytes :=
  match s with [] => [] | c :: s' => if is_space c then trim_left s' else s end.

(** [strings.TrimSpace], likewise. *)
Definition trim_space (uni : bytes → bytes) (s : bytes) : bytes :=
  if is_ascii s then rev (trim_left (rev (trim_left s))) else uni s.

Lemma split2_app c a b : c ∉ a → split2 c (a ++ [c] ++ b) = (a, Some b).
Proof.
  induction a as [|x a IH]; intros Hc; cbn [app split2]; [by rewrite decide_True|].
  apply not_elem_of_cons in Hc as [Hx Hc]. cbn [app] in IH. by rewrite decide_False, IH by auto.
Qed.

Lemma bytes_index_sound s sep n :
  bytes_index s sep = Some n → sep `prefix_of` drop n s.
Proof.
  revert n. induction s as [|x s IH]; intros n; simpl.
  - unfold has_prefix. case_bool_decide; [|done]. by intros [= <-].
  - unfold has_prefix. case_bool_decide; [by intros [= <-]|].
    destruct (bytes_index s sep) as [m|]; [|done]. intros [= <-]. by apply IH.
Qed.

(** ** sort.Slice

    The documentation promises a sorted permutation and nothing about the
    order of elements that compare equal. *)

Class SortSlice := sort_slice : ∀ {A}, (A → A → bool) → list A → list A.

Definition not_less {A} (less : A → A → bool) : relation A := λ x y, less y x = false.

(** Sorted, when [less] is a strict weak order. *)
Class SortSliceLaws `{SortSlice} : Prop := {
  sort_slice_perm {A} (less : A → A → bool) l : sort_slice less l ≡ₚ l;
  sort_slice_weak {A} (less : A → A → bool) l :
    Transitive (not_less less) → Total (not_less less) → StronglySorted (not_less less) (sort_slice less l)
}.

(** Newest first, by a number. *)
Lemma sort_slice_sorted `{SortSliceLaws} {A} (f : A → Z) l :
  StronglySorted (λ x y, f y ≤ f x) (sort_slice (λ x y, f y <? f x) l).
Proof.
  set (R := not_less (λ x y, f y <? f x)).
  assert (∀ x y, R x y ↔ f y ≤ f x) as HR.
  { intros x y. unfold R, not_less. rewrite Z.ltb_ge. done. }
  assert (Transitive R) as HT by (intros x y z; rewrite !HR; lia).
  assert (Total R) as HO by (intros x y; rewrite !HR; lia).
  pose proof (sort_slice_weak _ l HT HO) as Hs. induction Hs as [|a l' Hs IH Hall]; constructor; [done|].
  eapply Forall_impl; [exact Hall|]. intros y. apply HR.
Qed.

(** Merge sort meets the contract. *)
#[export] Instance merge_sort_slice : SortSlice := λ A less l,
  merge_sort (not_less less) (H := λ x y, decide (less y x = false)) l.

#[export] Instance merge_sort_slice_laws : SortSliceLaws.
Proof.
  split.
  - intros. apply merge_sort_Permutation.
  - intros A less l HT HO. by apply StronglySorted_merge_sort.
Qed.

(** ** time

    A time is a number of nanoseconds; the zero [time.Time] is [None] where the
    code tests for it. *)

(** [time.Since] and [Time.Sub] saturate at the ends of [time.Duration]. *)
Definition since (now t : Z) : Z := Z.max (- 2 ^ 63) (Z.min (2 ^ 63 - 1) (now - t)).

Lemma since_refl now : since now now = 0.
Proof. unfold since. rewrite Z.sub_diag. done. Qed.

Definition second : Z := 1000000000.
Definition minute : Z := 60 * second.
Definition hour : Z := 60 * minute.

(** [Time.Unix]. *)
Definition unix (now : Z) : Z := now / second.

(** [Format(time.RFC3339)] in UTC. *)
Definition pad_digits (width : nat) (n : Z) : bytes :=
  let d := itoa n in replicate (width - length d) x30 ++ d.

(** Year, month and day of a number of days since 1970-01-01: eras of 400
    years that start on March 1. *)
Definition civil (days : Z) : Z * Z * Z :=
  let z := days + 719468 in
  let era := z / 146097 in
  let doe := z - era * 146097 in
  let yoe := (doe - doe / 1460 + doe / 36524 - doe / 146096) / 365 in
  let doy := doe - (365 * yoe + yoe / 4 - yoe / 100) in
  let mp := (5 * doy + 2) / 153 in
  let m := if mp <? 10 then mp + 3 else mp - 9 in
  (yoe + era * 400 + (if m <=? 2 then 1 else 0), m, doy - (153 * mp + 2) / 5 + 1).

Definition rfc3339 (t : Z) : bytes :=
  let secs := t / second in
  let '(y, mo, d) := civil (secs / 86400) in
  let s := secs mod 86400 in
  pad_digits 4 y ++ lit "-" ++ pad_digits 2 mo ++ lit "-" ++ pad_digits 2 d ++ lit "T" ++
  pad_digits 2 (s / 3600) ++ lit ":" ++ pad_digits 2 (s / 60 mod 60) ++ lit ":" ++
  pad_digits 2 (s mod 60) ++ lit "Z".

Example rfc3339_genesis : rfc3339 (1231006505 * second) = lit "2009-01-03T18:15:05Z".
Proof. vm_compute. reflexivity. Qed.

(** ** Map iteration

    Go visits the entries of a map in no particular order: [map_order] is any
    choice of one. *)
Class MapOrder := map_order : ∀ {A : Type}, gmap bytes A → list (bytes * A).
Class MapOrderLaws `{MapOrder} : Prop := {
  map_order_perm {A} (m : gmap bytes A) : map_order m ≡ₚ map_to_list m
}.
#[export] Instance key_map_order : MapOrder := λ A m, map_to_list m.
#[export] Instance key_map_order_laws : MapOrderLaws.
Proof. split. intros. reflexivity. Qed.

Lemma elem_of_map_order `{MapOrderLaws} {A} (m : gmap bytes A) k x :
  (k, x) ∈ map_order m ↔ m !! k = Some x.
Proof. by rewrite map_order_perm, elem_of_map_to_list. Qed.

(** The same for a set of strings. *)
Class SetOrder := set_order : gset bytes → list bytes.
Class SetOrderLaws `{SetOrder} : Prop := { set_order_perm s : set_order s ≡ₚ elements s }.
#[export] Instance elements_order : SetOrder := elements.
#[export] Instance elements_order_laws : SetOrderLaws.
Proof. by split. Qed.

(** ** Bit operations *)

Lemma lor_shiftl_add a x k : 0 ≤ k → 0 ≤ x < 2 ^ k → Z.lor (Z.shiftl a k) x = a * 2 ^ k + x.
Proof.
  intros Hk Hx.
  assert (Z.land (Z.shiftl a k) x = 0) as Hl.
  { apply Z.bits_inj'. intros n Hn. rewrite Z.land_spec, Z.bits_0.
    destruct (Z.lt_ge_cases n k).
    - by rewrite Z.shiftl_spec_low.
    - rewrite <- (Z.mod_small x (2 ^ k)), Z.mod_pow2_bits_high by lia.
      apply andb_false_r. }
  rewrite <- Z.shiftl_mul_pow2 by done.
  rewrite Z.add_nocarry_lxor, Z.lxor_lor by done. done.
Qed.

Lemma land_ones_mod a k : 0 ≤ k → Z.land a (2 ^ k - 1) = a mod 2 ^ k.
Proof. intros. rewrite <- Z.land_ones by done. by rewrite Z.ones_equiv, Z.sub_1_r. Qed.

(** [x.Bytes()]: the absolute value, big-endian, without leading zeros. *)
Definition big_len (z : Z) : nat :=
  if z =? 0 then O else Z.to_nat (Z.log2 (Z.abs z) / 8 + 1).
Definition big_bytes (z : Z) : bytes := rev (z_le_bytes (big_len z) (Z.abs z)).

Lemma big_len_spec z n :
  256 ^ Z.of_nat n ≤ Z.abs z < 256 ^ Z.of_nat (S n) → big_len z = S n.
Proof.
  intros Hz. unfold big_len.
  assert (0 < 256 ^ Z.of_nat n) by (apply Z.pow_pos_nonneg; lia).
  destruct (Z.eqb_spec z 0) as [->|Hnz]; [lia|].
  assert (Z.log2 (Z.abs z) / 8 = Z.of_nat n) as ->; [|lia].
  assert (∀ k, 0 ≤ k → 256 ^ k = 2 ^ (8 * k)) as E
    by (intros k Hk; rewrite Z.pow_mul_r by lia; done).
  rewrite !E in Hz by lia.
  assert (8 * Z.of_nat n ≤ Z.log2 (Z.abs z)) by (apply Z.log2_le_pow2; lia).
  assert (Z.log2 (Z.abs z) < 8 * Z.of_nat (S n)) by (apply Z.log2_lt_pow2; lia).
  pose proof (Z.div_mod (Z.log2 (Z.abs z)) 8 ltac:(lia)).
  pose proof (Z.mod_pos_bound (Z.log2 (Z.abs z)) 8 ltac:(lia)). lia.
Qed.

Lemma big_len_bound z : Z.abs z < 256 ^ Z.of_nat (big_len z).
Proof.
  unfold big_len. destruct (Z.eqb_spec z 0) as [->|Hnz]; [done|].
  pose proof (Z.log2_nonneg (Z.abs z)).
  assert (0 ≤ Z.log2 (Z.abs z) / 8) by (apply Z.div_pos; lia).
  rewrite Z2Nat.id by lia. change 256 with (2 ^ 8). rewrite <- Z.pow_mul_r by lia.
  apply Z.log2_lt_pow2; [lia|].
  pose proof (Z.div_mod (Z.log2 (Z.abs z)) 8 ltac:(lia)).
  pose proof (Z.mod_pos_bound (Z.log2 (Z.abs z)) 8 ltac:(lia)). lia.
Qed.

(** [new(big.Int).SetBytes(x.Bytes())] is the absolute value. *)
Lemma be_bytes_big z : be_bytes_z (big_bytes z) = Z.abs z.
Proof.
  unfold be_bytes_z, big_bytes. rewrite rev_involutive, le_bytes_z_le.
  apply Z.mod_small. pose proof (big_len_bound z). lia.
Qed.

(** The byte at position [i] of a little-endian number. *)
Lemma nth_z_le_bytes n z i :
  (i < n)%nat → nth i (z_le_bytes n z) x00 = z_byte (z / 256 ^ Z.of_nat i).
Proof.
  revert z i. induction n as [|n IH]; intros z i Hi; [lia|].
  destruct i as [|i]; cbn [z_le_bytes nth]; [by rewrite Z.div_1_r|].
  rewrite IH, Nat2Z.inj_succ, Z.pow_succ_r, Z.div_div by lia. done.
Qed.

#[global] Opaque itoa.
