(* ===== verification/Sha256.v ===== *)
(** * SHA-256 ([crypto/sha256])

    An executable definition of the hash function of FIPS 180-4, so that every
    digest, storage key and deduplication hash of the node evaluates on
    concrete input. Words are 32-bit numbers in [Z]. *)

From Stdlib Require Import Init.Byte Strings.Byte Strings.String Lia ZArith.
From stdpp Require Import base gmap sets list strings numbers.
From S2P Require Import Prelude GoStd.
Open Scope Z_scope.

Definition rotr (n x : Z) : Z := Z.lor (Z.shiftr x n) (u32 (Z.shiftl x (32 - n))).
Definition xor3 (a b c : Z) : Z := Z.lxor a (Z.lxor b c).

Definition big_sigma0 (x : Z) : Z := xor3 (rotr 2 x) (rotr 13 x) (rotr 22 x).
Definition big_sigma1 (x : Z) : Z := xor3 (rotr 6 x) (rotr 11 x) (rotr 25 x).
Definition small_sigma0 (x : Z) : Z := xor3 (rotr 7 x) (rotr 18 x) (Z.shiftr x 3).
Definition small_sigma1 (x : Z) : Z := xor3 (rotr 17 x) (rotr 19 x) (Z.shiftr x 10).
Definition ch (x y z : Z) : Z := Z.lxor (Z.land x y) (Z.land (Z.lxor x (2 ^ 32 - 1)) z).
Definition maj (x y z : Z) : Z := xor3 (Z.land x y) (Z.land x z) (Z.land y z).

(** The constants of the standard are the first 32 bits of the fractional parts
    of the cube roots (rounds) and square roots (initial state) of the first
    primes. [int_root e n] is the integer part of the [e]-th root of [n]. *)
Fixpoint root_bits (e n : Z) (k : nat) (r : Z) : Z :=
  match k with
  | O => r
  | S k' =>
      let r' := r + 2 ^ Z.of_nat k' in
      root_bits e n k' (if r' ^ e <=? n then r' else r)
  end.
Definition int_root (e n : Z) : Z := root_bits e n 40 0.
Definition frac_root (e p : Z) : Z := u32 (int_root e (p * 2 ^ (32 * e))).

Definition prime (p : Z) : bool :=
  forallb (λ d, negb (p mod Z.of_nat d =? 0)) (seq 2 (Z.to_nat (p - 2))).
Definition primes64 : list Z := Eval vm_compute in
  filter (λ p, prime p) (Z.of_nat <$> seq 2 310).

Definition round_constants : list Z := Eval vm_compute in frac_root 3 <$> primes64.

Record sha_state := ShaState { sa : Z; sb : Z; sc : Z; sd : Z; se : Z; sf : Z; sg : Z; sh : Z }.

Definition initial_state : sha_state := Eval vm_compute in
  let h i := frac_root 2 (nth i primes64 0) in
  ShaState (h 0%nat) (h 1%nat) (h 2%nat) (h 3%nat) (h 4%nat) (h 5%nat) (h 6%nat) (h 7%nat).

(** One round, with round constant [k] and message word [w]. *)
Definition sha_round (s : sha_state) (k w : Z) : sha_state :=
  let t1 := u32 (sh s + big_sigma1 (se s) + ch (se s) (sf s) (sg s) + k + w) in
  let t2 := u32 (big_sigma0 (sa s) + maj (sa s) (sb s) (sc s)) in
  ShaState (u32 (t1 + t2)) (sa s) (sb s) (sc s) (u32 (sd s + t1)) (se s) (sf s) (sg s).

(** The message schedule, newest word first, extended by [n] words. *)
Fixpoint extend_schedule (n : nat) (w : list Z) : list Z :=
  match n with
  | O => w
  | S n' =>
      let x := u32 (small_sigma1 (nth 1 w 0) + nth 6 w 0 + small_sigma0 (nth 14 w 0) + nth 15 w 0) in
      extend_schedule n' (x :: w)
  end.

Fixpoint block_words (b : bytes) : list Z :=
  match b with
  | b0 :: b1 :: b2 :: b3 :: b' => be_bytes_z [b0; b1; b2; b3] :: block_words b'
  | _ => []
  end.

Definition add_state (s t : sha_state) : sha_state :=
  ShaState (u32 (sa s + sa t)) (u32 (sb s + sb t)) (u32 (sc s + sc t)) (u32 (sd s + sd t))
           (u32 (se s + se t)) (u32 (sf s + sf t)) (u32 (sg s + sg t)) (u32 (sh s + sh t)).

Definition compress (s : sha_state) (block : bytes) : sha_state :=
  let ws := rev (extend_schedule 48 (rev (block_words block))) in
  add_state s (foldl (λ st kw, sha_round st kw.1 kw.2) s (combine round_constants ws)).

Definition pad (m : bytes) : bytes :=
  let l := Z.of_nat (length m) in
  m ++ x80 :: replicate (Z.to_nat ((55 - l) mod 64)) x00 ++ rev (z_le_bytes 8 (8 * l)).

Fixpoint hash_blocks (n : nat) (s : sha_state) (m : bytes) : sha_state :=
  match n with
  | O => s
  | S n' => hash_blocks n' (compress s (take 64 m)) (drop 64 m)
  end.

(** [sha256.Sum256]. *)
Definition sum256 (m : bytes) : bytes :=
  let p := pad m in
  let s := hash_blocks (length p / 64) initial_state p in
  [sa s; sb s; sc s; sd s; se s; sf s; sg s; sh s] ≫= put_uint32_be.

Lemma length_sum256 m : length (sum256 m) = 32%nat.
Proof. reflexivity. Qed.

(** The test vectors of the standard. *)
Example sum256_abc :
  hex_encode (sum256 (lit "abc"))
  = lit "ba7816bf8f01cfea414140de5dae2223b00361a396177a9cb410ff61f20015ad".
Proof. vm_compute. reflexivity. Qed.

Example sum256_empty :
  hex_encode (sum256 [])
  = lit "e3b0c44298fc1c149afbf4c8996fb92427ae41e4649b934ca495991b7852b855".
Proof. vm_compute. reflexivity. Qed.

Example sum256_two_blocks :
  hex_encode (sum256 (lit "abcdbcdecdefdefgefghfghighijhijkijkljklmklmnlmnomnopnopq"))
  = lit "248d6a61d20638b8e5c026930c3e6039a33ce45964ff2167f6ecedd419db06c1".
Proof. vm_compute. reflexivity. Qed.

#[global] Opaque sum256.
