(* ===== verification/LevelDB.v ===== *)
(** * The key-value store interface (goleveldb) and the record codec

    Every store of the node sits on LevelDB, which is not part of the
    repository. [LevelDB] is the interface the stores use and [LevelDBLaws]
    its documented behaviour in terms of the logical contents [db_view]: a
    read sees the contents, a write is atomic, a prefix iterator visits the
    entries whose key has the prefix, each once, in key order. Reads and
    writes may fail with an I/O error. [mem_db] is an instance.

    [JsonCodec] is what the stores use of [encoding/json]: a record that is
    marshalled and unmarshalled comes back as [json_norm] of itself (the
    fields that are not serialized are reset). *)

From Stdlib Require Import Init.Byte Strings.Byte Strings.String Lia ZArith.
From stdpp Require Import base gmap sets list strings numbers sorting fin_maps.
From S2P Require Import Prelude GoStd.

Inductive kv_err := ErrNotFound | ErrIO.

#[export] Instance kv_err_eq_dec : EqDecision kv_err.
Proof. solve_decision. Defined.

Inductive batch_op :=
  | BPut (k v : bytes)
  | BDelete (k : bytes).

Definition apply_op (m : gmap bytes bytes) (op : batch_op) : gmap bytes bytes :=
  match op with
  | BPut k v => <[k := v]> m
  | BDelete k => delete k m
  end.

Definition apply_batch (b : list batch_op) (m : gmap bytes bytes) : gmap bytes bytes :=
  foldl apply_op m b.

(** The entries of [m] under a prefix. *)
Definition entries_with_prefix (p : bytes) (m : gmap bytes bytes) : list (bytes * bytes) :=
  filter (λ kv, p `prefix_of` kv.1) (map_to_list m).

(** Byte-wise lexicographic order on keys. *)
Fixpoint bytes_le (a b : bytes) : bool :=
  match a, b with
  | [], _ => true
  | _ :: _, [] => false
  | x :: a', y :: b' =>
      if (byte_z x <? byte_z y)%Z then true
      else if (byte_z y <? byte_z x)%Z then false
      else bytes_le a' b'
  end.

Definition key_le : relation (bytes * bytes) := λ x y, bytes_le x.1 y.1 = true.

Class LevelDB (DB : Type) := {
  db_view : DB → gmap bytes bytes;
  db_get : DB → bytes → kv_err + bytes;
  db_has : DB → bytes → kv_err + bool;
  db_put : DB → bytes → bytes → DB * option kv_err;
  db_delete : DB → bytes → DB * option kv_err;
  db_write : DB → list batch_op → DB * option kv_err;
  db_iter : DB → bytes → list (bytes * bytes) * option kv_err
}.

Class LevelDBLaws (DB : Type) `{LevelDB DB} : Prop := {
  db_get_ok d k v : db_get d k = inr v → db_view d !! k = Some v;
  db_get_not_found d k : db_get d k = inl ErrNotFound → db_view d !! k = None;
  db_has_ok d k b : db_has d k = inr b → b = bool_decide (is_Some (db_view d !! k));
  db_put_ok d k v d' : db_put d k v = (d', None) → db_view d' = <[k := v]> (db_view d);
  db_put_err d k v d' e : db_put d k v = (d', Some e) → db_view d' = db_view d;
  db_delete_ok d k d' : db_delete d k = (d', None) → db_view d' = delete k (db_view d);
  db_delete_err d k d' e : db_delete d k = (d', Some e) → db_view d' = db_view d;
  db_write_ok d b d' : db_write d b = (d', None) → db_view d' = apply_batch b (db_view d);
  db_write_err d b d' e : db_write d b = (d', Some e) → db_view d' = db_view d;
  db_iter_ok d p l : db_iter d p = (l, None) → l ≡ₚ entries_with_prefix p (db_view d);
  db_iter_err d p l e : db_iter d p = (l, Some e) → l ⊆ entries_with_prefix p (db_view d);
  db_iter_sorted d p l e : db_iter d p = (l, e) → Sorted key_le l
}.

(** A store on a disk that does not fail. *)
Class LevelDBReliable (DB : Type) `{LevelDB DB} : Prop := {
  db_get_total d k : db_get d k =
    match db_view d !! k with Some v => inr v | None => inl ErrNotFound end;
  db_put_total d k v : (db_put d k v).2 = None;
  db_delete_total d k : (db_delete d k).2 = None;
  db_write_total d b : (db_write d b).2 = None;
  db_iter_total d p : (db_iter d p).2 = None
}.

(** ** A store in memory, which never fails *)

Lemma bytes_le_total a b : bytes_le a b = true ∨ bytes_le b a = true.
Proof.
  revert b. induction a as [|x a IH]; intros [|y b]; simpl; auto.
  destruct (Z.ltb_spec (byte_z x) (byte_z y)); [auto|].
  destruct (Z.ltb_spec (byte_z y) (byte_z x)); auto.
Qed.

#[export] Instance key_le_dec x y : Decision (key_le x y).
Proof. unfold key_le. apply _. Defined.

#[export] Instance key_le_total : Total key_le.
Proof. intros x y. apply bytes_le_total. Qed.

#[export] Instance mem_db : LevelDB (gmap bytes bytes) := {
  db_view m := m;
  db_get m k := match m !! k with Some v => inr v | None => inl ErrNotFound end;
  db_has m k := inr (bool_decide (is_Some (m !! k)));
  db_put m k v := (<[k := v]> m, None);
  db_delete m k := (delete k m, None);
  db_write m b := (apply_batch b m, None);
  db_iter m p := (merge_sort key_le (entries_with_prefix p m), None)
}.

#[export] Instance mem_db_laws : LevelDBLaws (gmap bytes bytes).
Proof.
  split; simpl; intros; simplify_eq; try done; try by case_match; simplify_eq.
  - apply merge_sort_Permutation.
  - apply Sorted_merge_sort. apply _.
Qed.

#[export] Instance mem_db_reliable : LevelDBReliable (gmap bytes bytes).
Proof. by split. Qed.

(** ** Consequences of the laws *)

Section laws.
Context {DB : Type} `{LevelDBLaws DB}.

Lemma apply_batch_app b1 b2 m : apply_batch (b1 ++ b2) m = apply_batch b2 (apply_batch b1 m).
Proof. apply foldl_app. Qed.

Lemma elem_of_entries p m k v :
  (k, v) ∈ entries_with_prefix p m ↔ p `prefix_of` k ∧ m !! k = Some v.
Proof. unfold entries_with_prefix. by rewrite list_elem_of_filter, elem_of_map_to_list. Qed.

(** What a complete iteration visits. *)
Lemma db_iter_elem d p l k v :
  db_iter d p = (l, None) → (k, v) ∈ l ↔ p `prefix_of` k ∧ db_view d !! k = Some v.
Proof. intros Hl. rewrite (db_iter_ok _ _ _ Hl). apply elem_of_entries. Qed.

(** An iteration, complete or not, visits entries of the store only. *)
Lemma db_iter_sound d p l e k v :
  db_iter d p = (l, e) → (k, v) ∈ l → p `prefix_of` k ∧ db_view d !! k = Some v.
Proof.
  intros Hl Hin. apply elem_of_entries. destruct e as [e|].
  - by apply (db_iter_err _ _ _ _ Hl).
  - by rewrite <- (db_iter_ok _ _ _ Hl).
Qed.

Lemma NoDup_entries p m : NoDup (entries_with_prefix p m).*1.
Proof.
  unfold entries_with_prefix.
  eapply sublist_NoDup; [apply (NoDup_fst_map_to_list m)|].
  apply fmap_sublist, sublist_filter.
Qed.

Lemma db_iter_NoDup d p l : db_iter d p = (l, None) → NoDup l.*1.
Proof. intros Hl. rewrite (db_iter_ok _ _ _ Hl). apply NoDup_entries. Qed.
End laws.

(** Deleting a list of keys one by one, errors ignored, as the sweeping
    operations do: [for _, key := range keys { db.Delete(key, nil) }]. *)
Definition delete_keys {DB} `{LevelDB DB} (d : DB) (ks : list bytes) : DB :=
  foldl (λ d k, (db_delete d k).1) d ks.

(** A store whose deletes succeed (the sweeping operations ignore the error). *)
Definition deletes_succeed (DB : Type) `{LevelDB DB} : Prop :=
  ∀ d k, (db_delete d k).2 = None.

Lemma delete_keys_view {DB} `{LevelDBLaws DB} (d : DB) ks k :
  deletes_succeed DB →
  db_view (delete_keys d ks) !! k = if decide (k ∈ ks) then None else db_view d !! k.
Proof.
  intros Hok. revert d. induction ks as [|k' ks IH]; intros d; [done|].
  unfold delete_keys in *. cbn [foldl]. rewrite IH.
  pose proof (Hok d k') as Hd. destruct (db_delete d k') as [d' o] eqn:E. simpl in *. subst o.
  rewrite (db_delete_ok _ _ _ E).
  destruct (decide (k ∈ ks)), (decide (k ∈ k' :: ks)); try set_solver.
  - assert (k = k') as -> by set_solver. apply lookup_delete_eq.
  - apply lookup_delete_ne. set_solver.
Qed.

(** ** The record codec *)

Class JsonCodec (A : Type) := {
  json_marshal : A → option bytes;
  json_unmarshal : bytes → option A;
  json_norm : A → A
}.

(** A record survives the trip through its stored form. *)
Class JsonCodecLaws (A : Type) `{JsonCodec A} : Prop := {
  json_roundtrip a b : json_marshal a = Some b → json_unmarshal b = Some (json_norm a)
}.

(** An instance for any countable record type: the bits of its code, one per
    byte. [norm] is what the record's serialized fields determine. *)
Fixpoint pos_bytes (p : positive) : bytes :=
  match p with
  | xH => []
  | xO p' => x00 :: pos_bytes p'
  | xI p' => x01 :: pos_bytes p'
  end.
Fixpoint bytes_pos (b : bytes) : option positive :=
  match b with
  | [] => Some xH
  | c :: b' =>
      p ← bytes_pos b'; if decide (c = x00) then Some (xO p)
                        else if decide (c = x01) then Some (xI p) else None
  end.

Lemma bytes_pos_bytes p : bytes_pos (pos_bytes p) = Some p.
Proof. induction p as [p IH|p IH|]; simpl; by rewrite ?IH. Qed.

Definition countable_codec {A} `{Countable A} (norm : A → A) : JsonCodec A := {|
  json_marshal a := Some (pos_bytes (encode (norm a)));
  json_unmarshal b := p ← bytes_pos b; decode p;
  json_norm := norm
|}.

Lemma countable_codec_laws {A} `{Countable A} (norm : A → A) :
  @JsonCodecLaws A (countable_codec norm).
Proof.
  split. simpl. intros a b [= <-]. rewrite bytes_pos_bytes. simpl. apply decode_encode.
Qed.

(** ** A codec for records of many fields

    A list of fields is written one after the other, each ended by [xff]; the
    bytes [xff] and [xfe] of a field are written after the mark [xfe]. *)

Definition esc (c : byte) : bytes := if decide (c = xff ∨ c = xfe) then [xfe; c] else [c].
Definition frame1 (b : bytes) : bytes := (b ≫= esc) ++ [xff].
Definition frame (l : list bytes) : bytes := l ≫= frame1.

Fixpoint unframe (s cur : bytes) : option (list bytes) :=
  match s with
  | [] => if decide (cur = []) then Some [] else None
  | m :: s' =>
      if decide (m = xff) then l ← unframe s' []; Some (rev cur :: l)
      else if decide (m = xfe) then
        match s' with
        | c :: s'' => unframe s'' (c :: cur)
        | [] => None
        end
      else unframe s' (m :: cur)
  end.

Lemma unframe_frame1 b s cur :
  unframe (frame1 b ++ s) cur = l ← unframe s []; Some ((rev cur ++ b) :: l).
Proof.
  revert cur. induction b as [|c b IH]; intros cur; [cbn; by rewrite app_nil_r|].
  replace (frame1 (c :: b) ++ s) with (esc c ++ frame1 b ++ s)
    by (unfold frame1; cbn; by rewrite <- !app_assoc).
  replace (rev cur ++ c :: b) with (rev (c :: cur) ++ b) by (cbn [rev]; by rewrite <- app_assoc).
  rewrite <- IH. unfold esc. case_decide; cbn [app unframe]; [done|].
  by rewrite !decide_False by tauto.
Qed.

Lemma unframe_frame l : unframe (frame l) [] = Some l.
Proof.
  induction l as [|b l IH]; [done|]. change (frame (b :: l)) with (frame1 b ++ frame l).
  by rewrite unframe_frame1, IH.
Qed.

Definition z_field (z : Z) : bytes := pos_bytes (encode z).
Definition field_z (b : bytes) : option Z := p ← bytes_pos b; decode p.
Lemma field_z_field z : field_z (z_field z) = Some z.
Proof. unfold field_z, z_field. rewrite bytes_pos_bytes. apply decode_encode. Qed.

Definition bool_field (b : bool) : bytes := if b then [x01] else [].
Definition field_bool (b : bytes) : bool := negb (bool_decide (b = [])).
Lemma field_bool_field b : field_bool (bool_field b) = b.
Proof. by destruct b. Qed.

Definition option_field {A} (f : A → bytes) (o : option A) : bytes :=
  match o with Some a => frame [f a] | None => [] end.
Definition field_option {A} (g : bytes → option A) (b : bytes) : option (option A) :=
  match unframe b [] with
  | Some [] => Some None
  | Some [x] => a ← g x; Some (Some a)
  | _ => None
  end.
Lemma field_option_field {A} (f : A → bytes) g o :
  (∀ a, g (f a) = Some a) → field_option g (option_field f o) = Some o.
Proof.
  intros Hg. destruct o as [a|]; [|done]. unfold field_option, option_field.
  rewrite unframe_frame, Hg. done.
Qed.

Definition list_field {A} (f : A → bytes) (l : list A) : bytes := frame (f <$> l).
Definition field_list {A} (g : bytes → option A) (b : bytes) : option (list A) :=
  l ← unframe b []; mapM g l.
Lemma field_list_field {A} (f : A → bytes) g l :
  (∀ a, g (f a) = Some a) → field_list g (list_field f l) = Some l.
Proof.
  intros Hg. unfold field_list, list_field. rewrite unframe_frame. cbn.
  apply mapM_Some_2. induction l as [|a l IH]; cbn; constructor; auto.
Qed.

(** The codec of a record from its fields. *)
Definition frame_codec {A} (f : A → list bytes) (g : list bytes → option A) (norm : A → A) : JsonCodec A := {|
  json_marshal a := Some (frame (f (norm a)));
  json_unmarshal b := unframe b [] ≫= g;
  json_norm := norm
|}.
Lemma frame_codec_laws {A} (f : A → list bytes) g norm :
  (∀ a, g (f a) = Some a) → @JsonCodecLaws A (frame_codec f g norm).
Proof. intros Hg. split. simpl. intros a b [= <-]. rewrite unframe_frame. apply Hg. Qed.
