(* ===== verification/GoText.v ===== *)
(** * More of the Go standard library: numbers in text, base64, URL queries, slices

    [strconv.Atoi], [fmt.Sscanf] with [%d], [encoding/base64] with its three
    alphabets, the query of a [net/url] URL, [strings.Contains], [sort.Strings],
    and indexing and slicing with their panics. *)

From Stdlib Require Import Init.Byte Strings.Byte Strings.String Lia ZArith.
From stdpp Require Import base gmap sets list strings numbers sorting fin_maps.
From S2P Require Import Prelude GoStd LevelDB.
Open Scope Z_scope.

(** ** Indexing and slicing *)

Definition zlen (b : bytes) : Z := Z.of_nat (length b).

Definition byte_at {E} (b : bytes) (i : Z) : res E byte :=
  if 0 <=? i then match b !! Z.to_nat i with Some c => Ok c | None => Panic end else Panic.

(** [b[lo:hi]] and [b[lo:]]. *)
Definition slice {E} (b : bytes) (lo hi : Z) : res E bytes :=
  if (0 <=? lo) && (lo <=? hi) && (hi <=? zlen b)
  then Ok (take (Z.to_nat (hi - lo)) (drop (Z.to_nat lo) b)) else Panic.
Definition slice_from {E} (b : bytes) (lo : Z) : res E bytes := slice b lo (zlen b).

Lemma zlen_app a b : zlen (a ++ b) = zlen a + zlen b.
Proof. unfold zlen. rewrite length_app. lia. Qed.
Lemma zlen_cons c b : zlen (c :: b) = 1 + zlen b.
Proof. unfold zlen. cbn [length]. lia. Qed.
Lemma zlen_nonneg b : 0 ≤ zlen b.
Proof. unfold zlen. lia. Qed.

(** The byte after a prefix, the bytes after a prefix. *)
Lemma byte_at_app {E} a c b : byte_at (E:=E) (a ++ c :: b) (zlen a) = Ok c.
Proof.
  unfold byte_at, zlen. rewrite (proj2 (Z.leb_le _ _)) by lia.
  by rewrite Nat2Z.id, list_lookup_middle.
Qed.

Lemma slice_app {E} a b c : slice (E:=E) (a ++ b ++ c) (zlen a) (zlen a + zlen b) = Ok b.
Proof.
  unfold slice. pose proof (zlen_nonneg a). pose proof (zlen_nonneg b).
  pose proof (zlen_nonneg c). rewrite !zlen_app.
  rewrite (proj2 (Z.leb_le 0 _)), (proj2 (Z.leb_le (zlen a) _)), (proj2 (Z.leb_le _ _)) by lia.
  cbn [andb]. f_equal.
  replace (Z.to_nat (zlen a + zlen b - zlen a)) with (length b) by (unfold zlen; lia).
  replace (Z.to_nat (zlen a)) with (length a) by (unfold zlen; lia).
  by rewrite drop_app_length, take_app_length.
Qed.

Lemma slice_from_app {E} a b : slice_from (E:=E) (a ++ b) (zlen a) = Ok b.
Proof.
  unfold slice_from. rewrite zlen_app, <- (app_nil_r b) at 1. apply slice_app.
Qed.

Lemma slice_from_panic {E} b i : zlen b < i → slice_from (E:=E) b i = Panic.
Proof.
  intros Hi. unfold slice_from, slice. rewrite (proj2 (Z.leb_gt i (zlen b))) by lia.
  by rewrite andb_false_r.
Qed.

(** ** Decimal numbers *)

Definition digit_value (c : byte) : option Z :=
  let z := byte_z c in if (48 <=? z) && (z <=? 57) then Some (z - 48) else None.

(** The value of the leading digits, how many there are, and the rest. *)
Fixpoint scan_digits (acc : Z) (s : bytes) : Z * nat * bytes :=
  match s with
  | [] => (acc, 0%nat, [])
  | c :: s' =>
      match digit_value c with
      | Some d => let '(v, n, r) := scan_digits (10 * acc + d) s' in (v, S n, r)
      | None => (acc, 0%nat, s)
      end
  end.

(** An optional sign and at least one digit, within 64 bits. *)
Definition scan_int (s : bytes) : option (Z * bytes) :=
  let '(sign, s) := match s with
                    | c :: s' => if decide (c = x2d) then (-1, s')
                                 else if decide (c = x2b) then (1, s') else (1, s)
                    | [] => (1, s)
                    end in
  let '(v, n, r) := scan_digits 0 s in
  if bool_decide (n = 0%nat) then None
  else let v := sign * v in
       if (- 2 ^ 63 <=? v) && (v <? 2 ^ 63) then Some (v, r) else None.

Definition atoi (s : bytes) : option Z :=
  match scan_int s with Some (v, []) => Some v | _ => None end.

(** [fmt.Sscanf(s, "%d", &x)]: leading spaces are skipped, a line break among
    them is an error, and what follows the number is not looked at. The spaces
    are those of Unicode, in UTF-8. *)
Definition spaces : list bytes :=
  [[x09]; [x0b]; [x0c]; [x0d]; [x20]; [xc2; x85]; [xc2; xa0]; [xe1; x9a; x80]] ++
  ((λ n, [xe2; x80; z_byte (128 + Z.of_nat n)]) <$> seq 0 11) ++
  [[xe2; x80; xa8]; [xe2; x80; xa9]; [xe2; x80; xaf]; [xe2; x81; x9f]; [xe3; x80; x80]].

Fixpoint first_prefix (ps : list bytes) (s : bytes) : option nat :=
  match ps with
  | [] => None
  | p :: ps' => if has_prefix s p then Some (length p) else first_prefix ps' s
  end.

Fixpoint skip_spaces (skip : nat) (s : bytes) : option bytes :=
  match s, skip with
  | [], _ => Some []
  | _ :: s', S k => skip_spaces k s'
  | c :: s', O =>
      if decide (c = x0a) then None
      else if decide (c = x0d ∧ head s' = Some x0a) then
        (* a carriage return before a line break is dropped, the break is seen next *)
        skip_spaces 0 s'
      else match first_prefix spaces s with
           | Some n => skip_spaces (n - 1) s'
           | None => Some s
           end
  end.

Definition sscanf_d (s : bytes) : option Z := s ← skip_spaces 0 s; p ← scan_int s; Some p.1.

Example sscanf_d_prefix : sscanf_d (lit " 42abc") = Some 42.
Proof. vm_compute. reflexivity. Qed.

(** ** encoding/base64 *)

Definition b64_value (url : bool) (c : byte) : option Z :=
  let z := byte_z c in
  if (65 <=? z) && (z <=? 90) then Some (z - 65)
  else if (97 <=? z) && (z <=? 122) then Some (z - 71)
  else if (48 <=? z) && (z <=? 57) then Some (z + 4)
  else if z =? (if url then 45 else 43) then Some 62
  else if z =? (if url then 95 else 47) then Some 63
  else None.

Definition b64_digit (url : bool) (n : Z) : byte :=
  if n <? 26 then z_byte (n + 65)
  else if n <? 52 then z_byte (n + 71)
  else if n <? 62 then z_byte (n - 4)
  else if n =? 62 then (if url then x2d else x2b)
  else (if url then x5f else x2f).

Definition pad : byte := x3d.

(** Groups of four digits; [padded] encodings fill the last group with [=],
    the others stop short. *)
Fixpoint b64_groups (url padded : bool) (s : bytes) : option bytes :=
  match s with
  | [] => Some []
  | a :: b :: c :: d :: s' =>
      if padded && bool_decide (c = pad) then
        if bool_decide (d = pad) && bool_decide (s' = []) then
          x ← b64_value url a; y ← b64_value url b; Some [z_byte (4 * x + y / 16)]
        else None
      else if padded && bool_decide (d = pad) then
        if bool_decide (s' = []) then
          x ← b64_value url a; y ← b64_value url b; z ← b64_value url c;
          Some [z_byte (4 * x + y / 16); z_byte (16 * y + z / 4)]
        else None
      else
        x ← b64_value url a; y ← b64_value url b; z ← b64_value url c; w ← b64_value url d;
        r ← b64_groups url padded s';
        Some (z_byte (4 * x + y / 16) :: z_byte (16 * y + z / 4) :: z_byte (64 * z + w) :: r)
  | [a; b; c] =>
      if padded then None else
      x ← b64_value url a; y ← b64_value url b; z ← b64_value url c;
      Some [z_byte (4 * x + y / 16); z_byte (16 * y + z / 4)]
  | [a; b] =>
      if padded then None else
      x ← b64_value url a; y ← b64_value url b; Some [z_byte (4 * x + y / 16)]
  | [_] => None
  end.

(** [DecodeString] ignores line breaks. *)
Definition b64_decode (url padded : bool) (s : bytes) : option bytes :=
  b64_groups url padded (filter (λ c, c ≠ x0a ∧ c ≠ x0d) s).

Definition b64_std : bytes → option bytes := b64_decode false true.
Definition b64_raw_std : bytes → option bytes := b64_decode false false.
Definition b64_raw_url : bytes → option bytes := b64_decode true false.

(** [RawURLEncoding.EncodeToString]. *)
Fixpoint b64_encode_raw_url (s : bytes) : bytes :=
  match s with
  | [] => []
  | [a] => let x := byte_z a in [b64_digit true (x / 4); b64_digit true (x mod 4 * 16)]
  | [a; b] =>
      let x := byte_z a in let y := byte_z b in
      [b64_digit true (x / 4); b64_digit true (x mod 4 * 16 + y / 16);
       b64_digit true (y mod 16 * 4)]
  | a :: b :: c :: s' =>
      let x := byte_z a in let y := byte_z b in let z := byte_z c in
      b64_digit true (x / 4) :: b64_digit true (x mod 4 * 16 + y / 16) ::
      b64_digit true (y mod 16 * 4 + z / 64) :: b64_digit true (z mod 64) ::
      b64_encode_raw_url s'
  end.

Example b64_examples :
  b64_raw_url (lit "eyJ2IjoxfQ") = Some ([x7b; x22; x76; x22; x3a; x31; x7d]) ∧
  b64_encode_raw_url ([x7b; x22; x76; x22; x3a; x31; x7d]) = lit "eyJ2IjoxfQ" ∧
  b64_std (lit "YWI=") = Some (lit "ab") ∧ b64_std (lit "YWI") = None.
Proof. vm_compute. done. Qed.

(** ** net/url *)

(** [url.QueryUnescape]. *)
Fixpoint query_unescape (s : bytes) : option bytes :=
  match s with
  | [] => Some []
  | c :: s' =>
      if decide (c = x25) then
        match s' with
        | p :: q :: s'' =>
            a ← hex_value p; b ← hex_value q; r ← query_unescape s'';
            Some (z_byte (16 * a + b) :: r)
        | _ => None
        end
      else r ← query_unescape s'; Some ((if decide (c = x2b) then x20 else c) :: r)
  end.

Fixpoint split_on (c : byte) (s : bytes) : list bytes :=
  match s with
  | [] => [[]]
  | x :: s' =>
      if decide (x = c) then [] :: split_on c s'
      else match split_on c s' with
           | a :: l => (x :: a) :: l
           | [] => [[x]]
           end
  end.

(** One [key=value] of a query; empty and malformed ones are skipped, and so
    are those with a semicolon. *)
Definition parse_pair (p : bytes) : option (bytes * bytes) :=
  if bool_decide (p = []) || bool_decide (x3b ∈ p) then None
  else let '(k, v) := split2 x3d p in
       k ← query_unescape k; v ← query_unescape (default [] v); Some (k, v).

(** [r.URL.Query().Get(key)]: the first value of the key, or the empty string. *)
Definition query_get (rawquery key : bytes) : bytes :=
  default [] (snd ∘ snd <$> list_find (λ kv, kv.1 = key) (omap parse_pair (split_on x26 rawquery))).

Example query_get_examples :
  query_get (lit "topic=a%3Ab&limit=5&topic=c") (lit "topic") = lit "a:b" ∧
  query_get (lit "limit=5") (lit "topic") = [].
Proof. vm_compute. done. Qed.

(** ** strings and sort *)

Definition contains (s sub : bytes) : bool := bool_decide (is_Some (bytes_index s sub)).

Definition bytes_order : relation bytes := λ a b, bytes_le a b = true.
#[export] Instance bytes_order_dec a b : Decision (bytes_order a b).
Proof. unfold bytes_order. apply _. Defined.

(** [sort.Strings]: equal strings are the same, so the result is determined. *)
Definition sort_strings (l : list bytes) : list bytes := merge_sort bytes_order l.

(** [strings.Join]. *)
Fixpoint join (sep : bytes) (l : list bytes) : bytes :=
  match l with [] => [] | [s] => s | s :: l' => s ++ sep ++ join sep l' end.

(** * Decimal numerals are read back

    [strconv.Atoi] of what [strconv.Itoa] writes, for the numbers of an [int]. *)

From Stdlib Require Import Decimal DecimalZ DecimalString.

(** One more digit. *)
Lemma scan_digit (c : byte) (k acc : Z) (s : bytes) (v : Z) (n : nat) (r : bytes) :
  digit_value c = Some k → scan_digits (10 * acc + k) s = (v, n, r) → scan_digits acc (c :: s) = (v, S n, r).
Proof. intros Hk Hs. cbn [scan_digits]. by rewrite Hk, Hs. Qed.

Ltac one_digit k Hn := exists (S k); eapply scan_digit; [reflexivity|];
  match type of Hn with scan_digits ?y _ = _ => match goal with |- scan_digits (10 * ?a + ?k) _ = _ =>
    let k' := eval vm_compute in k in change k with k'; replace (10 * a + k') with y by lia end end; exact Hn.

(** The digits of a numeral that began. *)
Lemma scan_digits_acc d acc : ∃ n, scan_digits (Zpos acc) (lit (NilEmpty.string_of_uint d)) =
  (Zpos (Pos.of_uint_acc d acc), n, []).
Proof.
  revert acc. induction d as [|d IH|d IH|d IH|d IH|d IH|d IH|d IH|d IH|d IH|d IH]; intros acc; [by eexists|..];
    match goal with |- context [Pos.of_uint_acc ?D acc] =>
      let p := constr:(Pos.of_uint_acc D acc) in let p' := eval cbn [Pos.of_uint_acc] in p in
      match p' with Pos.of_uint_acc _ ?q => destruct (IH q) as [n Hn] end end; one_digit n Hn.
Qed.

Lemma scan_digits_uint d : ∃ n, scan_digits 0 (lit (NilEmpty.string_of_uint d)) = (Z.of_N (Pos.of_uint d), n, []) ∧ (d ≠ Nil → n ≠ 0%nat).
Proof.
  induction d as [|d IH|d IH|d IH|d IH|d IH|d IH|d IH|d IH|d IH|d IH]; [by eexists|..].
  { destruct IH as (n & Hn & _). exists (S n). split; [|done]. eapply scan_digit; [reflexivity|exact Hn]. }
  all: match goal with |- context [Pos.of_uint ?D] =>
         let p := eval cbn [Pos.of_uint] in (Pos.of_uint D) in
         match p with Npos (Pos.of_uint_acc _ ?q) => destruct (scan_digits_acc d q) as [n Hn] end end;
       exists (S n); split; [|done]; eapply scan_digit; [reflexivity|exact Hn].
Qed.

Lemma scan_digits_string d : d ≠ Nil → ∃ n, scan_digits 0 (lit (NilZero.string_of_uint d)) = (Z.of_N (Pos.of_uint d), S n, []).
Proof.
  intros Hd. destruct (scan_digits_uint d) as (n & Hn & Hnn). destruct n as [|n]; [by destruct (Hnn Hd)|]. exists n.
  by destruct d.
Qed.

#[local] Transparent itoa.
Lemma atoi_itoa z : 0 ≤ z < 2 ^ 63 → atoi (itoa z) = Some z.
Proof.
  intros Hz. pose proof (DecimalZ.of_to z) as Hof. destruct (to_int_non_nil z) as [Hnil _].
  destruct (Z.to_int z) as [d|d] eqn:Ed.
  2:{ exfalso. unfold Z.to_int in Ed. destruct z; [done|done|lia]. }
  unfold Z.of_int, Z.of_uint in Hof. unfold atoi, scan_int, itoa. rewrite Ed. cbn [NilZero.string_of_int].
  destruct (scan_digits_string d) as [n Hn]; [congruence|].
  assert (Hc : ∀ c s, lit (NilZero.string_of_uint d) = c :: s → c ≠ x2d ∧ c ≠ x2b).
  { intros c s E. assert (Hdig : c ∈ itoa z) by (unfold itoa; rewrite Ed; cbn [NilZero.string_of_int]; rewrite E; by left).
    split; intros ->.
    - unfold itoa in Hdig. rewrite Ed in Hdig. cbn [NilZero.string_of_int] in Hdig. rewrite E in Hn. by cbn in Hn.
    - rewrite E in Hn. by cbn in Hn. }
  destruct (lit (NilZero.string_of_uint d)) as [|c s] eqn:El; [by cbn in Hn|].
  destruct (Hc c s eq_refl). rewrite !decide_False by done. rewrite Hn, bool_decide_false by done. rewrite Hof.
  rewrite (proj2 (Z.leb_le _ _)), (proj2 (Z.ltb_lt _ _)) by lia. cbn. by destruct z.
Qed.
