(* ===== verification/Float.v ===== *)
(** * Go's float64

    IEEE 754 binary64 with round-to-nearest-even, from the executable
    specification of the Standard Library, and the conversions the rate
    limiters use. *)

From Stdlib Require Import ZArith Lia SpecFloat Strings.String.
From stdpp Require Import base list.
Open Scope Z_scope.

Definition float64 : Type := spec_float.

Definition f64_of_Z (z : Z) : float64 := binary_normalize 53 1024 z 0 false.
Definition f64_add : float64 → float64 → float64 := SFadd 53 1024.
Definition f64_sub : float64 → float64 → float64 := SFsub 53 1024.
Definition f64_mul : float64 → float64 → float64 := SFmul 53 1024.
Definition f64_div : float64 → float64 → float64 := SFdiv 53 1024.
Definition f64_lt (x y : float64) : bool := SFltb x y.

(** [time.Duration.Seconds], of a duration in nanoseconds. *)
Definition seconds (d : Z) : float64 :=
  f64_add (f64_of_Z (Z.quot d 1000000000))
          (f64_div (f64_of_Z (Z.rem d 1000000000)) (f64_of_Z 1000000000)).

(** [int(f)]: towards zero. *)
Definition f64_to_int (f : float64) : Z :=
  match f with
  | S754_finite s m e =>
      let a := if e <? 0 then Z.shiftr (Z.pos m) (- e) else Z.shiftl (Z.pos m) e in
      if s then - a else a
  | _ => 0
  end.

Example seconds_half : seconds 1500000000 = f64_div (f64_of_Z 3) (f64_of_Z 2).
Proof. vm_compute. reflexivity. Qed.

(** ** The token bucket of both rate limiters

    [refill] adds the tokens of the elapsed time and caps them; [take_token]
    spends one if there is one. *)
Definition refill (rate burst : float64) (elapsed : Z) (tokens : float64) : float64 :=
  let tokens := f64_add tokens (f64_mul (seconds elapsed) rate) in
  if f64_lt burst tokens then burst else tokens.

(** Spending a token: the tokens left and whether there was one. *)
Definition take_token (tokens : float64) : float64 * bool :=
  if f64_lt tokens (f64_of_Z 1) then (tokens, false)
  else (f64_sub tokens (f64_of_Z 1), true).

(** Taking [n] tokens at one instant. *)
Fixpoint drain (rate burst : float64) (n : nat) (tokens : float64) : list bool :=
  match n with
  | O => []
  | S n' =>
      let '(tokens', ok) := take_token (refill rate burst 0 tokens) in
      ok :: drain rate burst n' tokens'
  end.

(** ** Bursts

    Integer buckets of up to 500 tokens drain exactly. What float64 does to
    one integer is checked by evaluation for each of them; that an integer is
    not below a smaller one follows from adjacent ones by transitivity. *)
#[export] Instance spec_float_eq_dec : EqDecision spec_float.
Proof. solve_decision. Defined.

Definition f64_pos (x : float64) : Prop := match x with S754_finite false _ _ => True | _ => False end.
#[export] Instance f64_pos_dec x : Decision (f64_pos x).
Proof. destruct x as [| | |[]]; apply _. Defined.

Lemma f64_ge_trans x y z :
  f64_pos x → f64_pos y → f64_pos z →
  f64_lt x y = false → f64_lt y z = false → f64_lt x z = false.
Proof.
  destruct x as [| | |[] m1 e1], y as [| | |[] m2 e2], z as [| | |[] m3 e3]; try done. intros _ _ _.
  unfold f64_lt, SFltb, SFcompare. fold (Pos.compare m1 m2) (Pos.compare m2 m3) (Pos.compare m1 m3).
  repeat match goal with |- context[?a ?= ?b] => destruct (Z.compare_spec a b) end; try done; try lia;
  repeat match goal with |- context[Pos.compare ?a ?b] => destruct (Pos.compare_spec a b) end; try done; lia.
Qed.

(** What one positive integer [k] does. *)
Definition integer_ok (k : Z) : Prop :=
  f64_pos (f64_of_Z k) ∧
  f64_mul (seconds 0) (f64_of_Z k) = f64_of_Z 0 ∧
  f64_add (f64_of_Z k) (f64_of_Z 0) = f64_of_Z k ∧
  take_token (f64_of_Z k) = (f64_of_Z (k - 1), true) ∧
  f64_lt (f64_of_Z (k + 1)) (f64_of_Z k) = false ∧ f64_lt (f64_of_Z k) (f64_of_Z k) = false.

Lemma integers_500 : Forall (λ k, integer_ok (Z.of_nat k)) (seq 1 500).
Proof. apply (bool_decide_unpack _). vm_compute. exact I. Qed.

Lemma integer_500 k : 1 ≤ k ≤ 500 → integer_ok k.
Proof.
  intros Hk. pose proof integers_500 as H. rewrite Forall_forall in H.
  specialize (H (Z.to_nat k)). rewrite Z2Nat.id in H by lia. apply H, elem_of_seq. lia.
Qed.

Lemma f64_ge_500 k n :
  1 ≤ k → k + Z.of_nat n ≤ 500 → f64_lt (f64_of_Z (k + Z.of_nat n)) (f64_of_Z k) = false.
Proof.
  intros Hk. induction n as [|n IH]; intros Hb.
  - rewrite Z.add_0_r. apply integer_500. lia.
  - destruct (integer_500 (k + Z.of_nat n) ltac:(lia)) as (Hp & _ & _ & _ & Hadj & _).
    replace (k + Z.of_nat (S n)) with (k + Z.of_nat n + 1) by lia.
    apply (f64_ge_trans _ (f64_of_Z (k + Z.of_nat n))); [|done| |done|apply IH; lia]; apply integer_500; lia.
Qed.

Lemma token_step_500 r b k :
  1 ≤ r ≤ 500 → 1 ≤ b ≤ 500 → 0 ≤ k ≤ b →
  take_token (refill (f64_of_Z r) (f64_of_Z b) 0 (f64_of_Z k)) =
  if k =? 0 then (f64_of_Z 0, false) else (f64_of_Z (k - 1), true).
Proof.
  intros Hr Hb Hk. destruct (integer_500 r Hr) as (_ & Hmul & _). unfold refill. rewrite Hmul.
  destruct (Z.eqb_spec k 0) as [->|Hk0].
  - replace (f64_add (f64_of_Z 0) (f64_of_Z 0)) with (f64_of_Z 0) by reflexivity.
    replace (f64_lt (f64_of_Z b) (f64_of_Z 0)) with false; [reflexivity|].
    destruct (integer_500 b Hb) as (Hp & _). by destruct (f64_of_Z b) as [| | |[]].
  - destruct (integer_500 k ltac:(lia)) as (_ & _ & Hadd & Htake & _). rewrite Hadd.
    replace b with (k + Z.of_nat (Z.to_nat (b - k))) by lia. by rewrite f64_ge_500 by lia.
Qed.

Lemma drain_500 r b n m :
  1 ≤ r ≤ 500 → 1 ≤ b ≤ 500 → Z.of_nat n ≤ b →
  drain (f64_of_Z r) (f64_of_Z b) m (f64_of_Z (Z.of_nat n)) =
  take m (replicate n true) ++ replicate (m - n) false.
Proof.
  intros Hr Hb. revert n. induction m as [|m IH]; intros n Hn; [done|]. cbn [drain].
  rewrite token_step_500 by lia. destruct (Z.eqb_spec (Z.of_nat n) 0) as [H0|H0].
  - rewrite <- H0 at 1. rewrite IH by lia. destruct n; [|lia]. cbn [replicate]. by rewrite !take_nil, Nat.sub_0_r.
  - destruct n as [|n]; [done|]. replace (Z.of_nat (S n) - 1) with (Z.of_nat n) by lia. by rewrite IH by lia.
Qed.
