(* ===== verification/Pow.v ===== *)
(** * Proof of work ([internal/headers/pow.go])

    Difficulty targets in compact form, block work, and the validation of a
    chain of headers. A header is what the [go-p2p] wire package provides:
    the interface [WireHeader]; [raw_header] is an instance. *)

From Stdlib Require Import Init.Byte Strings.Byte Strings.String Lia ZArith.
From stdpp Require Import base gmap sets list strings numbers.
From S2P Require Import Prelude GoStd Sha256.
Open Scope Z_scope.

(** ** The header type of the wire package *)

(** [hdr_make version prev merkle bits nonce timestamp] is [NewBlockHeader]
    with its timestamp set; [hash_from_str] is [NewHashFromStr]. *)
Class WireHeader (H : Type) := {
  hdr_make : Z → bytes → bytes → Z → Z → Z → H;
  hash_from_str : bytes → option bytes;
  hdr_prev : H → bytes;
  hdr_merkle : H → bytes;
  hdr_bits : H → Z;
  hdr_hash : H → bytes;
  hdr_serialize : H → option bytes;
  hdr_deserialize : bytes → option H
}.

(** The fields of a header the node relies on. *)
Record hdr_info := HdrInfo {
  hi_hash : bytes; hi_prev : bytes; hi_bits : Z; hi_merkle : bytes
}.

Definition info {H} `{WireHeader H} (h : H) : hdr_info :=
  HdrInfo (hdr_hash h) (hdr_prev h) (hdr_bits h) (hdr_merkle h).

Class WireHeaderLaws (H : Type) `{WireHeader H} : Prop := {
  hdr_hash_length h : length (hdr_hash h) = 32%nat;
  hdr_prev_length h : length (hdr_prev h) = 32%nat;
  hdr_merkle_length h : length (hdr_merkle h) = 32%nat;
  hdr_bits_range h : 0 ≤ hdr_bits h < 2 ^ 32;
  hdr_deserialize_serialize h b :
    hdr_serialize h = Some b → ∃ h', hdr_deserialize b = Some h' ∧ info h' = info h
}.

(** ** Compact targets *)

Definition compactToBig (compact : Z) : Z :=
  let mantissa := Z.land compact 0x007fffff in
  let exponent := Z.shiftr compact 24 in
  let negative := negb (Z.land compact 0x00800000 =? 0) in
  let target :=
    if exponent <=? 3
    then Z.shiftr mantissa (8 * (3 - exponent))
    else Z.shiftl mantissa (8 * (exponent - 3)) in
  if negative then - target else target.

Definition BigToCompact (target : Z) : Z :=
  if Z.sgn target =? 0 then 0
  else
    let b := big_bytes target in
    let size := u32 (Z.of_nat (length b)) in
    let mantissa :=
      if size <=? 3
      then Z.shiftr (be_bytes_z (replicate (4 - length b) x00 ++ b)) 8
      else Z.lor (Z.lor (Z.shiftl (byte_z (nth 0 b x00)) 16) (Z.shiftl (byte_z (nth 1 b x00)) 8))
                 (byte_z (nth 2 b x00)) in
    let '(mantissa, size) :=
      if negb (Z.land mantissa 0x00800000 =? 0)
      then (Z.shiftr mantissa 8, u32 (size + 1)) else (mantissa, size) in
    Z.lor (u32 (Z.shiftl size 24)) mantissa.

(** ** Validation *)

Inductive pow_err := ErrNonPositiveTarget (bits : Z) | ErrHashExceedsTarget (bits : Z).

Definition hashToBig (hash : bytes) : Z :=
  be_bytes_z ((λ i, nth (31 - i) hash x00) <$> seq 0 32).

Section pow.
Context {H : Type} `{WireHeader H}.

Definition ValidatePoW (hdr : H) : res pow_err unit :=
  let target := compactToBig (hdr_bits hdr) in
  if Z.sgn target <=? 0 then Err (ErrNonPositiveTarget (hdr_bits hdr))
  else
    let hashInt := hashToBig (hdr_hash hdr) in
    if target <? hashInt then Err (ErrHashExceedsTarget (hdr_bits hdr))
    else Ok ().

Inductive chain_err :=
  | ErrChainPrevHash (i : Z)
  | ErrChainPoW (i : Z) (e : pow_err).

Fixpoint validate_chain_loop (i : Z) (prevHash : bytes) (headers : list H) : res chain_err unit :=
  match headers with
  | [] => Ok ()
  | hdr :: headers' =>
      if bool_decide (hdr_prev hdr = prevHash) then
        match ValidatePoW hdr with
        | Err e => Err (ErrChainPoW i e)
        | Panic => Panic
        | Ok _ => validate_chain_loop (i + 1) (hdr_hash hdr) headers'
        end
      else Err (ErrChainPrevHash i)
  end.

Definition ValidateHeaderChain (headers : list H) (expectedPrevHash : bytes) : res chain_err unit :=
  validate_chain_loop 0 expectedPrevHash headers.

Definition WorkForHeader (hdr : H) : Z :=
  let target := compactToBig (hdr_bits hdr) in
  if Z.sgn target <=? 0 then 0
  else Z.shiftl 1 256 / (target + 1).

Definition CumulativeWork (headers : list H) : Z :=
  foldl (λ total hdr, total + WorkForHeader hdr) 0 headers.
End pow.

(** ** Facts about targets *)

Lemma hashToBig_le hash : length hash = 32%nat → hashToBig hash = le_bytes_z hash.
Proof.
  intros Hl. do 32 (destruct hash as [|? hash]; [discriminate Hl|]).
  destruct hash; [reflexivity|discriminate Hl].
Qed.

Definition compact (size mantissa : Z) : Z := Z.lor (Z.shiftl size 24) mantissa.

Lemma compactToBig_compact size mantissa :
  3 < size → 0 ≤ mantissa < 2 ^ 23 →
  compactToBig (compact size mantissa) = mantissa * 256 ^ (size - 3).
Proof.
  intros Hs Hm. unfold compactToBig, compact.
  rewrite lor_shiftl_add by lia.
  assert (Z.shiftr (size * 2 ^ 24 + mantissa) 24 = size) as ->.
  { rewrite Z.shiftr_div_pow2, Z.div_add_l, Z.div_small by lia. lia. }
  assert (Z.land (size * 2 ^ 24 + mantissa) 0x007fffff = mantissa) as ->.
  { change 0x007fffff with (2 ^ 23 - 1). rewrite land_ones_mod by lia.
    replace (size * 2 ^ 24) with ((size * 2) * 2 ^ 23) by lia.
    rewrite Z.add_comm, Z.mod_add, Z.mod_small by lia. done. }
  assert (Z.land (size * 2 ^ 24 + mantissa) 0x00800000 = 0) as ->.
  { change 0x00800000 with (2 ^ 23). apply Z.bits_inj'. intros n Hn.
    rewrite Z.land_spec, Z.bits_0, Z.pow2_bits_eqb by lia.
    destruct (Z.eqb_spec 23 n) as [<-|]; [|apply andb_false_r].
    rewrite andb_true_r, Z.testbit_eqb by lia.
    replace (size * 2 ^ 24) with ((size * 2) * 2 ^ 23) by lia.
    rewrite Z.div_add_l, (Z.div_small mantissa), Z.add_0_r by lia.
    by rewrite Z.mod_mul. }
  simpl negb. cbv iota. destruct (Z.leb_spec size 3); [lia|].
  rewrite Z.shiftl_mul_pow2 by lia. f_equal.
  rewrite Z.pow_mul_r by lia. done.
Qed.

(** The three leading bytes of a number of [k + 3] bytes. *)
Lemma big_bytes_top3 T (k : nat) :
  256 ^ Z.of_nat (k + 2) ≤ T < 256 ^ Z.of_nat (k + 3) →
  length (big_bytes T) = (k + 3)%nat ∧
  Z.lor (Z.lor (Z.shiftl (byte_z (nth 0 (big_bytes T) x00)) 16)
               (Z.shiftl (byte_z (nth 1 (big_bytes T) x00)) 8))
        (byte_z (nth 2 (big_bytes T) x00)) = T / 256 ^ Z.of_nat k.
Proof.
  intros HT.
  assert (0 < 256 ^ Z.of_nat (k + 2)) by (apply Z.pow_pos_nonneg; lia).
  assert (big_len T = k + 3)%nat as Hlen.
  { replace (k + 3)%nat with (S (k + 2)) by lia. apply big_len_spec.
    rewrite Z.abs_eq by lia. by replace (S (k + 2)) with (k + 3)%nat by lia. }
  unfold big_bytes. rewrite Hlen, Z.abs_eq by lia. split.
  { by rewrite length_rev, length_z_le_bytes. }
  rewrite !rev_nth by (rewrite length_z_le_bytes; lia).
  rewrite !nth_z_le_bytes by (rewrite length_z_le_bytes; lia).
  rewrite length_z_le_bytes, !byte_z_z.
  replace (k + 3 - 1)%nat with (k + 2)%nat by lia.
  replace (k + 3 - 2)%nat with (k + 1)%nat by lia.
  replace (k + 3 - 3)%nat with k by lia.
  rewrite !Nat2Z.inj_add, !Z.pow_add_r, <- !Z.div_div by lia.
  set (q := T / 256 ^ Z.of_nat k).
  assert (0 ≤ q < 256 * 256 * 256) as Hq.
  { split; [apply Z.div_pos; lia|]. apply Z.div_lt_upper_bound; [lia|].
    rewrite !Nat2Z.inj_add, !Z.pow_add_r in HT by lia. simpl in HT. lia. }
  change (256 ^ Z.of_nat 2) with (256 * 256). change (256 ^ Z.of_nat 1) with 256.
  rewrite <- Z.div_div by lia.
  pose proof (Z.div_mod q 256 ltac:(lia)).
  pose proof (Z.div_mod (q / 256) 256 ltac:(lia)).
  pose proof (Z.mod_pos_bound q 256 ltac:(lia)).
  pose proof (Z.mod_pos_bound (q / 256) 256 ltac:(lia)).
  rewrite (Z.mod_small (q / 256 / 256)).
  2: { rewrite Z.div_div by lia. split; [apply Z.div_pos; lia|].
       apply Z.div_lt_upper_bound; lia. }
  rewrite lor_shiftl_add.
  2: lia.
  2: { rewrite Z.shiftl_mul_pow2 by lia. lia. }
  rewrite Z.shiftl_mul_pow2 by lia.
  replace (q / 256 / 256 * 2 ^ 16 + (q / 256) mod 256 * 2 ^ 8)
    with (Z.shiftl (q / 256) 8) by (rewrite Z.shiftl_mul_pow2 by lia; lia).
  rewrite lor_shiftl_add by lia. lia.
Qed.

Lemma land_bit23 m : 0 ≤ m < 2 ^ 24 → Z.land m 0x00800000 = if m <? 2 ^ 23 then 0 else 2 ^ 23.
Proof.
  intros Hm. change 0x00800000 with (Z.shiftl 1 23). apply Z.bits_inj'. intros n Hn.
  rewrite Z.land_spec, Z.shiftl_1_l, Z.pow2_bits_eqb by lia.
  destruct (Z.eqb_spec 23 n) as [<-|Hne].
  - rewrite andb_true_r, Z.testbit_eqb by lia. destruct (Z.ltb_spec m (2 ^ 23)).
    + by rewrite Z.div_small by lia.
    + assert (m / 2 ^ 23 = 1) as -> by (symmetry; apply Z.div_unique with (m - 2 ^ 23); lia).
      by rewrite Z.pow2_bits_true.
  - rewrite andb_false_r. destruct (Z.ltb_spec m (2 ^ 23)); [by rewrite Z.bits_0|].
    by rewrite Z.pow2_bits_false.
Qed.

Lemma BigToCompact_large T (k : nat) :
  256 ^ Z.of_nat (k + 2) ≤ T < 256 ^ Z.of_nat (k + 3) → (0 < k)%nat → (k + 3 < 256)%nat →
  T / 256 ^ Z.of_nat k < 2 ^ 23 ∨ (k + 4 < 256)%nat →
  BigToCompact T =
    let q := T / 256 ^ Z.of_nat k in
    if q <? 2 ^ 23 then compact (Z.of_nat k + 3) q
    else compact (Z.of_nat k + 4) (q / 256).
Proof.
  intros HT Hk Hk' Hq'. destruct (big_bytes_top3 T k HT) as [Hlen Htop].
  assert (0 < 256 ^ Z.of_nat (k + 2)) by (apply Z.pow_pos_nonneg; lia).
  unfold BigToCompact. rewrite Z.sgn_pos by lia. simpl (1 =? 0). cbv iota.
  rewrite Hlen. rewrite (u32_small (Z.of_nat (k + 3))) by lia.
  destruct (Z.leb_spec (Z.of_nat (k + 3)) 3); [lia|]. rewrite Htop.
  cbv zeta. set (q := T / 256 ^ Z.of_nat k) in *.
  assert (0 ≤ q < 2 ^ 24) as Hq.
  { split; [apply Z.div_pos; lia|]. apply Z.div_lt_upper_bound; [lia|].
    rewrite !Nat2Z.inj_add, !Z.pow_add_r in HT by lia. simpl in HT. lia. }
  rewrite land_bit23 by done.
  destruct (Z.ltb_spec q (2 ^ 23)); simpl negb; cbv iota.
  - unfold compact. rewrite u32_small by (rewrite Z.shiftl_mul_pow2; lia).
    do 2 f_equal. lia.
  - unfold compact. rewrite u32_small by (rewrite Z.shiftl_mul_pow2, u32_small; lia).
    rewrite u32_small by lia. rewrite Z.shiftr_div_pow2 by lia.
    do 2 f_equal. lia.
Qed.

Lemma compact_split c :
  0 ≤ c < 2 ^ 32 → c = compact (Z.shiftr c 24) (Z.land c 0xffffff).
Proof.
  intros Hc. unfold compact. change 0xffffff with (2 ^ 24 - 1).
  rewrite land_ones_mod by lia.
  rewrite lor_shiftl_add by (lia || apply Z.mod_pos_bound; lia).
  rewrite Z.shiftr_div_pow2 by lia. rewrite Z.mul_comm. apply Z.div_mod. lia.
Qed.

Lemma scale_pow256 k q :
  65536 ≤ q < 16777216 →
  256 ^ Z.of_nat (k + 2) ≤ q * 256 ^ Z.of_nat k < 256 ^ Z.of_nat (k + 3).
Proof.
  intros Hq. rewrite !Nat2Z.inj_add, !Z.pow_add_r by lia.
  change (256 ^ Z.of_nat 2) with 65536. change (256 ^ Z.of_nat 3) with 16777216.
  assert (0 < 256 ^ Z.of_nat k) by (apply Z.pow_pos_nonneg; lia). nia.
Qed.

(** ** The properties *)

(** Decoding a compact target and encoding it again is the identity on
    every canonical encoding (sign bit clear, leading mantissa byte in use)
    whose target is at least [2^24]. *)
Theorem compact_roundtrip c :
  0 ≤ c < 2 ^ 32 →
  0x8000 ≤ Z.land c 0xffffff < 2 ^ 23 →
  2 ^ 24 ≤ compactToBig c →
  BigToCompact (compactToBig c) = c.
Proof.
  intros Hc Hm HT. pose proof (compact_split c Hc) as Ec.
  set (size := Z.shiftr c 24) in *. set (m := Z.land c 0xffffff) in *.
  assert (size < 256) as Hs.
  { unfold size. rewrite Z.shiftr_div_pow2 by lia. apply Z.div_lt_upper_bound; lia. }
  assert (3 < size) as Hs3.
  { destruct (Z.le_gt_cases size 3) as [Hle|]; [|done]. exfalso.
    unfold compactToBig in HT. fold size in HT. rewrite (proj2 (Z.leb_le size 3) Hle) in HT.
    assert (0 ≤ Z.land c 0x007fffff < 2 ^ 23).
    { change 0x007fffff with (2 ^ 23 - 1). rewrite land_ones_mod by lia.
      apply Z.mod_pos_bound. lia. }
    assert (0 ≤ size) by (apply Z.shiftr_nonneg; lia).
    rewrite Z.shiftr_div_pow2 in HT by lia.
    assert (Z.land c 8388607 `div` 2 ^ (8 * (3 - size)) ≤ Z.land c 8388607).
    { apply Z.div_le_upper_bound; [apply Z.pow_pos_nonneg; lia|].
      assert (1 ≤ 2 ^ (8 * (3 - size))) by (apply Z.lt_pred_le, Z.pow_pos_nonneg; lia). nia. }
    assert (0 ≤ Z.land c 8388607 `div` 2 ^ (8 * (3 - size))).
    { apply Z.div_pos; [lia|apply Z.pow_pos_nonneg; lia]. }
    destruct (negb _); lia. }
  rewrite Ec in HT |- *. rewrite compactToBig_compact in * by lia.
  set (k := Z.to_nat (size - 3)).
  replace (size - 3) with (Z.of_nat k) in * by lia.
  assert (0 < 256 ^ Z.of_nat k) as Hp by (apply Z.pow_pos_nonneg; lia).
  destruct (Z.le_gt_cases 0x10000 m) as [Hbig|Hsmall].
  - rewrite (BigToCompact_large _ k); [|apply scale_pow256; lia|lia|lia|rewrite Z.div_mul; lia].
    cbv zeta. rewrite Z.div_mul by lia. rewrite (proj2 (Z.ltb_lt m (2 ^ 23))) by lia.
    f_equal. lia.
  - assert (1 < k)%nat as Hk1.
    { destruct (decide (k = 1)%nat) as [E|]; [|lia]. rewrite E in HT. change (256 ^ Z.of_nat 1) with 256 in HT. lia. }
    assert (256 ^ Z.of_nat k = 256 * 256 ^ Z.of_nat (k - 1)) as E.
    { rewrite <- Z.pow_succ_r by lia. f_equal. lia. }
    assert (0 < 256 ^ Z.of_nat (k - 1)) by (apply Z.pow_pos_nonneg; lia).
    replace (m * 256 ^ Z.of_nat k) with (m * 256 * 256 ^ Z.of_nat (k - 1)) by lia.
    rewrite (BigToCompact_large _ (k - 1)); [|apply scale_pow256; lia|lia|lia|lia].
    cbv zeta.
    rewrite Z.div_mul by lia. rewrite (proj2 (Z.ltb_ge (m * 256) (2 ^ 23))) by lia.
    rewrite Z.div_mul by lia. f_equal. lia.
Qed.

Lemma compact_roundtrip_witness : BigToCompact (compactToBig 0x1d00ffff) = 0x1d00ffff.
Proof. apply (compact_roundtrip 0x1d00ffff); eval_true. Defined.

(** Below [2^24] the encoder loses the low bytes of the target, so the
    easiest regression targets do not survive: [0x12] becomes zero. *)
Theorem BigToCompact_small_loses :
  compactToBig 0x01120000 = 0x12 ∧ compactToBig (BigToCompact 0x12) = 0.
Proof. split; reflexivity. Qed.

Section pow_properties.
Context {H : Type} `{WireHeaderLaws H}.

(** A header is mined when its hash, read as a little-endian number, does
    not exceed a positive target. *)
Definition mined (x : hdr_info) : Prop :=
  0 < compactToBig (hi_bits x) ∧ le_bytes_z (hi_hash x) ≤ compactToBig (hi_bits x).

#[global] Instance mined_dec x : Decision (mined x).
Proof. unfold mined. apply _. Defined.

Lemma sgn_nonpos z : (Z.sgn z <=? 0) = bool_decide (z ≤ 0).
Proof. case_bool_decide; [apply Z.leb_le|apply Z.leb_gt]; lia. Qed.

Lemma ValidatePoW_mined (h : H) : ValidatePoW h = Ok () ↔ mined (info h).
Proof.
  unfold ValidatePoW, mined. cbv zeta. rewrite sgn_nonpos.
  rewrite (hashToBig_le (hdr_hash h) (hdr_hash_length h)). simpl.
  case_bool_decide; [split; [done|lia]|].
  destruct (Z.ltb_spec (compactToBig (hdr_bits h)) (le_bytes_z (hdr_hash h)));
    (split; [done|lia]) || (split; [lia|done]).
Qed.

Lemma ValidatePoW_not_panic (h : H) : ValidatePoW h ≠ Panic.
Proof. unfold ValidatePoW. case_all; done. Qed.

(** [ValidatePoW] accepts exactly the mined headers, and it never panics:
    every other header is rejected with one of the two errors. *)
Theorem ValidatePoW_iff (h : H) :
  (ValidatePoW h = Ok () ↔ mined (info h)) ∧
  (¬ mined (info h) → ∃ e, ValidatePoW h = Err e).
Proof.
  pose proof (ValidatePoW_mined h) as Hm. pose proof (ValidatePoW_not_panic h).
  split; [done|]. intros Hn. destruct (ValidatePoW h) as [[]|e|]; [|eauto|done].
  destruct Hn. by apply Hm.
Qed.

(** Headers linked to each other, the first one to [prev], all mined. *)
Fixpoint linked_from (prev : bytes) (c : list hdr_info) : Prop :=
  match c with
  | [] => True
  | x :: c' => hi_prev x = prev ∧ linked_from (hi_hash x) c'
  end.

Lemma validate_chain_loop_iff i prev (hs : list H) :
  validate_chain_loop i prev hs = Ok () ↔
  linked_from prev (info <$> hs) ∧ Forall mined (info <$> hs).
Proof.
  revert i prev. induction hs as [|h hs IH]; intros i prev; [simpl; naive_solver|].
  cbn [validate_chain_loop fmap list_fmap linked_from]. rewrite Forall_cons_iff.
  case_bool_decide as Hp; [|split; [done|intros [[? _] _]; done]].
  pose proof (ValidatePoW_mined h) as Hv.
  destruct (ValidatePoW h) as [[]|e|] eqn:E; [..|by apply ValidatePoW_not_panic in E].
  - rewrite IH. simpl. naive_solver.
  - split; [done|]. intros (_ & Hm & _). by apply Hv in Hm.
Qed.

(** [ValidateHeaderChain] accepts exactly the chains whose headers are
    linked by previous hashes from [expectedPrevHash] and all mined. *)
Theorem ValidateHeaderChain_iff (hs : list H) prev :
  ValidateHeaderChain hs prev = Ok () ↔
  linked_from prev (info <$> hs) ∧ Forall mined (info <$> hs).
Proof. apply validate_chain_loop_iff. Qed.

(** Work as a function of the compact target. *)
Definition work_of_bits (bits : Z) : Z :=
  if bool_decide (compactToBig bits ≤ 0) then 0 else 2 ^ 256 / (compactToBig bits + 1).

Lemma WorkForHeader_bits (h : H) : WorkForHeader h = work_of_bits (hdr_bits h).
Proof.
  unfold WorkForHeader, work_of_bits. rewrite sgn_nonpos.
  case_bool_decide; [done|]. by rewrite Z.shiftl_1_l.
Qed.

Lemma CumulativeWork_app (l1 l2 : list H) :
  CumulativeWork (l1 ++ l2) = CumulativeWork l1 + CumulativeWork l2.
Proof.
  unfold CumulativeWork. rewrite foldl_app.
  generalize (foldl (λ total hdr, total + WorkForHeader hdr) 0 l1) as a.
  induction l2 as [|h l2 IH] using rev_ind; intros a; [simpl; lia|].
  rewrite !foldl_snoc, IH. lia.
Qed.

(** The work of a header counts the hash attempts its target asks for:
    it is the largest [w] with [w * (target + 1) <= 2^256], so a harder
    target never weighs less. *)
Theorem WorkForHeader_spec (h h' : H) :
  0 < compactToBig (hdr_bits h) →
  WorkForHeader h * (compactToBig (hdr_bits h) + 1) ≤ 2 ^ 256
    < (WorkForHeader h + 1) * (compactToBig (hdr_bits h) + 1)
  ∧ (compactToBig (hdr_bits h) ≤ compactToBig (hdr_bits h') →
     WorkForHeader h' ≤ WorkForHeader h).
Proof.
  intros Ht. rewrite !WorkForHeader_bits. unfold work_of_bits.
  rewrite bool_decide_false by lia. set (t := compactToBig (hdr_bits h)) in *.
  pose proof (Z.div_mod (2 ^ 256) (t + 1) ltac:(lia)).
  pose proof (Z.mod_pos_bound (2 ^ 256) (t + 1) ltac:(lia)).
  split; [lia|]. intros Ht'. rewrite bool_decide_false by lia.
  apply Z.div_le_compat_l; lia.
Qed.
End pow_properties.
