(* ===== verification/RawHeader.v ===== *)
(** * Bitcoin block headers

    The 80-byte header of the Bitcoin protocol, an instance of the interface
    [WireHeader]: it shows that the laws of the interface can hold, and lets
    the theorems about the header store be evaluated on real headers. *)

From Stdlib Require Import Init.Byte Strings.Byte Strings.String Lia ZArith.
From stdpp Require Import base gmap sets list strings numbers.
From S2P Require Import Prelude GoStd Sha256 Pow.
Open Scope Z_scope.

Record raw_header := RawHeader {
  rh_bytes : bytes;
  rh_length : bool_decide (length rh_bytes = 80%nat)
}.

Lemma raw_header_length r : length (rh_bytes r) = 80%nat.
Proof. exact (bool_decide_unpack _ (rh_length r)). Qed.

Definition sized (n : nat) (b : bytes) : bytes := take n (b ++ replicate n x00).

Lemma length_sized n b : length (sized n b) = n.
Proof. unfold sized. rewrite length_take, length_app, length_replicate. lia. Qed.

Definition raw_make (version : Z) (prev merkle : bytes) (bits nonce time : Z) : bytes :=
  z_le_bytes 4 version ++ sized 32 prev ++ sized 32 merkle ++
  z_le_bytes 4 time ++ z_le_bytes 4 bits ++ z_le_bytes 4 nonce.

Lemma length_raw_make v p m b n t : length (raw_make v p m b n t) = 80%nat.
Proof.
  unfold raw_make. rewrite !length_app, !length_sized, !length_z_le_bytes. done.
Qed.

Definition raw_deserialize (b : bytes) : option raw_header :=
  match decide (bool_decide (length (take 80 b) = 80%nat)) with
  | left E => Some (RawHeader (take 80 b) E)
  | right _ => None
  end.

#[export] Instance raw_wire_header : WireHeader raw_header := {
  hdr_make v p m b n t :=
    RawHeader (raw_make v p m b n t) (bool_decide_pack _ (length_raw_make v p m b n t));
  hash_from_str s := if decide (length s = 64%nat) then b ← hex_decode s; Some (rev b) else None;
  hdr_prev r := take 32 (drop 4 (rh_bytes r));
  hdr_merkle r := take 32 (drop 36 (rh_bytes r));
  hdr_bits r := le_bytes_z (take 4 (drop 72 (rh_bytes r)));
  hdr_hash r := sum256 (sum256 (rh_bytes r));
  hdr_serialize r := Some (rh_bytes r);
  hdr_deserialize := raw_deserialize
}.

#[export] Instance raw_wire_header_laws : WireHeaderLaws raw_header.
Proof.
  split; simpl; intros.
  - apply length_sum256.
  - rewrite length_take, length_drop, raw_header_length. done.
  - rewrite length_take, length_drop, raw_header_length. done.
  - pose proof (le_bytes_z_bound (take 4 (drop 72 (rh_bytes h)))) as Hb.
    rewrite length_take, length_drop, raw_header_length in Hb. exact Hb.
  - simplify_eq. unfold raw_deserialize.
    assert (take 80 (rh_bytes h) = rh_bytes h) as E
      by (apply take_ge; rewrite raw_header_length; lia).
    case_match eqn:Hd.
    + eexists. split; [done|]. unfold info. simpl. by rewrite E.
    + exfalso. apply n. rewrite E. apply bool_decide_pack, raw_header_length.
Qed.

(** The genesis header of the chain, its hash, and its proof of work. *)
Definition mainnet_genesis : raw_header :=
  hdr_make 1 (replicate 32 x00)
    (default [] (hash_from_str (H:=raw_header)
      (lit "4a5e1e4baab89f3a32518a88c31bc87f618f76673e2cc77ab2127b7afdeda33b")))
    0x1d00ffff 2083236893 1231006505.

Example mainnet_genesis_hash :
  hex_encode (rev (hdr_hash mainnet_genesis))
  = lit "000000000019d6689c085ae165831e934ff763ae46a2a6c172b3f1b60a8ce26f".
Proof. vm_compute. reflexivity. Qed.

Example mainnet_genesis_pow : ValidatePoW mainnet_genesis = Ok ().
Proof. vm_compute. reflexivity. Qed.

(** The header of block 1. *)
Definition mainnet_block1 : raw_header :=
  hdr_make 1 (hdr_hash mainnet_genesis)
    (default [] (hash_from_str (H:=raw_header)
      (lit "0e3e2357e806b6cdb1f70b54c3a3a17b6714ee1f0e68bebb44a74b1efd512098")))
    0x1d00ffff 2573394689 1231469665.

Example mainnet_block1_hash :
  hex_encode (rev (hdr_hash mainnet_block1))
  = lit "00000000839a8e6886ab5951d76f411475428afc90947ee320161bbf18eb6048".
Proof. vm_compute. reflexivity. Qed.

Definition first_headers : list raw_header := [mainnet_genesis; mainnet_block1].

Lemma ValidatePoW_iff_witness : mined (info mainnet_genesis).
Proof. refine (proj1 (proj1 (ValidatePoW_iff mainnet_genesis)) _). vm_compute. reflexivity. Defined.

Lemma ValidateHeaderChain_iff_witness :
  linked_from (replicate 32 x00) (info <$> first_headers) ∧ Forall mined (info <$> first_headers).
Proof.
  refine (proj1 (ValidateHeaderChain_iff first_headers (replicate 32 x00)) _).
  vm_compute. reflexivity.
Defined.

Lemma WorkForHeader_spec_witness :
  WorkForHeader mainnet_block1 ≤ WorkForHeader mainnet_genesis.
Proof.
  refine (proj2 (WorkForHeader_spec mainnet_genesis mainnet_block1 _) _).
  - vm_compute. reflexivity.
  - vm_compute. discriminate.
Defined.
