(* ===== verification/HeaderStore.v ===== *)
(** * The header store ([internal/headers/store.go])

    The block headers of the active chain in LevelDB, with the in-memory tip
    and cumulative work. Each method is one function of the store; a method
    that fails returns the store it leaves behind together with the error. *)

From Stdlib Require Import Init.Byte Strings.Byte Strings.String Lia ZArith.
From stdpp Require Import base gmap sets list strings numbers.
From S2P Require Import Prelude GoStd LevelDB Pow.
Open Scope Z_scope.

(** ** Keys *)

Definition prefixHeader : bytes := lit "h:".
Definition prefixHash : bytes := lit "hi:".
Definition prefixMerkle : bytes := lit "m:".
Definition keyTip : bytes := lit "tip".
Definition keyWork : bytes := lit "work".

Definition heightToKey (prefix : bytes) (height : Z) : bytes := prefix ++ put_uint32_be height.
Definition hashToKey (hash : bytes) : bytes := prefixHash ++ hash.

(** ** State and operations *)

Record Store (DB : Type) := MkStore {
  st_db : DB;
  st_tip : Z;
  st_work : Z;
  st_skipPoW : bool
}.
Arguments MkStore {DB}.
Arguments st_db {DB}.
Arguments st_tip {DB}.
Arguments st_work {DB}.
Arguments st_skipPoW {DB}.

Inductive store_err :=
  | ErrOpen (e : kv_err)
  | ErrReadTip (e : kv_err)
  | ErrReadWork (e : kv_err)
  | ErrStartHeight (want got : Z)
  | ErrGetTipHash (e : store_err)
  | ErrPrevHash (i height : Z)
  | ErrPoW (i height : Z) (e : pow_err)
  | ErrSerialize (i : Z)
  | ErrWrite (e : kv_err)
  | ErrRollbackTarget (toHeight tip : Z)
  | ErrReadHeader (h : Z) (e : kv_err)
  | ErrDeserialize (h : Z)
  | ErrKV (e : kv_err)
  | ErrGenesis (e : store_err).

Section store.
Context {DB : Type} `{LevelDB DB} {Hdr : Type} `{WireHeader Hdr}.
Abbreviation store := (Store DB).

Definition Tip (s : store) : Z := st_tip s.
Definition Work (s : store) : Z := st_work s.
Definition CurrentHeight (s : store) : Z := st_tip s.

Definition HeaderAtHeight (s : store) (height : Z) : res store_err bytes :=
  match db_get (st_db s) (heightToKey prefixHeader height) with
  | inl e => Err (ErrKV e)
  | inr raw => Ok raw
  end.

Definition hashAtHeight (s : store) (height : Z) : res store_err bytes :=
  match db_get (st_db s) (heightToKey prefixHeader height) with
  | inl e => Err (ErrKV e)
  | inr raw =>
      match hdr_deserialize (H:=Hdr) raw with
      | None => Err (ErrDeserialize height)
      | Some hdr => Ok (hdr_hash hdr)
      end
  end.

Definition HashAtHeight (s : store) (height : Z) : res store_err bytes := hashAtHeight s height.

Definition HeightForHash (s : store) (hash : bytes) : res store_err Z :=
  match db_get (st_db s) (hashToKey hash) with
  | inl e => Err (ErrKV e)
  | inr val => uint32_be val
  end.

Definition IsValidRootForHeight (s : store) (root : bytes) (height : Z) : res store_err bool :=
  match db_get (st_db s) (heightToKey prefixMerkle height) with
  | inl ErrNotFound => Ok false
  | inl e => Err (ErrKV e)
  | inr merkle => Ok (bool_decide (merkle = root))
  end.

(** The writes of one header at a height. *)
Definition header_puts (height : Z) (raw : bytes) (hdr : Hdr) : list batch_op :=
  [BPut (heightToKey prefixHeader height) raw;
   BPut (hashToKey (hdr_hash hdr)) (put_uint32_be height);
   BPut (heightToKey prefixMerkle height) (hdr_merkle hdr)].

(** The loop of [AddHeaders]: the batch, the height after the last header
    and the work added. *)
Fixpoint add_loop (skipPoW : bool) (tipHash : bytes) (height i : Z) (batch : list batch_op)
    (batchWork : Z) (headers : list Hdr) : res store_err (list batch_op * Z * Z) :=
  match headers with
  | [] => Ok (batch, height, batchWork)
  | hdr :: headers' =>
      if bool_decide (hdr_prev hdr = tipHash) then
        let pow := if skipPoW then Ok () else ValidatePoW hdr in
        match pow with
        | Err e => Err (ErrPoW i height e)
        | Panic => Panic
        | Ok _ =>
            match hdr_serialize hdr with
            | None => Err (ErrSerialize i)
            | Some buf =>
                add_loop skipPoW (hdr_hash hdr) (u32 (height + 1)) (i + 1)
                  (batch ++ header_puts height buf hdr)
                  (batchWork + WorkForHeader hdr) headers'
            end
        end
      else Err (ErrPrevHash i height)
  end.

Definition AddHeaders (s : store) (startHeight : Z) (headers : list Hdr)
    : store * res store_err unit :=
  if negb (startHeight =? u32 (st_tip s + 1)) then
    (s, Err (ErrStartHeight (u32 (st_tip s + 1)) startHeight))
  else if bool_decide (length headers = 0%nat) then (s, Ok ())
  else
    match hashAtHeight s (st_tip s) with
    | Err e => (s, Err (ErrGetTipHash e))
    | Panic => (s, Panic)
    | Ok tipHash =>
        match add_loop (st_skipPoW s) tipHash startHeight 0 [] 0 headers with
        | Err e => (s, Err e)
        | Panic => (s, Panic)
        | Ok (batch, height, batchWork) =>
            let newTip := u32 (height - 1) in
            let newWork := st_work s + batchWork in
            let batch := batch ++ [BPut keyTip (put_uint32_be newTip)] in
            let batch := batch ++ [BPut keyWork (big_bytes newWork)] in
            match db_write (st_db s) batch with
            | (db', Some e) => (MkStore db' (st_tip s) (st_work s) (st_skipPoW s), Err (ErrWrite e))
            | (db', None) => (MkStore db' newTip newWork (st_skipPoW s), Ok ())
            end
        end
    end.

(** The loop of [Rollback], from height [h] down, [n] headers. *)
Fixpoint rollback_loop (s : store) (n : nat) (h : Z) (batch : list batch_op) (rollbackWork : Z)
    : res store_err (list batch_op * Z) :=
  match n with
  | O => Ok (batch, rollbackWork)
  | S n' =>
      match db_get (st_db s) (heightToKey prefixHeader h) with
      | inl e => Err (ErrReadHeader h e)
      | inr raw =>
          match hdr_deserialize (H:=Hdr) raw with
          | None => Err (ErrDeserialize h)
          | Some hdr =>
              rollback_loop s n' (u32 (h - 1))
                (batch ++ [BDelete (heightToKey prefixHeader h);
                           BDelete (hashToKey (hdr_hash hdr));
                           BDelete (heightToKey prefixMerkle h)])
                (rollbackWork + WorkForHeader hdr)
          end
      end
  end.

Definition Rollback (s : store) (toHeight : Z) : store * res store_err unit :=
  if st_tip s <=? toHeight then (s, Err (ErrRollbackTarget toHeight (st_tip s)))
  else
    match rollback_loop s (Z.to_nat (st_tip s - toHeight)) (st_tip s) [] 0 with
    | Err e => (s, Err e)
    | Panic => (s, Panic)
    | Ok (batch, rollbackWork) =>
        let batch := batch ++ [BPut keyTip (put_uint32_be toHeight)] in
        let newWork := st_work s - rollbackWork in
        let batch := batch ++ [BPut keyWork (big_bytes newWork)] in
        match db_write (st_db s) batch with
        | (db', Some e) => (MkStore db' (st_tip s) (st_work s) (st_skipPoW s), Err (ErrWrite e))
        | (db', None) => (MkStore db' toHeight newWork (st_skipPoW s), Ok ())
        end
    end.

(** *** Opening the store *)

Definition mustHash (s : bytes) : res store_err bytes :=
  match hash_from_str (H:=Hdr) s with Some h => Ok h | None => Panic end.

(** [genesisHeaderBytes]: [Serialize]'s error is ignored there. *)
Definition genesisHeaderBytes : res store_err bytes :=
  merkle ← mustHash (lit "4a5e1e4baab89f3a32518a88c31bc87f618f76673e2cc77ab2127b7afdeda33b");
  let h : Hdr := hdr_make 1 (replicate 32 x00) merkle 0x1d00ffff 2083236893 1231006505 in
  Ok (default [] (hdr_serialize h)).

Definition writeGenesis (s : store) : store * res store_err unit :=
  match genesisHeaderBytes with
  | Err e => (s, Err e)
  | Panic => (s, Panic)
  | Ok raw =>
      match hdr_deserialize (H:=Hdr) raw with
      | None => (s, Err (ErrDeserialize 0))
      | Some hdr =>
          let batch := header_puts 0 raw hdr ++ [BPut keyTip (put_uint32_be 0)] in
          match db_write (st_db s) batch with
          | (db', Some e) =>
              (MkStore db' (st_tip s) (st_work s) (st_skipPoW s), Err (ErrWrite e))
          | (db', None) => (MkStore db' 0 (st_work s) (st_skipPoW s), Ok ())
          end
      end
  end.

(** [open] is the outcome of [leveldb.OpenFile]. *)
Definition NewStore (open : kv_err + DB) : res store_err store :=
  match open with
  | inl e => Err (ErrOpen e)
  | inr db =>
      let s := MkStore db 0 0 false in
      s ← (match db_get db keyTip with
           | inl ErrNotFound =>
               match writeGenesis s with
               | (s', Ok _) => Ok s'
               | (_, Err e) => Err e
               | (_, Panic) => Panic
               end
           | inl e => Err (ErrReadTip e)
           | inr tipBytes =>
               tip ← uint32_be tipBytes; Ok (MkStore db tip 0 false)
           end);
      match db_get (st_db s) keyWork with
      | inr workBytes => Ok (MkStore (st_db s) (st_tip s) (be_bytes_z workBytes) (st_skipPoW s))
      | inl ErrNotFound => Ok s
      | inl e => Err (ErrReadWork e)
      end
  end.

Definition NewTestStore (open : kv_err + DB) : res store_err store :=
  s ← NewStore open; Ok (MkStore (st_db s) (st_tip s) (st_work s) true).
End store.
