(* ===== verification/HeaderChain.v ===== *)
(** * The header store refines a chain of headers

    The abstract state is the list of the headers of the active chain, genesis
    first. [store_ok s c] relates a store to its chain; [AddHeaders] appends,
    [Rollback] truncates, and the queries read the chain. *)

From Stdlib Require Import Init.Byte Strings.Byte Strings.String Lia ZArith.
From stdpp Require Import base gmap sets list strings numbers.
From S2P Require Import Prelude GoStd LevelDB Pow HeaderStore.
Open Scope Z_scope.

(** ** Keys *)

Lemma heightToKey_inj p a b :
  0 ≤ a < 2 ^ 32 → 0 ≤ b < 2 ^ 32 → heightToKey p a = heightToKey p b → a = b.
Proof. intros Ha Hb E. apply app_inv_head in E. by apply put_uint32_be_inj. Qed.

Lemma hashToKey_inj a b : hashToKey a = hashToKey b → a = b.
Proof. apply app_inv_head. Qed.

Ltac key_neq :=
  unfold heightToKey, hashToKey, prefixHeader, prefixHash, prefixMerkle, keyTip, keyWork;
  cbn; congruence.

Section view.
Context {Hdr : Type} `{WireHeaderLaws Hdr}.

(** The part of the database that holds the headers of [c]. *)
Record view_ok (m : gmap bytes bytes) (c : list hdr_info) : Prop := {
  vo_header i x : c !! i = Some x → ∃ raw (h : Hdr),
    m !! heightToKey prefixHeader (Z.of_nat i) = Some raw ∧
    hdr_deserialize raw = Some h ∧ info h = x;
  vo_merkle i x : c !! i = Some x →
    m !! heightToKey prefixMerkle (Z.of_nat i) = Some (hi_merkle x);
  vo_hash i x : c !! i = Some x →
    m !! hashToKey (hi_hash x) = Some (put_uint32_be (Z.of_nat i));
  vo_hash_inv hash v : m !! hashToKey hash = Some v →
    ∃ i x, c !! i = Some x ∧ hi_hash x = hash;
  vo_above i : Z.of_nat (length c) ≤ i < 2 ^ 32 →
    m !! heightToKey prefixHeader i = None ∧ m !! heightToKey prefixMerkle i = None;
  vo_nodup : NoDup (hi_hash <$> c);
  vo_size : Z.of_nat (length c) ≤ 2 ^ 32
}.

Lemma header_puts_lookup n raw (h : Hdr) m :
  0 ≤ n < 2 ^ 32 →
  let m' := apply_batch (header_puts n raw h) m in
  (∀ i, 0 ≤ i < 2 ^ 32 → m' !! heightToKey prefixHeader i =
     if decide (i = n) then Some raw else m !! heightToKey prefixHeader i) ∧
  (∀ i, 0 ≤ i < 2 ^ 32 → m' !! heightToKey prefixMerkle i =
     if decide (i = n) then Some (hdr_merkle h) else m !! heightToKey prefixMerkle i) ∧
  (∀ x, m' !! hashToKey x =
     if decide (x = hdr_hash h) then Some (put_uint32_be n) else m !! hashToKey x).
Proof.
  intros Hn m'. unfold m', apply_batch, header_puts. cbn [foldl apply_op].
  split_and!; intros i; intros.
  - rewrite !lookup_insert_ne by key_neq. case_decide as E; [subst; apply lookup_insert_eq|].
    apply lookup_insert_ne. intros E'. apply heightToKey_inj in E'; congruence || done.
  - case_decide as E; [subst; apply lookup_insert_eq|].
    rewrite lookup_insert_ne by (intros E'; apply heightToKey_inj in E'; congruence || done).
    by rewrite !lookup_insert_ne by key_neq.
  - rewrite lookup_insert_ne by key_neq. case_decide as E; [subst; apply lookup_insert_eq|].
    rewrite lookup_insert_ne by (intros E'%hashToKey_inj; congruence).
    by rewrite lookup_insert_ne by key_neq.
Qed.

Lemma view_ok_snoc m c raw (h : Hdr) :
  view_ok m c → hdr_serialize h = Some raw →
  hdr_hash h ∉ hi_hash <$> c → Z.of_nat (length c) < 2 ^ 32 →
  view_ok (apply_batch (header_puts (Z.of_nat (length c)) raw h) m) (c ++ [info h]).
Proof.
  intros [V1 V2 V3 V4 V5 V6 V7] Hs Hf Hl.
  destruct (header_puts_lookup (Z.of_nat (length c)) raw h m ltac:(lia)) as (L1 & L2 & L3).
  destruct (hdr_deserialize_serialize _ _ Hs) as (h' & Hd & Hi).
  assert (∀ i x, (c ++ [info h]) !! i = Some x →
    (c !! i = Some x ∧ (i < length c)%nat) ∨ (i = length c ∧ x = info h)) as Hsplit.
  { intros i x [Hx|[Hge Hx]]%lookup_app_Some; [left; split; [done|by eapply lookup_lt_Some]|].
    apply list_lookup_singleton_Some in Hx as [? <-]. right. split; [lia|done]. }
  split.
  - intros i x [[Hx Hi']|[-> ->]]%Hsplit; rewrite L1 by lia.
    + rewrite decide_False by lia. by apply V1.
    + case_decide; [|done]. by exists raw, h'.
  - intros i x [[Hx Hi']|[-> ->]]%Hsplit; rewrite L2 by lia.
    + rewrite decide_False by lia. by apply V2.
    + by case_decide.
  - intros i x [[Hx Hi']|[-> ->]]%Hsplit; rewrite L3.
    + rewrite decide_False; [by apply V3|]. intros E. apply Hf. rewrite <- E.
      apply list_elem_of_fmap. exists x. split; [done|]. by eapply list_elem_of_lookup_2.
    + by case_decide.
  - intros hash v. rewrite L3. case_decide as E.
    + intros _. exists (length c), (info h). split; [by rewrite lookup_app_r, Nat.sub_diag|done].
    + intros (i & x & Hx & Hh)%V4. exists i, x. split; [|done]. by apply lookup_app_l_Some.
  - intros i Hi'. rewrite length_app in Hi'. simpl in Hi'.
    rewrite L1, L2, !decide_False by lia. apply V5. lia.
  - rewrite fmap_app. apply list.NoDup_app. split_and!; [done| |apply NoDup_singleton].
    intros x Hx Hx'. apply list_elem_of_singleton in Hx' as ->. done.
  - rewrite length_app. simpl. lia.
Qed.

(** Deleting the last header of the chain. *)
Lemma view_ok_unsnoc m c x :
  view_ok m (c ++ [x]) →
  view_ok (apply_batch [BDelete (heightToKey prefixHeader (Z.of_nat (length c)));
                        BDelete (hashToKey (hi_hash x));
                        BDelete (heightToKey prefixMerkle (Z.of_nat (length c)))] m) c.
Proof.
  intros [V1 V2 V3 V4 V5 V6 V7]. rewrite length_app in V5, V7. simpl in V5, V7.
  set (n := Z.of_nat (length c)).
  rewrite fmap_app in V6. apply list.NoDup_app in V6 as (ND & Hf & _).
  unfold apply_batch. cbn [foldl apply_op].
  assert (∀ i y, c !! i = Some y → (c ++ [x]) !! i = Some y ∧ (i < length c)%nat) as Hc.
  { intros i y Hy. split; [by apply lookup_app_l_Some|by eapply lookup_lt_Some]. }
  split.
  - intros i y [Hy Hi]%Hc. rewrite lookup_delete_ne by key_neq.
    rewrite lookup_delete_ne by key_neq.
    rewrite lookup_delete_ne by (intros E; apply heightToKey_inj in E; lia). by apply V1.
  - intros i y [Hy Hi]%Hc.
    rewrite lookup_delete_ne by (intros E; apply heightToKey_inj in E; lia).
    rewrite !lookup_delete_ne by key_neq. by apply V2.
  - intros i y Hy. pose proof (Hc _ _ Hy) as [Hy' Hi].
    rewrite lookup_delete_ne by key_neq.
    rewrite lookup_delete_ne.
    2: { intros E%hashToKey_inj. apply (Hf (hi_hash y)).
         - apply list_elem_of_fmap. exists y. split; [done|]. by eapply list_elem_of_lookup_2.
         - rewrite <- E. by left. }
    rewrite lookup_delete_ne by key_neq. by apply V3.
  - intros hash v. rewrite lookup_delete_ne by key_neq.
    intros [Hne Hv]%lookup_delete_Some. rewrite lookup_delete_ne in Hv by key_neq.
    destruct (V4 _ _ Hv) as (i & y & Hy & Hh). exists i, y. split; [|done].
    apply lookup_app_Some in Hy as [Hy|[_ Hy]]; [done|].
    apply list_lookup_singleton_Some in Hy as [_ ->]. by subst.
  - intros i Hi. destruct (decide (i = n)) as [->|Hne].
    + split.
      * rewrite !lookup_delete_ne by key_neq. apply lookup_delete_eq.
      * apply lookup_delete_eq.
    + destruct (V5 i ltac:(lia)) as [E1 E2]. split.
      * rewrite !lookup_delete_ne by key_neq. by apply lookup_delete_None; right.
      * apply lookup_delete_None. right. by rewrite !lookup_delete_ne by key_neq.
  - done.
  - lia.
Qed.

(** The tip and work entries are outside the header part. *)
Lemma view_ok_put_meta m c k v :
  k = keyTip ∨ k = keyWork → view_ok m c → view_ok (<[k := v]> m) c.
Proof.
  intros Hk [V1 V2 V3 V4 V5 V6 V7].
  assert (∀ p i, p = prefixHeader ∨ p = prefixMerkle →
    <[k := v]> m !! heightToKey p i = m !! heightToKey p i) as L1.
  { intros p i [->| ->]; apply lookup_insert_ne; destruct Hk as [->| ->]; key_neq. }
  assert (∀ x, <[k := v]> m !! hashToKey x = m !! hashToKey x) as L2.
  { intros x. apply lookup_insert_ne; destruct Hk as [->| ->]; key_neq. }
  split; intros *; rewrite ?L1, ?L2 by auto; auto; [eauto..].
Qed.
End view.

(** ** The chain a store holds *)

Definition work_sum (c : list hdr_info) : Z :=
  foldr (λ x w, work_of_bits (hi_bits x) + w) 0 c.

Lemma work_sum_cons x c : work_sum (x :: c) = work_of_bits (hi_bits x) + work_sum c.
Proof. done. Qed.

Lemma work_sum_app c1 c2 : work_sum (c1 ++ c2) = work_sum c1 + work_sum c2.
Proof. induction c1; simpl; lia. Qed.

Lemma work_of_bits_nonneg b : 0 ≤ work_of_bits b.
Proof. unfold work_of_bits. case_bool_decide; [lia|]. apply Z.div_pos; lia. Qed.

Lemma work_sum_nonneg c : 0 ≤ work_sum c.
Proof. induction c as [|x c IH]; simpl; [lia|]. pose proof (work_of_bits_nonneg (hi_bits x)). lia. Qed.

Lemma linked_from_app prev c1 c2 :
  linked_from prev (c1 ++ c2) ↔
  linked_from prev c1 ∧ linked_from (from_option hi_hash prev (list.last c1)) c2.
Proof.
  revert prev. induction c1 as [|x c1 IH]; intros prev; [simpl; naive_solver|].
  cbn [app linked_from]. rewrite IH. rewrite list.last_cons.
  destruct (list.last c1); simpl; naive_solver.
Qed.

Section chain.
Context {DB : Type} `{LevelDBLaws DB} {Hdr : Type} `{WireHeaderLaws Hdr}.
Abbreviation store := (Store DB).
Implicit Types (s : store) (c : list hdr_info) (hs : list Hdr).

(** A store that holds the chain [g :: c], genesis [g] first. *)
Record store_ok s (g : hdr_info) c : Prop := {
  so_view : view_ok (Hdr:=Hdr) (db_view (st_db s)) (g :: c);
  so_tip : st_tip s = Z.of_nat (length c);
  so_keyTip : db_view (st_db s) !! keyTip = Some (put_uint32_be (st_tip s));
  so_keyWork : db_view (st_db s) !! keyWork = Some (big_bytes (st_work s)) ∨
               db_view (st_db s) !! keyWork = None ∧ st_work s = 0;
  so_work : st_work s = work_sum c;
  so_linked : linked_from (hi_hash g) c;
  so_mined : st_skipPoW s = false → Forall mined c
}.

Lemma so_tip_range s g c : store_ok s g c → 0 ≤ st_tip s < 2 ^ 32.
Proof. intros [V T _ _ _ _ _]. destruct V as [_ _ _ _ _ _ Hs]. simpl in Hs. lia. Qed.

(** The hash of the tip. *)
Definition tip_hash (g : hdr_info) c : bytes := hi_hash (default g (list.last c)).

Lemma tip_lookup g c : (g :: c) !! length c = Some (default g (list.last c)).
Proof.
  rewrite <- (list.last_snoc (default g (list.last c)) []). destruct c as [|x c] using rev_ind; [done|].
  rewrite !list.last_snoc, length_app, Nat.add_1_r. simpl. by rewrite lookup_app_r, Nat.sub_diag.
Qed.

Lemma view_hashAtHeight s c i x h :
  view_ok (Hdr:=Hdr) (db_view (st_db s)) c → c !! i = Some x →
  hashAtHeight (Hdr:=Hdr) s (Z.of_nat i) = Ok h → h = hi_hash x.
Proof.
  intros V Hx. destruct (vo_header _ _ V _ _ Hx) as (raw & hd & Hr & Hd & <-).
  unfold hashAtHeight. destruct (db_get _ _) as [|raw'] eqn:Hg; [done|].
  apply db_get_ok in Hg. simplify_eq. rewrite Hd. by intros [= <-].
Qed.

Lemma last_default_linked g c c' :
  linked_from (hi_hash g) c → linked_from (tip_hash g c) c' →
  linked_from (hi_hash g) (c ++ c').
Proof.
  intros Hc Hc'. apply linked_from_app. split; [done|]. unfold tip_hash in Hc'.
  by destruct (list.last c).
Qed.

(** The batch of [AddHeaders] extends the chain. *)
Lemma add_loop_spec skip prev height i batch w hs batch' height' w' m c :
  add_loop skip prev height i batch w hs = Ok (batch', height', w') →
  view_ok (Hdr:=Hdr) (apply_batch batch m) c → height = u32 (Z.of_nat (length c)) →
  NoDup (hi_hash <$> c ++ (info <$> hs)) →
  Z.of_nat (length c + length hs) ≤ 2 ^ 32 →
  view_ok (Hdr:=Hdr) (apply_batch batch' m) (c ++ (info <$> hs)) ∧
  height' = u32 (Z.of_nat (length c + length hs)) ∧
  w' = w + work_sum (info <$> hs) ∧
  linked_from prev (info <$> hs) ∧ (skip = false → Forall mined (info <$> hs)).
Proof.
  revert prev height i batch w c.
  induction hs as [|h hs IH]; intros prev height i batch w c Hl V -> ND Hsz.
  { injection Hl as <- <- <-. rewrite app_nil_r, Nat.add_0_r. simpl. auto with lia. }
  cbn [add_loop] in Hl. case_bool_decide as Hp; [|done].
  assert ((if skip then Ok () else ValidatePoW h) = Ok () ∧ ∃ buf, hdr_serialize h = Some buf)
    as [Hpow [buf Hbuf]].
  { destruct (if skip then _ else _) as [[]| |]; [|done..].
    destruct (hdr_serialize h); [eauto|done]. }
  rewrite Hpow, Hbuf in Hl. simpl in Hsz.
  assert (c ++ (info <$> h :: hs) = (c ++ [info h]) ++ (info <$> hs)) as E.
  { by rewrite <- (assoc_L (++)). }
  rewrite E in *. apply (IH _ _ _ _ _ (c ++ [info h])) in Hl.
  - rewrite length_app in Hl. simpl in Hl. destruct Hl as (V' & -> & -> & Hlk & Hm).
    split_and!; [done|cbn [length]; f_equal; lia|rewrite WorkForHeader_bits, fmap_cons, work_sum_cons; simpl; lia|done|].
    intros Hs. apply list.Forall_cons. split; [|auto]. subst skip.
    by apply ValidatePoW_mined.
  - rewrite apply_batch_app, u32_small by lia. apply view_ok_snoc; [done..| |lia].
    rewrite fmap_app in ND. apply list.NoDup_app in ND as [ND _].
    rewrite fmap_app in ND. apply list.NoDup_app in ND as (_ & Hf & _).
    intros Hin. apply (Hf _ Hin). by left.
  - rewrite length_app. unfold u32, wrapU. simpl. rewrite Zplus_mod_idemp_l. f_equal. lia.
  - done.
  - rewrite length_app. simpl. lia.
Qed.

Lemma add_loop_complete skip prev height i batch w hs :
  linked_from prev (info <$> hs) → (skip = false → Forall mined (info <$> hs)) →
  (∀ h, h ∈ hs → is_Some (hdr_serialize h)) →
  ∃ r, add_loop skip prev height i batch w hs = Ok r.
Proof.
  revert prev height i batch w. induction hs as [|h hs IH]; intros * Hl Hm Hs; [by eexists|].
  destruct Hl as [Hp Hl]. cbn [add_loop]. simpl in Hp. rewrite bool_decide_true by done.
  assert ((if skip then Ok () else ValidatePoW h) = Ok ()) as ->.
  { destruct skip; [done|]. specialize (Hm eq_refl). apply list.Forall_cons in Hm as [Hm _].
    by apply ValidatePoW_mined. }
  destruct (Hs h ltac:(left)) as [buf ->]. apply IH; [done| |].
  - intros Hk. specialize (Hm Hk). by apply list.Forall_cons in Hm as [_ ?].
  - intros h' Hh'. apply Hs. by right.
Qed.

Lemma add_loop_not_panic skip prev height i batch w hs :
  add_loop skip prev height i batch w hs ≠ Panic.
Proof.
  revert prev height i batch w. induction hs as [|h hs IH]; intros *; [done|].
  cbn [add_loop]. pose proof (ValidatePoW_not_panic h).
  destruct skip, (ValidatePoW h); case_all; done || apply IH.
Qed.

Lemma hashAtHeight_tip s g c h :
  store_ok s g c → hashAtHeight (Hdr:=Hdr) s (st_tip s) = Ok h → h = tip_hash g c.
Proof.
  intros [V T _ _ _ _ _]. rewrite T. apply (view_hashAtHeight _ (g :: c)); [done|].
  apply tip_lookup.
Qed.

(** The final write of both updates: the tip and the work entries. *)
Lemma write_meta_ok db b db' tip work g c skip :
  db_write db ((b ++ [BPut keyTip (put_uint32_be tip)]) ++ [BPut keyWork (big_bytes work)])
    = (db', None) →
  view_ok (Hdr:=Hdr) (apply_batch b (db_view db)) (g :: c) →
  tip = Z.of_nat (length c) → work = work_sum c → linked_from (hi_hash g) c →
  (skip = false → Forall mined c) →
  store_ok (MkStore db' tip work skip) g c.
Proof.
  intros Hw V -> -> Hl Hm. apply db_write_ok in Hw. rewrite !apply_batch_app in Hw.
  unfold apply_batch at 1 2 in Hw. cbn [foldl apply_op] in Hw.
  split; simpl; rewrite ?Hw; try done.
  - apply view_ok_put_meta; [auto|]. apply view_ok_put_meta; auto.
  - rewrite lookup_insert_ne by key_neq. apply lookup_insert_eq.
  - left. apply lookup_insert_eq.
Qed.

Lemma store_ok_same_view s g c db' :
  store_ok s g c → db_view db' = db_view (st_db s) →
  store_ok (MkStore db' (st_tip s) (st_work s) (st_skipPoW s)) g c.
Proof. intros [] E. by split; simpl; rewrite ?E. Qed.

Lemma AddHeaders_not_panic s start hs : (AddHeaders s start hs).2 ≠ Panic.
Proof.
  unfold AddHeaders. case_all; try done.
  - by edestruct add_loop_not_panic.
  - unfold hashAtHeight in *. case_all; done.
Qed.

Lemma AddHeaders_skip s start hs : st_skipPoW (AddHeaders s start hs).1 = st_skipPoW s.
Proof. unfold AddHeaders. case_all; done. Qed.

Lemma AddHeaders_unchanged s g c start hs s' e :
  store_ok s g c → AddHeaders s start hs = (s', Err e) → store_ok s' g c.
Proof.
  intros Hok HA. unfold AddHeaders in HA. case_all; try done.
  apply store_ok_same_view; [done|]. by eapply db_write_err.
Qed.

Lemma AddHeaders_extends s g c start hs s' :
  store_ok s g c → AddHeaders s start hs = (s', Ok ()) →
  NoDup (hi_hash <$> g :: c ++ (info <$> hs)) →
  Z.of_nat (S (length c) + length hs) ≤ 2 ^ 32 →
  start = u32 (st_tip s + 1) ∧ linked_from (tip_hash g c) (info <$> hs) ∧
  (st_skipPoW s = false → Forall mined (info <$> hs)) ∧
  store_ok s' g (c ++ (info <$> hs)).
Proof.
  intros Hok HA ND Hsz. unfold AddHeaders in HA.
  destruct (Z.eqb_spec start (u32 (st_tip s + 1))) as [->|]; simpl in HA; [|done].
  case_bool_decide as Hne.
  { destruct hs; [|done]. simplify_eq. rewrite app_nil_r. by split_and!. }
  destruct (hashAtHeight s (st_tip s)) as [th| |] eqn:Hth; [|done..].
  apply (hashAtHeight_tip _ _ _ _ Hok) in Hth as ->.
  destruct (add_loop _ _ _ _ _ _ _) as [[[b h'] w]|e|] eqn:Hl; [|done..].
  pose proof (so_tip _ _ _ Hok) as HT. pose proof (so_work _ _ _ Hok) as HW.
  apply (add_loop_spec _ _ _ _ _ _ _ _ _ _ (db_view (st_db s)) (g :: c)) in Hl
    as (V & -> & -> & Hlk & Hm); [|apply Hok|simpl; f_equal; lia|done|done].
  destruct (db_write _ _) as [db' [e|]] eqn:Hw; [done|]. injection HA as <-.
  split_and!; [done..|]. eapply write_meta_ok; [done|done|..].
  + rewrite length_app, length_fmap. destruct hs; [done|]. simpl.
    unfold u32, wrapU. rewrite Zminus_mod_idemp_l, Z.mod_small; simpl in Hsz; lia.
  + rewrite work_sum_app. lia.
  + apply last_default_linked; [apply Hok|done].
  + intros Hs. apply Forall_app. split; [by apply Hok|auto].
Qed.

(** C1: [AddHeaders] refines appending to the chain. If it succeeds, the
    start height was the one after the tip, the headers link to the tip and
    to each other, they are mined unless the store skips that check, and the
    store now holds the longer chain with its tip, work and index entries.
    If it fails, the store still holds the chain it held. *)
Theorem AddHeaders_refines s g c start hs s' r :
  store_ok s g c → AddHeaders s start hs = (s', r) →
  NoDup (hi_hash <$> g :: c ++ (info <$> hs)) →
  Z.of_nat (S (length c) + length hs) ≤ 2 ^ 32 →
  r ≠ Panic ∧ (∀ e, r = Err e → store_ok s' g c) ∧
  (r = Ok () →
    start = u32 (st_tip s + 1) ∧ linked_from (tip_hash g c) (info <$> hs) ∧
    (st_skipPoW s = false → Forall mined (info <$> hs)) ∧
    store_ok s' g (c ++ (info <$> hs))).
Proof.
  intros Hok HA ND Hsz. split_and!.
  - pose proof (AddHeaders_not_panic s start hs) as Hp. by rewrite HA in Hp.
  - intros e ->. by eapply AddHeaders_unchanged.
  - intros ->. by eapply AddHeaders_extends.
Qed.

Lemma AddHeaders_accepts `{!LevelDBReliable DB} s g c hs :
  store_ok s g c → hs ≠ [] → linked_from (tip_hash g c) (info <$> hs) →
  (st_skipPoW s = false → Forall mined (info <$> hs)) →
  (∀ h, h ∈ hs → is_Some (hdr_serialize h)) →
  ∃ s', AddHeaders s (u32 (st_tip s + 1)) hs = (s', Ok ()).
Proof.
  intros Hok Hne Hl Hm Hser. unfold AddHeaders. rewrite Z.eqb_refl. simpl.
  rewrite bool_decide_false by (by destruct hs).
  assert (hashAtHeight (Hdr:=Hdr) s (st_tip s) = Ok (tip_hash g c)) as ->.
  { rewrite (so_tip _ _ _ Hok).
    destruct (vo_header _ _ (so_view _ _ _ Hok) _ _ (tip_lookup g c)) as (raw & h & Hr & Hd & Hi).
    unfold hashAtHeight. rewrite db_get_total, Hr, Hd. f_equal. unfold tip_hash. by rewrite <- Hi. }
  destruct (add_loop_complete (st_skipPoW s) (tip_hash g c) (u32 (st_tip s + 1)) 0 [] 0 hs)
    as [[[b h'] w] ->]; [done..|].
  destruct (db_write _ _) as [db' o] eqn:Hw.
  pose proof (db_write_total (st_db s)) as Ht. match type of Hw with db_write _ ?b = _ =>
    specialize (Ht b) end. rewrite Hw in Ht. simpl in Ht. subst o. eauto.
Qed.

(** On a disk that works, [AddHeaders] accepts every batch that starts
    after the tip, links to it and is mined: nothing valid is refused. *)
Theorem AddHeaders_complete `{!LevelDBReliable DB} s g c hs :
  store_ok s g c → hs ≠ [] → linked_from (tip_hash g c) (info <$> hs) →
  (st_skipPoW s = false → Forall mined (info <$> hs)) →
  (∀ h, h ∈ hs → is_Some (hdr_serialize h)) →
  ∃ s', AddHeaders s (u32 (st_tip s + 1)) hs = (s', Ok ()).
Proof. apply AddHeaders_accepts. Qed.

(** ** Rollback *)

Lemma rollback_loop_spec s n : ∀ h batch w batch' w' c0 c1 c2,
  rollback_loop (Hdr:=Hdr) s n h batch w = Ok (batch', w') →
  view_ok (Hdr:=Hdr) (db_view (st_db s)) c0 → (c1 ++ c2) `prefix_of` c0 →
  view_ok (Hdr:=Hdr) (apply_batch batch (db_view (st_db s))) (c1 ++ c2) →
  n = length c2 → c1 ≠ [] → h = Z.of_nat (length c1 + length c2) - 1 →
  view_ok (Hdr:=Hdr) (apply_batch batch' (db_view (st_db s))) c1 ∧ w' = w + work_sum c2.
Proof.
  induction n as [|n IH]; intros h batch w batch' w' c0 c1 c2 Hr V0 Hpre V Hn Hne ->.
  { destruct c2; [|done]. injection Hr as <- <-. rewrite app_nil_r in V.
    split; [done|]. simpl. lia. }
  destruct (rev_list_case c2) as [->|(c2' & x & E)]; [done|]. subst c2; rename c2' into c2.
  rewrite length_app in *. simpl in Hn. cbn [rollback_loop] in Hr.
  replace (Z.of_nat (length c1 + (length c2 + length [x])) - 1)
    with (Z.of_nat (length (c1 ++ c2))) in Hr by (rewrite length_app; simpl; lia).
  assert (c0 !! length (c1 ++ c2) = Some x) as Hx.
  { destruct Hpre as [k ->]. rewrite <- !(assoc_L (++)). rewrite (assoc_L (++)).
    by rewrite lookup_app_r, Nat.sub_diag. }
  destruct (vo_header _ _ V0 _ _ Hx) as (raw & hd & Hraw & Hd & Hi).
  destruct (db_get _ _) as [|raw'] eqn:Hg; [done|]. apply db_get_ok in Hg. simplify_eq.
  rewrite Hd in Hr.
  replace (u32 (Z.of_nat (length (c1 ++ c2)) - 1))
    with (Z.of_nat (length c1 + length c2) - 1) in Hr.
  2: { rewrite u32_small; rewrite length_app; [done|].
       pose proof (vo_size _ _ V0) as Hs. apply lookup_lt_Some in Hx.
       rewrite length_app in Hx. destruct c1; [done|]. simpl in *. lia. }
  apply (IH _ _ _ _ _ c0 c1 c2) in Hr; [|done|..|lia|done|done].
  - destruct Hr as [V' ->]. split; [done|]. rewrite work_sum_app, WorkForHeader_bits. simpl. lia.
  - destruct Hpre as [k ->]. exists ([info hd] ++ k). by rewrite !(assoc_L (++)).
  - rewrite apply_batch_app. apply (view_ok_unsnoc (Hdr:=Hdr) _ (c1 ++ c2) (info hd)). by rewrite <- (assoc_L (++)).
Qed.

Lemma rollback_loop_complete `{!LevelDBReliable DB} s n : ∀ h batch w c,
  view_ok (Hdr:=Hdr) (db_view (st_db s)) c → Z.of_nat n ≤ h + 1 → h < Z.of_nat (length c) →
  ∃ r, rollback_loop (Hdr:=Hdr) s n h batch w = Ok r.
Proof.
  induction n as [|n IH]; intros h batch w c V Hn Hh; [by eexists|].
  cbn [rollback_loop].
  destruct (lookup_lt_is_Some_2 c (Z.to_nat h)) as [x Hx]; [lia|].
  destruct (vo_header _ _ V _ _ Hx) as (raw & hd & Hraw & Hd & Hi).
  rewrite Z2Nat.id in Hraw by lia. rewrite db_get_total, Hraw, Hd.
  destruct n as [|n]; [by eexists|]. eapply IH; [done|..].
  all: pose proof (vo_size _ _ V); rewrite u32_small; lia.
Qed.

Lemma rollback_not_panic s n h batch w : rollback_loop (Hdr:=Hdr) s n h batch w ≠ Panic.
Proof.
  revert h batch w. induction n as [|n IH]; intros *; [done|]. cbn [rollback_loop].
  case_all; done || apply IH.
Qed.

(** C4: [Rollback] refines truncation: it succeeds only below the tip and
    the store then holds the chain up to the target, with its tip, work and
    index entries; when it fails the store holds what it held. On a disk
    that works every target below the tip is reached. *)
Theorem Rollback_refines s g c to s' r :
  store_ok s g c → 0 ≤ to → Rollback (Hdr:=Hdr) s to = (s', r) →
  r ≠ Panic ∧ (∀ e, r = Err e → store_ok s' g c) ∧
  (r = Ok () → to < st_tip s ∧ store_ok s' g (take (Z.to_nat to) c)) ∧
  (LevelDBReliable DB → to < st_tip s → r = Ok ()).
Proof.
  intros Hok Hto HR. unfold Rollback in HR. pose proof (so_tip _ _ _ Hok) as HT.
  destruct (Z.leb_spec (st_tip s) to); simplify_eq.
  { split_and!; [done..|lia]. }
  pose proof (so_view _ _ _ Hok) as V. set (n := Z.to_nat to) in *.
  destruct (rollback_loop _ _ _ _ _) as [[b w]|e|] eqn:Hl; simplify_eq.
  3: by apply rollback_not_panic in Hl.
  2: { split_and!; [done..|]. intros Hrel _.
       eapply (rollback_loop_complete s' (Z.to_nat (st_tip s' - to)) (st_tip s') [] 0) in V as [? E]; simpl; [|lia..].
       by rewrite E in Hl. }
  rewrite <- (take_drop n c) in V.
  eapply (rollback_loop_spec _ _ _ _ _ _ _ (g :: c) (g :: take n c) (drop n c)) in Hl
    as [V' ->]; simpl; rewrite ?take_drop in *; [|done..| | |].
  2: rewrite length_drop; lia. 2: done.
  2: rewrite length_take, length_drop; lia.
  assert (st_work s = work_sum (take n c) + work_sum (drop n c)) as HW.
  { rewrite <- work_sum_app, take_drop. apply Hok. }
  destruct (db_write _ _) as [db' [e|]] eqn:Hw; simplify_eq.
  - split_and!; [done| |done|].
    + intros _ _. apply store_ok_same_view; [done|]. by eapply db_write_err.
    + intros Hrel _. pose proof (db_write_total (st_db s)) as Ht.
      match type of Hw with db_write _ ?b = _ => specialize (Ht b) end. by rewrite Hw in Ht.
  - split_and!; [done..| |done]. intros _. split; [lia|].
    eapply write_meta_ok; [done|done|rewrite length_take; lia|lia|..].
    + pose proof (so_linked _ _ _ Hok) as Hlk. rewrite <- (take_drop n c) in Hlk.
      by apply linked_from_app in Hlk as [? _].
    + intros Hs. pose proof (so_mined _ _ _ Hok Hs) as Hm. rewrite <- (take_drop n c) in Hm.
      by apply Forall_app in Hm as [? _].
Qed.

(** ** Queries *)

(** A root that is accepted is on the chain, whatever the disk does. *)
Lemma valid_root_on_chain s g c root h :
  store_ok s g c → 0 ≤ h < 2 ^ 32 → IsValidRootForHeight s root h = Ok true →
  hi_merkle <$> (g :: c) !! Z.to_nat h = Some root.
Proof.
  intros Hok Hh. pose proof (so_view _ _ _ Hok) as V. unfold IsValidRootForHeight.
  destruct (db_get _ _) as [[]|m] eqn:Eg; try done. intros [= Em%bool_decide_eq_true]. subst m.
  apply db_get_ok in Eg. destruct ((g :: c) !! Z.to_nat h) as [x|] eqn:Hx.
  - pose proof (vo_merkle _ _ V _ _ Hx) as E. rewrite Z2Nat.id in E by lia. by simplify_eq/=.
  - apply lookup_ge_None in Hx. destruct (vo_above _ _ V h) as [_ E]; [lia|congruence].
Qed.

(** On a disk that works the queries read the chain: [IsValidRootForHeight]
    holds exactly for the Merkle root of the header at that height (and is
    false, without error, above the tip), and [HashAtHeight] and
    [HeightForHash] are inverse to each other along the chain. *)
Theorem queries_read_chain `{!LevelDBReliable DB} s g c :
  store_ok s g c →
  (∀ root h, 0 ≤ h < 2 ^ 32 → IsValidRootForHeight s root h =
     Ok (bool_decide (hi_merkle <$> (g :: c) !! Z.to_nat h = Some root))) ∧
  (∀ h x, (g :: c) !! Z.to_nat h = Some x → 0 ≤ h →
     HashAtHeight (Hdr:=Hdr) s h = Ok (hi_hash x) ∧ HeightForHash s (hi_hash x) = Ok h) ∧
  (∀ hash h, HeightForHash s hash = Ok h →
     hi_hash <$> (g :: c) !! Z.to_nat h = Some hash).
Proof.
  intros Hok. pose proof (so_view _ _ _ Hok) as V. set (l := g :: c) in *.
  pose proof (vo_size _ _ V) as Hsz.
  assert (∀ i x, l !! i = Some x → Z.of_nat i < 2 ^ 32) as Hlt.
  { intros i x Hx%lookup_lt_Some. lia. }
  split_and!.
  - intros root h Hh. unfold IsValidRootForHeight. rewrite db_get_total.
    destruct (l !! Z.to_nat h) as [x|] eqn:Hx; simpl.
    + pose proof (vo_merkle _ _ V _ _ Hx) as E. rewrite Z2Nat.id in E by lia. rewrite E.
      f_equal. apply bool_decide_ext. naive_solver.
    + destruct (vo_above _ _ V h) as [_ ->]; [|done]. apply lookup_ge_None in Hx. lia.
  - intros h x Hx Hh. split.
    + unfold HashAtHeight, hashAtHeight. rewrite db_get_total.
      destruct (vo_header _ _ V _ _ Hx) as (raw & hd & Hraw & Hd & <-).
      rewrite Z2Nat.id in Hraw by lia. by rewrite Hraw, Hd.
    + unfold HeightForHash. rewrite db_get_total, (vo_hash _ _ V _ _ Hx).
      rewrite Z2Nat.id by lia. apply uint32_be_put. specialize (Hlt _ _ Hx). lia.
  - intros hash h. unfold HeightForHash. rewrite db_get_total.
    destruct (db_view (st_db s) !! hashToKey hash) as [v|] eqn:Hv; [|done].
    destruct (vo_hash_inv _ _ V _ _ Hv) as (i & x & Hx & <-).
    rewrite (vo_hash _ _ V _ _ Hx) in Hv. injection Hv as <-.
    rewrite uint32_be_put by (specialize (Hlt _ _ Hx); lia). intros [= <-].
    by rewrite Nat2Z.id, Hx.
Qed.

(** ** Opening *)

(** C29: a store that was closed on a working disk and is opened again holds
    the same chain, tip and work. *)
Theorem NewStore_recovers `{!LevelDBReliable DB} s g c :
  store_ok s g c → st_skipPoW s = false →
  NewStore (Hdr:=Hdr) (inr (st_db s)) = Ok s.
Proof.
  intros Hok Hskip. pose proof (so_tip_range _ _ _ Hok).
  unfold NewStore. rewrite !db_get_total, (so_keyTip _ _ _ Hok), uint32_be_put by done.
  cbn [mbind res_mbind]. cbn [st_db]. rewrite db_get_total.
  destruct s as [db tip work skip]; simpl in *. subst skip.
  pose proof (so_work _ _ _ Hok) as HW. simpl in HW. pose proof (work_sum_nonneg c).
  destruct (so_keyWork _ _ _ Hok) as [E|[E HW0]]; simpl in E, HW |- *; rewrite E; simpl.
  - by rewrite be_bytes_big, Z.abs_eq by lia.
  - simpl in HW0. by rewrite HW0.
Qed.

Lemma writeGenesis_ok db raw (g : Hdr) s :
  db_view db = ∅ → genesisHeaderBytes (Hdr:=Hdr) = Ok raw → hdr_deserialize raw = Some g →
  hdr_serialize g = Some raw →
  writeGenesis (Hdr:=Hdr) (MkStore db 0 0 false) = (s, Ok ()) →
  store_ok s (info g) [] ∧ db_view (st_db s) !! keyWork = None ∧ st_tip s = 0 ∧
  st_work s = 0 ∧ st_skipPoW s = false.
Proof.
  intros Hdb Hg Hd Hs. unfold writeGenesis. rewrite Hg, Hd. cbn [st_db st_work st_skipPoW].
  destruct (db_write _ _) as [db' [e|]] eqn:Hw; [done|]. intros [= <-].
  apply db_write_ok in Hw. rewrite Hdb, apply_batch_app in Hw.
  assert (view_ok (Hdr:=Hdr) ∅ []) as V0.
  { split; [done..| |constructor|done]. intros i _. by rewrite !lookup_empty. }
  pose proof (view_ok_snoc _ _ _ _ V0 Hs (not_elem_of_nil _) eq_refl) as V1.
  assert (db_view db' !! keyWork = None) as HW.
  { rewrite Hw. unfold apply_batch, header_puts. cbn [foldl apply_op].
    rewrite !lookup_insert_ne by key_neq. apply lookup_empty. }
  split; [|done]. split; simpl; rewrite ?Hw; try done.
  - apply view_ok_put_meta; [auto|done].
  - apply lookup_insert_eq.
  - right. split; [|done]. by rewrite <- Hw.
Qed.

(** A fresh store on a working disk holds the chain of the genesis
    header alone. *)
Theorem NewStore_genesis `{!LevelDBReliable DB} db raw (g : Hdr) s :
  db_view db = ∅ → genesisHeaderBytes (Hdr:=Hdr) = Ok raw → hdr_deserialize raw = Some g →
  hdr_serialize g = Some raw →
  NewStore (Hdr:=Hdr) (inr db) = Ok s → store_ok s (info g) [].
Proof.
  intros Hdb Hg Hd Hs HN. unfold NewStore in HN.
  rewrite !db_get_total, Hdb, lookup_empty in HN.
  destruct (writeGenesis _) as [s' [[]| |]] eqn:Hw; [|done..].
  destruct (writeGenesis_ok _ _ _ _ Hdb Hg Hd Hs Hw) as (Hok & HW & _).
  cbn [mbind res_mbind] in HN. rewrite db_get_total, HW in HN. by injection HN as <-.
Qed.
End chain.
