(* ===== verification/HeaderSync.v ===== *)
(** * Header synchronisation ([internal/headers/sync.go])

    The block locator and the loop that asks a peer for headers until it has
    no more. The peer is the interface [HeaderPeer] of the source; [honest]
    describes a peer that answers [getheaders] from its own chain, as the
    Bitcoin protocol prescribes. *)

From Stdlib Require Import Init.Byte Strings.Byte Strings.String Lia ZArith.
From stdpp Require Import base gmap sets list strings numbers sorting.
From S2P Require Import Prelude GoStd LevelDB Pow HeaderStore HeaderChain.
Open Scope Z_scope.

Definition maxHeadersPerMsg : Z := 2000.

Record SyncStats := MkSyncStats {
  LastSource : bytes; LastAttemptAt : bytes; LastSuccessAt : bytes;
  LastError : bytes; LastTip : Z
}.

Inductive sync_err :=
  | ErrBuildLocator (height : Z) (e : store_err)
  | ErrRequestHeaders (e : bytes)
  | ErrReadHeaders (e : bytes)
  | ErrStoreHeaders (height : Z) (e : store_err)
  | ErrConnect (e : bytes).

(** The peer connection: each call returns the connection it leaves. *)
Class HeaderPeer (Hdr P : Type) := {
  RequestHeaders : P → list bytes → P * option bytes;
  ReadHeaders : P → P * (bytes + list Hdr)
}.

Section sync.
Context {DB : Type} `{LevelDB DB} {Hdr : Type} `{WireHeader Hdr} {P : Type} `{HeaderPeer Hdr P}.
Abbreviation store := (Store DB).

(** ** The block locator *)

(** [next_height]: the height after [height] in the step-back. *)
Definition next_height (height step : Z) : Z :=
  if height <=? step then 0 else u32 (height - step).

Fixpoint locator_loop (s : store) (n : nat) (i step height : Z) (locators : list bytes)
    : res sync_err (list bytes * bool) :=
  match n with
  | O => Ok (locators, false)
  | S n' =>
      match HashAtHeight (Hdr:=Hdr) s height with
      | Err e => Err (ErrBuildLocator height e)
      | Panic => Panic
      | Ok hash =>
          let locators := locators ++ [hash] in
          if height =? 0 then Ok (locators, true)
          else
            let step := if 10 <=? i then u32 (step * 2) else step in
            locator_loop s n' (i + 1) step (next_height height step) locators
      end
  end.

(** The bound of the loop [for i := 0; i < 32; i++]. *)
Definition locatorSteps : nat := 32.

Definition buildLocator (s : store) : res sync_err (list bytes) :=
  match locator_loop s locatorSteps 0 1 (Tip s) [] with
  | Err e => Err e
  | Panic => Panic
  | Ok (locators, true) => Ok locators
  | Ok (locators, false) =>
      match HashAtHeight (Hdr:=Hdr) s 0 with
      | Err e => Err (ErrBuildLocator 0 e)
      | Panic => Panic
      | Ok genesis => Ok (locators ++ [genesis])
      end
  end.

(** ** The synchronisation loop *)

(** One turn: the store and peer it leaves, and whether to go on. *)
Definition sync_step (s : store) (peer : P) : store * P * res sync_err bool :=
  match buildLocator s with
  | Err e => (s, peer, Err e)
  | Panic => (s, peer, Panic)
  | Ok locators =>
      let '(peer, o) := RequestHeaders (Hdr:=Hdr) peer locators in
      match o with
      | Some e => (s, peer, Err (ErrRequestHeaders e))
      | None =>
          let '(peer, r) := ReadHeaders (Hdr:=Hdr) peer in
          match r with
          | inl e => (s, peer, Err (ErrReadHeaders e))
          | inr headers =>
              if bool_decide (length headers = 0%nat) then (s, peer, Ok false)
              else
                let height := u32 (Tip s + 1) in
                let '(s, r) := AddHeaders s height headers in
                match r with
                | Err e => (s, peer, Err (ErrStoreHeaders height e))
                | Panic => (s, peer, Panic)
                | Ok _ => (s, peer, Ok (negb (Z.of_nat (length headers) <? maxHeadersPerMsg)))
                end
          end
      end
  end.

(** [fuel] bounds the turns; [None] when they run out. *)
Fixpoint sync_loop (fuel : nat) (s : store) (peer : P) : option (store * P * res sync_err Z) :=
  match fuel with
  | O => None
  | S fuel' =>
      match sync_step s peer with
      | (s, peer, Ok true) => sync_loop fuel' s peer
      | (s, peer, Ok false) => Some (s, peer, Ok (Tip s))
      | (s, peer, Err e) => Some (s, peer, Err e)
      | (s, peer, Panic) => Some (s, peer, Panic)
      end
  end.

Definition SyncWith (fuel : nat) (s : store) (peer : P) := sync_loop fuel s peer.

(** ** The last attempt *)

Definition recordAttempt (now source : bytes) (st : SyncStats) : SyncStats :=
  MkSyncStats source now (LastSuccessAt st) [] (LastTip st).
Definition recordSuccess (now source : bytes) (tip : Z) (st : SyncStats) : SyncStats :=
  MkSyncStats source now now [] tip.
Definition recordFailure (now source : bytes) (err : option bytes) (st : SyncStats) : SyncStats :=
  MkSyncStats source now (LastSuccessAt st) (default (LastError st) err) (LastTip st).

(** [SyncFrom]: [connect] is the outcome of [p2p.Connect], [show] the text
    of an error, [t0] and [t1] the times of the attempt and of its end. *)
Definition SyncFrom (show : sync_err → bytes) (t0 t1 address : bytes) (connect : bytes + P)
    (fuel : nat) (s : store) (st : SyncStats) : option (store * SyncStats * res sync_err Z) :=
  let st := recordAttempt t0 address st in
  match connect with
  | inl e => Some (s, recordFailure t1 address (Some e) st, Err (ErrConnect e))
  | inr peer =>
      match SyncWith fuel s peer with
      | None => None
      | Some (s, _, Ok tip) => Some (s, recordSuccess t1 address tip st, Ok tip)
      | Some (s, _, Err e) => Some (s, recordFailure t1 address (Some (show e)) st, Err e)
      | Some (s, _, Panic) => Some (s, st, Panic)
      end
  end.
End sync.

#[global] Opaque locatorSteps.

(** ** The heights of the locator *)

Fixpoint locator_heights (n : nat) (i step height : Z) : list Z :=
  match n with
  | O => [0]
  | S n' =>
      height :: (if height =? 0 then [] else
                 let step := if 10 <=? i then u32 (step * 2) else step in
                 locator_heights n' (i + 1) step (next_height height step))
  end.

Lemma next_height_range h step : 0 < h < 2 ^ 32 → 0 < step → 0 ≤ next_height h step < h.
Proof.
  intros Hh Hs. unfold next_height. destruct (Z.leb_spec h step); [lia|].
  rewrite u32_small by lia. lia.
Qed.

(** The step never wraps: it is doubled at most 22 times. *)
Definition step_ok (i step : Z) : Prop :=
  0 ≤ i ∧ 0 < step ∧ (step = 1 ∨ step * 512 ≤ 2 ^ i).

Lemma step_ok_next i step :
  step_ok i step → i < 32 → step_ok (i + 1) (if 10 <=? i then u32 (step * 2) else step).
Proof.
  intros (Hi & Hs & Hb) Hlt. unfold step_ok. rewrite Z.pow_add_r by lia.
  pose proof (Z.pow_le_mono_r 2 i 31 ltac:(lia) ltac:(lia)).
  destruct (Z.leb_spec 10 i).
  - pose proof (Z.pow_le_mono_r 2 10 i ltac:(lia) ltac:(lia)). rewrite u32_small by lia. lia.
  - destruct Hb; lia.
Qed.

Lemma locator_heights_spec n : ∀ i step h,
  0 ≤ h < 2 ^ 32 → step_ok i step → i + Z.of_nat n ≤ 32 →
  Forall (λ k, 0 ≤ k ≤ h) (locator_heights n i step h) ∧
  StronglySorted (λ a b, b < a) (locator_heights n i step h) ∧
  list.last (locator_heights n i step h) = Some 0 ∧
  (length (locator_heights n i step h) ≤ S n)%nat.
Proof.
  induction n as [|n IH]; intros i step h Hh Hs Hn.
  { cbn. split_and!; [|repeat constructor|done|lia]. constructor; [lia|constructor]. }
  cbn [locator_heights]. destruct (Z.eqb_spec h 0) as [->|Hne].
  { cbn. split_and!; [|repeat constructor|done|lia]. constructor; [lia|constructor]. }
  cbv zeta. set (step' := if 10 <=? i then _ else _).
  assert (step_ok (i + 1) step') as Hs' by (apply step_ok_next; [done|lia]).
  pose proof (next_height_range h step' ltac:(lia) ltac:(apply Hs')) as Hr.
  destruct (IH (i + 1) step' (next_height h step')) as (F & SS & L & Len); [lia|done|lia|].
  split_and!.
  - constructor; [lia|]. eapply Forall_impl; [exact F|]. simpl. lia.
  - constructor; [done|]. eapply Forall_impl; [exact F|]. simpl. lia.
  - rewrite list.last_cons, L. done.
  - simpl. lia.
Qed.

Section sync_properties.
Context {DB : Type} `{LevelDBLaws DB} `{!LevelDBReliable DB}.
Context {Hdr : Type} `{WireHeaderLaws Hdr}.
Implicit Types (s : Store DB) (c : list hdr_info).

(** The hash at a height of the chain. *)
Definition hash_at (c : list hdr_info) (h : Z) : bytes :=
  from_option hi_hash [] (c !! Z.to_nat h).

Lemma HashAtHeight_ok s g c h :
  store_ok (Hdr:=Hdr) s g c → 0 ≤ h ≤ st_tip s →
  HashAtHeight (Hdr:=Hdr) s h = Ok (hash_at (g :: c) h).
Proof.
  intros Hok Hh. pose proof (so_tip _ _ _ Hok) as HT.
  destruct (lookup_lt_is_Some_2 (g :: c) (Z.to_nat h)) as [x Hx]; [simpl; lia|].
  destruct (vo_header _ _ (so_view _ _ _ Hok) _ _ Hx) as (raw & hd & Hraw & Hd & <-).
  rewrite Z2Nat.id in Hraw by lia.
  unfold HashAtHeight, hashAtHeight, hash_at. by rewrite db_get_total, Hraw, Hd, Hx.
Qed.

Lemma locator_loop_heights s g c n : ∀ i step h locs,
  store_ok (Hdr:=Hdr) s g c → 0 ≤ h ≤ st_tip s → step_ok i step → i + Z.of_nat n ≤ 32 →
  match locator_loop (Hdr:=Hdr) s n i step h locs with
  | Ok (l, true) => Ok l
  | Ok (l, false) => Ok (l ++ [hash_at (g :: c) 0])
  | Err e => Err e
  | Panic => Panic
  end = Ok (locs ++ (hash_at (g :: c) <$> locator_heights n i step h)).
Proof.
  intros i step h locs Hok. pose proof (so_tip_range _ _ _ Hok) as HT.
  revert i step h locs.
  induction n as [|n IH]; intros i step h locs Hh Hs Hn; [done|].
  cbn [locator_loop locator_heights]. rewrite (HashAtHeight_ok s g c h) by done.
  destruct (Z.eqb_spec h 0) as [->|Hne]; [done|]. cbv zeta.
  set (step' := if 10 <=? i then _ else _).
  assert (step_ok (i + 1) step') as Hs' by (apply step_ok_next; [done|lia]).
  pose proof (next_height_range h step' ltac:(lia) ltac:(apply Hs')) as Hr.
  rewrite IH by (done || lia). by rewrite <- (assoc_L (++)).
Qed.

Lemma locatorSteps_le : 0 + Z.of_nat locatorSteps ≤ 32.
Proof. Transparent locatorSteps. unfold locatorSteps. Opaque locatorSteps. lia. Qed.

Lemma locatorSteps_pos : (0 < locatorSteps)%nat.
Proof. Transparent locatorSteps. unfold locatorSteps. Opaque locatorSteps. lia. Qed.

Lemma Tip_eq s : Tip s = st_tip s.
Proof. done. Qed.

Lemma buildLocator_heights s g c :
  store_ok (Hdr:=Hdr) s g c →
  buildLocator (Hdr:=Hdr) s = Ok (hash_at (g :: c) <$> locator_heights locatorSteps 0 1 (st_tip s)).
Proof.
  intros Hok. pose proof (so_tip_range _ _ _ Hok) as HT. unfold buildLocator. rewrite !Tip_eq.
  set (n := locatorSteps).
  pose proof (locator_loop_heights s g c n 0 1 (st_tip s) [] Hok ltac:(lia)
    ltac:(unfold step_ok; lia) locatorSteps_le) as HL.
  rewrite (HashAtHeight_ok s g c 0) by (done || lia).
  destruct (locator_loop _ _ _ _ _ _) as [[locs []]| |]; exact HL || discriminate HL.
Qed.

(** The block locator of a store names at most 33 headers of its own
    chain, from the tip down to genesis, at strictly decreasing heights. *)
Theorem buildLocator_spec s g c :
  store_ok (Hdr:=Hdr) s g c → ∃ hs,
    buildLocator (Hdr:=Hdr) s = Ok (hash_at (g :: c) <$> hs) ∧
    head hs = Some (st_tip s) ∧ list.last hs = Some 0 ∧
    StronglySorted (λ a b, b < a) hs ∧ (length hs ≤ 33)%nat ∧
    Forall (λ h, 0 ≤ h ≤ st_tip s) hs.
Proof.
  intros Hok. pose proof (so_tip_range _ _ _ Hok) as HT.
  exists (locator_heights locatorSteps 0 1 (st_tip s)).
  destruct (locator_heights_spec locatorSteps 0 1 (st_tip s)) as (F & SS & L & Len);
    [done|unfold step_ok; lia|apply locatorSteps_le|].
  split_and!; [by apply buildLocator_heights|done..].
Qed.
End sync_properties.

(** ** Synchronising with an honest peer *)

(** What a node with the chain [remote] answers to a locator: the headers
    after the first hash of the locator that it knows, 2000 at most. *)
Definition getheaders {Hdr} `{WireHeader Hdr} (remote : list Hdr) (locs : list bytes) : list Hdr :=
  match list_find (λ l, l ∈ hdr_hash <$> remote) locs with
  | None => []
  | Some (_, l) =>
      match list_find (λ h, hdr_hash h = l) remote with
      | None => []
      | Some (i, _) => take 2000 (drop (S i) remote)
      end
  end.

(** A peer in an honest state answers from [remote] and stays honest. *)
Class HonestPeer {Hdr P : Type} `{WireHeader Hdr} `{!HeaderPeer Hdr P} (remote : list Hdr) := {
  honest : P → Prop;
  honest_answers (p : P) locs : honest p → ∃ (p' p'' : P),
    RequestHeaders (Hdr:=Hdr) p locs = (p', None) ∧
    ReadHeaders (Hdr:=Hdr) p' = (p'', inr (getheaders remote locs)) ∧ honest p''
}.

(** An honest peer, as a state machine: its chain and the pending request. *)
Record list_peer (Hdr : Type) := ListPeer { lp_chain : list Hdr; lp_pending : list bytes }.
Arguments ListPeer {Hdr}.
Arguments lp_chain {Hdr}.
Arguments lp_pending {Hdr}.

#[export] Instance list_peer_peer {Hdr} `{WireHeader Hdr} : HeaderPeer Hdr (list_peer Hdr) := {
  RequestHeaders p locs := (ListPeer (lp_chain p) locs, None);
  ReadHeaders p := (p, inr (getheaders (lp_chain p) (lp_pending p)))
}.

#[export] Program Instance list_peer_honest {Hdr} `{WireHeader Hdr} (remote : list Hdr) :
  HonestPeer (P:=list_peer Hdr) remote := { honest p := lp_chain p = remote }.
Next Obligation. intros ? ? ? p locs <-. by eexists _, _. Qed.

Section honest_sync.
Context {DB : Type} `{LevelDBLaws DB} `{!LevelDBReliable DB}.
Context {Hdr : Type} `{WireHeaderLaws Hdr} {P : Type} `{!HeaderPeer Hdr P}.
Context (remote : list Hdr) `{!HonestPeer (P:=P) remote}.
Implicit Types (s : Store DB) (c : list hdr_info).

(** The chain of the peer is valid, up to the mining check of the store. *)
Record remote_ok (skip : bool) (g : hdr_info) (c : list hdr_info) : Prop := {
  ro_chain : info <$> remote = g :: c;
  ro_linked : linked_from (hi_hash g) c;
  ro_mined : skip = false → Forall mined c;
  ro_nodup : NoDup (hi_hash <$> g :: c);
  ro_size : Z.of_nat (S (length c)) ≤ 2 ^ 32;
  ro_serialize (h : Hdr) : h ∈ remote → is_Some (hdr_serialize h)
}.

Lemma head_locator_heights n i step h : (0 < n)%nat →
  ∃ l, locator_heights n i step h = h :: l.
Proof. destruct n; [lia|]. intros _. by eexists. Qed.

Lemma hash_remote : hdr_hash <$> remote = hi_hash <$> (info <$> remote).
Proof. rewrite <- list_fmap_compose. by apply list_fmap_ext. Qed.

(** The peer finds the tip, the first hash of the locator. *)
Lemma getheaders_tip g c i x locs :
  info <$> remote = g :: c → NoDup (hi_hash <$> g :: c) → (g :: c) !! i = Some x →
  getheaders remote (hi_hash x :: locs) = take 2000 (drop (S i) remote).
Proof.
  intros Hr ND Hx. unfold getheaders. cbn [list_find].
  rewrite decide_True.
  2: { rewrite hash_remote, Hr. apply list_elem_of_fmap. exists x. split; [done|].
       by eapply list_elem_of_lookup_2. }
  rewrite <- Hr in Hx. apply list_lookup_fmap_Some in Hx as (h & -> & Hh).
  assert (list_find (λ h', hdr_hash h' = hi_hash (info h)) remote = Some (i, h)) as ->; [|done].
  apply list_find_Some. split_and!; [done..|].
  intros j y Hj Hlt Hy. rewrite <- Hr in ND.
  assert (i = j) as ->; [|lia]. eapply (NoDup_lookup _ _ _ (hi_hash (info h)) ND).
  - by rewrite !list_lookup_fmap, Hh.
  - rewrite !list_lookup_fmap, Hj. simpl. by rewrite Hy.
Qed.

Lemma sync_step_honest s g c rest (p : P) skip :
  store_ok (Hdr:=Hdr) s g c → remote_ok skip g (c ++ rest) → st_skipPoW s = skip →
  honest p →
  ∃ s' p', sync_step (Hdr:=Hdr) s p = (s', p', Ok (bool_decide (2000 ≤ length rest)%nat)) ∧
    store_ok (Hdr:=Hdr) s' g (c ++ take 2000 rest) ∧ st_skipPoW s' = skip ∧ honest p'.
Proof.
  intros Hok Hr Hskip Hp. pose proof (so_tip_range _ _ _ Hok) as HT.
  pose proof (so_tip _ _ _ Hok) as Htip.
  unfold sync_step. rewrite (buildLocator_heights _ _ _ Hok).
  destruct (head_locator_heights locatorSteps 0 1 (st_tip s)) as [hs ->]; [apply locatorSteps_pos|].
  cbn [fmap list_fmap]. set (locs := _ :: _).
  destruct (honest_answers p locs Hp) as (p' & p'' & -> & -> & Hp'').
  assert (getheaders remote locs = take 2000 (drop (S (length c)) remote)) as ->.
  { unfold locs, hash_at. rewrite Htip, Nat2Z.id, tip_lookup. simpl from_option.
    eapply getheaders_tip; [apply Hr|apply Hr|].
    change (((g :: c) ++ rest) !! length c = Some (default g (list.last c))).
    rewrite lookup_app_l by (simpl; lia). apply tip_lookup. }
  set (hd := take 2000 (drop (S (length c)) remote)).
  assert (info <$> hd = take 2000 rest) as Hhd.
  { unfold hd. rewrite fmap_take, fmap_drop, (ro_chain _ _ _ Hr). simpl. by rewrite drop_app_length. }
  assert (length hd = length (take 2000 rest)) as Hlen by (by rewrite <- Hhd, length_fmap).
  rewrite length_take in Hlen.
  case_bool_decide as Hz.
  { assert (rest = []) as -> by (destruct rest; [done|simpl in Hlen; lia]).
    rewrite bool_decide_false by (simpl; lia).
    exists s, p''. rewrite take_nil, app_nil_r. by split_and!. }
  assert (linked_from (tip_hash g c) (info <$> hd) ∧ (skip = false → Forall mined (info <$> hd)) ∧
    NoDup (hi_hash <$> g :: c ++ (info <$> hd))) as (Hl & Hm & ND).
  { rewrite Hhd. split_and!.
    - pose proof (ro_linked _ _ _ Hr) as Hl. apply linked_from_app in Hl as [_ Hl].
      rewrite <- (take_drop 2000 rest) in Hl. apply linked_from_app in Hl as [Hl _].
      unfold tip_hash. by destruct (list.last c).
    - intros Hs. pose proof (ro_mined _ _ _ Hr Hs) as Hm. apply Forall_app in Hm as [_ Hm].
      by apply Forall_take.
    - pose proof (ro_nodup _ _ _ Hr) as ND. rewrite <- (take_drop 2000 rest) in ND.
      rewrite (assoc_L (++)) in ND. change (g :: ?l ++ ?k) with ((g :: l) ++ k) in ND.
      rewrite fmap_app in ND. by apply list.NoDup_app in ND as [ND _]. }
  destruct (AddHeaders_accepts s g c hd Hok) as [s' Hs'].
  { intros ->. by simpl in Hz. }
  { done. }
  { by rewrite Hskip. }
  { intros h Hh. apply (ro_serialize _ _ _ Hr).
    eapply subseteq_drop, subseteq_take, Hh. }
  unfold Tip. rewrite Hs'. pose proof (AddHeaders_skip s (u32 (st_tip s + 1)) hd) as Hsk.
  rewrite Hs' in Hsk. simpl in Hsk.
  eapply AddHeaders_extends in Hs' as (_ & _ & _ & Hok'); [|done|done|].
  2: { pose proof (ro_size _ _ _ Hr) as Hsz. rewrite length_app in Hsz. lia. }
  rewrite Hhd in Hok'. exists s', p''. split_and!; [|done| |done].
  - do 3 f_equal. unfold maxHeadersPerMsg. case_bool_decide; destruct (Z.ltb_spec (Z.of_nat (length hd)) 2000); lia || done.
  - by rewrite Hsk.
Qed.

(** C10: against an honest peer whose valid chain extends the local one, the
    synchronisation loop ends (one turn per 2000 headers, and one more),
    returns the height of the peer's tip, and the store then holds the whole
    chain of the peer. *)
Theorem SyncWith_honest s g c rest (p : P) fuel :
  store_ok (Hdr:=Hdr) s g c → remote_ok (st_skipPoW s) g (c ++ rest) → honest p →
  (length rest < 2000 * fuel)%nat →
  ∃ s' p', SyncWith (Hdr:=Hdr) fuel s p =
             Some (s', p', Ok (Z.of_nat (length (c ++ rest)))) ∧
    store_ok (Hdr:=Hdr) s' g (c ++ rest).
Proof.
  unfold SyncWith. remember (st_skipPoW s) as skip eqn:Hskip. symmetry in Hskip.
  revert s c rest p Hskip.
  induction fuel as [|fuel IH]; intros s c rest p Hskip Hok Hr Hp Hf; [lia|].
  destruct (sync_step_honest s g c rest p skip) as (s' & p' & Hs & Hok' & Hskip' & Hp'); [done..|].
  cbn [sync_loop]. rewrite Hs. case_bool_decide as Hlen.
  - rewrite <- (take_drop 2000 rest) in Hr. rewrite (assoc_L (++)) in Hr.
    destruct (IH s' (c ++ take 2000 rest) (drop 2000 rest) p') as (s'' & p'' & E & Hok''); [done..| |].
    { rewrite length_drop. lia. }
    rewrite <- (assoc_L (++)), take_drop in E, Hok''. eauto.
  - rewrite take_ge in Hok' by lia. exists s', p'. split; [|done].
    do 2 f_equal. unfold Tip. by rewrite (so_tip _ _ _ Hok').
Qed.
End honest_sync.
