(* ===== verification/RawChain.v ===== *)
(** * The header store at concrete headers

    The properties of [HeaderChain] and [HeaderSync] applied to the in-memory database and the
    80-byte headers of [RawHeader]: a store with the real genesis header, to
    which the real header of block 1 is added and from which it is rolled back. *)

From Stdlib Require Import Init.Byte Strings.Byte Strings.String Lia ZArith.
From stdpp Require Import base gmap sets list strings numbers.
From S2P Require Import Prelude GoStd LevelDB Pow RawHeader HeaderStore HeaderChain HeaderSync.
Open Scope Z_scope.

Definition store0 : Store (gmap bytes bytes) :=
  (writeGenesis (Hdr:=raw_header) (MkStore ∅ 0 0 false)).1.
Definition store1 : Store (gmap bytes bytes) := (AddHeaders store0 1 [mainnet_block1]).1.
Definition block1_info : hdr_info := info mainnet_block1.

Definition genesis_raw : bytes := default [] (hdr_serialize mainnet_genesis).

(** The genesis header as the store reads it back. *)
Definition genesis : raw_header := default mainnet_genesis (hdr_deserialize genesis_raw).

Lemma genesis_raw_ok : genesisHeaderBytes (Hdr:=raw_header) = Ok genesis_raw.
Proof. vm_compute. reflexivity. Qed.
Lemma genesis_raw_des : hdr_deserialize (H:=raw_header) genesis_raw = Some genesis.
Proof. vm_compute. reflexivity. Qed.
Lemma genesis_raw_ser : hdr_serialize genesis = Some genesis_raw.
Proof. vm_compute. reflexivity. Qed.

Lemma db_view_empty : db_view (∅ : gmap bytes bytes) = ∅.
Proof. done. Qed.

Lemma store0_write : writeGenesis (Hdr:=raw_header) (MkStore ∅ 0 0 false) = (store0, Ok ()).
Proof. refine (run_ok (writeGenesis (Hdr:=raw_header) (MkStore ∅ 0 0 false)) _ _). vm_compute. reflexivity. Qed.

Lemma store0_ok : store_ok (Hdr:=raw_header) store0 (info genesis) [].
Proof.
  apply (writeGenesis_ok (DB:=gmap bytes bytes) ∅ _ _ _ db_view_empty genesis_raw_ok
    genesis_raw_des genesis_raw_ser store0_write).
Qed.

Definition opened_store : Store (gmap bytes bytes) :=
  match NewStore (Hdr:=raw_header) (inr ∅) with Ok s => s | _ => store0 end.

Lemma opened_ok : NewStore (Hdr:=raw_header) (inr ∅) = Ok opened_store.
Proof. refine (res_is_ok store0 (NewStore (Hdr:=raw_header) (inr ∅)) _). vm_compute. reflexivity. Qed.

Lemma NewStore_genesis_witness : store_ok (Hdr:=raw_header) opened_store (info genesis) [].
Proof.
  exact (NewStore_genesis (DB:=gmap bytes bytes) (Hdr:=raw_header) ∅ genesis_raw genesis
    opened_store db_view_empty genesis_raw_ok genesis_raw_des genesis_raw_ser opened_ok).
Defined.

Lemma store1_write : AddHeaders store0 1 [mainnet_block1] = (store1, Ok ()).
Proof. refine (run_ok (AddHeaders store0 1 [mainnet_block1]) _ _). vm_compute. reflexivity. Qed.

Lemma fresh1 : NoDup (hi_hash <$> info genesis :: [] ++ (info <$> [mainnet_block1])).
Proof. eval_true. Qed.

Lemma AddHeaders_refines_witness :
  store_ok (Hdr:=raw_header) store1 (info genesis) [block1_info].
Proof.
  refine (proj2 (proj2 (proj2 (proj2 (proj2 (AddHeaders_refines store0 _ [] _ _ _ _ store0_ok
    store1_write fresh1 _)) eq_refl)))).
  vm_compute. discriminate.
Defined.

Lemma store1_ok : store_ok (Hdr:=raw_header) store1 (info genesis) [block1_info].
Proof.
  refine (proj2 (proj2 (proj2 (AddHeaders_extends store0 _ [] _ _ _ store0_ok
    store1_write fresh1 _)))).
  vm_compute. discriminate.
Qed.

Lemma AddHeaders_complete_witness :
  ∃ s', AddHeaders store0 (u32 (st_tip store0 + 1)) [mainnet_block1] = (s', Ok ()).
Proof.
  refine (AddHeaders_complete store0 _ [] [mainnet_block1] store0_ok _ _ _ _).
  - discriminate.
  - vm_compute. auto.
  - intros _. simpl. apply list.Forall_cons. split; [eval_true|constructor].
  - intros h _. by eexists.
Defined.

Definition store2 : Store (gmap bytes bytes) := (Rollback (Hdr:=raw_header) store1 0).1.

Lemma store2_rollback : Rollback (Hdr:=raw_header) store1 0 = (store2, Ok ()).
Proof. refine (run_ok (Rollback (Hdr:=raw_header) store1 0) _ _). vm_compute. reflexivity. Qed.

Lemma Rollback_refines_witness : store_ok (Hdr:=raw_header) store2 (info genesis) [].
Proof.
  refine (proj2 (proj1 (proj2 (proj2 (Rollback_refines store1 _ _ 0 _ _ store1_ok _
    store2_rollback))) eq_refl)).
  lia.
Defined.

Lemma queries_read_chain_witness :
  IsValidRootForHeight store1 (hdr_merkle mainnet_block1) 1 = Ok true ∧
  HeightForHash store1 (hdr_hash mainnet_block1) = Ok 1.
Proof.
  pose proof (queries_read_chain store1 (info genesis) [block1_info] store1_ok) as (Q1 & Q2 & _).
  split.
  - exact (Q1 (hdr_merkle mainnet_block1) 1 ltac:(lia)).
  - exact (proj2 (Q2 1 block1_info eq_refl ltac:(lia))).
Defined.

Lemma NewStore_recovers_witness : NewStore (Hdr:=raw_header) (inr (st_db store1)) = Ok store1.
Proof. refine (NewStore_recovers store1 _ _ store1_ok _). reflexivity. Defined.

Lemma buildLocator_spec_witness : ∃ hs,
  buildLocator (Hdr:=raw_header) store1
    = Ok (hash_at [info genesis; block1_info] <$> hs) ∧ head hs = Some (st_tip store1).
Proof.
  destruct (buildLocator_spec store1 (info genesis) [block1_info] store1_ok)
    as (hs & E & Hh & _).
  exists hs. exact (conj E Hh).
Defined.

Definition remote1 : list raw_header := [genesis; mainnet_block1].

Lemma remote1_ok : remote_ok remote1 false (info genesis) [block1_info].
Proof.
  split.
  - unfold remote1, block1_info. by rewrite !fmap_cons.
  - vm_compute. auto.
  - intros _. apply list.Forall_cons. split; [eval_true|constructor].
  - exact fresh1.
  - vm_compute. discriminate.
  - intros h _. by eexists.
Qed.

Lemma SyncWith_honest_witness : ∃ s' p',
  SyncWith (Hdr:=raw_header) 1 store0 (ListPeer remote1 []) = Some (s', p', Ok 1) ∧
  store_ok (Hdr:=raw_header) s' (info genesis) [block1_info].
Proof.
  refine (SyncWith_honest remote1 store0 (info genesis) [] [block1_info] (ListPeer remote1 []) 1
    store0_ok remote1_ok _ _).
  - reflexivity.
  - simpl. lia.
Defined.
