(* ===== verification/Ec.v ===== *)
(** * The signature library (go-sdk [primitives/ec])

    The interface the node uses of the elliptic-curve package, its documented
    laws, and an instance that shows they can hold. The laws are those of any
    correct signature scheme with the encodings of secp256k1; nothing is said
    about how hard a signature is to forge. *)

From Stdlib Require Import Init.Byte Strings.Byte Strings.String Lia ZArith.
From stdpp Require Import base gmap sets list strings numbers.
From S2P Require Import Prelude GoStd.

Class EC := {
  PrivateKey : Type;
  PublicKey : Type;
  ECSig : Type;
  PublicKeyFromBytes : bytes → option PublicKey;
  Compressed : PublicKey → bytes;
  PubKey : PrivateKey → PublicKey;
  SignDigest : PrivateKey → bytes → option ECSig;
  SerializeDER : ECSig → bytes;
  FromDER : bytes → option ECSig;
  VerifyDigest : ECSig → bytes → PublicKey → bool
}.

Class ECLaws `{EC} : Prop := {
  pub_from_compressed p : PublicKeyFromBytes (Compressed p) = Some p;
  compressed_length p : length (Compressed p) = 33%nat;
  pub_bytes_length b p :
    PublicKeyFromBytes b = Some p → length b = 33%nat ∨ length b = 65%nat;
  der_roundtrip s : FromDER (SerializeDER s) = Some s;
  sign_total k d : length d = 32%nat → is_Some (SignDigest k d);
  sign_verify k d s : SignDigest k d = Some s → VerifyDigest s d (PubKey k) = true;
  der_nonempty s : SerializeDER s ≠ []
}.

(** ** An instance

    Keys are single bytes and a signature is the digest under the key's name:
    correct, and of course not secure. *)

Definition toy_pub (b : bytes) : option byte :=
  match b with
  | _ :: k :: b' => if decide (b = x02 :: k :: replicate 31 x00) then Some k else None
  | _ => None
  end.

Definition toy_from_der (b : bytes) : option (byte * bytes) :=
  match b with k :: d => Some (k, d) | [] => None end.

#[export] Instance toy_ec : EC := {
  PrivateKey := byte;
  PublicKey := byte;
  ECSig := byte * bytes;
  PublicKeyFromBytes := toy_pub;
  Compressed k := x02 :: k :: replicate 31 x00;
  PubKey k := k;
  SignDigest k d := Some (k, d);
  SerializeDER s := s.1 :: s.2;
  FromDER := toy_from_der;
  VerifyDigest s d k := bool_decide (s = (k, d))
}.

#[export] Instance toy_ec_laws : ECLaws.
Proof.
  split; simpl; intros.
  - by rewrite decide_True.
  - done.
  - unfold toy_pub in *. case_all; auto.
  - by destruct s.
  - eauto.
  - simplify_eq. by apply bool_decide_true.
  - done.
Qed.
