(* ===== verification/Envelope.v ===== *)
(** * Data envelopes ([internal/envelope/envelope.go])

    The signed envelope, the text its signature covers, validation, expiry and
    storage keys. *)

From Stdlib Require Import Init.Byte Strings.Byte Strings.String Lia ZArith.
From stdpp Require Import base gmap sets list strings numbers.
From S2P Require Import Prelude GoStd Sha256 LevelDB Ec.
Open Scope Z_scope.

Record Monetization := MkMonetization {
  Model : bytes;
  PayeeLockingScriptHex : bytes;
  PriceSats : Z;
  AuthPubkey : bytes
}.

(** [ReceivedAt] is a time in nanoseconds; [None] is the zero [time.Time]. *)
Record Envelope := MkEnvelope {
  EType : bytes;
  Topic : bytes;
  Payload : bytes;
  Signature : bytes;
  Pubkey : bytes;
  TTL : Z;
  Durable : bool;
  Timestamp : Z;
  NoGossip : bool;
  EMonetization : option Monetization;
  ReceivedAt : option Z
}.

#[export] Instance monetization_eq_dec : EqDecision Monetization.
Proof. solve_decision. Defined.
#[export] Instance envelope_eq_dec : EqDecision Envelope.
Proof. solve_decision. Defined.

#[export] Program Instance monetization_countable : Countable Monetization :=
  inj_countable' (λ m, (Model m, PayeeLockingScriptHex m, PriceSats m, AuthPubkey m))
    (λ t, match t with (a, b, c, d) => MkMonetization a b c d end) _.
Next Obligation. by intros []. Qed.
#[export] Program Instance envelope_countable : Countable Envelope :=
  inj_countable' (λ e, (EType e, Topic e, Payload e, Signature e, Pubkey e, TTL e,
      Durable e, Timestamp e, NoGossip e, EMonetization e, ReceivedAt e))
    (λ t, match t with (a, b, c, d, e, f, g, h, i, j, k) =>
            MkEnvelope a b c d e f g h i j k end) _.
Next Obligation. by intros []. Qed.

Definition set_signature (sig pubkey : bytes) (e : Envelope) : Envelope :=
  MkEnvelope (EType e) (Topic e) (Payload e) sig pubkey (TTL e) (Durable e) (Timestamp e)
    (NoGossip e) (EMonetization e) (ReceivedAt e).
Definition set_received (t : option Z) (e : Envelope) : Envelope :=
  MkEnvelope (EType e) (Topic e) (Payload e) (Signature e) (Pubkey e) (TTL e) (Durable e)
    (Timestamp e) (NoGossip e) (EMonetization e) t.

(** ** Validation of the payment terms *)

Inductive env_err :=
  | ErrPayeeRequired | ErrPriceRequired | ErrPayeeHex | ErrAuthRequired | ErrAuthPubkey
  | ErrUnknownModel
  | ErrEmptyTopic | ErrEmptyPayload | ErrEmptySignature | ErrEmptyPubkey
  | ErrNegativeTTL | ErrTTLZero | ErrMonetization (e : env_err)
  | ErrPubkeyHex | ErrPubkey | ErrSignatureHex | ErrSignatureDER | ErrSignatureMismatch.

Definition validate_payee (m : Monetization) : res env_err unit :=
  guard_err (bool_decide (PayeeLockingScriptHex m = [])) ErrPayeeRequired;;
  guard_err (PriceSats m <=? 0) ErrPriceRequired;;
  res_of_option ErrPayeeHex (hex_decode (PayeeLockingScriptHex m));;
  Ok ().

Definition validate_monetization (m : Monetization) : res env_err unit :=
  if bool_decide (Model m = lit "passthrough") then validate_payee m
  else if bool_decide (Model m = lit "split") then validate_payee m
  else if bool_decide (Model m = lit "token") then
    guard_err (bool_decide (AuthPubkey m = [])) ErrAuthRequired;;
    match hex_decode (AuthPubkey m) with
    | Some b => guard_err (bool_decide (length b ≠ 33%nat)) ErrAuthPubkey
    | None => Err ErrAuthPubkey
    end
  else if bool_decide (Model m = lit "free") then Ok ()
  else Err ErrUnknownModel.

(** ** The signed text *)

Definition nl : bytes := [x0a].

Definition canonical (e : Envelope) : bytes :=
  let durableStr := if Durable e then lit "true" else lit "false" in
  let c := EType e ++ nl ++ Topic e ++ nl ++ Payload e ++ nl ++ itoa (TTL e) ++ nl ++
           durableStr ++ nl ++ itoa (Timestamp e) in
  let c := if NoGossip e then c ++ nl ++ lit "no_gossip" else c in
  match EMonetization e with
  | None => c
  | Some m =>
      let c := c ++ nl ++ Model m in
      let c := if bool_decide (PayeeLockingScriptHex m ≠ [])
               then c ++ nl ++ PayeeLockingScriptHex m else c in
      let c := if 0 <? PriceSats m then c ++ nl ++ itoa (PriceSats m) else c in
      if bool_decide (AuthPubkey m ≠ []) then c ++ nl ++ AuthPubkey m else c
  end.

Definition SigningDigest (e : Envelope) : bytes := sum256 (canonical e).

Section signing.
Context `{EC}.

(** A nil signature would be dereferenced. *)
Definition Sign (key : PrivateKey) (e : Envelope) : res env_err Envelope :=
  match SignDigest key (SigningDigest e) with
  | None => Panic
  | Some sig =>
      Ok (set_signature (hex_encode (SerializeDER sig)) (hex_encode (Compressed (PubKey key))) e)
  end.

Definition Validate (e : Envelope) : res env_err unit :=
  guard_err (bool_decide (Topic e = [])) ErrEmptyTopic;;
  guard_err (bool_decide (Payload e = [])) ErrEmptyPayload;;
  guard_err (bool_decide (Signature e = [])) ErrEmptySignature;;
  guard_err (bool_decide (Pubkey e = [])) ErrEmptyPubkey;;
  guard_err (TTL e <? 0) ErrNegativeTTL;;
  guard_err ((TTL e =? 0) && negb (Durable e)) ErrTTLZero;;
  match EMonetization e with
  | Some m => res_map_err ErrMonetization (validate_monetization m)
  | None => Ok ()
  end;;
  pubBytes ← res_of_option ErrPubkeyHex (hex_decode (Pubkey e));
  pub ← res_of_option ErrPubkey (PublicKeyFromBytes pubBytes);
  sigBytes ← res_of_option ErrSignatureHex (hex_decode (Signature e));
  sig ← res_of_option ErrSignatureDER (FromDER sigBytes);
  guard_err (negb (VerifyDigest sig (SigningDigest e) pub)) ErrSignatureMismatch.
End signing.

(** ** Expiry and keys *)

Definition IsExpired (now : Z) (e : Envelope) : bool :=
  if Durable e then false
  else match ReceivedAt e with
       | None => false
       | Some t => i64 (TTL e * second) <? since now t
       end.

(** [e.Pubkey[:16]] panics on a shorter key. *)
Definition slice_to {E} (n : nat) (b : bytes) : res E bytes :=
  if (length b <? n)%nat then Panic else Ok (take n b).

Definition colon : bytes := [x3a].

Definition Key (e : Envelope) : res env_err bytes :=
  pub ← slice_to 16 (Pubkey e);
  Ok (Topic e ++ colon ++ pub ++ colon ++ hex_encode (take 8 (sum256 (Payload e)))).

Definition HashEnvelope (topic pubkey payload : bytes) (timestamp : Z) : bytes :=
  hex_encode (take 16 (sum256 (topic ++ colon ++ pubkey ++ colon ++ payload ++ colon ++ itoa timestamp))).

(** ** What the signature binds *)

(** The lines of the signed text. *)
Definition canonical_lines (e : Envelope) : list bytes :=
  [EType e; Topic e; Payload e; itoa (TTL e); if Durable e then lit "true" else lit "false";
   itoa (Timestamp e)] ++
  (if NoGossip e then [lit "no_gossip"] else []) ++
  match EMonetization e with
  | None => []
  | Some m =>
      [Model m] ++
      (if bool_decide (PayeeLockingScriptHex m ≠ []) then [PayeeLockingScriptHex m] else []) ++
      (if 0 <? PriceSats m then [itoa (PriceSats m)] else []) ++
      (if bool_decide (AuthPubkey m ≠ []) then [AuthPubkey m] else [])
  end.

Fixpoint join_lines (l : list bytes) : bytes :=
  match l with
  | [] => []
  | [x] => x
  | x :: l' => x ++ nl ++ join_lines l'
  end.

Lemma join_lines_app l k :
  l ≠ [] → join_lines (l ++ k) = join_lines l ++ concat ((λ x, nl ++ x) <$> k).
Proof.
  induction l as [|y l IH]; [done|]. intros _. destruct l as [|z l].
  - clear IH. cbn [app]. revert y. induction k as [|x k IH]; intros y.
    { cbn. by rewrite app_nil_r. }
    change (join_lines (y :: x :: k)) with (y ++ nl ++ join_lines (x :: k)).
    rewrite IH. cbn [join_lines fmap list_fmap concat]. by rewrite <- !(assoc_L (++)).
  - change (join_lines ((y :: z :: l) ++ k)) with (y ++ nl ++ join_lines ((z :: l) ++ k)).
    rewrite IH by done. cbn [join_lines]. by rewrite <- !(assoc_L (++)).
Qed.

Lemma canonical_join e : canonical e = join_lines (canonical_lines e).
Proof.
  unfold canonical, canonical_lines. rewrite join_lines_app by done.
  set (c := join_lines _). change (EType e ++ _) with c. clearbody c.
  rewrite fmap_app, concat_app.
  destruct (NoGossip e), (EMonetization e) as [m|]; cbn -[itoa nl];
    repeat case_bool_decide; try destruct (0 <? PriceSats m);
    cbn -[itoa nl]; rewrite ?app_nil_r; rewrite <- ?(assoc_L (++)); try done.
Qed.

Definition no_nl (x : bytes) : Prop := x0a ∉ x.

Lemma split_nl_inj x y a b :
  no_nl x → no_nl y → x ++ nl ++ a = y ++ nl ++ b → x = y ∧ a = b.
Proof.
  unfold no_nl, nl. revert y. induction x as [|c x IH]; intros [|d y] Hx Hy E; simplify_eq/=.
  - done.
  - destruct Hy. by left.
  - destruct Hx. by left.
  - apply not_elem_of_cons in Hx as [_ Hx], Hy as [_ Hy].
    destruct (IH y) as [-> ->]; done.
Qed.

Lemma join_lines_inj l1 l2 :
  l1 ≠ [] → l2 ≠ [] → Forall no_nl l1 → Forall no_nl l2 →
  join_lines l1 = join_lines l2 → l1 = l2.
Proof.
  assert (∀ x y a, no_nl x → x = y ++ nl ++ a → False) as Hno.
  { intros x y a Hx ->. apply Hx. unfold nl. set_solver. }
  revert l2. induction l1 as [|x l1 IH]; intros [|y l2]; [done..|].
  intros _ _ [Hx H1]%list.Forall_cons [Hy H2]%list.Forall_cons E.
  destruct l1 as [|x' l1], l2 as [|y' l2].
  - cbn in E. by subst.
  - cbn [join_lines] in E. by apply Hno in E.
  - cbn [join_lines] in E. symmetry in E. by apply Hno in E.
  - change (x ++ nl ++ join_lines (x' :: l1) = y ++ nl ++ join_lines (y' :: l2)) in E.
    apply split_nl_inj in E as [-> E]; [|done..]. f_equal. by apply IH.
Qed.

Lemma itoa_no_nl z : no_nl (itoa z).
Proof.
  intros Hin. apply itoa_chars in Hin as [E|E]; [discriminate E|].
  unfold digit_char in E. vm_compute in E. destruct E as [E _]. by apply E.
Qed.

(** Envelopes whose texts hold no line break. *)
Definition terms_plain (m : Monetization) : Prop :=
  no_nl (PayeeLockingScriptHex m) ∧ no_nl (AuthPubkey m).
Definition plain (e : Envelope) : Prop :=
  no_nl (EType e) ∧ no_nl (Topic e) ∧ no_nl (Payload e) ∧
  from_option terms_plain True (EMonetization e).

Definition opt_line (b : bool) (x : bytes) : list bytes := if b then [x] else [].

(** The lines of the terms below the model: an empty text and a price that is
    not positive leave no line. *)
Definition term_lines (m : Monetization) : list bytes :=
  opt_line (bool_decide (PayeeLockingScriptHex m ≠ [])) (PayeeLockingScriptHex m) ++
  opt_line (0 <? PriceSats m) (itoa (PriceSats m)) ++
  opt_line (bool_decide (AuthPubkey m ≠ [])) (AuthPubkey m).

(** Terms of the token model that differ and leave the same lines: the one line
    is the payee script of [m1], which has no price, and the price of [m2],
    which has no payee script. *)
Definition script_reads_as_price (m1 m2 : Monetization) : Prop :=
  PayeeLockingScriptHex m1 = itoa (PriceSats m2) ∧ PriceSats m1 ≤ 0 ∧
  PayeeLockingScriptHex m2 = [] ∧ 0 < PriceSats m2.

(** What the signed text fixes of the payment terms of valid envelopes. The
    models that pay a script: all of them. The token model: the credential key,
    and the payee script and a positive price up to the confusion above. The
    free model: only the list of its lines, not which field each line is. *)
Definition same_terms (o1 o2 : option Monetization) : Prop :=
  match o1, o2 with
  | None, None => True
  | Some m1, Some m2 =>
      Model m1 = Model m2 ∧
      (Model m1 = lit "passthrough" ∨ Model m1 = lit "split" → m1 = m2) ∧
      (Model m1 = lit "token" → AuthPubkey m1 = AuthPubkey m2 ∧
         (PayeeLockingScriptHex m1 = PayeeLockingScriptHex m2 ∧ 0 `max` PriceSats m1 = 0 `max` PriceSats m2 ∨
          script_reads_as_price m1 m2 ∨ script_reads_as_price m2 m1)) ∧
      (Model m1 = lit "free" → term_lines m1 = term_lines m2)
  | _, _ => False
  end.

Definition model_ok (m : Monetization) : Prop :=
  (Model m = lit "passthrough" ∨ Model m = lit "split") ∧
    PayeeLockingScriptHex m ≠ [] ∧ 0 < PriceSats m ∧ is_Some (hex_decode (PayeeLockingScriptHex m)) ∨
  Model m = lit "token" ∧ AuthPubkey m ≠ [] ∧
    (∃ b, hex_decode (AuthPubkey m) = Some b ∧ length b = 33%nat) ∨
  Model m = lit "free".

Lemma validate_payee_ok m : validate_payee m = Ok () ↔
  PayeeLockingScriptHex m ≠ [] ∧ 0 < PriceSats m ∧ is_Some (hex_decode (PayeeLockingScriptHex m)).
Proof.
  unfold validate_payee, guard_err. case_bool_decide.
  { split; [done|]. by intros [? _]. }
  cbn [mbind res_mbind]. destruct (Z.leb_spec (PriceSats m) 0).
  { split; [done|]. intros (_ & ? & _). lia. }
  cbn [mbind res_mbind]. destruct (hex_decode _); cbn [mbind res_mbind res_of_option].
  - split; [eauto|done].
  - split; [done|]. intros (_ & _ & [? ?]). done.
Qed.

Lemma validate_monetization_ok m : validate_monetization m = Ok () ↔ model_ok m.
Proof.
  unfold validate_monetization, model_ok.
  case_bool_decide as H1; [rewrite validate_payee_ok, H1; split; [auto|]|].
  { intros [[_ ?]|[[? _]|?]]; done. }
  case_bool_decide as H2; [rewrite validate_payee_ok, H2; split; [auto|]|].
  { intros [[_ ?]|[[? _]|?]]; done. }
  case_bool_decide as H3.
  { rewrite H3. unfold guard_err. case_bool_decide; cbn.
    - split; [done|]. intros [[[?|?] _]|[(_ & ? & _)|?]]; done.
    - destruct (hex_decode (AuthPubkey m)) as [b|]; cbn.
      + case_bool_decide; split; try done.
        * intros [[[?|?] _]|[(_ & _ & ? & [= ->] & ?)|?]]; done.
        * intros _. right. left. split_and!; [done..|]. exists b. split; [done|].
          destruct (decide (length b = 33%nat)); done.
      + split; [done|]. intros [[[?|?] _]|[(_ & _ & ? & ? & _)|?]]; done. }
  case_bool_decide as H4; [by split; auto|]. split; [done|]. intros [[[?|?] _]|[[? _]|?]]; done.
Qed.

Lemma model_ok_plain m : model_ok m → no_nl (Model m).
Proof.
  assert (∀ x, bool_decide (no_nl (lit x)) = true → no_nl (lit x)) as Hc.
  { intros x. apply bool_decide_eq_true_1. }
  intros [[[->| ->] _]|[[-> _]| ->]]; apply Hc; reflexivity.
Qed.

Lemma model_ok_not_flag m : model_ok m → Model m ≠ lit "no_gossip".
Proof. intros [[[->| ->] _]|[[-> _]| ->]]; discriminate. Qed.

(** The lines of a payee script and a price. *)
Lemma payee_price_lines p1 n1 p2 n2 :
  opt_line (bool_decide (p1 ≠ [])) p1 ++ opt_line (0 <? n1) (itoa n1) =
  opt_line (bool_decide (p2 ≠ [])) p2 ++ opt_line (0 <? n2) (itoa n2) ↔
  p1 = p2 ∧ 0 `max` n1 = 0 `max` n2 ∨
  p1 = itoa n2 ∧ n1 ≤ 0 ∧ p2 = [] ∧ 0 < n2 ∨ p2 = itoa n1 ∧ n2 ≤ 0 ∧ p1 = [] ∧ 0 < n1.
Proof.
  pose proof itoa_nonempty as Hi. unfold opt_line.
  destruct (Z.ltb_spec 0 n1), (Z.ltb_spec 0 n2); repeat case_bool_decide; cbn [app]; split;
    try (intros [= ?]); try (intros [[? ?]|[(?&?&?&?)|(?&?&?&?)]]);
    repeat match goal with E : ¬ (_ ≠ []) |- _ => apply dec_stable in E; subst end;
    simplify_eq; try naive_solver lia.
  all: by replace n1 with n2 by lia.
Qed.

Lemma terms_lines_iff m1 m2 :
  model_ok m1 → model_ok m2 →
  Model m1 :: term_lines m1 = Model m2 :: term_lines m2 ↔ same_terms (Some m1) (Some m2).
Proof.
  assert (∀ m, model_ok m → Model m = lit "passthrough" ∨ Model m = lit "split" →
    bool_decide (PayeeLockingScriptHex m ≠ []) = true ∧ (0 <? PriceSats m) = true) as Hp.
  { intros m [(_ & Hn & Hpr & _)|[[Hx _]|Hx]] [E|E]; try (rewrite E in Hx; discriminate Hx);
      (split; [by apply bool_decide_eq_true_2|by apply Z.ltb_lt]). }
  assert (∀ m, model_ok m → Model m = lit "token" → bool_decide (AuthPubkey m ≠ []) = true) as Ht.
  { intros m [([E|E] & _)|[(_ & Hn & _)|E]] E'; rewrite ?E in E'; try discriminate E'.
    by apply bool_decide_eq_true_2. }
  assert (∀ m, model_ok m → Model m = lit "token" → term_lines m =
    (opt_line (bool_decide (PayeeLockingScriptHex m ≠ [])) (PayeeLockingScriptHex m) ++
     opt_line (0 <? PriceSats m) (itoa (PriceSats m))) ++ [AuthPubkey m]) as Hl.
  { intros m O E. unfold term_lines. rewrite (Ht m O E). cbn [opt_line]. by rewrite (assoc_L (++)). }
  intros O1 O2. split.
  - intros [= EM EL]. split_and!; [done|..].
    + intros Hm. destruct (Hp m1 O1 Hm) as [P1 Q1]. rewrite EM in Hm. destruct (Hp m2 O2 Hm) as [P2 Q2].
      unfold term_lines in EL. rewrite P1, Q1, P2, Q2 in EL. cbn in EL. injection EL as E1 E2%itoa_inj E3.
      clear - EM E1 E2 E3. destruct m1, m2; cbn in *; subst. f_equal. unfold opt_line in E3.
      case_bool_decide as B1; case_bool_decide as B2; simplify_eq/=; try done.
    + intros Hm. rewrite (Hl m1 O1 Hm), (Hl m2 O2) in EL by congruence.
      apply app_inj_tail in EL as [EL ?]. split; [done|]. by apply payee_price_lines.
    + done.
  - intros (EM & E1 & E2 & E3). rewrite EM. f_equal. destruct O1 as [[Hm _]|[[Hm H1]|Hm]].
    + by rewrite (E1 Hm).
    + destruct (E2 Hm) as [Ea Ep]. rewrite (Hl m1 (or_intror (or_introl (conj Hm H1))) Hm), (Hl m2 O2), Ea by congruence.
      f_equal. by apply payee_price_lines.
    + by apply E3.
Qed.

Lemma canonical_lines_plain e :
  plain e → from_option model_ok True (EMonetization e) → Forall no_nl (canonical_lines e).
Proof.
  intros (H1 & H2 & H3 & H4) Hm. unfold canonical_lines.
  assert (∀ x, bool_decide (no_nl (lit x)) = true → no_nl (lit x)) as Hc.
  { intros x. apply bool_decide_eq_true_1. }
  apply Forall_app; split; [|apply Forall_app; split].
  - repeat (apply list.Forall_cons; split);
      [done..|apply itoa_no_nl|destruct (Durable e); by apply Hc|apply itoa_no_nl|constructor].
  - destruct (NoGossip e); [|constructor]. apply Forall_singleton. by apply Hc.
  - destruct (EMonetization e) as [m|]; [|constructor]. destruct H4 as [H4 H5].
    apply list.Forall_cons. split; [by apply model_ok_plain|].
    repeat (apply Forall_app; split); repeat case_bool_decide;
      try destruct (0 <? PriceSats m);
      first [by constructor|by apply Forall_singleton|apply Forall_singleton, itoa_no_nl].
Qed.

(** The fields that stand in the signed text before the terms. *)
Definition same_fields (e1 e2 : Envelope) : Prop :=
  EType e1 = EType e2 ∧ Topic e1 = Topic e2 ∧ Payload e1 = Payload e2 ∧ TTL e1 = TTL e2 ∧
  Durable e1 = Durable e2 ∧ Timestamp e1 = Timestamp e2 ∧ NoGossip e1 = NoGossip e2.

Lemma canonical_lines_terms e : canonical_lines e =
  [EType e; Topic e; Payload e; itoa (TTL e); if Durable e then lit "true" else lit "false"; itoa (Timestamp e)] ++
  opt_line (NoGossip e) (lit "no_gossip") ++
  match EMonetization e with None => [] | Some m => Model m :: term_lines m end.
Proof. by destruct e as [??????????[]]. Qed.

Lemma canonical_iff e1 e2 :
  plain e1 → plain e2 →
  from_option model_ok True (EMonetization e1) → from_option model_ok True (EMonetization e2) →
  canonical e1 = canonical e2 ↔ same_fields e1 e2 ∧ same_terms (EMonetization e1) (EMonetization e2).
Proof.
  intros P1 P2 O1 O2. rewrite !canonical_join. split.
  2:{ intros [(E1 & E2 & E3 & E4 & E5 & E6 & E7) E8]. f_equal. rewrite !canonical_lines_terms, E1, E2, E3, E4, E5, E6, E7. do 2 f_equal.
      destruct (EMonetization e1), (EMonetization e2); try done. by apply terms_lines_iff. }
  intros E. apply join_lines_inj in E; [|done|done|by apply canonical_lines_plain..].
  rewrite !canonical_lines_terms in E. unfold same_fields. injection E as -> -> -> ->%itoa_inj ED ->%itoa_inj E.
  assert (Durable e1 = Durable e2) as -> by (destruct (Durable e1), (Durable e2); done).
  assert (NoGossip e1 = NoGossip e2 ∧ same_terms (EMonetization e1) (EMonetization e2))
    as [-> ?]; [|done].
  destruct (NoGossip e1), (NoGossip e2), (EMonetization e1) as [m1|], (EMonetization e2) as [m2|];
    cbn [opt_line app from_option] in O1, O2, E; try discriminate E; try done.
  - injection E as E1 E2. split; [done|]. apply terms_lines_iff; [done..|]. by rewrite E1, E2.
  - injection E as E' _. by destruct (model_ok_not_flag m2 O2).
  - injection E as E' _. by destruct (model_ok_not_flag m2 O2).
  - injection E as E' _. by destruct (model_ok_not_flag m1 O1).
  - injection E as E' _. by destruct (model_ok_not_flag m1 O1).
  - split; [done|]. by apply terms_lines_iff.
Qed.

(** C15: two valid envelopes without line breaks in their texts have the same
    signed text exactly when they agree on type, topic, payload, TTL,
    durability, timestamp and gossip flag and have the same model, and, for the
    models passthrough and split, the same payment terms altogether; for the
    token model the same credential key, and the same payee script and positive
    price unless the payee script of one is the decimal price of the other; for
    the free model the same lines of terms. *)
Theorem canonical_binds_fields `{EC} e1 e2 :
  plain e1 → plain e2 → Validate e1 = Ok () → Validate e2 = Ok () →
  canonical e1 = canonical e2 ↔ same_fields e1 e2 ∧ same_terms (EMonetization e1) (EMonetization e2).
Proof.
  assert (∀ e, Validate e = Ok () → from_option model_ok True (EMonetization e)) as Hm.
  { intros e HV. unfold Validate in HV. res_inv.
    destruct (EMonetization e) as [m|]; [|done]. cbn. apply validate_monetization_ok.
    destruct (validate_monetization m) as [[]| |]; done. }
  intros P1 P2 V1 V2. by apply canonical_iff; [..|apply Hm|apply Hm].
Qed.

Section signing_properties.
Context `{ECLaws}.

(** What an envelope must satisfy apart from its signature. *)
Definition well_formed (e : Envelope) : Prop :=
  Topic e ≠ [] ∧ Payload e ≠ [] ∧ 0 ≤ TTL e ∧ (TTL e = 0 → Durable e = true) ∧
  from_option model_ok True (EMonetization e).

Definition signed_by (e : Envelope) : Prop :=
  ∃ pubBytes pub sigBytes sig,
    hex_decode (Pubkey e) = Some pubBytes ∧ PublicKeyFromBytes pubBytes = Some pub ∧
    hex_decode (Signature e) = Some sigBytes ∧ FromDER sigBytes = Some sig ∧
    VerifyDigest sig (SigningDigest e) pub = true.

Lemma Validate_spec e :
  Validate e = Ok () ↔ well_formed e ∧ Signature e ≠ [] ∧ Pubkey e ≠ [] ∧ signed_by e.
Proof.
  unfold Validate, well_formed, signed_by. split.
  - intros HV. res_inv.
    repeat match goal with Hb : bool_decide _ = false |- _ => apply bool_decide_eq_false_1 in Hb end.
    apply Z.ltb_ge in H5. split_and!; try done.
    + intros E. rewrite E in H6. simpl in H6. by destruct (Durable e).
    + destruct (EMonetization e) as [m|]; [|done]. cbn. apply validate_monetization_ok.
      destruct (validate_monetization m) as [[]| |]; done.
    + destruct (VerifyDigest _ _ _) eqn:Ev; [|done]. eauto 10.
  - intros ((H1 & H2 & H3 & H4 & H5) & H6 & H7 & (pb & pub & sb & sig & E1 & E2 & E3 & E4 & E5)).
    rewrite !bool_decide_false by done. cbn [guard_err mbind res_mbind].
    rewrite (proj2 (Z.ltb_ge _ _) H3). cbn [guard_err mbind res_mbind].
    assert ((TTL e =? 0) && negb (Durable e) = false) as ->.
    { destruct (Z.eqb_spec (TTL e) 0); [|done]. by rewrite H4. }
    cbn [guard_err mbind res_mbind]. rewrite E1, E3.
    destruct (EMonetization e) as [m|]; cbn in H5;
      rewrite ?(proj2 (validate_monetization_ok m) H5); cbn;
      rewrite E2; cbn; rewrite E4; cbn; by rewrite E5.
Qed.

Lemma Validate_not_panic e : Validate e ≠ Panic.
Proof.
  unfold Validate. no_panic. unfold validate_monetization, validate_payee. no_panic.
Qed.

(** C16: [Validate] accepts exactly the well-formed envelopes that carry a
    signature of their own text under their public key; it never panics. *)
Theorem Validate_iff e :
  (Validate e = Ok () ↔ well_formed e ∧ Signature e ≠ [] ∧ Pubkey e ≠ [] ∧ signed_by e) ∧
  Validate e ≠ Panic.
Proof.
  split; [apply Validate_spec|apply Validate_not_panic].
Qed.

Lemma hex_encode_nonempty b : b ≠ [] → hex_encode b ≠ [].
Proof.
  intros Hb E. apply (f_equal length) in E. rewrite length_hex_encode in E.
  destruct b; [done|]. simpl in E. lia.
Qed.

Lemma Sign_signed key e : ∃ sig,
  Sign key e = Ok (set_signature (hex_encode (SerializeDER sig))
                     (hex_encode (Compressed (PubKey key))) e) ∧
  VerifyDigest sig (SigningDigest e) (PubKey key) = true.
Proof.
  destruct (sign_total key (SigningDigest e)) as [sig Hsig]; [apply length_sum256|].
  unfold Sign. rewrite Hsig. exists sig. split; [done|]. by apply sign_verify.
Qed.

Lemma Sign_Validate key e e' e'' :
  Sign key e = Ok e' → well_formed e'' → canonical e'' = canonical e →
  Validate (set_signature (Signature e') (Pubkey e') e'') = Ok ().
Proof.
  destruct (Sign_signed key e) as (sig & -> & Hv). intros [= <-] Hw Hc.
  apply Validate_spec. split_and!; [done|..].
  - apply hex_encode_nonempty, der_nonempty.
  - apply hex_encode_nonempty. intros E. pose proof (compressed_length (PubKey key)) as Hl.
    by rewrite E in Hl.
  - eexists _, _, _, _. cbn. rewrite !hex_decode_encode_Some.
    split_and!; [done|apply pub_from_compressed|done|apply der_roundtrip|].
    unfold SigningDigest in *. change (canonical (set_signature _ _ e'')) with (canonical e'').
    by rewrite Hc.
Qed.

(** Signing a well-formed envelope always yields an envelope that
    validates, with the same semantic fields. *)
Theorem Sign_then_Validate key e :
  well_formed e → ∃ sig pub,
    Sign key e = Ok (set_signature sig pub e) ∧ Validate (set_signature sig pub e) = Ok ().
Proof.
  intros Hw. destruct (Sign_signed key e) as (sig & E & _). eexists _, _. split; [exact E|].
  pose proof (Sign_Validate _ _ _ e E Hw eq_refl) as HV. exact HV.
Qed.

(** Two envelopes with one text: the line breaks of the topic and the payload
    are not told from those between the fields. *)
Definition ambiguous1 : Envelope :=
  MkEnvelope (lit "data") (lit "a") (lit "b" ++ nl ++ lit "c") [] [] 60 false 0 false None None.
Definition ambiguous2 : Envelope :=
  MkEnvelope (lit "data") (lit "a" ++ nl ++ lit "b") (lit "c") [] [] 60 false 0 false None None.

(** A signature made on one of them validates on the other, whoever signs:
    the text does not determine topic and payload when they hold line breaks. *)
Theorem SigningDigest_ambiguous key e' :
  Sign key ambiguous1 = Ok e' →
  Validate e' = Ok () ∧
  Validate (set_signature (Signature e') (Pubkey e') ambiguous2) = Ok () ∧
  Topic ambiguous1 ≠ Topic ambiguous2 ∧ Payload ambiguous1 ≠ Payload ambiguous2.
Proof.
  intros E. split_and!; [| |done..].
  - pose proof (Sign_Validate _ _ _ ambiguous1 E) as HV.
    destruct (Sign_signed key ambiguous1) as (sig & E' & _). rewrite E' in E. injection E as <-.
    by apply HV.
  - by apply (Sign_Validate _ _ _ _ E).
Qed.

(** Two envelopes of the token model: [35] is a payee script in one and a price
    in the other. *)
Definition token_key : bytes := lit "020000000000000000000000000000000000000000000000000000000000000000".
Definition token_with (script : bytes) (price : Z) : Envelope :=
  MkEnvelope (lit "data") (lit "a") (lit "b") [] [] 60 false 0 false
    (Some (MkMonetization (lit "token") script price token_key)) None.

(** A signature made on the free one validates on the one with a price: whoever
    forwards a token envelope can put a price on it. *)
Lemma token_price_ambiguous key e' :
  Sign key (token_with (lit "35") 0) = Ok e' →
  Validate e' = Ok () ∧ Validate (set_signature (Signature e') (Pubkey e') (token_with [] 35)) = Ok ().
Proof.
  assert (∀ s p, well_formed (token_with s p)) as Hw.
  { intros s p. unfold well_formed. split_and!; [done|done|done|done|]. right. left. split_and!; [done|done|].
    eexists. split; vm_compute; reflexivity. }
  intros E. split; [|by apply (Sign_Validate _ _ _ _ E)].
  pose proof (Sign_Validate _ _ _ (token_with (lit "35") 0) E) as HV.
  destruct (Sign_signed key (token_with (lit "35") 0)) as (sig & E' & _). rewrite E' in E. injection E as <-. by apply HV.
Qed.

Lemma Validate_Key e : Validate e = Ok () → (32 ≤ length (Pubkey e))%nat.
Proof.
  intros (_ & _ & _ & (pb & pub & _ & _ & Hh & Hp & _))%Validate_spec.
  apply hex_decode_length in Hh. destruct (pub_bytes_length _ _ Hp); lia.
Qed.

(** The storage key of a valid envelope exists. *)
Lemma Validate_Key_ok e : Validate e = Ok () →
  Key e = Ok (Topic e ++ colon ++ take 16 (Pubkey e) ++ colon ++
              hex_encode (take 8 (sum256 (Payload e)))).
Proof.
  intros HV%Validate_Key. unfold Key, slice_to.
  destruct (Nat.ltb_spec (length (Pubkey e)) 16); [lia|done].
Qed.
End signing_properties.

(** ** Expiry *)

Lemma IsExpired_after e t now :
  Durable e = false → ReceivedAt e = Some t → 0 ≤ TTL e ≤ 9223372036 →
  - 2 ^ 63 ≤ now - t < 2 ^ 63 →
  IsExpired now e = (TTL e * second <? now - t).
Proof.
  intros HD HR HT Hn. unfold IsExpired, since. rewrite HD, HR.
  rewrite i64_small by (unfold second; lia). f_equal. lia.
Qed.

(** An ephemeral envelope is served for its TTL and expires right after:
    exactly when more than [TTL] seconds passed since it was received (for
    TTLs up to the range of [time.Duration], 292 years); a durable one never
    expires; once expired it stays so. *)
Theorem IsExpired_iff e t now later :
  ReceivedAt e = Some t → 0 ≤ TTL e ≤ 9223372036 →
  0 ≤ now - t → now ≤ later → later - t < 2 ^ 63 →
  (IsExpired now e = true ↔ Durable e = false ∧ TTL e * second < now - t) ∧
  (IsExpired now e = true → IsExpired later e = true).
Proof.
  intros HR HT H1 H2 H3. destruct (Durable e) eqn:HD.
  { unfold IsExpired. rewrite HD. split; [split; [done|by intros []]|done]. }
  rewrite !(IsExpired_after e t) by (done || lia). rewrite !Z.ltb_lt.
  split; [split; [done|by intros []]|lia].
Qed.

(** The stored form of an envelope keeps its fields: its texts are valid UTF-8,
    which is what [encoding/json] preserves. *)
Definition json_clean `{JsonCodec Envelope} (e : Envelope) : Prop :=
  json_norm e = set_received None e.
