(* ===== verification/EnvelopeStore.v ===== *)
(** * The envelope store ([internal/envelope/store.go])

    Durable envelopes in LevelDB as JSON under [d:<topic>:<key>], ephemeral
    ones in memory under their key. A method is one atomic step under the
    store's lock; Go's map iteration order is the argument [visit], any
    permutation of the map's entries. *)

From Stdlib Require Import Init.Byte Strings.Byte Strings.String Lia ZArith.
From stdpp Require Import base gmap sets list strings numbers sorting fin_maps.
From S2P Require Import Prelude GoStd Sha256 LevelDB Ec Envelope.
Open Scope Z_scope.

Definition prefixDurable : bytes := lit "d:".

Record Store (DB : Type) := MkStore {
  es_db : DB;
  es_ephemeral : gmap bytes Envelope;
  es_maxEphemeralTTL : Z;
  es_maxDurableSize : Z
}.
Arguments MkStore {DB}.
Arguments es_db {DB}.
Arguments es_ephemeral {DB}.
Arguments es_maxEphemeralTTL {DB}.
Arguments es_maxDurableSize {DB}.

Inductive estore_err :=
  | EsOpen (e : kv_err)
  | EsInvalid (e : env_err)
  | EsPayloadSize (size max : Z)
  | EsMarshal
  | EsKV (e : kv_err)
  | EsTTL (ttl max : Z)
  | EsTopicKeyRequired
  | EsCheck (e : kv_err)
  | EsDelete (e : kv_err)
  | EsIterate (e : kv_err).

Section envelope_store.
Context {DB : Type} `{LevelDB DB} `{EC} `{JsonCodec Envelope} `{SortSlice}.
Abbreviation store := (Store DB).

Definition NewStore (open : kv_err + DB) (maxEphemeralTTL maxDurableSize : Z) : res estore_err store :=
  match open with
  | inl e => Err (EsOpen e)
  | inr db => Ok (MkStore db ∅ maxEphemeralTTL maxDurableSize)
  end.

Definition set_db (db : DB) (s : store) : store :=
  MkStore db (es_ephemeral s) (es_maxEphemeralTTL s) (es_maxDurableSize s).
Definition set_ephemeral (m : gmap bytes Envelope) (s : store) : store :=
  MkStore (es_db s) m (es_maxEphemeralTTL s) (es_maxDurableSize s).

Definition durable_key (topic key : bytes) : bytes := prefixDurable ++ topic ++ colon ++ key.

Definition storeDurable (s : store) (env : Envelope) : store * res estore_err unit :=
  if es_maxDurableSize s <? Z.of_nat (length (Payload env)) then
    (s, Err (EsPayloadSize (Z.of_nat (length (Payload env))) (es_maxDurableSize s)))
  else
    match json_marshal env with
    | None => (s, Err EsMarshal)
    | Some data =>
        match Key env with
        | Ok k =>
            match db_put (es_db s) (durable_key (Topic env) k) data with
            | (db', None) => (set_db db' s, Ok ())
            | (db', Some e) => (set_db db' s, Err (EsKV e))
            end
        | Err e => (s, Err (EsInvalid e))
        | Panic => (s, Panic)
        end
    end.

Definition StoreEphemeralDirect (s : store) (env : Envelope) : store * res estore_err unit :=
  match Key env with
  | Ok k => (set_ephemeral (<[k := env]> (es_ephemeral s)) s, Ok ())
  | Err e => (s, Err (EsInvalid e))
  | Panic => (s, Panic)
  end.

Definition storeEphemeral (s : store) (env : Envelope) : store * res estore_err unit :=
  if es_maxEphemeralTTL s <? TTL env then
    (s, Err (EsTTL (TTL env) (es_maxEphemeralTTL s)))
  else
    match Key env with
    | Ok k => (set_ephemeral (<[k := env]> (es_ephemeral s)) s, Ok ())
    | Err e => (s, Err (EsInvalid e))
    | Panic => (s, Panic)
    end.

(** The envelope is shared with the caller, who sees its receive time set. *)
Definition Ingest (now : Z) (s : store) (env : Envelope) : store * Envelope * res estore_err unit :=
  match Validate env with
  | Err e => (s, env, Err (EsInvalid e))
  | Panic => (s, env, Panic)
  | Ok _ =>
      let env := set_received (Some now) env in
      let '(s, r) := if Durable env then storeDurable s env else storeEphemeral s env in
      (s, env, r)
  end.

Definition Delete (s : store) (topic key : bytes) : store * res estore_err bool :=
  if bool_decide (topic = []) || bool_decide (key = []) then (s, Err EsTopicKeyRequired)
  else
    let finish (s : store) (deleted : bool) :=
      match es_ephemeral s !! key with
      | Some _ => (set_ephemeral (delete key (es_ephemeral s)) s, Ok true)
      | None => (s, Ok deleted)
      end in
    match db_has (es_db s) (durable_key topic key) with
    | inl e => (s, Err (EsCheck e))
    | inr false => finish s false
    | inr true =>
        match db_delete (es_db s) (durable_key topic key) with
        | (db', Some e) => (set_db db' s, Err (EsDelete e))
        | (db', None) => finish (set_db db' s) true
        end
    end.

(** The envelopes among the values of an iteration; the others are skipped. *)
Definition decode_values (l : list (bytes * bytes)) : list Envelope :=
  omap (λ kv, json_unmarshal kv.2) l.

Definition QueryByTopic (now : Z) (visit : list (bytes * Envelope)) (s : store) (topic : bytes)
    (limit : Z) : res estore_err (list Envelope) :=
  match db_iter (es_db s) (prefixDurable ++ topic ++ colon) with
  | (_, Some e) => Err (EsIterate e)
  | (l, None) =>
      let results := decode_values l ++
        filter (λ e, Topic e = topic ∧ IsExpired now e = false) visit.*2 in
      let results := sort_slice (λ a b, Timestamp b <? Timestamp a) results in
      Ok (if (0 <? limit) && (limit <? Z.of_nat (length results))
          then take (Z.to_nat limit) results else results)
  end.

Definition ExpireEphemeral (now : Z) (visit : list (bytes * Envelope)) (s : store) : store * Z :=
  foldl (λ '(s, expired) '(key, env),
    if IsExpired now env then (set_ephemeral (delete key (es_ephemeral s)) s, expired + 1)
    else (s, expired)) (s, 0) visit.

Definition CountEphemeral (s : store) : Z := Z.of_nat (size (es_ephemeral s)).

Definition CountDurable (s : store) : Z := Z.of_nat (length (db_iter (es_db s) prefixDurable).1).

(** The envelopes the summaries run over, durable first. *)
Definition live_envelopes (now : Z) (visit : list (bytes * Envelope)) (s : store) : list Envelope :=
  decode_values (db_iter (es_db s) prefixDurable).1 ++
  filter (λ e, IsExpired now e = false) visit.*2.

Definition latest_step (latest : gmap bytes Z) (env : Envelope) : gmap bytes Z :=
  if default 0 (latest !! Topic env) <? Timestamp env
  then <[Topic env := Timestamp env]> latest else latest.

Definition LatestByTopic (now : Z) (visit : list (bytes * Envelope)) (s : store) : gmap bytes Z :=
  foldl latest_step ∅ (live_envelopes now visit s).

Definition topics_step (topics : gmap bytes Z) (env : Envelope) : gmap bytes Z :=
  <[Topic env := default 0 (topics !! Topic env) + 1]> topics.

Definition Topics (now : Z) (visit : list (bytes * Envelope)) (s : store) : gmap bytes Z :=
  foldl topics_step ∅ (live_envelopes now visit s).
End envelope_store.
