(* ===== verification/EnvelopeProps.v ===== *)
(** * What the envelope store guarantees

    The invariant of the store (only envelopes that passed validation and the
    limits, each under its own key), its preservation by every operation, and
    the functional behaviour of storing, querying, deleting and expiring. *)

From Stdlib Require Import Init.Byte Strings.Byte Strings.String Lia ZArith.
From stdpp Require Import base gmap sets list strings numbers sorting fin_maps.
From S2P Require Import Prelude GoStd Sha256 LevelDB Ec Envelope EnvelopeStore.
Open Scope Z_scope.

Section envelope_props.
Context {DB : Type} `{LevelDBLaws DB} `{ECLaws} `{JsonCodecLaws Envelope} `{SortSliceLaws}.
Implicit Types (s : Store DB) (e : Envelope).

(** The key part of a valid envelope. *)
Definition key_of e : bytes :=
  Topic e ++ colon ++ take 16 (Pubkey e) ++ colon ++ hex_encode (take 8 (sum256 (Payload e))).

Definition ephemeral_ok s (k : bytes) e : Prop :=
  Validate e = Ok () ∧ Durable e = false ∧ TTL e ≤ es_maxEphemeralTTL s ∧ k = key_of e.

Definition durable_ok s (k v : bytes) : Prop :=
  ∃ e, json_marshal e = Some v ∧ Validate e = Ok () ∧ Durable e = true ∧
    Z.of_nat (length (Payload e)) ≤ es_maxDurableSize s ∧ k = durable_key (Topic e) (key_of e).

Record store_inv s : Prop := {
  si_ephemeral k e : es_ephemeral s !! k = Some e → ephemeral_ok s k e;
  si_durable k v : db_view (es_db s) !! k = Some v → prefixDurable `prefix_of` k → durable_ok s k v
}.

Lemma Validate_received t e : Validate (set_received t e) = Validate e.
Proof. done. Qed.

Lemma set_db_inv s db' :
  store_inv s → (∀ k v, db_view db' !! k = Some v → prefixDurable `prefix_of` k → durable_ok s k v) →
  store_inv (set_db db' s).
Proof. intros [I1 I2] Hd. by split. Qed.

Lemma set_ephemeral_inv s m :
  store_inv s → (∀ k e, m !! k = Some e → ephemeral_ok s k e) → store_inv (set_ephemeral m s).
Proof. intros [I1 I2] Hm. by split. Qed.

Lemma storeDurable_spec s e s' r :
  store_inv s → Validate e = Ok () → Durable e = true → storeDurable s e = (s', r) →
  r ≠ Panic ∧ store_inv s' ∧ es_ephemeral s' = es_ephemeral s ∧
  (∀ err, r = Err err → db_view (es_db s') = db_view (es_db s)) ∧
  (r = Ok () → ∃ v, json_marshal e = Some v ∧
    db_view (es_db s') = <[durable_key (Topic e) (key_of e) := v]> (db_view (es_db s))).
Proof.
  intros I HV HD. unfold storeDurable. rewrite (Validate_Key_ok e HV).
  destruct (Z.ltb_spec (es_maxDurableSize s) (Z.of_nat (length (Payload e)))); [by intros [= <- <-]|].
  destruct (json_marshal e) as [v|] eqn:Hv; [|by intros [= <- <-]].
  destruct (db_put _ _ _) as [db' [err|]] eqn:Hp; intros [= <- <-].
  - apply db_put_err in Hp. split_and!; [done| |done|done|done].
    apply set_db_inv; [done|]. rewrite Hp. apply I.
  - apply db_put_ok in Hp. split_and!; [done| |done|done|eauto].
    apply set_db_inv; [done|]. rewrite Hp. intros k v'.
    intros [[<- <-]|[_ Hk]]%lookup_insert_Some Hpre; [|by eapply I].
    exists e. done.
Qed.

Lemma storeEphemeral_spec s e s' r :
  store_inv s → Validate e = Ok () → Durable e = false → storeEphemeral s e = (s', r) →
  r ≠ Panic ∧ store_inv s' ∧ es_db s' = es_db s ∧
  (∀ err, r = Err err → s' = s) ∧
  (r = Ok () → es_ephemeral s' = <[key_of e := e]> (es_ephemeral s)).
Proof.
  intros I HV HD. unfold storeEphemeral. rewrite (Validate_Key_ok e HV).
  destruct (Z.ltb_spec (es_maxEphemeralTTL s) (TTL e)); intros [= <- <-]; [done|].
  split_and!; [done| |done|done|done].
  apply set_ephemeral_inv; [done|]. intros k e'.
  intros [[<- <-]|[_ Hk]]%lookup_insert_Some; [|by apply I]. done.
Qed.

(** The contents of a store, as far as a reader can tell. *)
Definition same_contents s s' : Prop :=
  db_view (es_db s') = db_view (es_db s) ∧ es_ephemeral s' = es_ephemeral s.

Lemma Ingest_no_panic now s e : (Ingest now s e).2 ≠ Panic.
Proof.
  unfold Ingest. pose proof (Validate_not_panic e) as HP.
  destruct (Validate e) as [[]|err|] eqn:HV; [|done..].
  rewrite <- (Validate_received (Some now)) in HV.
  destruct (Durable _); unfold storeDurable, storeEphemeral; rewrite (Validate_Key_ok _ HV);
    repeat case_match; simplify_eq; done.
Qed.

Lemma Ingest_inv now s e s' e' r : store_inv s → Ingest now s e = (s', e', r) → store_inv s'.
Proof.
  intros I. unfold Ingest. destruct (Validate e) as [[]|err|] eqn:HV; [|by intros [= <- <- <-]..].
  change (Durable (set_received (Some now) e)) with (Durable e).
  rewrite <- (Validate_received (Some now)) in HV. destruct (Durable e) eqn:HD.
  - destruct (storeDurable _ _) as [s1 r1] eqn:E. intros [= <- <- <-].
    by destruct (storeDurable_spec _ _ _ _ I HV HD E) as (? & ? & _).
  - destruct (storeEphemeral _ _) as [s1 r1] eqn:E. intros [= <- <- <-].
    by destruct (storeEphemeral_spec _ _ _ _ I HV HD E) as (? & ? & _).
Qed.

(** C5: [Ingest] keeps the invariant, never panics, stores exactly the
    validated envelope under its own key when it succeeds, and leaves the
    contents as they were when it does not. *)
Theorem Ingest_spec now s e s' e' r :
  store_inv s → Ingest now s e = (s', e', r) →
  r ≠ Panic ∧ store_inv s' ∧ (∀ err, r = Err err → same_contents s s') ∧
  (r = Ok () → Validate e = Ok () ∧ e' = set_received (Some now) e ∧
    (Durable e = true → es_ephemeral s' = es_ephemeral s ∧ ∃ v, json_marshal e' = Some v ∧
       db_view (es_db s') = <[durable_key (Topic e) (key_of e) := v]> (db_view (es_db s))) ∧
    (Durable e = false → es_db s' = es_db s ∧
       es_ephemeral s' = <[key_of e := e']> (es_ephemeral s))).
Proof.
  intros I. unfold Ingest. pose proof (Validate_not_panic e) as HP.
  destruct (Validate e) as [[]|err|] eqn:HV; [|intros [= <- <- <-]|done].
  2: { by split_and!. }
  change (Durable (set_received (Some now) e)) with (Durable e).
  rewrite <- (Validate_received (Some now)) in HV. destruct (Durable e) eqn:HD.
  - destruct (storeDurable _ _) as [s1 r1] eqn:E. intros [= <- <- <-].
    destruct (storeDurable_spec _ _ _ _ I HV HD E) as (? & ? & ? & He & ?).
    split_and!; [done..| |]; [intros; split; eauto|]. intros ->. split_and!; auto. done.
  - destruct (storeEphemeral _ _) as [s1 r1] eqn:E. intros [= <- <- <-].
    destruct (storeEphemeral_spec _ _ _ _ I HV HD E) as (? & ? & ? & He & ?).
    split_and!; [done..| |]; [intros; erewrite He by done; by split|].
    intros ->. split_and!; auto. done.
Qed.

Lemma delete_durable_inv s db' key :
  store_inv s → db_view db' = delete key (db_view (es_db s)) → store_inv (set_db db' s).
Proof.
  intros I E. apply set_db_inv; [done|]. rewrite E.
  intros k v [_ Hk]%lookup_delete_Some. by apply I.
Qed.

Lemma delete_ephemeral_inv s key :
  store_inv s → store_inv (set_ephemeral (delete key (es_ephemeral s)) s).
Proof.
  intros I. apply set_ephemeral_inv; [done|]. intros k e [_ Hk]%lookup_delete_Some. by apply I.
Qed.

(** [Delete] removes the named envelope from both stores, nothing else,
    and reports exactly whether it was in one of them. *)
Theorem Delete_spec s topic key s' r :
  store_inv s → Delete s topic key = (s', r) →
  r ≠ Panic ∧ store_inv s' ∧
  (∀ b, r = Ok b →
    es_ephemeral s' = delete key (es_ephemeral s) ∧
    db_view (es_db s') = delete (durable_key topic key) (db_view (es_db s)) ∧
    (b = true ↔ is_Some (es_ephemeral s !! key) ∨
                is_Some (db_view (es_db s) !! durable_key topic key))).
Proof.
  intros I. unfold Delete.
  destruct (_ || _); [by intros [= <- <-]|].
  destruct (db_has _ _) as [err|b] eqn:Hh; [by intros [= <- <-]|].
  apply db_has_ok in Hh. set (dk := durable_key topic key) in *.
  assert (∀ s1 b1, store_inv s1 → es_ephemeral s1 = es_ephemeral s →
    db_view (es_db s1) = delete dk (db_view (es_db s)) →
    (b1 = true ↔ is_Some (db_view (es_db s) !! dk)) →
    (match es_ephemeral s1 !! key with
     | Some _ => (set_ephemeral (delete key (es_ephemeral s1)) s1, Ok (E:=estore_err) true)
     | None => (s1, Ok b1)
     end) = (s', r) →
    r ≠ Panic ∧ store_inv s' ∧ (∀ b, r = Ok b →
      es_ephemeral s' = delete key (es_ephemeral s) ∧
      db_view (es_db s') = delete dk (db_view (es_db s)) ∧
      (b = true ↔ is_Some (es_ephemeral s !! key) ∨ is_Some (db_view (es_db s) !! dk)))) as Hfin.
  { intros s1 b1 I1 E1 E2 Hb. rewrite E1.
    destruct (es_ephemeral s !! key) as [e|] eqn:He; intros [= <- <-].
    - split_and!; [done|rewrite <- E1; by apply delete_ephemeral_inv|].
      intros ? [= <-]. split_and!; [done..|]. split; [eauto|done].
    - split_and!; [done..|]. intros ? [= <-]. rewrite delete_id by done.
      split_and!; [done..|]. rewrite Hb. split; [auto|]. intros [[? ?]|]; done. }
  destruct b; symmetry in Hh.
  - apply bool_decide_eq_true_1 in Hh. destruct (db_delete _ _) as [db' [err|]] eqn:Hd.
    + intros [= <- <-]. apply db_delete_err in Hd. split_and!; [done| |done].
      apply set_db_inv; [done|]. rewrite Hd. apply I.
    + apply db_delete_ok in Hd. apply Hfin; [|done..|done].
      by eapply delete_durable_inv.
  - apply bool_decide_eq_false_1 in Hh. rewrite <- eq_None_not_Some in Hh.
    apply Hfin; [done..| |].
    + by rewrite delete_id.
    + rewrite Hh. split; [done|]. intros [? ?]; done.
Qed.

(** ** Queries *)

Lemma elem_of_decode l e :
  e ∈ decode_values l ↔ ∃ k v, (k, v) ∈ l ∧ json_unmarshal v = Some e.
Proof.
  unfold decode_values. rewrite list_elem_of_omap. split.
  - intros ([k v] & Hin & Hu). eauto.
  - intros (k & v & Hin & Hu). by exists (k, v).
Qed.

Lemma elem_of_visit (visit : list (bytes * Envelope)) (m : gmap bytes Envelope) e :
  visit ≡ₚ map_to_list m → e ∈ visit.*2 ↔ ∃ k, m !! k = Some e.
Proof.
  intros Hv. rewrite list_elem_of_fmap. split.
  - intros ([k e'] & -> & Hin). rewrite Hv in Hin. apply elem_of_map_to_list in Hin. eauto.
  - intros (k & Hk). exists (k, e). split; [done|]. rewrite Hv. by apply elem_of_map_to_list.
Qed.

(** What a query of [topic] at [now] selects. *)
Definition durable_match s (topic : bytes) e : Prop :=
  ∃ k v, (prefixDurable ++ topic ++ colon) `prefix_of` k ∧
    db_view (es_db s) !! k = Some v ∧ json_unmarshal v = Some e.
Definition ephemeral_match now s (topic : bytes) e : Prop :=
  (∃ k, es_ephemeral s !! k = Some e) ∧ Topic e = topic ∧ IsExpired now e = false.

Lemma QueryByTopic_all now visit s topic limit l :
  visit ≡ₚ map_to_list (es_ephemeral s) → QueryByTopic now visit s topic limit = Ok l →
  ∃ all, l = (if 0 <? limit then take (Z.to_nat limit) all else all) ∧
    StronglySorted (λ a b, Timestamp b ≤ Timestamp a) all ∧
    (∀ e, e ∈ all ↔ durable_match s topic e ∨ ephemeral_match now s topic e).
Proof.
  intros Hv. unfold QueryByTopic.
  destruct (db_iter _ _) as [kvs [err|]] eqn:Hit; [done|]. intros [= <-].
  eexists (sort_slice _ _). split_and!; [|apply (sort_slice_sorted Timestamp)|].
  - destruct (Z.ltb_spec 0 limit); cbn; [|done].
    destruct (Z.ltb_spec limit (Z.of_nat (length (sort_slice (λ a b, Timestamp b <? Timestamp a)
      (decode_values kvs ++ filter (λ e, Topic e = topic ∧ IsExpired now e = false) visit.*2)))));
      [done|]. rewrite take_ge; [done|]. lia.
  - intros e. rewrite sort_slice_perm, elem_of_app, elem_of_decode, list_elem_of_filter.
    rewrite (elem_of_visit _ _ _ Hv). unfold durable_match, ephemeral_match.
    setoid_rewrite (db_iter_elem _ _ _ _ _ Hit). naive_solver.
Qed.

(** A query answers newest first, at most [limit] envelopes (the newest
    ones), and selects from the durable store every entry under the topic's
    prefix and from memory the unexpired envelopes of the topic. *)
Theorem QueryByTopic_spec now visit s topic limit l :
  visit ≡ₚ map_to_list (es_ephemeral s) → QueryByTopic now visit s topic limit = Ok l →
  StronglySorted (λ a b, Timestamp b ≤ Timestamp a) l ∧
  (0 < limit → Z.of_nat (length l) ≤ limit) ∧
  (∀ e, e ∈ l → durable_match s topic e ∨ ephemeral_match now s topic e) ∧
  (∀ e, durable_match s topic e ∨ ephemeral_match now s topic e →
    e ∈ l ∨ 0 < limit ∧ Z.of_nat (length l) = limit ∧ Forall (λ e', Timestamp e ≤ Timestamp e') l).
Proof.
  intros Hv Hq. destruct (QueryByTopic_all _ _ _ _ _ _ Hv Hq) as (all & -> & Hs & Hin).
  destruct (Z.ltb_spec 0 limit) as [Hl|Hl].
  2: { split_and!; [done|lia|by setoid_rewrite Hin|]. setoid_rewrite Hin. auto. }
  set (n := Z.to_nat limit).
  rewrite <- (take_drop n all) in Hs. apply StronglySorted_app in Hs as (Hs1 & Hs2 & Hs3).
  split_and!; [done|rewrite length_take; lia| |].
  - intros e He. apply Hin. eapply subseteq_take, He.
  - intros e He. apply Hin in He. rewrite <- (take_drop n all) in He.
    apply elem_of_app in He as [He|He]; [by left|right].
    assert (n < length all)%nat.
    { destruct (decide (n < length all)%nat); [done|]. rewrite drop_ge in He by lia.
      by apply elem_of_nil in He. }
    split_and!; [done|rewrite length_take; lia|].
    apply Forall_forall. intros e' He'. by apply Hs1.
Qed.

(** An envelope as the store hands it out: from JSON, or the very one. *)
Definition as_stored e : Envelope := if Durable e then json_norm e else e.

Lemma Ingest_Ok now s e s' e' :
  Ingest now s e = (s', e', Ok ()) →
  e' = set_received (Some now) e ∧ Validate e = Ok () ∧
  if Durable e
  then ∃ v, json_marshal e' = Some v ∧ es_ephemeral s' = es_ephemeral s ∧
    db_view (es_db s') = <[durable_key (Topic e) (key_of e) := v]> (db_view (es_db s))
  else es_ephemeral s' = <[key_of e := e']> (es_ephemeral s).
Proof.
  unfold Ingest. destruct (Validate e) as [[]| |] eqn:HV; [|done..].
  change (Durable (set_received _ e)) with (Durable e).
  rewrite <- (Validate_received (Some now)) in HV. destruct (Durable e) eqn:HD.
  - unfold storeDurable. rewrite (Validate_Key_ok _ HV).
    destruct (_ <? _); [done|]. destruct (json_marshal _) as [v|] eqn:Hm; [|done].
    destruct (db_put _ _ _) as [db' [|]] eqn:Hp; [done|]. intros [= <- <-].
    apply db_put_ok in Hp. split_and!; [done..|]. exists v. split_and!; [done|done|exact Hp].
  - unfold storeEphemeral. rewrite (Validate_Key_ok _ HV).
    destruct (_ <? _); [done|]. by intros [= <- <-].
Qed.

(** An envelope that was ingested is found by its topic, until it expires:
    a query without limit returns it as stored. *)
Theorem Ingest_then_QueryByTopic now t s e s' e' visit l :
  Ingest now s e = (s', e', Ok ()) → IsExpired t e' = false →
  visit ≡ₚ map_to_list (es_ephemeral s') → QueryByTopic t visit s' (Topic e) 0 = Ok l →
  as_stored e' ∈ l.
Proof.
  intros HI He Hv Hq. apply Ingest_Ok in HI as (-> & _ & HI).
  destruct (QueryByTopic_all _ _ _ _ _ _ Hv Hq) as (all & -> & _ & Hin).
  apply Hin. unfold as_stored. change (Durable (set_received _ e)) with (Durable e).
  destruct (Durable e).
  - left. destruct HI as (v & Hm & _ & Hdb). eexists _, v. rewrite Hdb.
    split_and!; [|apply lookup_insert_eq|by apply json_roundtrip].
    exists (key_of e). unfold durable_key. by rewrite <- !(assoc_L (++)).
  - right. split_and!; [|done|done]. exists (key_of e). rewrite HI. apply lookup_insert_eq.
Qed.

(** The durable store is read by prefix, so a query of a topic also
    answers envelopes of its sub-topics: an ingested durable envelope of topic
    [t:rest] is among the answers for [t]. *)
Theorem QueryByTopic_confuses now t s e s' e' visit l topic rest :
  Ingest now s e = (s', e', Ok ()) → Durable e = true → Topic e = topic ++ colon ++ rest →
  visit ≡ₚ map_to_list (es_ephemeral s') → QueryByTopic t visit s' topic 0 = Ok l →
  json_norm e' ∈ l ∧ Topic e ≠ topic.
Proof.
  intros HI HD HT Hv Hq. apply Ingest_Ok in HI as (-> & _ & HI). rewrite HD in HI.
  destruct (QueryByTopic_all _ _ _ _ _ _ Hv Hq) as (all & -> & _ & Hin). split.
  - apply Hin. left. destruct HI as (v & Hm & _ & Hdb). eexists _, v. rewrite Hdb.
    split_and!; [|apply lookup_insert_eq|by apply json_roundtrip].
    exists (rest ++ colon ++ key_of e). unfold durable_key. rewrite HT.
    by rewrite <- !(assoc_L (++)).
  - rewrite HT. intros E. apply (f_equal length) in E. rewrite !length_app in E. simpl in E. lia.
Qed.

Lemma colon_prefix_inj (t T k : bytes) :
  x3a ∉ t → x3a ∉ T → (t ++ colon) `prefix_of` (T ++ colon ++ k) → t = T.
Proof.
  unfold colon. revert T. induction t as [|c t IH]; intros [|d T] Ht HT [k' E]; simplify_eq/=.
  - done.
  - destruct HT. by left.
  - destruct Ht. by left.
  - apply not_elem_of_cons in Ht as [_ Ht], HT as [_ HT]. f_equal.
    apply (IH T Ht HT). by exists k'.
Qed.

(** When neither the queried topic nor the stored ones hold a colon, a
    query answers only envelopes of its topic, and every one of them carries a
    valid signature. *)
Theorem QueryByTopic_sound now visit s topic limit l e :
  store_inv s → visit ≡ₚ map_to_list (es_ephemeral s) →
  QueryByTopic now visit s topic limit = Ok l →
  (∀ k v e0, db_view (es_db s) !! k = Some v → json_marshal e0 = Some v → durable_ok s k v →
    (x3a ∉ Topic e0) ∧ json_clean e0) →
  x3a ∉ topic → e ∈ l → Topic e = topic ∧ Validate e = Ok ().
Proof.
  intros I Hv Hq Hclean Ht Hin.
  destruct (QueryByTopic_all _ _ _ _ _ _ Hv Hq) as (all & -> & _ & Hall).
  assert (e ∈ all) as [(k & v & Hp & Hk & Hu)|((k & Hk) & HT & _)]%Hall.
  { destruct (0 <? limit); [by eapply subseteq_take|done]. }
  - assert (durable_ok s k v) as Hok.
    { apply I; [done|]. etrans; [|exact Hp]. by eexists. }
    destruct Hok as (e0 & Hm & HV & HD & Hsz & ->).
    destruct (Hclean _ _ e0 Hk Hm) as [Hc Hcl]; [by exists e0|].
    rewrite (json_roundtrip _ _ Hm), Hcl in Hu. injection Hu as <-.
    split; [|by rewrite Validate_received]. symmetry.
    apply (colon_prefix_inj _ _ (key_of e0)); [done..|].
    unfold durable_key in Hp. destruct Hp as [k' Hp]. rewrite <- !(assoc_L (++)) in Hp.
    apply app_inv_head in Hp. exists k'. by rewrite <- !(assoc_L (++)).
  - split; [done|]. by destruct (si_ephemeral _ I _ _ Hk) as [? _].
Qed.

(** ** Sweeping *)

Definition expire_step (now : Z) : Store DB * Z → bytes * Envelope → Store DB * Z :=
  λ '(s, expired) '(key, env),
    if IsExpired now env then (set_ephemeral (delete key (es_ephemeral s)) s, expired + 1)
    else (s, expired).

Lemma expire_rest (visit : list (bytes * Envelope)) (m : gmap bytes Envelope) k0 :
  k0 ∉ visit.*1 → (∀ k e, (k, e) ∈ visit → m !! k = Some e) →
  ∀ k e, (k, e) ∈ visit → delete k0 m !! k = Some e.
Proof.
  intros Hk0 Hin k e Hv. rewrite lookup_delete_ne; [by apply Hin|].
  intros ->. apply Hk0. apply list_elem_of_fmap. by exists (k, e).
Qed.

Lemma expire_loop_spec now visit s n s' n' :
  NoDup visit.*1 → (∀ k e, (k, e) ∈ visit → es_ephemeral s !! k = Some e) →
  foldl (expire_step now) (s, n) visit = (s', n') →
  (store_inv s → store_inv s') ∧ es_db s' = es_db s ∧
  n' + Z.of_nat (size (es_ephemeral s')) = n + Z.of_nat (size (es_ephemeral s)) ∧
  (∀ k e, es_ephemeral s' !! k = Some e ↔ es_ephemeral s !! k = Some e ∧
    ¬ (∃ e', (k, e') ∈ visit ∧ IsExpired now e' = true)).
Proof.
  revert s n. induction visit as [|[k0 e0] visit IH]; intros s n ND Hin.
  { intros [= <- <-]. split_and!; [done|done|lia|]. intros k e. set_solver. }
  cbn [fmap list_fmap fst] in ND. apply NoDup_cons in ND as [Hk0 ND].
  cbn [foldl expire_step]. destruct (IsExpired now e0) eqn:He; intros HF.
  - apply IH in HF; [|done|apply expire_rest; [done|intros ? ? ?; apply Hin; by right]].
    destruct HF as (Hi & -> & Hn & Hl). split_and!.
    + intros I. apply Hi. by apply delete_ephemeral_inv.
    + done.
    + rewrite Hn. simpl. rewrite map_size_delete_Some by (eexists; apply Hin; left).
      assert (es_ephemeral s !! k0 = Some e0) as Hk by (apply Hin; left).
      assert (size (es_ephemeral s) ≠ 0%nat); [|lia].
      intros E%map_size_empty_inv. by rewrite E, lookup_empty in Hk.
    + intros k e. rewrite Hl. simpl. rewrite lookup_delete_Some. split.
      * intros [[Hne Hk] Hno]. split; [done|]. intros (e' & [[= -> ->]|Hv]%elem_of_cons & He'); eauto.
      * intros [Hk Hno]. split; [split; [|done]|].
        -- intros ->. apply Hno. exists e0. split; [left|done].
        -- intros (e' & Hv & He'). apply Hno. exists e'. split; [by right|done].
  - apply IH in HF; [|done|intros ? ? ?; apply Hin; by right].
    destruct HF as (Hi & -> & Hn & Hl). split_and!; [done..|].
    intros k e. rewrite Hl. split; intros [Hk Hno]; (split; [done|]).
    + intros (e' & [[= -> ->]|Hv]%elem_of_cons & He'); [congruence|eauto].
    + intros (e' & Hv & He'). apply Hno. exists e'. split; [by right|done].
Qed.

(** A sweep removes exactly the expired envelopes, in whatever order the
    map is visited, reports how many they were, and keeps the invariant. *)
Theorem ExpireEphemeral_spec now visit s s' n :
  visit ≡ₚ map_to_list (es_ephemeral s) → ExpireEphemeral now visit s = (s', n) →
  (store_inv s → store_inv s') ∧ es_db s' = es_db s ∧
  n = CountEphemeral s - CountEphemeral s' ∧
  (∀ k e, es_ephemeral s' !! k = Some e ↔
    es_ephemeral s !! k = Some e ∧ IsExpired now e = false).
Proof.
  intros Hv HE. apply (expire_loop_spec now) in HE as (Hi & Hdb & Hn & Hl).
  - split_and!; [done|done|unfold CountEphemeral; lia|]. intros k e. rewrite Hl.
    setoid_rewrite Hv. setoid_rewrite elem_of_map_to_list. split; intros [Hk Hno]; (split; [done|]).
    + destruct (IsExpired now e) eqn:E; [|done]. destruct Hno. eauto.
    + intros (e' & Hk' & He'). simplify_eq. congruence.
  - rewrite Hv. apply NoDup_fst_map_to_list.
  - intros k e Hin. rewrite Hv in Hin. by apply elem_of_map_to_list.
Qed.

(** ** Summaries *)

Definition newest (topic : bytes) (l : list Envelope) : Z :=
  foldr (λ e m, Z.max (if decide (Topic e = topic) then Timestamp e else 0) m) 0 l.

Lemma latest_fold l : ∀ acc topic,
  (∀ t, 0 ≤ default 0 (acc !! t)) →
  default 0 (foldl latest_step acc l !! topic) = Z.max (newest topic l) (default 0 (acc !! topic)).
Proof.
  induction l as [|e l IH]; intros acc topic Ha; [simpl; specialize (Ha topic); lia|].
  cbn [foldl newest foldr]. fold (newest topic l). rewrite IH.
  - unfold latest_step. destruct (Z.ltb_spec (default 0 (acc !! Topic e)) (Timestamp e)) as [Hlt|Hge].
    + destruct (decide (Topic e = topic)) as [<-|Hne].
      * rewrite lookup_insert_eq. simpl. lia.
      * rewrite lookup_insert_ne by done. specialize (Ha topic). lia.
    + destruct (decide (Topic e = topic)) as [<-|Hne]; [lia|]. specialize (Ha topic). lia.
  - intros t. unfold latest_step. destruct (Z.ltb_spec (default 0 (acc !! Topic e)) (Timestamp e)); [|done].
    destruct (decide (Topic e = t)) as [<-|].
    + rewrite lookup_insert_eq. simpl. specialize (Ha (Topic e)). lia.
    + by rewrite lookup_insert_ne.
Qed.

Lemma topics_fold l : ∀ acc topic,
  default 0 (foldl topics_step acc l !! topic) =
  default 0 (acc !! topic) + Z.of_nat (length (filter (λ e, Topic e = topic) l)).
Proof.
  induction l as [|e l IH]; intros acc topic; [simpl; lia|].
  cbn [foldl]. rewrite IH. unfold topics_step.
  destruct (decide (Topic e = topic)) as [<-|Hne].
  - rewrite lookup_insert_eq, filter_cons_True by done. simpl. lia.
  - by rewrite lookup_insert_ne, filter_cons_False by done.
Qed.

(** The summaries report per topic the newest timestamp (when positive)
    and the number of the live envelopes of both stores. *)
Theorem summaries_spec now visit s topic :
  default 0 (LatestByTopic now visit s !! topic) = newest topic (live_envelopes now visit s) ∧
  default 0 (Topics now visit s !! topic) =
    Z.of_nat (length (filter (λ e, Topic e = topic) (live_envelopes now visit s))).
Proof.
  unfold LatestByTopic, Topics. rewrite latest_fold, topics_fold, lookup_empty; simpl.
  - split; [|done]. generalize (live_envelopes now visit s). intros l.
    assert (0 ≤ newest topic l); [|lia]. induction l as [|e l IH]; [done|]. unfold newest in *. cbn [foldr]. lia.
  - intros t. by rewrite lookup_empty.
Qed.
End envelope_props.
