(* ===== verification/EnvelopeRuns.v ===== *)
(** * The envelope store at concrete envelopes

    The properties of [Envelope] and [EnvelopeProps] applied to the in-memory
    database and the instance of the signature library. *)

From Stdlib Require Import Init.Byte Strings.Byte Strings.String Lia ZArith.
From stdpp Require Import base gmap sets list strings numbers sorting fin_maps.
From S2P Require Import Prelude GoStd Sha256 LevelDB Ec Envelope EnvelopeStore EnvelopeProps.
Open Scope Z_scope.

#[export] Instance envelope_json : JsonCodec Envelope := countable_codec (set_received None).
#[export] Instance envelope_json_laws : JsonCodecLaws Envelope := countable_codec_laws _.

Definition key7 : PrivateKey := x07.
Definition signed (e : Envelope) : Envelope :=
  match Sign key7 e with Ok e' => e' | _ => e end.

Definition data_envelope (topic : bytes) (durable : bool) (ts : Z) : Envelope :=
  signed (MkEnvelope (lit "data") topic (lit "42") [] [] 60 durable ts false
            (Some (MkMonetization (lit "passthrough") (lit "76a9") 100 [])) None).

Definition rates : Envelope := data_envelope (lit "rates") false 10.
Definition archive : Envelope := data_envelope (lit "rates:bsv") true 20.

Definition t0 : Z := 1000.
Definition empty_store : Store (gmap bytes bytes) := MkStore ∅ ∅ 3600 65536.
Definition run1 := Ingest t0 empty_store rates.
Definition store1 : Store (gmap bytes bytes) := run1.1.1.
Definition run2 := Ingest t0 store1 archive.
Definition store2 : Store (gmap bytes bytes) := run2.1.1.

Lemma empty_store_inv : store_inv empty_store.
Proof. split; intros ? ?; simpl; by rewrite lookup_empty. Qed.

Lemma run1_ok : Ingest t0 empty_store rates = (store1, run1.1.2, Ok ()).
Proof. refine (run3_ok (Ingest t0 empty_store rates) (Ok ()) _). vm_compute. reflexivity. Qed.
Lemma run2_ok : Ingest t0 store1 archive = (store2, run2.1.2, Ok ()).
Proof. refine (run3_ok (Ingest t0 store1 archive) (Ok ()) _). vm_compute. reflexivity. Qed.

Lemma Ingest_spec_witness : store_inv store1 ∧ Validate rates = Ok ().
Proof.
  pose proof (Ingest_spec t0 empty_store rates store1 run1.1.2 (Ok ()) empty_store_inv run1_ok)
    as (_ & I & _ & Hok).
  exact (conj I (proj1 (Hok eq_refl))).
Defined.

Definition visit (s : Store (gmap bytes bytes)) := map_to_list (es_ephemeral s).
Definition answer (s : Store (gmap bytes bytes)) (topic : bytes) (limit : Z) : list Envelope :=
  match QueryByTopic t0 (visit s) s topic limit with Ok l => l | _ => [] end.

Lemma answer_ok1 : QueryByTopic t0 (visit store1) store1 (lit "rates") 0
  = Ok (answer store1 (lit "rates") 0).
Proof. refine (res_is_ok [] _ _). vm_compute. reflexivity. Qed.
Lemma answer_ok2 : QueryByTopic t0 (visit store2) store2 (lit "rates") 0
  = Ok (answer store2 (lit "rates") 0).
Proof. refine (res_is_ok [] _ _). vm_compute. reflexivity. Qed.
Lemma answer_ok2_1 : QueryByTopic t0 (visit store2) store2 (lit "rates") 1
  = Ok (answer store2 (lit "rates") 1).
Proof. refine (res_is_ok [] _ _). vm_compute. reflexivity. Qed.

Lemma Ingest_then_QueryByTopic_witness : as_stored run1.1.2 ∈ answer store1 (lit "rates") 0.
Proof.
  refine (Ingest_then_QueryByTopic t0 t0 empty_store rates store1 run1.1.2 (visit store1) _
    run1_ok _ (reflexivity _) answer_ok1).
  vm_compute. reflexivity.
Defined.

Lemma QueryByTopic_confuses_witness :
  json_norm run2.1.2 ∈ answer store2 (lit "rates") 0 ∧ Topic archive ≠ lit "rates".
Proof.
  exact (QueryByTopic_confuses t0 t0 store1 archive store2 run2.1.2 (visit store2) _ (lit "rates")
    (lit "bsv") run2_ok eq_refl eq_refl (reflexivity _) answer_ok2).
Defined.

Lemma QueryByTopic_spec_witness : Z.of_nat (length (answer store2 (lit "rates") 1)) ≤ 1.
Proof.
  refine (proj1 (proj2 (QueryByTopic_spec t0 (visit store2) store2 (lit "rates") 1 _
    (reflexivity _) answer_ok2_1)) _).
  lia.
Defined.

Lemma QueryByTopic_sound_witness :
  Forall (λ e, Topic e = lit "rates" ∧ Validate e = Ok ()) (answer store1 (lit "rates") 0).
Proof.
  apply Forall_forall. intros e He.
  refine (QueryByTopic_sound t0 (visit store1) store1 (lit "rates") 0 _ e _ (reflexivity _)
    answer_ok1 _ _ He).
  - exact (Ingest_inv _ _ _ _ _ _ empty_store_inv run1_ok).
  - intros k v e0 Hv _ _.
    assert (db_view (es_db store1) = ∅) as E by (vm_compute; reflexivity).
    rewrite E, lookup_empty in Hv. discriminate Hv.
  - eval_true.
Defined.

Definition run3 := Delete store2 (Topic archive) (key_of archive).

Lemma run3_run : Delete store2 (Topic archive) (key_of archive) = (run3.1, Ok true).
Proof. refine (run_ok (Delete store2 (Topic archive) (key_of archive)) _ _). vm_compute. reflexivity. Qed.

Lemma store2_inv : store_inv store2.
Proof.
  exact (Ingest_inv _ _ _ _ _ _ (Ingest_inv _ _ _ _ _ _ empty_store_inv run1_ok) run2_ok).
Qed.

Lemma Delete_spec_witness :
  store_inv run3.1 ∧
  db_view (es_db run3.1) = delete (durable_key (lit "rates:bsv") (key_of archive)) (db_view (es_db store2)).
Proof.
  pose proof (Delete_spec store2 (Topic archive) (key_of archive) run3.1 (Ok true) store2_inv
    run3_run) as (_ & I & Hb).
  exact (conj I (proj1 (proj2 (Hb true eq_refl)))).
Defined.

Definition run4 := ExpireEphemeral (t0 + 61 * second) (visit store2) store2.

Lemma ExpireEphemeral_spec_witness :
  run4.2 = CountEphemeral store2 - CountEphemeral run4.1 ∧ run4.2 = 1.
Proof.
  split; [|vm_compute; reflexivity].
  exact (proj1 (proj2 (proj2 (ExpireEphemeral_spec _ _ store2 run4.1 run4.2 (reflexivity _)
    (surjective_pairing run4))))).
Defined.

(** The same envelope under another key. *)
Definition rates8 : Envelope := match Sign (x08 : PrivateKey) rates with Ok e => e | _ => rates end.

Lemma rates_plain : plain rates.
Proof. split_and!; [eval_true..|split; eval_true]. Qed.

Definition token_script : Envelope := signed (token_with (lit "35") 0).
Definition token_price : Envelope := set_signature (Signature token_script) (Pubkey token_script) (token_with [] 35).

Lemma canonical_binds_fields_witness :
  same_fields rates rates8 ∧ EMonetization rates = EMonetization rates8 ∧ Pubkey rates ≠ Pubkey rates8 ∧
  canonical token_script = canonical token_price ∧ EMonetization token_script ≠ EMonetization token_price.
Proof.
  pose proof (proj1 (canonical_binds_fields (H:=toy_ec) rates rates8 rates_plain rates_plain
    ltac:(vm_compute; reflexivity) ltac:(vm_compute; reflexivity)) eq_refl) as [HF HT].
  split; [exact HF|]. split; [exact (f_equal Some (proj1 (proj2 HT) (or_introl eq_refl)))|]. split; [vm_compute; discriminate|].
  split; [|vm_compute; discriminate].
  apply (canonical_binds_fields (H:=toy_ec) token_script token_price);
    [split_and!; [eval_true..|split; eval_true]|split_and!; [eval_true..|split; eval_true]|vm_compute; reflexivity|vm_compute; reflexivity|].
  split; [split_and!; reflexivity|]. split; [reflexivity|]. split; [intros [E|E]; discriminate E|]. split; [|intros E; discriminate E].
  intros _. split; [reflexivity|]. right; left. split_and!; [vm_compute; reflexivity|vm_compute; discriminate|reflexivity|reflexivity].
Defined.

Lemma Sign_then_Validate_witness : ∃ sig pub,
  Sign key7 ambiguous1 = Ok (set_signature sig pub ambiguous1) ∧
  Validate (set_signature sig pub ambiguous1) = Ok ().
Proof.
  refine (Sign_then_Validate key7 ambiguous1 _).
  split_and!; [discriminate|discriminate|vm_compute; discriminate|discriminate|exact I].
Defined.

Lemma SigningDigest_ambiguous_witness :
  Validate (signed ambiguous1) = Ok () ∧
  Validate (set_signature (Signature (signed ambiguous1)) (Pubkey (signed ambiguous1)) ambiguous2) = Ok ().
Proof.
  pose proof (SigningDigest_ambiguous (H:=toy_ec) key7 (signed ambiguous1) ltac:(vm_compute; reflexivity))
    as (H1 & H2 & _).
  exact (conj H1 H2).
Defined.

Lemma IsExpired_iff_witness :
  IsExpired (t0 + 61 * second) (set_received (Some t0) rates) = true ∧
  IsExpired (t0 + 60 * second) (set_received (Some t0) rates) = false.
Proof.
  pose proof (IsExpired_iff (set_received (Some t0) rates) t0 (t0 + 61 * second)
    (t0 + 62 * second) eq_refl) as P1.
  split; [|vm_compute; reflexivity].
  refine (proj2 (proj1 (P1 _ _ _ _)) _).
  1-4: vm_compute; intuition discriminate.
  vm_compute. split; reflexivity.
Defined.
