(* ===== verification/Slash.v ===== *)
(** * Slash warnings ([internal/gossip/slash.go], the tracker)

    Warnings are collected per target over a grace period; a target is
    deregistered when enough of them, of one reason, come from at least two
    reporters. *)

From Stdlib Require Import Init.Byte Strings.Byte Strings.String Lia ZArith.
From stdpp Require Import base gmap sets list strings numbers.
From S2P Require Import Prelude GoStd.
Open Scope Z_scope.

Record SlashWarningPayload := MkSlashWarning {
  w_Target : bytes;
  w_Reason : bytes;
  w_Evidence : bytes;
  w_Timestamp : Z;
  w_Reporter : bytes
}.

Definition SlashDoublePublish : bytes := lit "double_publish".
Definition SlashGossipSpam : bytes := lit "gossip_spam".
Definition SlashBadProof : bytes := lit "bad_proof".

Definition SlashSeverity (reason : bytes) : Z :=
  if bool_decide (reason = SlashDoublePublish) then 100
  else if bool_decide (reason = SlashGossipSpam) then 25
  else if bool_decide (reason = SlashBadProof) then 50
  else 0.

Definition slashGracePeriod : Z := 48 * hour.
Definition slashSpamThreshold : Z := 3.

Record slashRecord := MkSlashRecord { sr_Warnings : list SlashWarningPayload; sr_FirstWarn : Z }.

(** The tracker: target pubkey to record. *)
Abbreviation slashTracker := (gmap bytes slashRecord).

(** The number of warnings of a reason and of their reporters. *)
Definition countByReason (rec : slashRecord) (reason : bytes) : Z * Z :=
  let ws := filter (λ w, w_Reason w = reason) (sr_Warnings rec) in
  (Z.of_nat (length ws), Z.of_nat (size (list_to_set (C:=gset bytes) (w_Reporter <$> ws)))).

Definition addWarning (now : Z) (w : SlashWarningPayload) (st : slashTracker) : slashTracker * bool :=
  let rec := default (MkSlashRecord [] now) (st !! w_Target w) in
  let rec := if slashGracePeriod <? since now (sr_FirstWarn rec) then MkSlashRecord [] now else rec in
  let rec := MkSlashRecord (sr_Warnings rec ++ [w]) (sr_FirstWarn rec) in
  let st := <[w_Target w := rec]> st in
  if bool_decide (w_Reason w = SlashDoublePublish) then
    let '(count, reporters) := countByReason rec SlashDoublePublish in
    (st, (2 <=? count) && (2 <=? reporters))
  else
    let '(count, reporters) := countByReason rec (w_Reason w) in
    (st, (slashSpamThreshold <=? count) && (2 <=? reporters)).

Definition activeWarnings (now : Z) (target : bytes) (st : slashTracker)
    : slashTracker * list SlashWarningPayload :=
  match st !! target with
  | None => (st, [])
  | Some rec =>
      if slashGracePeriod <? since now (sr_FirstWarn rec) then (delete target st, [])
      else (st, sr_Warnings rec)
  end.

Definition allActive (now : Z) (st : slashTracker)
    : slashTracker * gmap bytes (list SlashWarningPayload) :=
  let st := filter (λ kr, since now (sr_FirstWarn kr.2) ≤ slashGracePeriod) st in
  (st, sr_Warnings <$> filter (λ kr, sr_Warnings kr.2 ≠ []) st).

(** ** Properties *)

(** A run of the tracker over timed warnings. *)
Fixpoint warn_all (ws : list (Z * SlashWarningPayload)) (st : slashTracker) : slashTracker * list bool :=
  match ws with
  | [] => (st, [])
  | (now, w) :: ws' =>
      let '(st, out) := addWarning now w st in
      let '(st, outs) := warn_all ws' st in
      (st, out :: outs)
  end.

(** The warnings kept against a target are reports of one reporter. *)
Definition only_reporter (r : bytes) (target : bytes) (st : slashTracker) : Prop :=
  ∀ rec, st !! target = Some rec → Forall (λ w, w_Reporter w = r) (sr_Warnings rec).

Lemma reporters_single r (ws : list SlashWarningPayload) :
  Forall (λ w, w_Reporter w = r) ws →
  (size (list_to_set (C:=gset bytes) (w_Reporter <$> ws)) ≤ 1)%nat.
Proof.
  intros HF. rewrite <- (size_singleton (C:=gset bytes) r). apply subseteq_size.
  intros x Hx. apply elem_of_list_to_set, list_elem_of_fmap in Hx as (w & -> & Hw).
  rewrite list.Forall_forall in HF. apply elem_of_singleton. by apply HF.
Qed.

Lemma addWarning_record now w st : ∃ rec,
  (addWarning now w st).1 = <[w_Target w := rec]> st ∧
  (∃ old, sr_Warnings rec = old ++ [w] ∧
     (old = [] ∨ ∃ rec0, st !! w_Target w = Some rec0 ∧ old = sr_Warnings rec0)) ∧
  (addWarning now w st).2 =
    ((if bool_decide (w_Reason w = SlashDoublePublish) then 2 else slashSpamThreshold)
       <=? (countByReason rec (w_Reason w)).1) && (2 <=? (countByReason rec (w_Reason w)).2).
Proof.
  unfold addWarning. set (rec0 := default _ _). set (rec1 := if _ <? _ then _ else _).
  exists (MkSlashRecord (sr_Warnings rec1 ++ [w]) (sr_FirstWarn rec1)).
  assert (∃ old, sr_Warnings rec1 = old ∧
    (old = [] ∨ ∃ rec0, st !! w_Target w = Some rec0 ∧ old = sr_Warnings rec0)) as (old & Ho & Hold).
  { eexists. split; [done|]. unfold rec1, rec0. destruct (_ <? _); [by left|].
    destruct (st !! w_Target w) as [r|]; [|by left]. right. eauto. }
  case_bool_decide as Hr; [rewrite <- Hr|]; cbn [fst snd].
  all: destruct (countByReason _ _) as [c n]; cbn [fst snd]; split_and!; [done| |done].
  all: exists old; rewrite Ho; done.
Qed.

(** One reporter alone never gets a target deregistered: in any run of the
    tracker in which every warning against the target names the same reporter,
    no warning against it crosses the threshold. *)
Theorem single_reporter_never_deregisters target r ws st :
  only_reporter r target st →
  Forall (λ nw, w_Target nw.2 = target → w_Reporter nw.2 = r) ws →
  Forall2 (λ nw out, w_Target nw.2 = target → out = false) ws (warn_all ws st).2.
Proof.
  revert st. induction ws as [|[now w] ws IH]; intros st Ho HF; [constructor|].
  apply list.Forall_cons in HF as [Hw HF]. cbn [warn_all].
  destruct (addWarning_record now w st) as (rec & Hst & (old & Hwarn & Hold) & Hout).
  destruct (addWarning now w st) as [st' out]. cbn [fst snd] in Hst, Hout. subst st'.
  destruct (warn_all ws _) as [st'' outs] eqn:Hrun.
  assert (∀ rec0, st !! target = Some rec0 → w_Target w = target →
    Forall (λ w, w_Reporter w = r) (old ++ [w])) as Hall.
  { intros rec0 Hr Ht. apply Forall_app. split; [|apply Forall_singleton; by apply Hw].
    destruct Hold as [->|(rec1 & Hr1 & ->)]; [constructor|]. apply Ho. by rewrite <- Ht. }
  assert (w_Target w = target → Forall (λ w, w_Reporter w = r) (sr_Warnings rec)) as Hrec.
  { intros Ht. rewrite Hwarn. apply Forall_app. split; [|apply Forall_singleton; by apply Hw].
    destruct Hold as [->|(rec1 & Hr1 & ->)]; [constructor|]. apply Ho. by rewrite <- Ht. }
  constructor.
  - cbn. intros Ht. rewrite Hout. apply andb_false_intro2. apply Z.leb_gt. cbn.
    apply (inj_lt _ 2). apply Nat.lt_succ_r, (reporters_single r).
    apply list.Forall_forall. intros x Hx. apply list_elem_of_filter in Hx as [_ Hx].
    specialize (Hrec Ht). rewrite list.Forall_forall in Hrec. by apply Hrec.
  - pose proof (IH (<[w_Target w := rec]> st)) as IH'. rewrite Hrun in IH'. apply IH'; [|done].
    intros rec' [[Ht <-]|[_ Hr]]%lookup_insert_Some; [by apply Hrec|by apply Ho].
Qed.

Definition warning (target reporter : bytes) (ts : Z) : SlashWarningPayload :=
  MkSlashWarning target SlashDoublePublish [] ts reporter.

Definition one_sided_run : list (Z * SlashWarningPayload) :=
  [(0, warning (lit "t") (lit "r") 1); (1, warning (lit "t") (lit "r") 2);
   (2, warning (lit "t") (lit "r") 3)].

Lemma single_reporter_never_deregisters_witness :
  Forall2 (λ nw out, w_Target nw.2 = lit "t" → out = false) one_sided_run (warn_all one_sided_run ∅).2.
Proof.
  refine (single_reporter_never_deregisters (lit "t") (lit "r") one_sided_run ∅ _ _).
  - intros rec Hr. rewrite lookup_empty in Hr. discriminate Hr.
  - repeat (apply list.Forall_cons; split; [reflexivity|]). constructor.
Defined.
