(* ===== verification/Gossip.v ===== *)
(** * The mesh ([internal/gossip])

    The gossip manager: message handlers, duplicate suppression, double-publish
    detection, per-peer rate limits, slash warnings, peer registration and
    removal, and the connection log. A handler takes the manager's state and
    returns the state it leaves and what it did to the outside, in order. The
    go-sdk peer is outside: a message handed to [ToPeer] is the output [OSend].
    The transport is in [Transport]. *)

From Stdlib Require Import Init.Byte Strings.Byte Strings.String Lia ZArith.
From stdpp Require Import base gmap sets list strings numbers.
From S2P Require Import Prelude GoStd Sha256 LevelDB Ec Float Envelope EnvelopeStore Slash.
Open Scope Z_scope.

(** ** The wire protocol ([protocol.go]) *)

Definition MsgData : bytes := lit "data".
Definition MsgTopics : bytes := lit "topics".
Definition MsgDataRequest : bytes := lit "data_request".
Definition MsgDataResponse : bytes := lit "data_response".
Definition MsgSHIPSync : bytes := lit "ship_sync".
Definition MsgSlashWarning : bytes := lit "slash_warning".

Record Message := MkMessage { m_Type : bytes; m_Data : bytes }.
Record TopicsPayload := MkTopics { tp_Prefixes : list bytes }.
Record DataRequestPayload := MkDataRequest { dr_Topic : bytes; dr_Since : Z; dr_Limit : Z }.
(** An element of [Envelopes] is a pointer, nil for a JSON null. *)
Record DataResponsePayload := MkDataResponse {
  ds_Topic : bytes; ds_Envelopes : list (option Envelope); ds_HasMore : bool
}.
Record SHIPPeerInfo := MkSHIPPeerInfo {
  sp_IdentityPub : bytes; sp_Domain : bytes; sp_NodeName : bytes; sp_Version : bytes; sp_Topic : bytes
}.
Record SHIPSyncPayload := MkSHIPSync { ss_Peers : list SHIPPeerInfo }.

(** [json.Marshal] of a [json.RawMessage]: the same text, compacted. *)
Class RawJson := raw_marshal : bytes → option bytes.

Class WireCodec := {
  #[global] wc_message :: JsonCodec Message;
  #[global] wc_topics :: JsonCodec TopicsPayload;
  #[global] wc_request :: JsonCodec DataRequestPayload;
  #[global] wc_response :: JsonCodec DataResponsePayload;
  #[global] wc_ship :: JsonCodec SHIPSyncPayload;
  #[global] wc_slash :: JsonCodec SlashWarningPayload;
  #[global] wc_envelope :: JsonCodec Envelope;
  #[global] wc_raw :: RawJson
}.

(** ** The overlay directory, as the mesh sees it *)

Class OverlayDirectory (Dir : Type) := {
  ForEachSHIP : Dir → list SHIPPeerInfo;
  AddSHIPPeerFromGossip : Dir → SHIPPeerInfo → Dir * bool;
  RemoveSHIPPeerByIdentity : Dir → bytes → Dir
}.

(** ** State *)

(** [mp_IdentityPK] is the hex of the compressed key, [mp_Peer] whether there
    is a session behind it. *)
Record MeshPeer := MkMeshPeer {
  mp_Peer : bool;
  mp_IdentityPK : option bytes;
  mp_Endpoint : bytes;
  mp_Direction : bytes;
  mp_BondSats : Z;
  mp_Version : bytes;
  mp_ConnectedAt : option Z;
  mp_origKey : bytes
}.

Record peerRate := MkPeerRate {
  pr_tokens : float64;
  pr_lastSeen : Z;
  pr_dropCount : Z;
  pr_lastWarnAt : option Z
}.

Record ConnectionEvent := MkConnectionEvent {
  ce_Timestamp : bytes;
  ce_Direction : bytes;
  ce_Event : bytes;
  ce_Endpoint : bytes;
  ce_Identity : bytes;
  ce_BondSats : Z;
  ce_PeerCount : Z;
  ce_ConnectedAt : bytes;
  ce_DurationSecs : Z;
  ce_Reason : bytes
}.

(** The in-memory tail of the log; the file is an output. *)
Record ConnectionLog := MkConnectionLog { cl_maxRecent : Z; cl_recent : list ConnectionEvent }.

Record Manager (DB Dir : Type) := MkManager {
  g_wallet : option bytes;
  g_store : option (Store DB);
  g_peers : gmap bytes MeshPeer;
  g_interests : gmap bytes (list bytes);
  g_localInterests : list bytes;
  g_seen : gset bytes;
  g_maxSeen : Z;
  g_onEnvelope : list N;
  g_overlayDir : option Dir;
  g_peerRates : gmap bytes peerRate;
  g_dupCounts : gmap bytes Z;
  g_dupReported : gset bytes;
  g_slashTracker : slashTracker;
  g_catchUpTopics : list bytes;
  g_localPubkeys : gset bytes;
  g_connLog : option ConnectionLog;
  g_envsReceived : Z;
  g_envsSent : Z;
  g_startedAt : Z
}.
Arguments MkManager {DB Dir}.
Arguments g_wallet {DB Dir}. Arguments g_store {DB Dir}. Arguments g_peers {DB Dir}.
Arguments g_interests {DB Dir}. Arguments g_localInterests {DB Dir}. Arguments g_seen {DB Dir}.
Arguments g_maxSeen {DB Dir}. Arguments g_onEnvelope {DB Dir}. Arguments g_overlayDir {DB Dir}.
Arguments g_peerRates {DB Dir}. Arguments g_dupCounts {DB Dir}. Arguments g_dupReported {DB Dir}.
Arguments g_slashTracker {DB Dir}. Arguments g_catchUpTopics {DB Dir}.
Arguments g_localPubkeys {DB Dir}. Arguments g_connLog {DB Dir}.
Arguments g_envsReceived {DB Dir}. Arguments g_envsSent {DB Dir}. Arguments g_startedAt {DB Dir}.

(** What a step does to the outside. *)
Inductive output :=
  | OSend (peer : bytes) (payload : bytes)
  | ODeliver (hook : N) (env : Envelope)
  | OLogLine (event : ConnectionEvent)
  | OStop (peer : MeshPeer)
  | OSpawnDeregister (target : bytes).

Section setters.
Context {DB Dir : Type}.
Implicit Type m : Manager DB Dir.

Definition set_store (x : option (Store DB)) m : Manager DB Dir :=
  MkManager
    (g_wallet m) x (g_peers m) (g_interests m) (g_localInterests m) (g_seen m) (g_maxSeen
    m) (g_onEnvelope m) (g_overlayDir m) (g_peerRates m) (g_dupCounts m) (g_dupReported m)
    (g_slashTracker m) (g_catchUpTopics m) (g_localPubkeys m) (g_connLog m)
    (g_envsReceived m) (g_envsSent m) (g_startedAt m).
Definition set_peers (x : gmap bytes MeshPeer) m : Manager DB Dir :=
  MkManager
    (g_wallet m) (g_store m) x (g_interests m) (g_localInterests m) (g_seen m) (g_maxSeen
    m) (g_onEnvelope m) (g_overlayDir m) (g_peerRates m) (g_dupCounts m) (g_dupReported m)
    (g_slashTracker m) (g_catchUpTopics m) (g_localPubkeys m) (g_connLog m)
    (g_envsReceived m) (g_envsSent m) (g_startedAt m).
Definition set_interests (x : gmap bytes (list bytes)) m : Manager DB Dir :=
  MkManager
    (g_wallet m) (g_store m) (g_peers m) x (g_localInterests m) (g_seen m) (g_maxSeen m)
    (g_onEnvelope m) (g_overlayDir m) (g_peerRates m) (g_dupCounts m) (g_dupReported m)
    (g_slashTracker m) (g_catchUpTopics m) (g_localPubkeys m) (g_connLog m)
    (g_envsReceived m) (g_envsSent m) (g_startedAt m).
Definition set_seen (x : gset bytes) m : Manager DB Dir :=
  MkManager
    (g_wallet m) (g_store m) (g_peers m) (g_interests m) (g_localInterests m) x (g_maxSeen
    m) (g_onEnvelope m) (g_overlayDir m) (g_peerRates m) (g_dupCounts m) (g_dupReported m)
    (g_slashTracker m) (g_catchUpTopics m) (g_localPubkeys m) (g_connLog m)
    (g_envsReceived m) (g_envsSent m) (g_startedAt m).
Definition set_onEnvelope (x : list N) m : Manager DB Dir :=
  MkManager
    (g_wallet m) (g_store m) (g_peers m) (g_interests m) (g_localInterests m) (g_seen m)
    (g_maxSeen m) x (g_overlayDir m) (g_peerRates m) (g_dupCounts m) (g_dupReported m)
    (g_slashTracker m) (g_catchUpTopics m) (g_localPubkeys m) (g_connLog m)
    (g_envsReceived m) (g_envsSent m) (g_startedAt m).
Definition set_overlayDir (x : option Dir) m : Manager DB Dir :=
  MkManager
    (g_wallet m) (g_store m) (g_peers m) (g_interests m) (g_localInterests m) (g_seen m)
    (g_maxSeen m) (g_onEnvelope m) x (g_peerRates m) (g_dupCounts m) (g_dupReported m)
    (g_slashTracker m) (g_catchUpTopics m) (g_localPubkeys m) (g_connLog m)
    (g_envsReceived m) (g_envsSent m) (g_startedAt m).
Definition set_peerRates (x : gmap bytes peerRate) m : Manager DB Dir :=
  MkManager
    (g_wallet m) (g_store m) (g_peers m) (g_interests m) (g_localInterests m) (g_seen m)
    (g_maxSeen m) (g_onEnvelope m) (g_overlayDir m) x (g_dupCounts m) (g_dupReported m)
    (g_slashTracker m) (g_catchUpTopics m) (g_localPubkeys m) (g_connLog m)
    (g_envsReceived m) (g_envsSent m) (g_startedAt m).
Definition set_dupCounts (x : gmap bytes Z) m : Manager DB Dir :=
  MkManager
    (g_wallet m) (g_store m) (g_peers m) (g_interests m) (g_localInterests m) (g_seen m)
    (g_maxSeen m) (g_onEnvelope m) (g_overlayDir m) (g_peerRates m) x (g_dupReported m)
    (g_slashTracker m) (g_catchUpTopics m) (g_localPubkeys m) (g_connLog m)
    (g_envsReceived m) (g_envsSent m) (g_startedAt m).
Definition set_dupReported (x : gset bytes) m : Manager DB Dir :=
  MkManager
    (g_wallet m) (g_store m) (g_peers m) (g_interests m) (g_localInterests m) (g_seen m)
    (g_maxSeen m) (g_onEnvelope m) (g_overlayDir m) (g_peerRates m) (g_dupCounts m) x
    (g_slashTracker m) (g_catchUpTopics m) (g_localPubkeys m) (g_connLog m)
    (g_envsReceived m) (g_envsSent m) (g_startedAt m).
Definition set_slashTracker (x : slashTracker) m : Manager DB Dir :=
  MkManager
    (g_wallet m) (g_store m) (g_peers m) (g_interests m) (g_localInterests m) (g_seen m)
    (g_maxSeen m) (g_onEnvelope m) (g_overlayDir m) (g_peerRates m) (g_dupCounts m)
    (g_dupReported m) x (g_catchUpTopics m) (g_localPubkeys m) (g_connLog m)
    (g_envsReceived m) (g_envsSent m) (g_startedAt m).
Definition set_connLog (x : option ConnectionLog) m : Manager DB Dir :=
  MkManager
    (g_wallet m) (g_store m) (g_peers m) (g_interests m) (g_localInterests m) (g_seen m)
    (g_maxSeen m) (g_onEnvelope m) (g_overlayDir m) (g_peerRates m) (g_dupCounts m)
    (g_dupReported m) (g_slashTracker m) (g_catchUpTopics m) (g_localPubkeys m) x
    (g_envsReceived m) (g_envsSent m) (g_startedAt m).
Definition set_envsReceived (x : Z) m : Manager DB Dir :=
  MkManager
    (g_wallet m) (g_store m) (g_peers m) (g_interests m) (g_localInterests m) (g_seen m)
    (g_maxSeen m) (g_onEnvelope m) (g_overlayDir m) (g_peerRates m) (g_dupCounts m)
    (g_dupReported m) (g_slashTracker m) (g_catchUpTopics m) (g_localPubkeys m) (g_connLog
    m) x (g_envsSent m) (g_startedAt m).
Definition set_envsSent (x : Z) m : Manager DB Dir :=
  MkManager
    (g_wallet m) (g_store m) (g_peers m) (g_interests m) (g_localInterests m) (g_seen m)
    (g_maxSeen m) (g_onEnvelope m) (g_overlayDir m) (g_peerRates m) (g_dupCounts m)
    (g_dupReported m) (g_slashTracker m) (g_catchUpTopics m) (g_localPubkeys m) (g_connLog
    m) (g_envsReceived m) x (g_startedAt m).
End setters.

(** The zero [time.Time]: January 1 of year 1. *)
Definition zero_time : Z := - 62135596800 * second.

(** ** Handlers as state transformers with outputs *)

Inductive gossip_err := ErrNoWallet | ErrTransport | ErrEncode | ErrToPeer | ErrBond (e : bytes).

Definition G (DB Dir A : Type) : Type :=
  Manager DB Dir → Manager DB Dir * list output * res gossip_err A.

#[export] Instance G_ret {DB Dir} : MRet (G DB Dir) := λ A a m, (m, [], Ok a).
#[export] Instance G_bind {DB Dir} : MBind (G DB Dir) := λ A B f x m,
  let '(m1, o1, r) := x m in
  match r with
  | Ok a => let '(m2, o2, r2) := f a m1 in (m2, o1 ++ o2, r2)
  | Err e => (m1, o1, Err e)
  | Panic => (m1, o1, Panic)
  end.

Section monad.
Context {DB Dir : Type}.
Definition get : G DB Dir (Manager DB Dir) := λ m, (m, [], Ok m).
Definition modify (f : Manager DB Dir → Manager DB Dir) : G DB Dir unit := λ m, (f m, [], Ok ()).
Definition emit (o : list output) : G DB Dir unit := λ m, (m, o, Ok ()).
Definition throw {A} (e : gossip_err) : G DB Dir A := λ m, (m, [], Err e).
Definition panic {A} : G DB Dir A := λ m, (m, [], Panic).
Definition skip : G DB Dir unit := mret ().
Fixpoint for_each {A} (l : list A) (f : A → G DB Dir unit) : G DB Dir unit :=
  match l with [] => skip | a :: l' => f a;; for_each l' f end.
End monad.

Section manager.
Context {DB Dir : Type} `{LevelDB DB} `{OverlayDirectory Dir} `{EC} `{WireCodec}.
Context `{SortSlice} `{MapOrder} `{SetOrder}.
(** The outcome of [ToPeer], and Unicode lower-casing. *)
Context (topeer : bytes → bytes → bool) (uni : bytes → bytes).
Abbreviation G := (G DB Dir).
Abbreviation manager := (Manager DB Dir).

Definition Encode {A} `{JsonCodec A} (msgType : bytes) (payload : A) : option bytes :=
  data ← json_marshal payload; json_marshal (MkMessage msgType data).
Definition EncodeRaw (msgType raw : bytes) : option bytes :=
  data ← raw_marshal raw; json_marshal (MkMessage msgType data).
Definition Decode (raw : bytes) : option Message := json_unmarshal raw.

(** [NewManager]. *)
Definition NewManager (now : Z) (wallet : option bytes) (store : option (Store DB))
    (localInterests : list bytes) (maxSeen : Z) (onEnvelope : list N) (overlayDir : option Dir)
    (catchUpTopics localPubkeys : list bytes) (connLog : option ConnectionLog) : manager :=
  let maxSeen := if maxSeen <=? 0 then 10000 else maxSeen in
  let pks := filter (λ pk, pk ≠ []) ((λ pk, to_lower uni (trim_space uni pk)) <$> localPubkeys) in
  MkManager wallet store ∅ ∅ localInterests ∅ maxSeen onEnvelope overlayDir ∅ ∅ ∅ ∅
    catchUpTopics (list_to_set pks) connLog 0 0 now.

Definition ratePerSec : Z := 30.
Definition rateBurst : Z := 100.

(** *** The connection log *)

Definition Record_ (now : Z) (event : ConnectionEvent) : G unit :=
  m ← get;
  match g_connLog m with
  | None => skip
  | Some l =>
      let event := if bool_decide (ce_Timestamp event = []) then
        MkConnectionEvent (rfc3339 now) (ce_Direction event) (ce_Event event) (ce_Endpoint event)
          (ce_Identity event) (ce_BondSats event) (ce_PeerCount event) (ce_ConnectedAt event)
          (ce_DurationSecs event) (ce_Reason event) else event in
      let recent := cl_recent l ++ [event] in
      let recent := if cl_maxRecent l <? Z.of_nat (length recent)
        then drop (length recent - Z.to_nat (cl_maxRecent l)) recent else recent in
      modify (set_connLog (Some (MkConnectionLog (cl_maxRecent l) recent)));;
      emit [OLogLine event]
  end.

Definition recordConnectionEvent (now : Z) (event : ConnectionEvent) : G unit :=
  if bool_decide (ce_Event event = []) then skip else Record_ now event.

Definition Recent (limit : Z) (l : ConnectionLog) : list ConnectionEvent :=
  let n := Z.of_nat (length (cl_recent l)) in
  let limit := if (limit <=? 0) || (n <? limit) then n else limit in
  drop (Z.to_nat (n - limit)) (cl_recent l).

Definition RecentConnections (limit : Z) (m : manager) : list ConnectionEvent :=
  match g_connLog m with None => [] | Some l => Recent limit l end.

Definition identity_text (p : MeshPeer) : bytes := default [] (mp_IdentityPK p).

Definition disconnectEventForPeer (now : Z) (p : MeshPeer) (reason : bytes) (peerCount : Z)
    : ConnectionEvent :=
  MkConnectionEvent [] (mp_Direction p) (lit "disconnected") (mp_Endpoint p) (identity_text p)
    (if 0 <? mp_BondSats p then mp_BondSats p else 0) peerCount
    (match mp_ConnectedAt p with None => [] | Some t => rfc3339 t end)
    (match mp_ConnectedAt p with None => 0 | Some t => f64_to_int (seconds (since now t)) end)
    reason.

Definition notePeerIdentity (now : Z) (identity : bytes) : G unit :=
  m ← get;
  match g_peers m !! identity with
  | None => skip
  | Some p =>
      recordConnectionEvent now (MkConnectionEvent [] (mp_Direction p) (lit "identified")
        (mp_Endpoint p) identity (mp_BondSats p) (Z.of_nat (size (g_peers m)))
        (rfc3339 (default zero_time (mp_ConnectedAt p))) 0 [])
  end.

(** *** Sending *)

(** [ToPeer] to every connected peer but [skip_]. *)
Definition send_all (skip_ : option bytes) (payload : bytes) : G unit :=
  m ← get;
  for_each (map_order (g_peers m)) (λ '(pk, p),
    if bool_decide (Some pk = skip_) then skip
    else if mp_Peer p then emit [OSend pk payload] else skip).

Definition forwardSHIPToAll (senderPK raw : bytes) : G unit :=
  match EncodeRaw MsgSHIPSync raw with
  | None => skip
  | Some encoded => send_all (Some senderPK) encoded
  end.

Definition forwardSlashWarning (senderPK raw : bytes) : G unit :=
  match EncodeRaw MsgSlashWarning raw with
  | None => skip
  | Some encoded => send_all (Some senderPK) encoded
  end.

Definition IncrReceived : G unit := modify (λ m, set_envsReceived (i64 (g_envsReceived m + 1)) m).
Definition IncrSent : G unit := modify (λ m, set_envsSent (i64 (g_envsSent m + 1)) m).

Definition interested (topic : bytes) (prefixes : list bytes) : bool :=
  existsb (λ p, has_prefix topic p) prefixes.

Definition forwardToInterested (senderPK topic raw : bytes) : G unit :=
  match EncodeRaw MsgData raw with
  | None => skip
  | Some encoded =>
      m ← get;
      for_each (map_order (g_peers m)) (λ '(pk, p),
        if bool_decide (pk = senderPK) then skip
        else if interested topic (default [] (g_interests m !! pk)) then
          if mp_Peer p then emit [OSend pk encoded];; IncrSent else skip
        else skip)
  end.

(** *** Removing peers *)

(** The entry a removal selects: under the key itself, else the first one
    registered under it. *)
Definition find_peer (origKey : bytes) (m : manager) : option (bytes * MeshPeer) :=
  match g_peers m !! origKey with
  | Some p => Some (origKey, p)
  | None => snd <$> list_find (λ kp, mp_origKey kp.2 = origKey) (map_order (g_peers m))
  end.

Definition removePeerWithReason (now : Z) (origKey reason : bytes) : G unit :=
  m ← get;
  match find_peer origKey m with
  | None => skip
  | Some (k, p) =>
      let event := disconnectEventForPeer now p reason (Z.of_nat (size (g_peers m)) - 1) in
      emit [OStop p];;
      modify (set_peers (delete k (g_peers m)));;
      modify (λ m, set_interests (delete k (g_interests m)) m);;
      recordConnectionEvent now event
  end.

Definition removePeer (now : Z) (origKey : bytes) : G unit := removePeerWithReason now origKey [].

(** [Stop]. *)
Definition Stop (now : Z) : G unit :=
  m ← get;
  let n := Z.of_nat (size (g_peers m)) - 1 in
  let ps := (map_order (g_peers m)).*2 in
  emit (OStop <$> ps);;
  modify (set_peers ∅);;
  for_each ps (λ p, recordConnectionEvent now (disconnectEventForPeer now p (lit "shutdown") n)).

(** *** Slashing *)

Definition selfIdentity (m : manager) : bytes := default [] (g_wallet m).

(** The goroutine of a self-detected violation, and what follows the warning
    of a peer: the target is disconnected and leaves the directory. *)
Definition deregister (now : Z) (target : bytes) : G unit :=
  removePeer now target;;
  modify (λ m, match g_overlayDir m with
               | None => m
               | Some d => set_overlayDir (Some (RemoveSHIPPeerByIdentity d target)) m
               end).

Definition add_warning (now : Z) (w : SlashWarningPayload) : G bool :=
  m ← get;
  let '(st, out) := addWarning now w (g_slashTracker m) in
  modify (set_slashTracker st);; mret out.

Definition broadcastSlashWarning (now : Z) (target reason evidence : bytes) : G unit :=
  m ← get;
  let selfPK := selfIdentity m in
  if bool_decide (selfPK = []) then skip
  else
    let w := MkSlashWarning target reason evidence (now / second) selfPK in
    shouldDeregister ← add_warning now w;
    match Encode MsgSlashWarning w with
    | None => skip
    | Some payload =>
        send_all None payload;;
        if (shouldDeregister : bool) then emit [OSpawnDeregister target] else skip
    end.

Definition colon_join (l : list bytes) : bytes :=
  match l with [] => [] | x :: l' => foldl (λ a b, a ++ colon ++ b) x l' end.

Definition onSlashWarning (now : Z) (senderPK raw : bytes) : G unit :=
  match json_unmarshal (A:=SlashWarningPayload) raw with
  | None => skip
  | Some w =>
      if bool_decide (w_Target w = []) || bool_decide (w_Reporter w = []) ||
         bool_decide (w_Target w = senderPK) then skip
      else
        let warnHash := colon_join [lit "slash"; w_Target w; w_Reporter w; w_Reason w;
                                    itoa (w_Timestamp w)] in
        m ← get;
        if bool_decide (warnHash ∈ g_seen m) then skip
        else
          modify (set_seen ({[ warnHash ]} ∪ g_seen m));;
          shouldDeregister ← add_warning now w;
          (if (shouldDeregister : bool) then
             (** the log line reads the active warnings *)
             modify (λ m, set_slashTracker (activeWarnings now (w_Target w) (g_slashTracker m)).1 m);;
             deregister now (w_Target w)
           else skip);;
          forwardSlashWarning senderPK raw
  end.

(** *** Rate limiting *)

Definition allowPeerMessage (now : Z) (peerPK : bytes) : G bool :=
  m ← get;
  match g_peerRates m !! peerPK with
  | None =>
      modify (set_peerRates (<[peerPK := MkPeerRate (f64_sub (f64_of_Z rateBurst) (f64_of_Z 1))
                                            now 0 None]> (g_peerRates m)));;
      mret true
  | Some pr =>
      let tokens := refill (f64_of_Z ratePerSec) (f64_of_Z rateBurst)
                      (since now (pr_lastSeen pr)) (pr_tokens pr) in
      let '(tokens, ok) := take_token tokens in
      let put pr := modify (λ m, set_peerRates (<[peerPK := pr]> (g_peerRates m)) m) in
      if (ok : bool) then put (MkPeerRate tokens now (pr_dropCount pr) (pr_lastWarnAt pr));; mret true
      else
        let dropCount := i64 (pr_dropCount pr + 1) in
        let due := match pr_lastWarnAt pr with
                   | None => true
                   | Some t => 10 * minute <? since now t
                   end in
        if (200 <=? dropCount) && due then
          put (MkPeerRate tokens now 0 (Some now));;
          broadcastSlashWarning now peerPK SlashGossipSpam
            (lit "sustained rate limit violation (200+ drops)");;
          mret false
        else put (MkPeerRate tokens now dropCount (pr_lastWarnAt pr));; mret false
  end.

(** *** Data *)

(** Half of the seen set makes room when it is full. *)
Definition evict_seen (m : manager) : gset bytes :=
  if g_maxSeen m <=? Z.of_nat (size (g_seen m)) then
    g_seen m ∖ list_to_set (take (Z.to_nat (Z.max 1 (g_maxSeen m / 2))) (set_order (g_seen m)))
  else g_seen m.

(** Double-publish bookkeeping: whether to raise a warning now. *)
Definition count_duplicate (identityHash : bytes) : G bool :=
  m ← get;
  let count := i64 (default 0 (g_dupCounts m !! identityHash) + 1) in
  let alreadyReported := bool_decide (identityHash ∈ g_dupReported m) in
  let report := (2 <=? count) && negb alreadyReported in
  modify (set_dupCounts (<[identityHash := count]> (g_dupCounts m)));;
  (if report then modify (λ m, set_dupReported ({[ identityHash ]} ∪ g_dupReported m) m) else skip);;
  mret report.

Definition onData (now : Z) (senderPK raw : bytes) : G unit :=
  allowed ← allowPeerMessage now senderPK;
  if negb allowed then skip
  else
    match json_unmarshal (A:=Envelope) raw with
    | None => skip
    | Some env =>
        let pubkey := to_lower uni (Pubkey env) in
        let hash := HashEnvelope (Topic env) pubkey (Payload env) (Timestamp env) in
        let identityHash := HashEnvelope (Topic env) pubkey [] (Timestamp env) in
        m ← get;
        let isLocal := bool_decide (pubkey ∈ g_localPubkeys m) in
        if bool_decide (hash ∈ g_seen m) then skip
        else
          report ← (if negb isLocal && bool_decide (identityHash ∈ g_seen m)
                    then count_duplicate identityHash else mret false);
          if (report : bool) then
            broadcastSlashWarning now pubkey SlashDoublePublish
              (lit "3+ different payloads for same topic+pubkey+timestamp")
          else
            modify (λ m, set_seen ({[ identityHash ]} ∪ g_seen m) m);;
            modify (λ m, set_seen (evict_seen m) m);;
            modify (λ m, set_seen ({[ hash ]} ∪ g_seen m) m);;
            match Validate env with
            | Err _ => skip
            | Panic => panic
            | Ok _ =>
                m ← get;
                env ← match g_store m with
                      | None => mret env
                      | Some st =>
                          let '(st, env, r) := Ingest now st env in
                          modify (set_store (Some st));;
                          match r with Panic => panic | _ => mret env end
                      end;
                IncrReceived;;
                emit ((λ h, ODeliver h env) <$> g_onEnvelope m);;
                if NoGossip env then skip else forwardToInterested senderPK (Topic env) raw
            end
    end.

Definition onTopics (senderPK raw : bytes) : G unit :=
  match json_unmarshal (A:=TopicsPayload) raw with
  | None => skip
  | Some tp => modify (λ m, set_interests (<[senderPK := tp_Prefixes tp]> (g_interests m)) m)
  end.

Definition onDataRequest (now : Z) (senderPK raw : bytes) : G unit :=
  match json_unmarshal (A:=DataRequestPayload) raw with
  | None => skip
  | Some req =>
      m ← get;
      match g_store m with
      | None => skip
      | Some st =>
          let limit := if dr_Limit req <=? 0 then 100 else dr_Limit req in
          let results := match QueryByTopic now (map_order (es_ephemeral st)) st (dr_Topic req) limit with
                         | Ok l => l | _ => [] end in
          match Encode MsgDataResponse (MkDataResponse (dr_Topic req) (Some <$> results) false) with
          | None => throw ErrEncode
          | Some resp =>
              match g_peers m !! senderPK with
              | Some p =>
                  if mp_Peer p then
                    emit [OSend senderPK resp];;
                    if topeer senderPK resp then skip else throw ErrToPeer
                  else skip
              | None => skip
              end
          end
      end
  end.

(** A null among the envelopes is a nil pointer, which [Validate] dereferences. *)
Definition onDataResponse (now : Z) (raw : bytes) : G unit :=
  match json_unmarshal (A:=DataResponsePayload) raw with
  | None => skip
  | Some resp =>
      for_each (ds_Envelopes resp) (λ oenv,
        match oenv with
        | None => panic
        | Some env =>
            match Validate env with
            | Err _ => skip
            | Panic => panic
            | Ok _ =>
                m ← get;
                match g_store m with
                | None => skip
                | Some st =>
                    let '(st, _, r) := Ingest now st env in
                    modify (set_store (Some st));;
                    match r with Panic => panic | _ => skip end
                end
            end
        end)
  end.

(** *** SHIP registrations *)

Definition set_version (v : bytes) (p : MeshPeer) : MeshPeer :=
  MkMeshPeer (mp_Peer p) (mp_IdentityPK p) (mp_Endpoint p) (mp_Direction p) (mp_BondSats p) v
    (mp_ConnectedAt p) (mp_origKey p).

(** The entries of a sync, one by one, with the number added. *)
Fixpoint ship_sync_loop (peers : list SHIPPeerInfo) (d : Dir) (m : manager) (added : Z)
    : Dir * manager * Z :=
  match peers with
  | [] => (d, m, added)
  | p :: peers' =>
      if bool_decide (sp_IdentityPub p = []) || bool_decide (sp_Domain p = []) ||
         bool_decide (sp_Topic p = []) then ship_sync_loop peers' d m added
      else
        let '(d, ok) := AddSHIPPeerFromGossip d p in
        let added := if (ok : bool) then added + 1 else added in
        let m := if bool_decide (sp_Version p = []) then m
                 else set_peers (alter (set_version (sp_Version p)) (sp_IdentityPub p) (g_peers m)) m in
        ship_sync_loop peers' d m added
  end.

Definition onSHIPSync (senderPK raw : bytes) : G unit :=
  m ← get;
  match g_overlayDir m with
  | None => skip
  | Some d =>
      match json_unmarshal (A:=SHIPSyncPayload) raw with
      | None => skip
      | Some sp =>
          let '(d, m, added) := ship_sync_loop (ss_Peers sp) d m 0 in
          modify (λ _, set_overlayDir (Some d) m);;
          if 0 <? added then forwardSHIPToAll senderPK raw else skip
      end
  end.

Definition announceSHIP (peer : bytes) : G unit :=
  m ← get;
  match g_overlayDir m with
  | None => skip
  | Some d =>
      let peers := ForEachSHIP d in
      if bool_decide (peers = []) then skip
      else match Encode MsgSHIPSync (MkSHIPSync peers) with
           | None => skip
           | Some payload => emit [OSend peer payload]
           end
  end.

Definition ReannounceToAll : G unit :=
  m ← get;
  match g_overlayDir m with
  | None => skip
  | Some d =>
      let peers := filter (λ p, sp_IdentityPub p ∈ g_localPubkeys m) (ForEachSHIP d) in
      if bool_decide (peers = []) then skip
      else match Encode MsgSHIPSync (MkSHIPSync peers) with
           | None => skip
           | Some payload => send_all None payload
           end
  end.

(** *** Dispatch *)

Definition handleMessage (now : Z) (senderPK payload : bytes) : G unit :=
  match Decode payload with
  | None => skip
  | Some msg =>
      if bool_decide (m_Type msg = MsgData) then onData now senderPK (m_Data msg)
      else if bool_decide (m_Type msg = MsgTopics) then onTopics senderPK (m_Data msg)
      else if bool_decide (m_Type msg = MsgDataRequest) then onDataRequest now senderPK (m_Data msg)
      else if bool_decide (m_Type msg = MsgDataResponse) then onDataResponse now (m_Data msg)
      else if bool_decide (m_Type msg = MsgSHIPSync) then onSHIPSync senderPK (m_Data msg)
      else if bool_decide (m_Type msg = MsgSlashWarning) then onSlashWarning now senderPK (m_Data msg)
      else skip
  end.

(** *** Connections *)

Definition announceInterests (peer : bytes) : G unit :=
  m ← get;
  match Encode MsgTopics (MkTopics (g_localInterests m)) with
  | None => throw ErrEncode
  | Some payload =>
      emit [OSend peer payload];;
      if topeer peer payload then skip else throw ErrToPeer
  end.

Definition requestCatchUp (peer : bytes) : G unit :=
  m ← get;
  for_each (g_catchUpTopics m) (λ topic,
    match Encode MsgDataRequest (MkDataRequest topic 0 50) with
    | None => skip
    | Some payload => emit [OSend peer payload]
    end).

(** A new connection under its first key: the endpoint, or the temporary key
    of an inbound one. *)
Definition register_peer (now : Z) (key endpoint direction : bytes) : G unit :=
  modify (λ m, set_peers
    (<[key := MkMeshPeer true None endpoint direction 0 [] (Some now) key]> (g_peers m)) m);;
  m ← get;
  recordConnectionEvent now (MkConnectionEvent [] direction (lit "connected") endpoint [] 0
    (Z.of_nat (size (g_peers m))) [] 0 []).

(** [dial] and [start] are the outcomes of the transport and of [peer.Start]. *)
Definition ConnectPeer (now : Z) (dial start : bool) (endpoint : bytes) : G unit :=
  m ← get;
  if bool_decide (g_wallet m = None) then throw ErrNoWallet
  else if negb dial then throw ErrTransport
  else if negb start then throw ErrTransport
  else
    register_peer now endpoint endpoint (lit "outbound");;
    announceInterests endpoint;;
    announceSHIP endpoint;;
    requestCatchUp endpoint.

Definition AcceptPeer (now : Z) (start : bool) (tempKey remoteAddr : bytes) : G bytes :=
  if negb start then throw ErrTransport
  else
    register_peer now tempKey remoteAddr (lit "inbound");;
    announceInterests tempKey;;
    announceSHIP tempKey;;
    requestCatchUp tempKey;;
    mret tempKey.

(** One turn of [ConnectSeedWithReconnect] up to the wait for the connection
    to drop; an announcement error is only logged. *)
Definition catch_err (x : G unit) : G unit := λ m,
  match x m with (m, o, Err _) => (m, o, Ok ()) | r => r end.

Definition seed_connect (now : Z) (endpoint : bytes) : G unit :=
  register_peer now endpoint endpoint (lit "outbound");;
  catch_err (announceInterests endpoint);;
  announceSHIP endpoint;;
  requestCatchUp endpoint.

(** The connection dropped. *)
Definition seed_dropped (now : Z) (endpoint : bytes) : G unit :=
  removePeerWithReason now endpoint (lit "transport_closed").

Definition set_identity (pk : bytes) (p : MeshPeer) : MeshPeer :=
  MkMeshPeer (mp_Peer p) (Some pk) (mp_Endpoint p) (mp_Direction p) (mp_BondSats p)
    (mp_Version p) (mp_ConnectedAt p) (mp_origKey p).
Definition set_bond (b : Z) (p : MeshPeer) : MeshPeer :=
  MkMeshPeer (mp_Peer p) (mp_IdentityPK p) (mp_Endpoint p) (mp_Direction p) b
    (mp_Version p) (mp_ConnectedAt p) (mp_origKey p).

(** The first message of a connection reveals its identity: the peer moves to
    that key. *)
Definition identify (key pkHex : bytes) : G bool :=
  m ← get;
  match g_peers m !! key with
  | Some p =>
      match mp_IdentityPK p with
      | None =>
          modify (set_peers (delete key (<[pkHex := set_identity pkHex p]> (g_peers m))));;
          mret true
      | Some _ => mret false
      end
  | None => mret false
  end.

(** The listener of a connection. [bond] is [VerifyBond] when a checker is
    configured and requires a bond. *)
Definition on_general_message (now : Z) (bond : option (bytes → bytes + Z)) (direction key endpoint : bytes)
    (senderPK payload : bytes) : G unit :=
  needsBondCheck ← identify key senderPK;
  (match (if (needsBondCheck : bool) then bond else None) with
   | None => skip
   | Some verify =>
       match verify senderPK with
       | inl e =>
           recordConnectionEvent now (MkConnectionEvent [] direction (lit "rejected") endpoint
             senderPK 0 0 [] 0 e);;
           removePeerWithReason now senderPK (lit "bond_rejected");;
           throw (A:=unit) (ErrBond e)
       | inr balance =>
           modify (λ m, set_peers (alter (set_bond balance) senderPK (g_peers m)) m)
       end
   end);;
  (if (needsBondCheck : bool) then notePeerIdentity now senderPK else skip);;
  handleMessage now senderPK payload.

(** *** The local side *)

Definition BroadcastEnvelope (env : Envelope) : G unit :=
  if NoGossip env then skip
  else
    let hash := HashEnvelope (Topic env) (Pubkey env) (Payload env) (Timestamp env) in
    modify (λ m, set_seen ({[ hash ]} ∪ g_seen m) m);;
    match json_marshal env with
    | None => skip
    | Some raw => forwardToInterested [] (Topic env) raw
    end.

Definition SetOnEnvelopeHook (hook : N) : G unit :=
  modify (λ m, set_onEnvelope (g_onEnvelope m ++ [hook]) m).

Definition PeerCount (m : manager) : Z := Z.of_nat (size (g_peers m)).

Definition SlashWarnings (now : Z) : G (gmap bytes (list SlashWarningPayload)) :=
  m ← get;
  let '(st, out) := allActive now (g_slashTracker m) in
  modify (set_slashTracker st);; mret out.

(** *** Status ([status.go]) *)

Record PeerInfo := MkPeerInfo {
  pi_Identity : bytes; pi_Endpoint : bytes; pi_BondSats : Z; pi_Version : bytes;
  pi_ConnectedAt : bytes; pi_UptimeSecs : Z
}.

Definition peer_info (now : Z) (p : MeshPeer) : PeerInfo :=
  MkPeerInfo (identity_text p) (mp_Endpoint p) (mp_BondSats p) (mp_Version p)
    (match mp_ConnectedAt p with None => [] | Some t => rfc3339 t end)
    (match mp_ConnectedAt p with None => 0 | Some t => f64_to_int (seconds (since now t)) end).

Definition PeerList (now : Z) (m : manager) : list PeerInfo :=
  (λ kp, peer_info now kp.2) <$> map_order (g_peers m).

Record ActivityStats := MkActivity {
  as_EnvsReceived : Z; as_EnvsSent : Z; as_StartedAt : bytes; as_UptimeSecs : Z
}.

Definition Activity (now : Z) (m : manager) : ActivityStats :=
  MkActivity (g_envsReceived m) (g_envsSent m) (rfc3339 (g_startedAt m))
    (f64_to_int (seconds (since now (g_startedAt m)))).

Definition Interests (m : manager) : gmap bytes (list bytes) := g_interests m.

Definition truncate (s : bytes) : bytes :=
  if (16 <? length s)%nat then take 16 s ++ lit "..." else s.
End manager.
