(* ===== verification/GossipProps.v ===== *)
(** * What the mesh guarantees

    The effect of each part of a handler as an equation, and the properties of
    the handlers built from them: an envelope is delivered and forwarded once,
    only when it is valid, never back to its sender and only to interested
    peers; the duplicate set stays bounded; the peer table is consistent; and
    what a single hostile peer can do. *)

From Stdlib Require Import Init.Byte Strings.Byte Strings.String Lia ZArith.
From stdpp Require Import base gmap sets list strings numbers.
From S2P Require Import Prelude GoStd Sha256 LevelDB Ec Float Envelope EnvelopeStore EnvelopeProps Slash Gossip.
Open Scope Z_scope.

Lemma size_insert_le (x : bytes) (X : gset bytes) : (size ({[ x ]} ∪ X) ≤ S (size X))%nat.
Proof.
  destruct (decide (x ∈ X)).
  - replace ({[ x ]} ∪ X) with X by set_solver. lia.
  - rewrite size_union, size_singleton by set_solver. lia.
Qed.

Section gossip_props.
Context {DB Dir : Type} `{LevelDBLaws DB} `{OverlayDirectory Dir} `{ECLaws} `{WireCodec}.
Context `{SortSlice} `{MapOrderLaws} `{SetOrderLaws}.
Context (topeer : bytes → bytes → bool) (uni : bytes → bytes).
Abbreviation manager := (Manager DB Dir).
Implicit Types m : manager.

(** ** The parts of a handler *)

Lemma bind_eq {A B} (x : G DB Dir A) (f : A → G DB Dir B) m m1 o1 a :
  x m = (m1, o1, Ok a) →
  (x ≫= f) m = (let '(m2, o2, r2) := f a m1 in (m2, o1 ++ o2, r2)).
Proof. unfold mbind, G_bind. by intros ->. Qed.

Lemma bind_unfold {A B} (x : G DB Dir A) (f : A → G DB Dir B) m :
  (x ≫= f) m = (let '(m1, o1, r) := x m in
    match r with
    | Ok a => let '(m2, o2, r2) := f a m1 in (m2, o1 ++ o2, r2)
    | Err e => (m1, o1, Err e)
    | Panic => (m1, o1, Panic)
    end).
Proof. done. Qed.

Lemma get_bind {A} (f : manager → G DB Dir A) m : (get ≫= f) m = f m m.
Proof. unfold mbind, G_bind, get. by destruct (f m m) as [[??]?]. Qed.

Lemma modify_bind {A} (g : manager → manager) (f : unit → G DB Dir A) m :
  (modify g ≫= f) m = f () (g m).
Proof. unfold mbind, G_bind, modify. by destruct (f tt (g m)) as [[??]?]. Qed.

Lemma emit_bind {A} o (f : unit → G DB Dir A) m :
  (emit o ≫= f) m = (let '(m2, o2, r2) := f () m in (m2, o ++ o2, r2)).
Proof. done. Qed.

Lemma for_each_emit {A} (l : list A) (f : A → G DB Dir unit) (g : A → list output) m :
  (∀ a, f a m = (m, g a, Ok ())) → for_each l f m = (m, l ≫= g, Ok ()).
Proof.
  intros Hf. induction l as [|a l IH]; [done|]. cbn [for_each].
  rewrite (bind_eq _ _ _ _ _ _ (Hf a)), IH. done.
Qed.

(** The sends of a broadcast. *)
Definition sends (skip_ : option bytes) (payload : bytes) m : list output :=
  map_order (g_peers m) ≫= λ kp,
    if bool_decide (Some kp.1 = skip_) then []
    else if mp_Peer kp.2 then [OSend kp.1 payload] else [].

Lemma send_all_eq skip_ payload m :
  send_all skip_ payload m = (m, sends skip_ payload m, Ok ()).
Proof.
  unfold send_all. rewrite get_bind. apply for_each_emit.
  intros [k p]. cbn. case_bool_decide; [done|]. by destruct (mp_Peer p).
Qed.

Lemma elem_of_sends o skip_ payload m :
  o ∈ sends skip_ payload m ↔
  ∃ k p, o = OSend k payload ∧ g_peers m !! k = Some p ∧ mp_Peer p = true ∧ Some k ≠ skip_.
Proof.
  unfold sends. rewrite list_elem_of_bind. split.
  - intros ([k p] & Ho & Hin). cbn in Ho. apply elem_of_map_order in Hin.
    case_bool_decide; [by apply elem_of_nil in Ho|].
    destruct (mp_Peer p) eqn:Hp; [|by apply elem_of_nil in Ho].
    apply list_elem_of_singleton in Ho as ->. eauto 10.
  - intros (k & p & -> & Hk & Hp & Hne). exists (k, p). cbn.
    rewrite bool_decide_false, Hp by done. split; [by left|by apply elem_of_map_order].
Qed.

(** What a forward of an envelope sends. *)
Definition forwards (senderPK topic encoded : bytes) m : list output :=
  map_order (g_peers m) ≫= λ kp,
    if bool_decide (kp.1 = senderPK) then []
    else if interested topic (default [] (g_interests m !! kp.1)) && mp_Peer kp.2
    then [OSend kp.1 encoded] else [].

Lemma for_each_sent {A} (l : list A) (f : A → G DB Dir unit) (g : A → bool) (h : A → output) m0 : ∀ m,
  (∀ a m, f a m = if g a then (emit [h a];; IncrSent) m else skip m) →
  (∃ n, m = set_envsSent n m0) →
  ∃ n', for_each l f m = (set_envsSent n' m0, l ≫= (λ a, if g a then [h a] else []), Ok ()).
Proof.
  induction l as [|a l IH]; intros m Hf [n ->].
  { by exists n. }
  cbn [for_each]. specialize (Hf a) as Ha.
  destruct (g a) eqn:Hg.
  - destruct (IH (set_envsSent (i64 (n + 1)) m0) Hf) as [n' E]; [eauto|]. exists n'.
    erewrite bind_eq by (rewrite Ha; reflexivity). cbn [g_envsSent set_envsSent] in E |- *.
    change (set_envsSent (i64 (n + 1)) (set_envsSent n m0)) with (set_envsSent (i64 (n + 1)) m0).
    rewrite E. cbn. by rewrite Hg.
  - destruct (IH (set_envsSent n m0) Hf) as [n' E]; [eauto|]. exists n'.
    erewrite bind_eq by (rewrite Ha; reflexivity). rewrite E. cbn. by rewrite Hg.
Qed.

Lemma forwardToInterested_eq senderPK topic raw m : ∃ n,
  forwardToInterested senderPK topic raw m =
    (set_envsSent n m,
     match EncodeRaw MsgData raw with Some e => forwards senderPK topic e m | None => [] end, Ok ()).
Proof.
  unfold forwardToInterested. destruct (EncodeRaw MsgData raw) as [enc|].
  2: { exists (g_envsSent m). by destruct m. }
  rewrite get_bind.
  edestruct (for_each_sent (map_order (g_peers m)) (λ '(pk, p),
        if bool_decide (pk = senderPK) then skip
        else if interested topic (default [] (g_interests m !! pk)) then
          if mp_Peer p then emit [OSend pk enc];; IncrSent else skip
        else skip)
    (λ kp, negb (bool_decide (kp.1 = senderPK)) &&
           (interested topic (default [] (g_interests m !! kp.1)) && mp_Peer kp.2))
    (λ kp, OSend kp.1 enc) m m) as [n' E].
  - intros [k p] m'. cbn [fst snd]. case_bool_decide; [done|]. cbn [negb andb].
    destruct (interested _ _); [|done]. by destruct (mp_Peer p).
  - exists (g_envsSent m). by destruct m.
  - exists n'. rewrite E. do 2 f_equal. unfold forwards. apply list_bind_ext; [|done].
    intros [k p]. cbn [fst snd]. by case_bool_decide.
Qed.

Lemma elem_of_forwards o senderPK topic enc m :
  o ∈ forwards senderPK topic enc m ↔
  ∃ k p, o = OSend k enc ∧ g_peers m !! k = Some p ∧ mp_Peer p = true ∧ k ≠ senderPK ∧
    ∃ prefix, prefix ∈ default [] (g_interests m !! k) ∧ prefix `prefix_of` topic.
Proof.
  assert (∀ ps, interested topic ps = true ↔ ∃ prefix, prefix ∈ ps ∧ prefix `prefix_of` topic) as Hi.
  { intros ps. unfold interested. rewrite existsb_exists. unfold has_prefix.
    setoid_rewrite bool_decide_eq_true. setoid_rewrite list_elem_of_In. done. }
  unfold forwards. rewrite list_elem_of_bind. split.
  - intros ([k p] & Ho & Hin). cbn in Ho. apply elem_of_map_order in Hin.
    case_bool_decide; [by apply elem_of_nil in Ho|].
    destruct (interested _ _) eqn:Hint; [|by apply elem_of_nil in Ho].
    destruct (mp_Peer p) eqn:Hp; [|by apply elem_of_nil in Ho].
    apply list_elem_of_singleton in Ho as ->. apply Hi in Hint. eauto 10.
  - intros (k & p & -> & Hk & Hp & Hne & Hpre). exists (k, p). cbn.
    apply Hi in Hpre. rewrite bool_decide_false, Hpre, Hp by done.
    split; [by left|by apply elem_of_map_order].
Qed.

Lemma recordConnectionEvent_eq now ev m : ∃ cl o,
  recordConnectionEvent now ev m = (set_connLog cl m, o, Ok ()) ∧
  Forall (λ x, ∃ e, x = OLogLine e) o.
Proof.
  unfold recordConnectionEvent, Record_. case_bool_decide.
  { exists (g_connLog m), []. destruct m. split; [done|constructor]. }
  rewrite get_bind. destruct (g_connLog m) as [l|] eqn:E.
  - rewrite modify_bind. eexists _, _. split; [reflexivity|]. apply Forall_singleton. eauto.
  - exists (g_connLog m), []. destruct m. split; [done|constructor].
Qed.

(** A warning of this node: the tracker changes, and warnings and possibly a
    deregistration go out. *)
Definition slash_output (target : bytes) (o : output) : Prop :=
  (∃ k p, o = OSend k p) ∨ o = OSpawnDeregister target.

Lemma broadcastSlashWarning_eq now target reason ev m : ∃ st o,
  broadcastSlashWarning now target reason ev m = (set_slashTracker st m, o, Ok ()) ∧
  Forall (slash_output target) o.
Proof.
  unfold broadcastSlashWarning. rewrite get_bind. cbv zeta.
  case_bool_decide; [exists (g_slashTracker m), []; destruct m; split; [done|constructor]|].
  unfold add_warning. set (w := MkSlashWarning _ _ _ _ _).
  assert (∀ (f : bool → G DB Dir unit), ((m ← get; let '(st, out) := addWarning now w (g_slashTracker m) in
    modify (set_slashTracker st);; mret out) ≫= f) m =
    f (addWarning now w (g_slashTracker m)).2 (set_slashTracker (addWarning now w (g_slashTracker m)).1 m)) as ->.
  { intros f. destruct (addWarning now w (g_slashTracker m)) as [st out] eqn:E.
    erewrite bind_eq by (rewrite get_bind, E; reflexivity). cbn [fst snd app].
    by destruct (f out _) as [[??]?]. }
  destruct (addWarning now w (g_slashTracker m)) as [st out]. cbn [fst snd].
  destruct (Encode MsgSlashWarning w) as [payload|]; [|exists st, []; split; [done|constructor]].
  erewrite bind_eq by apply send_all_eq. set (m' := set_slashTracker st m).
  assert (Forall (slash_output target) (sends None payload m')) as HF.
  { apply list.Forall_forall. intros o (k & p & -> & _)%elem_of_sends. left. eauto. }
  destruct out.
  - eexists st, _. split; [reflexivity|]. apply Forall_app. split; [done|].
    apply Forall_singleton. by right.
  - eexists st, _. split; [reflexivity|]. apply Forall_app. split; [done|constructor].
Qed.

Lemma set_slash_same r m :
  set_slashTracker (g_slashTracker m) (set_peerRates r m) = set_peerRates r m.
Proof. by destruct m. Qed.

Lemma allowPeerMessage_eq now pk m : ∃ rates st o b,
  allowPeerMessage now pk m = (set_slashTracker st (set_peerRates rates m), o, Ok b) ∧
  Forall (slash_output pk) o ∧ (b = true → o = []).
Proof.
  unfold allowPeerMessage. rewrite get_bind.
  destruct (g_peerRates m !! pk) as [pr|].
  2: { rewrite modify_bind. eexists _, (g_slashTracker m), _, _. split; [|by split; [apply Forall_nil_2|]].
       rewrite set_slash_same. reflexivity. }
  cbv zeta. destruct (take_token _) as [tokens ok]. destruct ok.
  { rewrite modify_bind. eexists _, (g_slashTracker m), _, _. split; [|by split; [apply Forall_nil_2|]].
    rewrite set_slash_same. reflexivity. }
  destruct (_ && _).
  - rewrite modify_bind. match goal with |- context [set_peerRates ?r m] => set (rates := r) end.
    destruct (broadcastSlashWarning_eq now pk SlashGossipSpam
      (lit "sustained rate limit violation (200+ drops)") (set_peerRates rates m))
      as (st & o & E & HF).
    rewrite (bind_eq _ _ _ _ _ _ E). exists rates, st, (o ++ []), false.
    split; [reflexivity|]. rewrite app_nil_r. done.
  - rewrite modify_bind. eexists _, (g_slashTracker m), _, _. split; [|by split; [apply Forall_nil_2|]].
    rewrite set_slash_same. reflexivity.
Qed.

Lemma count_duplicate_eq ih m : ∃ dc dr b,
  count_duplicate ih m = (set_dupReported dr (set_dupCounts dc m), [], Ok b) ∧
  (b = true ↔ 2 ≤ i64 (default 0 (g_dupCounts m !! ih) + 1) ∧ ih ∉ g_dupReported m).
Proof.
  unfold count_duplicate. rewrite get_bind. cbv zeta. rewrite modify_bind.
  set (c := i64 _). set (b := (2 <=? c) && _).
  assert (b = true ↔ 2 ≤ c ∧ ih ∉ g_dupReported m) as Hb.
  { unfold b. rewrite andb_true_iff, Z.leb_le, negb_true_iff, bool_decide_eq_false. done. }
  destruct b.
  - rewrite modify_bind. eexists _, _, true. split; [reflexivity|done].
  - exists (<[ih:=c]> (g_dupCounts m)), (g_dupReported m), false. split; [|done]. by destruct m.
Qed.

(** ** Duplicates and invalid envelopes *)

Definition env_hash (env : Envelope) : bytes :=
  HashEnvelope (Topic env) (to_lower uni (Pubkey env)) (Payload env) (Timestamp env).
Definition identity_hash (env : Envelope) : bytes :=
  HashEnvelope (Topic env) (to_lower uni (Pubkey env)) [] (Timestamp env).

Abbreviation onData := (onData (DB:=DB) (Dir:=Dir) uni).

(** What every run of [onData] that does not accept an envelope leaves alone. *)
Definition same_data m m' : Prop :=
  g_store m' = g_store m ∧ g_peers m' = g_peers m ∧ g_interests m' = g_interests m ∧
  g_envsReceived m' = g_envsReceived m ∧ g_envsSent m' = g_envsSent m ∧
  g_overlayDir m' = g_overlayDir m.

Definition no_delivery (o : list output) : Prop := ∀ h e, ODeliver h e ∉ o.

Lemma slash_no_delivery t o : Forall (slash_output t) o → no_delivery o.
Proof.
  intros HF h e Hin. rewrite list.Forall_forall in HF.
  destruct (HF _ Hin) as [(? & ? & [=])|[=]].
Qed.

Lemma no_delivery_app o1 o2 : no_delivery o1 → no_delivery o2 → no_delivery (o1 ++ o2).
Proof. intros H1' H2' h e [Hin|Hin]%elem_of_app; [by eapply H1'|by eapply H2']. Qed.

(** The part of [onData] after validation. *)
Definition accept_tail (now : Z) (senderPK raw : bytes) (env : Envelope) : G DB Dir unit :=
  m ← get;
  env ← match g_store m with
        | None => mret env
        | Some st =>
            let '(st, env, r) := Ingest now st env in
            modify (set_store (Some st));;
            match r with Panic => panic | _ => mret env end
        end;
  IncrReceived;;
  emit ((λ h, ODeliver h env) <$> g_onEnvelope m);;
  if NoGossip env then skip else forwardToInterested senderPK (Topic env) raw.

(** The part of [onData] after the rate limit. *)
Definition onData_body (now : Z) (senderPK raw : bytes) (env : Envelope) : G DB Dir unit :=
  m ← get;
  let isLocal := bool_decide (to_lower uni (Pubkey env) ∈ g_localPubkeys m) in
  if bool_decide (env_hash env ∈ g_seen m) then skip
  else
    report ← (if negb isLocal && bool_decide (identity_hash env ∈ g_seen m)
              then count_duplicate (identity_hash env) else mret false);
    if (report : bool) then
      broadcastSlashWarning now (to_lower uni (Pubkey env)) SlashDoublePublish
        (lit "3+ different payloads for same topic+pubkey+timestamp")
    else
      modify (λ m, set_seen ({[ identity_hash env ]} ∪ g_seen m) m);;
      modify (λ m, set_seen (evict_seen m) m);;
      modify (λ m, set_seen ({[ env_hash env ]} ∪ g_seen m) m);;
      match Validate env with
      | Err _ => skip
      | Panic => panic
      | Ok _ =>
          accept_tail now senderPK raw env
      end.

Lemma onData_eq now senderPK raw m : ∃ rates st o b,
  Forall (slash_output senderPK) o ∧ (b = true → o = []) ∧
  allowPeerMessage now senderPK m = (set_slashTracker st (set_peerRates rates m), o, Ok b) ∧
  onData now senderPK raw m =
    match (if b then json_unmarshal (A:=Envelope) raw else None) with
    | None => (set_slashTracker st (set_peerRates rates m), o, Ok ())
    | Some env => let '(m2, o2, r2) :=
        onData_body now senderPK raw env (set_slashTracker st (set_peerRates rates m)) in
        (m2, o ++ o2, r2)
    end.
Proof.
  destruct (allowPeerMessage_eq now senderPK m) as (rates & st & o & b & E & HF & Hb).
  exists rates, st, o, b. split_and!; [done..|].
  unfold onData. rewrite (bind_eq _ _ _ _ _ _ E). destruct b; cbn [negb].
  - destruct (json_unmarshal (A:=Envelope) raw) as [env|]; [done|].
    cbn. by rewrite app_nil_r.
  - cbn. by rewrite app_nil_r.
Qed.

Lemma body_seen now senderPK raw env m :
  env_hash env ∈ g_seen m → onData_body now senderPK raw env m = (m, [], Ok ()).
Proof. intros Hs. unfold onData_body. rewrite get_bind. by rewrite bool_decide_true. Qed.

(** The double-publish step: a warning, or on to validation. *)
Lemma report_step (ih : bytes) (guard : bool) m : ∃ dc dr b,
  (if guard then count_duplicate ih else mret false) m =
    (set_dupReported dr (set_dupCounts dc m), [], Ok b) ∧ (b = true → guard = true).
Proof.
  destruct guard.
  - destruct (count_duplicate_eq ih m) as (dc & dr & b & E & _). eauto.
  - exists (g_dupCounts m), (g_dupReported m), false. by destruct m.
Qed.

(** The state with both hashes of an envelope remembered. *)
Definition remember (env : Envelope) m : manager :=
  let m := set_seen ({[ identity_hash env ]} ∪ g_seen m) m in
  let m := set_seen (evict_seen m) m in
  set_seen ({[ env_hash env ]} ∪ g_seen m) m.

Lemma body_split now senderPK raw env m : env_hash env ∉ g_seen m → ∃ dc dr b,
  let m1 := set_dupReported dr (set_dupCounts dc m) in
  (b = true → identity_hash env ∈ g_seen m ∧ to_lower uni (Pubkey env) ∉ g_localPubkeys m) ∧
  onData_body now senderPK raw env m =
    (if b then broadcastSlashWarning now (to_lower uni (Pubkey env)) SlashDoublePublish
       (lit "3+ different payloads for same topic+pubkey+timestamp") m1
     else match Validate env with
      | Err _ => (remember env m1, [], Ok ())
      | Panic => (remember env m1, [], Panic)
      | Ok _ => accept_tail now senderPK raw env (remember env m1)
      end).
Proof.
  intros Hs. destruct (report_step (identity_hash env)
    (negb (bool_decide (to_lower uni (Pubkey env) ∈ g_localPubkeys m)) &&
     bool_decide (identity_hash env ∈ g_seen m)) m) as (dc & dr & b & E & Hb).
  exists dc, dr, b. cbv zeta. split.
  { intros Hbt. apply Hb, andb_prop in Hbt as [H1' H2']. apply bool_decide_eq_true_1 in H2'. split; [done|].
    apply negb_true_iff, bool_decide_eq_false_1 in H1'. done. }
  unfold onData_body. rewrite get_bind. cbv zeta. rewrite bool_decide_false by done.
  rewrite (bind_eq _ _ _ _ _ _ E). set (m1 := set_dupReported _ _). destruct b.
  - by destruct (broadcastSlashWarning _ _ _ _ m1) as [[??]?].
  - rewrite !modify_bind. fold (remember env m1).
    destruct (Validate env); [|done..]. cbn [app].
    match goal with |- match ?x with pair _ _ => _ end = _ => by destruct x as [[??]?] end.
Qed.

(** An envelope that does not validate changes nothing but the duplicate,
    rate and warning bookkeeping: it is not stored, delivered, counted or
    forwarded, and the handler does not fail. *)
Theorem onData_rejects_invalid now senderPK raw env m m' o r :
  json_unmarshal (A:=Envelope) raw = Some env → Validate env ≠ Ok () →
  onData now senderPK raw m = (m', o, r) →
  r = Ok () ∧ same_data m m' ∧ no_delivery o.
Proof.
  intros Hu HV. destruct (onData_eq now senderPK raw m) as (rates & st & o1 & b & HF & _ & _ & ->).
  rewrite Hu. set (m0 := set_slashTracker st (set_peerRates rates m)).
  destruct b.
  2: { intros [= <- <- <-]. split_and!; [done..|by eapply slash_no_delivery]. }
  destruct (decide (env_hash env ∈ g_seen m0)) as [Hs|Hs].
  { rewrite body_seen by done. intros [= <- <- <-]. rewrite app_nil_r.
    split_and!; [done..|by eapply slash_no_delivery]. }
  destruct (body_split now senderPK raw env m0 Hs) as (dc & dr & b & _ & ->).
  destruct b.
  - set (m1 := set_dupReported dr (set_dupCounts dc m0)).
    edestruct (broadcastSlashWarning_eq now (to_lower uni (Pubkey env)) SlashDoublePublish
      (lit "3+ different payloads for same topic+pubkey+timestamp") m1) as (st' & o' & -> & HF').
    intros [= <- <- <-]. split_and!; [done..|].
    apply no_delivery_app; by eapply slash_no_delivery.
  - pose proof (Validate_not_panic env). destruct (Validate env) as [[]| |]; [done| |done].
    intros [= <- <- <-]. rewrite app_nil_r. split_and!; [done..|by eapply slash_no_delivery].
Qed.

(** The envelope a valid message leads to: as received into the store. *)
Definition ingested now m env : Envelope :=
  match g_store m with None => env | Some st => (Ingest now st env).1.2 end.

Lemma accept_tail_eq now senderPK raw env m : Validate env = Ok () → ∃ m1,
  accept_tail now senderPK raw env m =
    (m1, ((λ h, ODeliver h (ingested now m env)) <$> g_onEnvelope m) ++
         (if NoGossip env then [] else
          match EncodeRaw MsgData raw with
          | Some enc => forwards senderPK (Topic env) enc m | None => [] end), Ok ()) ∧
  (g_seen m1 = g_seen m ∧ g_maxSeen m1 = g_maxSeen m) ∧
  g_envsReceived m1 = i64 (g_envsReceived m + 1) ∧
  g_store m1 = (λ st, (Ingest now st env).1.1) <$> g_store m.
Proof.
  intros HV. unfold accept_tail. rewrite get_bind.
  assert (∃ mi, (match g_store m with
      | None => mret env
      | Some st => let '(st, env, r) := Ingest now st env in
          modify (set_store (Some st));; match r with Panic => panic | _ => mret env end
      end) m = (mi, [], Ok (ingested now m env)) ∧
    mi = set_store ((λ st, (Ingest now st env).1.1) <$> g_store m) m) as (mi & Ei & Hmi).
  { unfold ingested. destruct (g_store m) as [st|] eqn:Hst.
    - pose proof (Ingest_no_panic now st env) as Hnp.
      destruct (Ingest now st env) as [[st' e'] r'] eqn:EI. cbn [fst snd] in Hnp |- *.
      exists (set_store (Some st') m). split; [by destruct r'|].
      cbn [fmap option_fmap option_map]. by rewrite EI.
    - exists m. split; [done|]. destruct m. cbn in *. by subst. }
  rewrite (bind_eq _ _ _ _ _ _ Ei). subst mi.
  assert (NoGossip (ingested now m env) = NoGossip env ∧ Topic (ingested now m env) = Topic env)
    as [-> ->].
  { unfold ingested. destruct (g_store m) as [st|]; [|done].
    unfold Ingest. rewrite HV. by destruct (if Durable _ then _ else _). }
  unfold IncrReceived at 1. rewrite modify_bind, emit_bind.
  match goal with |- context [(if NoGossip env then skip else _) ?x] => set (m2 := x) end.
  cbn [app]. destruct (NoGossip env).
  - exists m2. split_and!; done.
  - destruct (forwardToInterested_eq senderPK (Topic env) raw m2) as [n ->].
    exists (set_envsSent n m2). split_and!; [|done..]. done.
Qed.

(** What the handler does with a valid envelope it has not seen. *)
Lemma body_accepts now senderPK raw env m :
  env_hash env ∉ g_seen m →
  (identity_hash env ∉ g_seen m ∨ to_lower uni (Pubkey env) ∈ g_localPubkeys m) →
  Validate env = Ok () → ∃ m1,
  onData_body now senderPK raw env m =
    (m1, ((λ h, ODeliver h (ingested now m env)) <$> g_onEnvelope m) ++
         (if NoGossip env then [] else
          match EncodeRaw MsgData raw with
          | Some enc => forwards senderPK (Topic env) enc m | None => [] end), Ok ()) ∧
  env_hash env ∈ g_seen m1 ∧ g_envsReceived m1 = i64 (g_envsReceived m + 1) ∧
  g_store m1 = (λ st, (Ingest now st env).1.1) <$> g_store m.
Proof.
  intros Hs Hid HV.
  destruct (body_split now senderPK raw env m Hs) as (dc & dr & b & Hb & E).
  cbv zeta in Hb, E. rewrite E, HV. clear E.
  destruct b; [destruct (Hb eq_refl) as [Hb1 Hb2]; by destruct Hid|].
  set (mr := remember env _).
  destruct (accept_tail_eq now senderPK raw env mr HV) as (m1 & -> & [Hseen _] & Hr & Hst).
  exists m1. split_and!; [done| |done..]. rewrite Hseen. by apply elem_of_union_l, elem_of_singleton.
Qed.

(** C13: a valid envelope that was not seen before (and is not one of several
    payloads of one publisher for one second) is ingested once, handed to
    every subscriber as ingested, counted, remembered, and, unless it asks not
    to be gossiped, sent on to exactly the connected peers other than its
    sender that declared a prefix of its topic. *)
Theorem onData_accepts now senderPK raw env m m' o r :
  json_unmarshal (A:=Envelope) raw = Some env → Validate env = Ok () →
  env_hash env ∉ g_seen m →
  (identity_hash env ∉ g_seen m ∨ to_lower uni (Pubkey env) ∈ g_localPubkeys m) →
  (allowPeerMessage now senderPK m).2 = Ok true →
  onData now senderPK raw m = (m', o, r) →
  r = Ok () ∧ env_hash env ∈ g_seen m' ∧
  g_envsReceived m' = i64 (g_envsReceived m + 1) ∧
  g_store m' = (λ st, (Ingest now st env).1.1) <$> g_store m ∧
  (∀ h e, ODeliver h e ∈ o ↔ h ∈ g_onEnvelope m ∧ e = ingested now m env) ∧
  (∀ k payload, OSend k payload ∈ o ↔
    NoGossip env = false ∧ EncodeRaw MsgData raw = Some payload ∧ k ≠ senderPK ∧
    (∃ p, g_peers m !! k = Some p ∧ mp_Peer p = true) ∧
    ∃ prefix, prefix ∈ default [] (g_interests m !! k) ∧ prefix `prefix_of` Topic env).
Proof.
  intros Hu HV Hs Hid Hal HD.
  destruct (onData_eq now senderPK raw m) as (rates & st & o1 & b & HF & Hb & EA & E).
  rewrite E, Hu in HD. rewrite EA in Hal. injection Hal as ->. rewrite (Hb eq_refl) in HD.
  set (m0 := set_slashTracker st (set_peerRates rates m)) in *.
  destruct (body_accepts now senderPK raw env m0 Hs Hid HV)
    as (m1 & EB & H1' & H2' & H3').
  rewrite EB in HD. injection HD as <- <- <-. cbn [app].
  split_and!; [done..| |].
  - intros h e. rewrite elem_of_app, list_elem_of_fmap. split.
    + intros [(h' & [= -> ->] & Hh)|Hin]; [done|].
      destruct (NoGossip env); [by apply elem_of_nil in Hin|].
      destruct (EncodeRaw MsgData raw); [|by apply elem_of_nil in Hin].
      apply elem_of_forwards in Hin as (? & ? & [=] & _).
    + intros [Hh ->]. left. by exists h.
  - intros k payload. rewrite elem_of_app, list_elem_of_fmap. split.
    + intros [(h' & [=] & _)|Hin].
      destruct (NoGossip env); [by apply elem_of_nil in Hin|].
      destruct (EncodeRaw MsgData raw) as [enc|]; [|by apply elem_of_nil in Hin].
      apply elem_of_forwards in Hin as (k' & p & [= -> ->] & ? & ? & ? & ?). eauto 10.
    + intros (-> & -> & Hne & (p & Hp & Hpe) & Hpre). right.
      apply elem_of_forwards. exists k, p. done.
Qed.

(** An envelope is delivered at most once while it is remembered: a
    message that delivers was not remembered before and is after, and a
    remembered one changes nothing but the rate and warning bookkeeping. *)
Theorem onData_delivers_once now senderPK raw env m m' o r :
  json_unmarshal (A:=Envelope) raw = Some env → onData now senderPK raw m = (m', o, r) →
  (∀ h e, ODeliver h e ∈ o → (env_hash env ∉ g_seen m) ∧ env_hash env ∈ g_seen m') ∧
  (env_hash env ∈ g_seen m → r = Ok () ∧ same_data m m' ∧ g_seen m' = g_seen m ∧ no_delivery o).
Proof.
  intros Hu. destruct (onData_eq now senderPK raw m) as (rates & st & o1 & b & HF & _ & _ & ->).
  rewrite Hu. set (m0 := set_slashTracker st (set_peerRates rates m)).
  destruct b.
  2: { intros [= <- <- <-]. split.
       - intros h e Hin. by apply (slash_no_delivery _ _ HF) in Hin.
       - intros _. split_and!; [done..|by eapply slash_no_delivery]. }
  destruct (decide (env_hash env ∈ g_seen m0)) as [Hs|Hs].
  { rewrite body_seen by done. intros [= <- <- <-]. rewrite app_nil_r. split.
    - intros h e Hin. by apply (slash_no_delivery _ _ HF) in Hin.
    - intros _. split_and!; [done..|by eapply slash_no_delivery]. }
  destruct (onData_body now senderPK raw env m0) as [[m2 o2] r2] eqn:EB.
  intros [= <- <- <-]. split; [|by intros Hs']. intros h e Hin. split; [exact Hs|].
  apply elem_of_app in Hin as [Hin|Hin]; [by apply (slash_no_delivery _ _ HF) in Hin|].
  destruct (body_split now senderPK raw env m0 Hs) as (dc & dr & b & _ & E).
  rewrite EB in E. destruct b.
  { edestruct (broadcastSlashWarning_eq now (to_lower uni (Pubkey env)) SlashDoublePublish
      (lit "3+ different payloads for same topic+pubkey+timestamp")) as (st' & o' & E' & HF').
    rewrite E' in E. injection E as -> -> ->. by apply (slash_no_delivery _ _ HF') in Hin. }
  destruct (Validate env) as [[]|e'|] eqn:HV; [|injection E as -> -> ->; by apply elem_of_nil in Hin..].
  destruct (accept_tail_eq now senderPK raw env
    (remember env (set_dupReported dr (set_dupCounts dc m0))) HV) as (m3 & E' & [Hseen _] & _).
  rewrite E' in E. injection E as -> _ _. rewrite Hseen. by apply elem_of_union_l, elem_of_singleton.
Qed.

(** ** The duplicate set is bounded *)

Lemma size_evict_seen m :
  4 ≤ g_maxSeen m → Z.of_nat (size (g_seen m)) ≤ g_maxSeen m + 1 →
  Z.of_nat (size (evict_seen m)) < g_maxSeen m.
Proof.
  intros Hmax Hs. unfold evict_seen.
  destruct (Z.leb_spec (g_maxSeen m) (Z.of_nat (size (g_seen m)))); [|done].
  set (n := Z.to_nat _). set (l := set_order (g_seen m)).
  assert (l ≡ₚ elements (g_seen m)) as Hl by apply set_order_perm.
  assert (NoDup l) as ND by (rewrite Hl; apply NoDup_elements).
  assert (length l = size (g_seen m)) as Hlen by (by rewrite Hl).
  assert (2 ≤ g_maxSeen m / 2) by (apply Z.div_le_lower_bound; lia).
  rewrite size_difference.
  - rewrite size_list_to_set by (eapply sublist_NoDup; [exact ND|apply sublist_take]).
    rewrite length_take, Hlen. lia.
  - intros x Hx. apply elem_of_list_to_set in Hx. eapply subseteq_take in Hx.
    rewrite Hl in Hx. by apply elem_of_elements.
Qed.

Lemma size_remember env m :
  4 ≤ g_maxSeen m → Z.of_nat (size (g_seen m)) ≤ g_maxSeen m →
  Z.of_nat (size (g_seen (remember env m))) ≤ g_maxSeen m.
Proof.
  intros Hmax Hs. unfold remember. cbn [g_seen set_seen].
  set (m1 := set_seen _ m).
  pose proof (size_insert_le (identity_hash env) (g_seen m)).
  assert (Z.of_nat (size (evict_seen m1)) < g_maxSeen m1) as He.
  { apply size_evict_seen; [done|]. unfold m1. cbn. lia. }
  change (g_maxSeen m1) with (g_maxSeen m) in He.
  pose proof (size_insert_le (env_hash env) (evict_seen m1)). lia.
Qed.

(** The duplicate set never outgrows its bound through data messages,
    whatever they are. *)
Theorem onData_seen_bounded now senderPK raw m m' o r :
  4 ≤ g_maxSeen m → Z.of_nat (size (g_seen m)) ≤ g_maxSeen m →
  onData now senderPK raw m = (m', o, r) →
  Z.of_nat (size (g_seen m')) ≤ g_maxSeen m'.
Proof.
  intros Hmax Hsz. destruct (onData_eq now senderPK raw m) as (rates & st & o1 & b & _ & _ & _ & ->).
  set (m0 := set_slashTracker st (set_peerRates rates m)).
  destruct (if b then _ else None) as [env|]; [|by intros [= <- <- <-]].
  destruct (onData_body now senderPK raw env m0) as [[m2 o2] r2] eqn:EB.
  intros [= <- <- <-].
  destruct (decide (env_hash env ∈ g_seen m0)) as [Hs|Hs].
  { rewrite body_seen in EB by done. by injection EB as <- _ _. }
  destruct (body_split now senderPK raw env m0 Hs) as (dc & dr & b' & _ & E). cbv zeta in E.
  set (m1 := set_dupReported dr (set_dupCounts dc m0)) in *. rewrite EB in E.
  assert (Z.of_nat (size (g_seen (remember env m1))) ≤ g_maxSeen m1) as HR
    by (apply size_remember; done).
  destruct b'.
  { edestruct (broadcastSlashWarning_eq now (to_lower uni (Pubkey env)) SlashDoublePublish
      (lit "3+ different payloads for same topic+pubkey+timestamp") m1) as (st' & o' & E' & _).
    rewrite E' in E. by injection E as -> _ _. }
  destruct (Validate env) as [[]| |] eqn:HV; [|by injection E as -> _ _..].
  destruct (accept_tail_eq now senderPK raw env (remember env m1) HV) as (m3 & E' & [Hseen Hms] & _).
  rewrite E' in E. injection E as -> _ _. rewrite Hseen, Hms. exact HR.
Qed.

(** ** Warnings and the peer table *)

Lemma removePeerWithReason_eq now k reason m : ∃ cl o,
  removePeerWithReason now k reason m =
    (match find_peer k m with
     | None => m
     | Some (k', _) => set_connLog cl (set_interests (delete k' (g_interests m))
                         (set_peers (delete k' (g_peers m)) m))
     end, o, Ok ()).
Proof.
  unfold removePeerWithReason. rewrite get_bind. destruct (find_peer k m) as [[k' p]|].
  - rewrite emit_bind, !modify_bind.
    match goal with |- context [recordConnectionEvent now ?ev ?mm] =>
      destruct (recordConnectionEvent_eq now ev mm) as (cl & o & -> & _) end.
    exists cl. eexists. reflexivity.
  - exists None, []. done.
Qed.

Lemma find_peer_lookup k m k' p : find_peer k m = Some (k', p) →
  g_peers m !! k' = Some p ∧ (k' = k ∨ g_peers m !! k = None ∧ mp_origKey p = k).
Proof.
  unfold find_peer. destruct (g_peers m !! k) as [p0|] eqn:Hk.
  - intros [= <- <-]. auto.
  - destruct (list_find _ _) as [[i [k0 p0]]|] eqn:Hf; [|done]. intros [= <- <-].
    apply list_find_Some in Hf as (Hi & Ho & _). cbn in Ho.
    apply list_elem_of_lookup_2, elem_of_map_order in Hi. auto.
Qed.

Lemma removePeer_gone now k reason m : g_peers (removePeerWithReason now k reason m).1.1 !! k = None.
Proof.
  destruct (removePeerWithReason_eq now k reason m) as (cl & o & ->). cbn [fst].
  destruct (find_peer k m) as [[k' p]|] eqn:Hf.
  - destruct (find_peer_lookup _ _ _ _ Hf) as [Hp [->|[Hk _]]]; cbn; [apply lookup_delete_eq|].
    apply lookup_delete_None. by right.
  - unfold find_peer in Hf. by destruct (g_peers m !! k).
Qed.

(** The identity of a warning in the duplicate set. *)
Definition warn_hash (w : SlashWarningPayload) : bytes :=
  colon_join [lit "slash"; w_Target w; w_Reporter w; w_Reason w; itoa (w_Timestamp w)].

Abbreviation onSlashWarning := (onSlashWarning (DB:=DB) (Dir:=Dir)).

Lemma add_warning_bind now w (f : bool → G DB Dir unit) m :
  (add_warning now w ≫= f) m =
  f (addWarning now w (g_slashTracker m)).2 (set_slashTracker (addWarning now w (g_slashTracker m)).1 m).
Proof.
  unfold add_warning. destruct (addWarning now w (g_slashTracker m)) as [st out] eqn:E.
  erewrite bind_eq by (rewrite get_bind, E; reflexivity). cbn [fst snd app].
  by destruct (f out _) as [[??]?].
Qed.

Lemma onSlashWarning_eq now s raw w m :
  json_unmarshal raw = Some w → w_Target w ≠ [] → w_Reporter w ≠ [] → w_Target w ≠ s →
  warn_hash w ∉ g_seen m →
  let out := addWarning now w (g_slashTracker m) in ∃ m' o,
    onSlashWarning now s raw m = (m', o, Ok ()) ∧
    g_seen m' = {[ warn_hash w ]} ∪ g_seen m ∧
    (out.2 = false → g_slashTracker m' = out.1 ∧ g_peers m' = g_peers m) ∧
    (out.2 = true → g_peers m' !! w_Target w = None).
Proof.
  intros Hu Ht Hr Hs Hseen out. unfold onSlashWarning. rewrite Hu.
  rewrite !bool_decide_false by done. cbn [orb]. rewrite get_bind. fold (warn_hash w).
  rewrite bool_decide_false by done. rewrite modify_bind, add_warning_bind.
  cbn [g_slashTracker set_seen]. fold out.
  set (m1 := set_slashTracker out.1 _).
  assert (∀ mm : manager, ∃ o', forwardSlashWarning s raw mm = (mm, o', Ok ())) as Hfw.
  { intros mm. unfold forwardSlashWarning. destruct (EncodeRaw _ _); [|by eexists].
    rewrite send_all_eq. eauto. }
  destruct out.2.
  - assert (∃ m2 o2, (modify (λ m, set_slashTracker (activeWarnings now (w_Target w) (g_slashTracker m)).1 m);;
      deregister now (w_Target w)) m1 = (m2, o2, Ok ()) ∧ g_seen m2 = g_seen m1 ∧
      g_peers m2 !! w_Target w = None) as (m2 & o2 & E & Hs2 & Hp2).
    { rewrite modify_bind. unfold deregister, removePeer.
      match goal with |- context [removePeerWithReason now ?k ?r ≫= _] => idtac | _ => idtac end.
      set (m1' := set_slashTracker _ m1).
      pose proof (removePeer_gone now (w_Target w) [] m1') as Hg.
      destruct (removePeerWithReason_eq now (w_Target w) [] m1') as (cl & o' & E).
      rewrite E in Hg. cbn [fst] in Hg. rewrite (bind_eq _ _ _ _ _ _ E).
      match type of E with _ = (?x, _, _) => set (m3 := x) in * end.
      assert (g_seen m3 = g_seen m1) as Hs3 by (unfold m3; by destruct (find_peer _ _) as [[??]|]).
      cbn. eexists _, _. split; [reflexivity|].
      destruct (g_overlayDir m3); done. }
    rewrite (bind_eq _ _ _ _ _ _ E). destruct (Hfw m2) as [o' ->].
    eexists _, _. split_and!; [reflexivity|by rewrite Hs2|done|done].
  - assert ((skip : G DB Dir unit) m1 = (m1, [], Ok ())) as E by done.
    rewrite (bind_eq _ _ _ _ _ _ E). destruct (Hfw m1) as [o' ->].
    eexists _, _. split_and!; [reflexivity|done|done|done].
Qed.

(** A warning's reporter is whatever its sender writes: one authenticated
    peer that sends two double-publish warnings under two reporter names gets
    any target without earlier warnings disconnected. *)
Theorem forged_reporters_remove_peer now s t raw1 raw2 w1 w2 m :
  json_unmarshal raw1 = Some w1 → json_unmarshal raw2 = Some w2 →
  w_Target w1 = t → w_Target w2 = t → t ≠ [] → t ≠ s →
  w_Reason w1 = SlashDoublePublish → w_Reason w2 = SlashDoublePublish →
  w_Reporter w1 ≠ [] → w_Reporter w2 ≠ [] → w_Reporter w1 ≠ w_Reporter w2 →
  warn_hash w1 ∉ g_seen m → warn_hash w2 ∉ g_seen m → warn_hash w1 ≠ warn_hash w2 →
  g_slashTracker m !! t = None →
  let m1 := (onSlashWarning now s raw1 m).1.1 in
  let m2 := (onSlashWarning now s raw2 m1).1.1 in
  g_peers m1 = g_peers m ∧ g_peers m2 !! t = None.
Proof.
  intros U1 U2 T1 T2 Ht Hs R1 R2 P1 P2 Hne N1 N2 Nh Hst. cbv zeta.
  destruct (onSlashWarning_eq now s raw1 w1 m) as (m1 & o1 & -> & Hseen & Hf & _);
    [done|by rewrite T1|done|by rewrite T1|done|]. cbn [fst].
  assert (addWarning now w1 (g_slashTracker m) =
    (<[t := MkSlashRecord [w1] now]> (g_slashTracker m), false)) as E1.
  { unfold addWarning. rewrite T1, Hst. cbn [default sr_FirstWarn]. rewrite since_refl.
    change (slashGracePeriod <? 0) with false. cbn [sr_Warnings sr_FirstWarn app]. rewrite R1, bool_decide_true by done. unfold countByReason.
    cbn [sr_Warnings]. rewrite filter_cons_True by done. done. }
  rewrite E1 in Hf. destruct (Hf eq_refl) as [Htr Hp]. split; [done|].
  destruct (onSlashWarning_eq now s raw2 w2 m1) as (m2 & o2 & -> & _ & _ & Ht2);
    [done|by rewrite T2|done|by rewrite T2|rewrite Hseen, elem_of_union, elem_of_singleton; by intros [?|?]; [congruence|]|]. cbn [fst].
  rewrite <- T2. apply Ht2. rewrite Htr. cbn [fst]. unfold addWarning.
  rewrite T2, lookup_insert_eq. cbn [from_option id sr_FirstWarn]. rewrite since_refl.
  change (slashGracePeriod <? 0) with false. cbn [sr_Warnings sr_FirstWarn app]. rewrite R2, bool_decide_true by done. unfold countByReason.
  cbn [sr_Warnings]. rewrite !filter_cons_True by done. cbn [snd].
  assert (size (list_to_set (C:=gset bytes) [w_Reporter w1; w_Reporter w2]) = 2%nat) as Hsz.
  { rewrite size_list_to_set; [done|]. apply list.NoDup_cons. split; [|apply NoDup_singleton].
    by rewrite list_elem_of_singleton. }
  change ((2 <=? Z.of_nat (size (list_to_set (C:=gset bytes) [w_Reporter w1; w_Reporter w2]))) = true).
  by rewrite Hsz.
Qed.

(** A catch-up response with a null among its envelopes makes the handler
    dereference a nil pointer: any peer can crash the node that way. *)
Theorem onDataResponse_null_panics now raw resp m m' o r before after :
  json_unmarshal (A:=DataResponsePayload) raw = Some resp →
  ds_Envelopes resp = before ++ (None :: after) → (None ∉ before) →
  onDataResponse now raw m = (m', o, r) → r = Panic.
Proof.
  intros Hu He Hb. unfold onDataResponse. rewrite Hu, He. clear He Hu.
  revert m m' o r. induction before as [|[env|] before IH]; intros m m' o r.
  - cbn [app for_each]. by intros [= _ _ <-].
  - cbn [app for_each].
    match goal with |- (?x ≫= _) m = _ → _ => destruct (x m) as [[m1 o1] r1] eqn:E end.
    rewrite bind_unfold, E. destruct r1 as [[]|e|].
    + match goal with |- match ?x with pair _ _ => _ end = _ → _ =>
        destruct x as [[m2 o2] r2] eqn:E2 end.
      intros [= <- <- <-]. eapply IH; [|exact E2]. intros Hin. apply Hb. by right.
    + exfalso. destruct (Validate env) as [[]| |]; [|done..].
      rewrite get_bind in E. destruct (g_store m) as [st|]; [|done].
      destruct (Ingest now st env) as [[st' e'] r']. rewrite modify_bind in E. by destruct r'.
    + by intros [= _ _ <-].
  - destruct Hb. by left.
Qed.

(** ** The peer table

    A peer is kept under the key it registered with until its identity is
    known, and under its identity from then on. *)
Record peer_table_ok (ps : gmap bytes MeshPeer) : Prop := {
  pt_key k p : ps !! k = Some p →
    mp_IdentityPK p = None ∧ k = mp_origKey p ∨ mp_IdentityPK p = Some k;
  pt_orig k1 k2 p1 p2 : ps !! k1 = Some p1 → ps !! k2 = Some p2 →
    mp_origKey p1 = mp_origKey p2 → k1 = k2
}.

(** The steps that change the table, with a fresh key for a new connection. *)
Inductive table_step : manager → manager → Prop :=
  | step_register now key endpoint dir m :
      g_peers m !! key = None → (∀ k p, g_peers m !! k = Some p → mp_origKey p ≠ key) →
      table_step m (register_peer now key endpoint dir m).1.1
  | step_identify key pk m : table_step m (identify key pk m).1.1
  | step_remove now key reason m : table_step m (removePeerWithReason now key reason m).1.1
  | step_stop now m : table_step m (Stop now m).1.1
  | step_bond b pk m : table_step m (set_peers (alter (set_bond b) pk (g_peers m)) m)
  | step_version v pk m : table_step m (set_peers (alter (set_version v) pk (g_peers m)) m).

Inductive table_reachable (m0 : manager) : manager → Prop :=
  | reach_init : table_reachable m0 m0
  | reach_step m m' : table_reachable m0 m → table_step m m' → table_reachable m0 m'.

Lemma alter_table_ok (f : MeshPeer → MeshPeer) pk ps :
  (∀ p, mp_IdentityPK (f p) = mp_IdentityPK p ∧ mp_origKey (f p) = mp_origKey p) →
  peer_table_ok ps → peer_table_ok (alter f pk ps).
Proof.
  intros Hf [K O].
  assert (∀ k p, alter f pk ps !! k = Some p → ∃ p0, ps !! k = Some p0 ∧
    mp_IdentityPK p = mp_IdentityPK p0 ∧ mp_origKey p = mp_origKey p0) as Ha.
  { intros k p [(-> & p0 & -> & ->)|[_ Hk]]%lookup_alter_Some; [|eauto].
    exists p0. destruct (Hf p0). done. }
  split.
  - intros k p (p0 & Hk & -> & ->)%Ha. by apply K.
  - intros k1 k2 p1 p2 (q1 & Hk1 & _ & ->)%Ha (q2 & Hk2 & _ & ->)%Ha. by apply O.
Qed.

Lemma delete_table_ok k ps : peer_table_ok ps → peer_table_ok (delete k ps).
Proof.
  intros [K O]. split.
  - intros k' p [_ Hk]%lookup_delete_Some. by apply K.
  - intros k1 k2 p1 p2 [_ H1']%lookup_delete_Some [_ H2']%lookup_delete_Some. by apply O.
Qed.

Lemma Stop_peers now m : g_peers (Stop now m).1.1 = ∅.
Proof.
  unfold Stop. rewrite get_bind. cbv zeta. rewrite emit_bind, modify_bind.
  match goal with |- context [for_each ?l ?f ?mm] =>
    assert (∃ cl o, for_each l f mm = (set_connLog cl mm, o, Ok ())) as (cl & o & ->) end; [|done].
  generalize (set_peers ∅ m). intros mm. generalize (map_order (g_peers m)).*2. intros l.
  revert mm. induction l as [|p l IH]; intros mm.
  { exists (g_connLog mm), []. by destruct mm. }
  cbn [for_each].
  match goal with |- context [recordConnectionEvent now ?ev] =>
    destruct (recordConnectionEvent_eq now ev mm) as (cl & o & E & _) end.
  rewrite (bind_eq _ _ _ _ _ _ E). destruct (IH (set_connLog cl mm)) as (cl' & o' & ->).
  eexists cl', _. reflexivity.
Qed.

Lemma table_step_ok m m' : table_step m m' → peer_table_ok (g_peers m) → peer_table_ok (g_peers m').
Proof.
  intros [now key ep dir m0 Hfresh Hfo|key pk m0|now key reason m0|now m0|b pk m0|v pk m0] HT.
  - unfold register_peer. rewrite modify_bind, get_bind.
    match goal with |- context [recordConnectionEvent now ?ev ?mm] =>
      destruct (recordConnectionEvent_eq now ev mm) as (cl & o & -> & _) end.
    cbn. destruct HT as [K O]. split.
    + intros k p [[<- <-]|[_ Hk]]%lookup_insert_Some; [by left|by apply K].
    + intros k1 k2 p1 p2 [[<- <-]|[_ H1']]%lookup_insert_Some [[<- <-]|[_ H2']]%lookup_insert_Some E;
        cbn in E; [done|by destruct (Hfo _ _ H2')|by destruct (Hfo _ _ H1')|by eapply O].
  - unfold identify. rewrite get_bind. destruct (g_peers m0 !! key) as [p|] eqn:Hk; [|done].
    destruct (mp_IdentityPK p) eqn:Hid; [done|]. rewrite modify_bind. cbn.
    destruct HT as [K O]. destruct (K _ _ Hk) as [[_ Hkey]|]; [|congruence]. split.
    + intros k q [Hne Hq]%lookup_delete_Some.
      apply lookup_insert_Some in Hq as [[<- <-]|[_ Hq]]; [by right|by apply K].
    + intros k1 k2 q1 q2 [Hn1 H1']%lookup_delete_Some [Hn2 H2']%lookup_delete_Some E.
      apply lookup_insert_Some in H1' as [[<- <-]|[_ H1']];
        apply lookup_insert_Some in H2' as [[<- <-]|[_ H2']]; [done|..|by eapply O].
      * destruct Hn2. apply (O _ _ _ _ Hk H2'). exact E.
      * destruct Hn1. symmetry. apply (O _ _ _ _ H1' Hk). exact E.
  - destruct (removePeerWithReason_eq now key reason m0) as (cl & o & ->). cbn [fst].
    destruct (find_peer key m0) as [[k' p]|]; [|done]. by apply delete_table_ok.
  - rewrite Stop_peers. split; intros *; by rewrite lookup_empty.
  - apply alter_table_ok; done.
  - apply alter_table_ok; done.
Qed.

(** Closing a connection by the key it registered with removes its peer. *)
Lemma removePeer_exact now key reason m :
  peer_table_ok (g_peers m) →
  (∀ k p, g_peers m !! k = Some p → mp_IdentityPK p ≠ Some key) →
  ∀ k p, g_peers (removePeerWithReason now key reason m).1.1 !! k = Some p ↔
         g_peers m !! k = Some p ∧ mp_origKey p ≠ key.
Proof.
  intros [K O] Hnid k p.
  destruct (removePeerWithReason_eq now key reason m) as (cl & o & ->). cbn [fst].
  destruct (find_peer key m) as [[k' p']|] eqn:Hf.
  - destruct (find_peer_lookup _ _ _ _ Hf) as [Hk' Hor].
    assert (mp_origKey p' = key) as Ho.
    { destruct Hor as [->|[_ ?]]; [|done]. destruct (K _ _ Hk') as [[_ ?]|E]; [done|].
      by apply Hnid in Hk'. }
    cbn. rewrite lookup_delete_Some. split.
    + intros [Hne Hk]. split; [done|]. intros E. apply Hne. apply (O _ _ _ _ Hk' Hk). congruence.
    + intros [Hk Hne]. split; [|done]. intros ->. congruence.
  - split; [|by intros []]. intros Hk. split; [done|]. intros Ho.
    unfold find_peer in Hf. destruct (g_peers m !! key) eqn:E; [done|].
    destruct (list_find _ _) eqn:Hl; [done|]. apply list_find_None in Hl.
    rewrite list.Forall_forall in Hl. apply (Hl (k, p)); [by apply elem_of_map_order|done].
Qed.

(** C14: in every reachable state the peer table is consistent, and closing a
    connection by the key it registered with removes its peer wherever it is
    now kept (and only that one), provided the key is not itself an identity. *)
Theorem peer_table_invariant m0 m :
  peer_table_ok (g_peers m0) → table_reachable m0 m →
  peer_table_ok (g_peers m) ∧
  ∀ now key reason,
    (∀ k p, g_peers m !! k = Some p → mp_IdentityPK p ≠ Some key) →
    ∀ k p, g_peers (removePeerWithReason now key reason m).1.1 !! k = Some p ↔
           g_peers m !! k = Some p ∧ mp_origKey p ≠ key.
Proof.
  intros H0' Hr. assert (peer_table_ok (g_peers m)) as HT.
  { induction Hr as [|m m' _ IH Hs]; [done|]. by eapply table_step_ok. }
  split; [done|]. intros now key reason Hnid. by apply removePeer_exact.
Qed.
End gossip_props.
