(* ===== verification/GossipRuns.v ===== *)
(** * The mesh at concrete messages

    The properties of [GossipProps] applied to codecs, a directory and a
    manager with two connected peers. *)

From Stdlib Require Import Init.Byte Strings.Byte Strings.String Lia ZArith.
From stdpp Require Import base gmap sets list strings numbers.
From S2P Require Import Prelude GoStd Sha256 LevelDB Ec Float Envelope EnvelopeStore EnvelopeProps.
From S2P Require Import EnvelopeRuns Slash Gossip GossipProps.
Open Scope Z_scope.

(** A frame: the type, a zero byte, the data. *)
Definition message_frame : JsonCodec Message := {|
  json_marshal x := Some (m_Type x ++ x00 :: m_Data x);
  json_unmarshal b := match split2 x00 b with
                      | (t, Some d) => Some (MkMessage t d)
                      | _ => None
                      end;
  json_norm := id
|}.

#[export] Instance topics_eq_dec : EqDecision TopicsPayload.
Proof. solve_decision. Defined.
#[export] Program Instance topics_countable : Countable TopicsPayload :=
  inj_countable' tp_Prefixes MkTopics _.
Next Obligation. by intros []. Qed.
#[export] Instance request_eq_dec : EqDecision DataRequestPayload.
Proof. solve_decision. Defined.
#[export] Program Instance request_countable : Countable DataRequestPayload :=
  inj_countable' (λ x, (dr_Topic x, dr_Since x, dr_Limit x)) (λ t, MkDataRequest t.1.1 t.1.2 t.2) _.
Next Obligation. by intros []. Qed.
#[export] Instance response_eq_dec : EqDecision DataResponsePayload.
Proof. solve_decision. Defined.
#[export] Program Instance response_countable : Countable DataResponsePayload :=
  inj_countable' (λ x, (ds_Topic x, ds_Envelopes x, ds_HasMore x))
    (λ t, MkDataResponse t.1.1 t.1.2 t.2) _.
Next Obligation. by intros []. Qed.
#[export] Instance ship_info_eq_dec : EqDecision SHIPPeerInfo.
Proof. solve_decision. Defined.
#[export] Program Instance ship_info_countable : Countable SHIPPeerInfo :=
  inj_countable' (λ x, (sp_IdentityPub x, sp_Domain x, sp_NodeName x, sp_Version x, sp_Topic x))
    (λ t, match t with (a, b, c, d, e) => MkSHIPPeerInfo a b c d e end) _.
Next Obligation. by intros []. Qed.
#[export] Instance ship_sync_eq_dec : EqDecision SHIPSyncPayload.
Proof. solve_decision. Defined.
#[export] Program Instance ship_sync_countable : Countable SHIPSyncPayload :=
  inj_countable' ss_Peers MkSHIPSync _.
Next Obligation. by intros []. Qed.
#[export] Instance warning_eq_dec : EqDecision SlashWarningPayload.
Proof. solve_decision. Defined.
#[export] Program Instance warning_countable : Countable SlashWarningPayload :=
  inj_countable' (λ x, (w_Target x, w_Reason x, w_Evidence x, w_Timestamp x, w_Reporter x))
    (λ t, match t with (a, b, c, d, e) => MkSlashWarning a b c d e end) _.
Next Obligation. by intros []. Qed.

#[export] Instance toy_wire : WireCodec := {
  wc_message := message_frame;
  wc_topics := countable_codec id;
  wc_request := countable_codec id;
  wc_response := countable_codec id;
  wc_ship := countable_codec id;
  wc_slash := countable_codec id;
  wc_envelope := envelope_json;
  wc_raw := Some
}.

#[export] Instance list_dir : OverlayDirectory (list SHIPPeerInfo) := {
  ForEachSHIP d := d;
  AddSHIPPeerFromGossip d p := (p :: d, true);
  RemoveSHIPPeerByIdentity d i := filter (λ p, sp_IdentityPub p ≠ i) d
}.

Definition peer_of (key : bytes) : MeshPeer :=
  MkMeshPeer true (Some key) (lit "ws://") (lit "inbound") 0 [] (Some 0) (lit "conn-" ++ key).

Definition mgr : Manager (gmap bytes bytes) (list SHIPPeerInfo) :=
  MkManager (Some (lit "self")) (Some empty_store)
    (<[lit "p1" := peer_of (lit "p1")]> (<[lit "p2" := peer_of (lit "p2")]> ∅))
    (<[lit "p1" := [lit "rat"]]> ∅) [] ∅ 4 [7%N] None ∅ ∅ ∅ ∅ [] ∅ None 0 0 0.

Definition raw_of (e : Envelope) : bytes := default [] (json_marshal e).
Definition forged : Envelope := set_signature (lit "00") (Pubkey rates) rates.

Definition handle (raw : bytes) := onData (DB:=gmap bytes bytes) id t0 (lit "p2") raw mgr.

Lemma handle_ok raw : onData (DB:=gmap bytes bytes) id t0 (lit "p2") raw mgr = ((handle raw).1.1, (handle raw).1.2, (handle raw).2).
Proof. unfold handle. by destruct (onData _ _ _ raw mgr) as [[??]?]. Qed.

Lemma raw_of_ok e : json_norm e = e → json_unmarshal (A:=Envelope) (raw_of e) = Some e.
Proof.
  intros E. unfold raw_of. destruct (json_marshal e) as [b|] eqn:Hb; [|discriminate Hb].
  cbn [from_option id]. rewrite (json_roundtrip _ _ Hb). by f_equal.
Qed.

#[export] Instance peer_eq_dec : EqDecision MeshPeer.
Proof. solve_decision. Defined.
#[export] Instance event_eq_dec : EqDecision ConnectionEvent.
Proof. solve_decision. Defined.
#[export] Instance output_eq_dec : EqDecision output.
Proof. solve_decision. Defined.

Lemma forged_clean : json_norm forged = forged.
Proof. vm_compute. reflexivity. Qed.
Lemma rates_clean : json_norm rates = rates.
Proof. vm_compute. reflexivity. Qed.

Lemma onData_rejects_invalid_witness :
  (handle (raw_of forged)).2 = Ok () ∧ no_delivery (handle (raw_of forged)).1.2.
Proof.
  pose proof (onData_rejects_invalid (H2:=toy_ec) (H4:=toy_wire) (H6:=key_map_order) (H8:=elements_order) id t0 (lit "p2") (raw_of forged) forged mgr _ _ _
    (raw_of_ok forged forged_clean) ltac:(vm_compute; discriminate) (handle_ok (raw_of forged)))
    as (Hr & _ & Hn).
  exact (conj Hr Hn).
Defined.

Lemma onData_accepts_witness :
  (handle (raw_of rates)).2 = Ok () ∧
  ODeliver 7 (ingested t0 mgr rates) ∈ (handle (raw_of rates)).1.2 ∧
  OSend (lit "p1") (default [] (EncodeRaw MsgData (raw_of rates))) ∈ (handle (raw_of rates)).1.2.
Proof.
  pose proof (onData_accepts (H2:=toy_ec) (H4:=toy_wire) (H6:=key_map_order) (H8:=elements_order) id t0 (lit "p2") (raw_of rates) rates mgr _ _ _
    (raw_of_ok rates rates_clean) ltac:(vm_compute; reflexivity)
    ltac:(apply not_elem_of_empty) ltac:(left; apply not_elem_of_empty)
    ltac:(vm_compute; reflexivity) (handle_ok (raw_of rates))) as (Hr & _ & _ & _ & Hd & Hs).
  split; [exact Hr|]. split.
  { apply Hd. split; [|reflexivity]. change (7%N ∈ [7%N]). by left. }
  apply Hs.
  split; [vm_compute; reflexivity|]. split; [reflexivity|]. split; [discriminate|]. split.
  - exists (peer_of (lit "p1")). split; vm_compute; reflexivity.
  - exists (lit "rat"). split.
    + assert (g_interests mgr !! lit "p1" = Some [lit "rat"]) as -> by (vm_compute; reflexivity).
      by left.
    + eexists. reflexivity.
Defined.

Lemma onData_delivers_once_witness :
  env_hash id rates ∈ g_seen (handle (raw_of rates)).1.1.
Proof.
  pose proof (onData_delivers_once (H2:=toy_ec) (H4:=toy_wire) (H6:=key_map_order) (H8:=elements_order) id t0 (lit "p2") (raw_of rates) rates mgr
    (handle (raw_of rates)).1.1 (handle (raw_of rates)).1.2 (handle (raw_of rates)).2
    (raw_of_ok rates rates_clean) (handle_ok (raw_of rates))) as (Hd & _).
  refine (proj2 (Hd 7%N (ingested t0 mgr rates) _)).
  eval_true.
Defined.

Lemma onData_seen_bounded_witness :
  Z.of_nat (size (g_seen (handle (raw_of rates)).1.1)) ≤ g_maxSeen (handle (raw_of rates)).1.1.
Proof.
  refine (onData_seen_bounded (H2:=toy_ec) (H4:=toy_wire) (H6:=key_map_order) (H8:=elements_order) id t0 (lit "p2") (raw_of rates) mgr _ _ _ _ _
    (handle_ok (raw_of rates))); vm_compute; discriminate.
Defined.

Definition report (reporter : bytes) : SlashWarningPayload := warning (lit "p1") reporter 5.
Definition raw_report (r : bytes) : bytes := default [] (json_marshal (report r)).

Lemma raw_report_ok r : json_unmarshal (raw_report r) = Some (report r).
Proof.
  exact (@json_roundtrip _ (countable_codec id) (countable_codec_laws id) (report r)
    (raw_report r) eq_refl).
Qed.

Lemma forged_reporters_remove_peer_witness :
  g_peers mgr !! lit "p1" = Some (peer_of (lit "p1")) ∧
  g_peers (onSlashWarning t0 (lit "p2") (raw_report (lit "y"))
    (onSlashWarning t0 (lit "p2") (raw_report (lit "x")) mgr).1.1).1.1 !! lit "p1" = None.
Proof.
  split; [vm_compute; reflexivity|].
  refine (proj2 (forged_reporters_remove_peer (H4:=toy_wire) t0 (lit "p2") (lit "p1") _ _ _ _ mgr
    (raw_report_ok (lit "x")) (raw_report_ok (lit "y")) eq_refl eq_refl _ _ eq_refl eq_refl
    _ _ _ (not_elem_of_empty _) (not_elem_of_empty _) _ _));
    first [discriminate | vm_compute; discriminate | vm_compute; reflexivity].
Defined.

Definition null_response : DataResponsePayload := MkDataResponse [] [None] false.

Lemma onDataResponse_null_panics_witness :
  (onDataResponse (DB:=gmap bytes bytes) t0 (default [] (json_marshal null_response)) mgr).2 = Panic.
Proof.
  destruct (onDataResponse t0 (default [] (json_marshal null_response)) mgr) as [[m' o] r] eqn:E.
  refine (onDataResponse_null_panics (H2:=toy_ec) (H4:=toy_wire) t0 _ null_response mgr m' o r [] [] _ eq_refl _ E).
  - vm_compute. reflexivity.
  - apply not_elem_of_nil.
Defined.

Lemma mgr_table_ok : peer_table_ok (g_peers mgr).
Proof.
  assert (∀ k p, g_peers mgr !! k = Some p → p = peer_of k) as Hp.
  { intros k p. cbn. intros [[<- <-]|[_ [[<- <-]|[_ Hk]]%lookup_insert_Some]]%lookup_insert_Some;
      [done..|]. by rewrite lookup_empty in Hk. }
  split.
  - intros k p ->%Hp. by right.
  - intros k1 k2 p1 p2 ->%Hp ->%Hp E. by apply app_inv_head in E.
Qed.

Lemma peer_table_invariant_witness :
  peer_table_ok (g_peers (removePeerWithReason 0 (lit "conn-p1") [] mgr).1.1).
Proof.
  refine (proj1 (peer_table_invariant mgr _ mgr_table_ok _)).
  eapply reach_step; [apply reach_init|apply step_remove].
Defined.
