(* ===== verification/Transport.v ===== *)
(** * The transport of the mesh ([internal/gossip/transport.go])

    A connection's read loop hands each message that parses to the callback
    registered at that moment, until the connection fails; [Done] tells when it
    has ended. [MeshHandler] (manager.go) is the life of an inbound connection:
    it joins the loop with the peer table of the manager. The loop runs over the
    sequence of what happens to it: what [Receive] returns, callbacks that are
    registered, and the steps other goroutines take on the shared state. *)

From Stdlib Require Import Init.Byte Strings.Byte Strings.String Lia ZArith.
From stdpp Require Import base gmap sets list strings numbers.
From S2P Require Import Prelude GoStd LevelDB Ec Envelope EnvelopeStore Slash Gossip GossipProps.
Open Scope Z_scope.

(** golang.org/x/net/websocket. *)
Class WebSocket (Conn : Type) := {
  ws_Dial : bytes → option Conn;
  ws_Send : Conn → bytes → Conn * bool;
  ws_Close : Conn → Conn * bool;
  ws_RemoteAddr : Conn → option bytes
}.

Section transport.
Context {S Conn AuthMessage : Type} `{WebSocket Conn} `{JsonCodec AuthMessage}.

(** A callback acts on the shared state; [None] is a panic. Its error value is
    not read by the loop. *)
Definition Callback : Type := AuthMessage → S → option S.

(** [ws_conn] is a pointer; [ws_done] tells that the channel is closed. *)
Record ServerWSTransport := MkTransport {
  ws_conn : option Conn;
  ws_onDataFunc : option Callback;
  ws_done : bool
}.

Inductive ws_err := WsDial | WsMarshal | WsSend | WsClose.

Definition NewServerWSTransport (conn : option Conn) : ServerWSTransport := MkTransport conn None false.

Definition NewWSTransportAdapter (endpoint : bytes) : res ws_err ServerWSTransport :=
  match ws_Dial endpoint with
  | Some conn => Ok (NewServerWSTransport (Some conn))
  | None => Err WsDial
  end.

Definition Done (s : ServerWSTransport) : bool := ws_done s.

Definition RemoteAddr (s : ServerWSTransport) : bytes :=
  match ws_conn s with
  | None => []
  | Some conn => match ws_RemoteAddr conn with None => [] | Some addr => addr end
  end.

Definition set_conn (c : Conn) (s : ServerWSTransport) : ServerWSTransport :=
  MkTransport (Some c) (ws_onDataFunc s) (ws_done s).

Definition Close (s : ServerWSTransport) : ServerWSTransport * res ws_err unit :=
  match ws_conn s with
  | None => (s, Panic)
  | Some conn =>
      let '(conn, ok) := ws_Close conn in
      (set_conn conn s, if ok then Ok () else Err WsClose)
  end.

Definition Send (message : AuthMessage) (s : ServerWSTransport) : ServerWSTransport * res ws_err unit :=
  match json_marshal message with
  | None => (s, Err WsMarshal)
  | Some data =>
      match ws_conn s with
      | None => (s, Panic)
      | Some conn =>
          let '(conn, ok) := ws_Send conn data in
          (set_conn conn s, if ok then Ok () else Err WsSend)
      end
  end.

Definition OnData (callback : Callback) (s : ServerWSTransport) : ServerWSTransport :=
  MkTransport (ws_conn s) (Some callback) (ws_done s).

Definition GetRegisteredOnData (s : ServerWSTransport) : option Callback := ws_onDataFunc s.

(** What happens to a running loop. *)
Inductive event :=
  | Received (raw : bytes)
  | ReceiveFailed
  | Registers (callback : Callback)
  | Meanwhile (f : S → S).

Inductive loop_state := Blocked | Exited | Crashed.

(** [defer close(s.done)]: closing it twice panics. *)
Definition close_done (s : ServerWSTransport) (st : S) : ServerWSTransport * S * loop_state :=
  (MkTransport (ws_conn s) (ws_onDataFunc s) true, st, if ws_done s then Crashed else Exited).

Fixpoint StartReceive (evs : list event) (s : ServerWSTransport) (st : S)
    : ServerWSTransport * S * loop_state :=
  match evs with
  | [] => (s, st, Blocked)
  | Registers callback :: evs => StartReceive evs (OnData callback s) st
  | Meanwhile f :: evs => StartReceive evs s (f st)
  | ReceiveFailed :: _ => close_done s st
  | Received raw :: evs =>
      match json_unmarshal raw with
      | None => StartReceive evs s st
      | Some msg =>
          match ws_onDataFunc s with
          | None => StartReceive evs s st
          | Some fn =>
              match fn msg st with
              | None => (s, st, Crashed)
              | Some st => StartReceive evs s st
              end
          end
      end
  end.

(** ** The loop *)

(** What is delivered while one callback is registered. *)
Definition deliver (f : AuthMessage → S → S) (st : S) (ev : event) : S :=
  match ev with
  | Received raw => match json_unmarshal raw with Some msg => f msg st | None => st end
  | Meanwhile g => g st
  | _ => st
  end.

Definition ordinary (ev : event) : Prop :=
  match ev with Received _ | Meanwhile _ => True | _ => False end.

(** The messages that parse are delivered in the order of arrival, each once,
    and what comes after the connection failed is not. *)
Theorem StartReceive_delivers f evs after conn st :
  Forall ordinary evs →
  let t := MkTransport conn (Some (λ msg st, Some (f msg st))) in
  StartReceive evs (t false) st = (t false, foldl (deliver f) st evs, Blocked) ∧
  StartReceive (evs ++ ReceiveFailed :: after) (t false) st = (t true, foldl (deliver f) st evs, Exited).
Proof.
  intros Hev t. revert st. induction Hev as [|ev evs Ho _ IH]; intros st; [done|].
  destruct ev as [raw| | |g]; try done; cbn [app StartReceive foldl deliver]; [|apply IH].
  destruct (json_unmarshal raw) as [msg|]; apply IH.
Qed.

(** An invariant of the callbacks and of the other goroutines is one of the loop. *)
Definition event_keeps (I : S → Prop) (ev : event) : Prop :=
  match ev with
  | Registers cb => ∀ msg st st', I st → cb msg st = Some st' → I st'
  | Meanwhile g => ∀ st, I st → I (g st)
  | _ => True
  end.

Lemma StartReceive_inv (I : S → Prop) evs s st :
  (∀ cb, ws_onDataFunc s = Some cb → event_keeps I (Registers cb)) →
  Forall (event_keeps I) evs → I st → I (StartReceive evs s st).1.2.
Proof.
  intros Hs Hev. revert s st Hs. induction Hev as [|ev evs He _ IH]; intros s st Hs Hst; [done|].
  destruct ev as [raw| |cb|g]; cbn [StartReceive].
  - destruct (json_unmarshal raw) as [msg|]; [|by apply IH]. destruct (ws_onDataFunc s) as [fn|] eqn:Hfn; [|apply IH; [by rewrite Hfn|done]].
    destruct (fn msg st) as [st'|] eqn:E; [|exact Hst]. apply IH; [by rewrite Hfn|]. by apply (Hs fn eq_refl msg st).
  - exact Hst.
  - apply IH; [|done]. by intros cb' [= <-].
  - auto.
Qed.

(** The channel is closed exactly when the loop has ended. *)
Lemma StartReceive_done evs s st :
  Done s = false → Done (StartReceive evs s st).1.1 = true ↔ (StartReceive evs s st).2 = Exited.
Proof.
  revert s st. induction evs as [|[raw| |cb|g] evs IH]; intros s st Hd; cbn [StartReceive].
  - cbn [fst snd]. rewrite Hd. split; discriminate.
  - repeat case_match; try (by apply IH). cbn [fst snd]. rewrite Hd. by split.
  - unfold close_done, Done in *. cbn. by rewrite Hd.
  - by apply IH.
  - by apply IH.
Qed.
End transport.

(** ** The life of an inbound connection *)

Section inbound.
Context {DB Dir Conn AuthMessage : Type} `{LevelDBLaws DB} `{OverlayDirectory Dir} `{ECLaws} `{WireCodec}.
Context `{SortSlice} `{MapOrderLaws} `{SetOrderLaws} `{WebSocket Conn} `{JsonCodec AuthMessage}.
Context (topeer : bytes → bytes → bool).
Abbreviation manager := (Manager DB Dir).
Abbreviation shared := (manager * list output)%type.
Abbreviation accepted := (NewServerWSTransport (S:=shared) (AuthMessage:=AuthMessage)).
Implicit Types m : manager.
(** The go-sdk peer of a connection: it authenticates a message and calls the
    listener of the connection ([Gossip.on_general_message]). *)
Context (peer : bytes → Callback (S:=shared) (AuthMessage:=AuthMessage)).

(** [tempKey] is the text of the transport's address; [start] the outcome of
    [peer.Start], which registers the peer's callback. *)
Definition MeshHandler (now closed : Z) (start : bool) (tempKey : bytes) (conn : option Conn)
    (evs : list (event (S:=shared) (AuthMessage:=AuthMessage))) m : shared * loop_state :=
  let transport := accepted conn in
  match AcceptPeer topeer now start tempKey (RemoteAddr transport) m with
  | (m, o, Ok peerKey) =>
      match StartReceive evs (OnData (peer tempKey) transport) (m, o) with
      | (_, (m, o), Exited) =>
          let '(m, o', _) := removePeerWithReason closed peerKey (lit "transport_closed") m in
          ((m, o ++ o'), Exited)
      | (_, st, waits) => (st, waits)
      end
  | (m, o, Err _) => ((m, o), Exited)
  | (m, o, Panic) => ((m, o), Crashed)
  end.

(** *** Operations that leave the state alone *)
Definition quiet {A} (x : G DB Dir A) : Prop := ∀ m, (x m).1.1 = m.

Lemma quiet_bind {A B} (x : G DB Dir A) (f : A → G DB Dir B) :
  quiet x → (∀ a, quiet (f a)) → quiet (x ≫= f).
Proof.
  intros Hx Hf m. specialize (Hx m). unfold mbind, G_bind. destruct (x m) as [[m1 o1] [a|e|]]; cbn in Hx |- *; subst m1; [|reflexivity..].
  specialize (Hf a m). destruct (f a m) as [[m2 o2] r2]. exact Hf.
Qed.

Lemma quiet_for_each {A} (l : list A) (f : A → G DB Dir unit) : (∀ a, quiet (f a)) → quiet (for_each l f).
Proof. intros Hf. induction l; cbn [for_each]; [done|]. by apply quiet_bind. Qed.

Lemma announceInterests_quiet key : quiet (announceInterests topeer key).
Proof.
  apply quiet_bind; [done|]. intros m. case_match; [|done].
  apply quiet_bind; [done|]. intros _. by case_match.
Qed.

Lemma announceSHIP_quiet key : quiet (announceSHIP (DB:=DB) key).
Proof.
  apply quiet_bind; [done|]. intros m. destruct (g_overlayDir m) as [d|]; [|done]. cbv zeta.
  case_match; [done|]. destruct (Encode MsgSHIPSync _); done.
Qed.

Lemma requestCatchUp_quiet key : quiet (requestCatchUp (DB:=DB) (Dir:=Dir) key).
Proof. apply quiet_bind; [done|]. intros m. apply quiet_for_each. intros a. by case_match. Qed.

Lemma register_peer_ok now key addr m : ∃ cl o,
  register_peer now key addr (lit "inbound") m =
  (set_connLog cl (set_peers
     (<[key := MkMeshPeer true None addr (lit "inbound") 0 [] (Some now) key]> (g_peers m)) m), o, Ok ()).
Proof.
  unfold register_peer. rewrite modify_bind, get_bind.
  match goal with |- context [recordConnectionEvent now ?ev ?mm] =>
    destruct (recordConnectionEvent_eq now ev mm) as (cl & o & -> & _) end. eauto.
Qed.

(** A connection that is accepted, or fails to announce, is in the table. *)
Lemma AcceptPeer_table now start key addr m m' o r :
  AcceptPeer topeer now start key addr m = (m', o, r) →
  if start then m' = (register_peer now key addr (lit "inbound") m).1.1
  else m' = m ∧ r = Err ErrTransport.
Proof.
  unfold AcceptPeer. destruct start; cbn [negb]; [|by intros [= <- <- <-]].
  destruct (register_peer_ok now key addr m) as (cl & o1 & E).
  rewrite (bind_eq _ _ _ _ _ _ E), E. cbn [fst]. set (m1 := set_connLog _ _).
  match goal with |- context [announceInterests topeer key ≫= ?f] =>
    set (x := announceInterests topeer key ≫= f); assert (quiet x) as Hq end.
  { apply quiet_bind; [apply announceInterests_quiet|intros _].
    apply quiet_bind; [apply announceSHIP_quiet|intros _].
    apply quiet_bind; [apply requestCatchUp_quiet|done]. }
  specialize (Hq m1). destruct (x m1) as [[m2 o2] r2]. cbn in Hq. subst m2. by intros [= <- <- <-].
Qed.

Lemma AcceptPeer_announce now key addr payload m :
  Encode MsgTopics (MkTopics (g_localInterests m)) = Some payload → topeer key payload = false →
  ∃ cl o, AcceptPeer topeer now true key addr m =
    (set_connLog cl (set_peers
       (<[key := MkMeshPeer true None addr (lit "inbound") 0 [] (Some now) key]> (g_peers m)) m), o, Err ErrToPeer).
Proof.
  intros HE HT. unfold AcceptPeer. cbn [negb]. destruct (register_peer_ok now key addr m) as (cl & o & E).
  rewrite (bind_eq _ _ _ _ _ _ E). exists cl. unfold announceInterests.
  rewrite bind_unfold, get_bind. cbn [g_localInterests set_connLog set_peers]. rewrite HE, emit_bind, HT.
  eexists. reflexivity.
Qed.

(** *** The table after the connection *)

(** What a step must keep while the connection is up: the table is consistent
    and no other peer takes the connection's key for an identity. *)
Definition table_kept (key : bytes) (st : shared) : Prop :=
  peer_table_ok (g_peers st.1) ∧ ∀ k p, g_peers st.1 !! k = Some p → mp_IdentityPK p ≠ Some key.

Lemma table_kept_register now key addr m o :
  peer_table_ok (g_peers m) → g_peers m !! key = None →
  (∀ k p, g_peers m !! k = Some p → mp_origKey p ≠ key ∧ mp_IdentityPK p ≠ Some key) →
  table_kept key ((register_peer now key addr (lit "inbound") m).1.1, o).
Proof.
  intros Hok Hk Hno. split.
  - apply (table_step_ok (DB:=DB) (Dir:=Dir) m); [|done]. constructor; [done|]. intros k p Hp. by apply (Hno k p).
  - intros k p. destruct (register_peer_ok now key addr m) as (cl & o2 & ->).
    cbn. intros [[<- <-]|[_ Hp]]%lookup_insert_Some; [done|]. by apply (Hno k p).
Qed.

(** When the connection of an accepted peer has ended, no peer of that
    connection is left in the table, whatever key it is under by then. *)
Theorem inbound_cleaned_up now closed start key conn evs m m' o m1 o1 :
  peer_table_ok (g_peers m) → g_peers m !! key = None →
  (∀ k p, g_peers m !! k = Some p → mp_origKey p ≠ key ∧ mp_IdentityPK p ≠ Some key) →
  event_keeps (table_kept key) (Registers (peer key)) → Forall (event_keeps (table_kept key)) evs →
  AcceptPeer topeer now start key (RemoteAddr (accepted conn)) m = (m1, o1, Ok key) →
  MeshHandler now closed start key conn evs m = ((m', o), Exited) →
  peer_table_ok (g_peers m') ∧ ∀ k p, g_peers m' !! k = Some p → mp_origKey p ≠ key.
Proof.
  intros Hok Hk Hno Hpeer Hevs HA. unfold MeshHandler.
  pose proof (AcceptPeer_table _ _ _ _ _ _ _ _ HA) as Ht. rewrite HA.
  destruct start; [|by destruct Ht]. subst m1.
  match goal with |- context [StartReceive evs ?t ?st] =>
    pose proof (StartReceive_inv (table_kept key) evs t st) as HI;
    destruct (StartReceive evs t st) as [[t' [m2 o2]] w] end.
  destruct HI as [Hok2 Hid2]; [by intros cb [= <-]|done|by apply table_kept_register|].
  destruct w; try done. cbn [fst snd] in *.
  pose proof (removePeer_exact closed key (lit "transport_closed") m2 Hok2 Hid2) as Hx.
  pose proof (step_remove (DB:=DB) (Dir:=Dir) closed key (lit "transport_closed") m2) as Hs.
  apply table_step_ok in Hs; [|done].
  destruct (removePeerWithReason _ _ _ _) as [[m3 o3] r3]. intros [= <- <-].
  split; [done|]. intros k p Hp. by apply (Hx k p).
Qed.

(** But when the first announcement fails the handler returns without removing
    the peer it has just registered: nothing removes it later. *)
Theorem accept_failure_leaks now closed key conn evs payload m :
  Encode MsgTopics (MkTopics (g_localInterests m)) = Some payload → topeer key payload = false →
  ∃ m' o p, MeshHandler now closed true key conn evs m = ((m', o), Exited) ∧
    g_peers m' !! key = Some p ∧ mp_origKey p = key.
Proof.
  intros HE HT. unfold MeshHandler.
  destruct (AcceptPeer_announce now key (RemoteAddr (accepted conn)) payload m HE HT)
    as (cl & o & ->). eexists _, _, _. split; [done|]. cbn. by rewrite lookup_insert_eq.
Qed.
End inbound.
