(* ===== verification/Tx.v ===== *)
(** * The transaction library (go-sdk [transaction])

    What the node reads of a transaction, and the functions of the library
    that parse and print one. [toy_tx] is an instance, for the witnesses: a
    transaction is printed as frames of its fields. *)

From Stdlib Require Import Init.Byte Strings.Byte Strings.String Lia ZArith.
From stdpp Require Import base gmap sets list strings numbers countable.
From S2P Require Import Prelude GoStd Sha256 LevelDB.
Open Scope Z_scope.

(** [in_SourceTXID] is the text of the hash, [None] a nil pointer;
    [out_LockingScript] likewise. *)
Record TxInput := MkInput { in_SourceTXID : option bytes; in_SourceTxOutIndex : Z }.
Record TxOutput := MkOutput { out_Satoshis : Z; out_LockingScript : option bytes }.
Record Transaction := MkTx { tx_Inputs : list TxInput; tx_Outputs : list TxOutput }.

Class TxLib := {
  NewTransactionFromBytes : bytes → option Transaction;
  NewTransactionFromBEEF : bytes → option Transaction;
  TxID : Transaction → bytes;
  TxBytes : Transaction → bytes
}.

(** Printing and parsing again gives the transaction back, and a transaction
    id is 32 bytes in hexadecimal. *)
Class TxLibLaws `{TxLib} : Prop := {
  tx_roundtrip t : NewTransactionFromBytes (TxBytes t) = Some t;
  txid_length t : length (TxID t) = 64%nat
}.

#[export] Instance TxInput_eq_dec : EqDecision TxInput.
Proof. solve_decision. Defined.
#[export] Instance TxOutput_eq_dec : EqDecision TxOutput.
Proof. solve_decision. Defined.
#[export] Instance Transaction_eq_dec : EqDecision Transaction.
Proof. solve_decision. Defined.
Definition input_field (i : TxInput) : bytes :=
  frame [option_field id (in_SourceTXID i); z_field (in_SourceTxOutIndex i)].
Definition field_input (b : bytes) : option TxInput :=
  l ← unframe b [];
  match l with [t; v] => t ← field_option Some t; v ← field_z v; Some (MkInput t v) | _ => None end.
Definition output_field (o : TxOutput) : bytes :=
  frame [z_field (out_Satoshis o); option_field id (out_LockingScript o)].
Definition field_output (b : bytes) : option TxOutput :=
  l ← unframe b [];
  match l with [v; s] => v ← field_z v; s ← field_option Some s; Some (MkOutput v s) | _ => None end.
Definition toy_print (t : Transaction) : bytes :=
  frame [list_field input_field (tx_Inputs t); list_field output_field (tx_Outputs t)].
Definition toy_parse (b : bytes) : option Transaction :=
  l ← unframe b [];
  match l with
  | [i; o] => i ← field_list field_input i; o ← field_list field_output o; Some (MkTx i o)
  | _ => None
  end.

Lemma field_input_field i : field_input (input_field i) = Some i.
Proof.
  unfold field_input, input_field. rewrite unframe_frame. destruct i as [t v].
  cbn -[field_z z_field field_option option_field].
  by rewrite (field_option_field id Some) by done; cbn -[field_z z_field]; rewrite field_z_field.
Qed.
Lemma field_output_field o : field_output (output_field o) = Some o.
Proof.
  unfold field_output, output_field. rewrite unframe_frame. destruct o as [v s].
  cbn -[field_z z_field field_option option_field].
  by rewrite field_z_field; cbn -[field_option option_field]; rewrite (field_option_field id Some).
Qed.
Lemma toy_parse_print t : toy_parse (toy_print t) = Some t.
Proof.
  unfold toy_parse, toy_print. rewrite unframe_frame. destruct t as [i o].
  cbn -[field_list list_field]. rewrite (field_list_field _ _ _ field_input_field).
  cbn -[field_list list_field]. by rewrite (field_list_field _ _ _ field_output_field).
Qed.

#[export] Instance toy_tx : TxLib := {
  NewTransactionFromBytes := toy_parse;
  NewTransactionFromBEEF b := match b with x01 :: x00 :: b' => toy_parse b' | _ => None end;
  TxID t := hex_encode (sum256 (toy_print t));
  TxBytes := toy_print
}.

#[export] Instance toy_tx_laws : TxLibLaws.
Proof.
  split; intros t; simpl.
  - apply toy_parse_print.
  - by rewrite length_hex_encode, length_sum256.
Qed.
