(* ===== verification/Brc.v ===== *)
(** * SHIP and SLAP tokens ([pkg/brc])

    A registration token is a push-drop script locked with a key derived from
    the identity it claims (BRC-42), with counterparty "anyone". Key derivation
    and push-drop scripts are go-sdk's: [SdkTokens] is what the package uses of
    them and [SdkTokensLaws] what it relies on. *)

From Stdlib Require Import Init.Byte Strings.Byte Strings.String Lia ZArith.
From stdpp Require Import base gmap sets list strings numbers.
From S2P Require Import Prelude GoStd LevelDB Ec.
Open Scope Z_scope.

Record ScriptChunk := MkChunk { chunk_Op : byte; chunk_Data : option bytes }.

Definition OpCHECKSIG : byte := xac.
Definition Op2DROP : byte := x6d.
Definition OpDROP : byte := x75.

Class SdkTokens `{EC} := {
  DeriveChildKey : PrivateKey → PublicKey → bytes → option PrivateKey;
  DerivePubChild : PublicKey → PrivateKey → bytes → option PublicKey;
  AnyoneKey : PrivateKey;
  pushdrop_Decode : bytes → option (list bytes * PublicKey);
  CreateMinimallyEncodedScriptChunk : bytes → ScriptChunk;
  NewScriptFromScriptOps : list ScriptChunk → option bytes;
  ProtocolIDSHIP : bytes;
  ProtocolIDSLAP : bytes
}.

Definition ProtocolSHIP : bytes := lit "SHIP".
Definition ProtocolSLAP : bytes := lit "SLAP".

(** ** Derivation ([derive.go], [invoice.go]) *)

Section brc.
Context `{SdkTokens}.

Definition InvoiceSHIP : bytes := lit "2-" ++ ProtocolIDSHIP ++ lit "-1".
Definition InvoiceSLAP : bytes := lit "2-" ++ ProtocolIDSLAP ++ lit "-1".

Definition DeriveChild (identityKey : PrivateKey) (counterpartyPub : PublicKey) (invoice : bytes)
    : option PrivateKey := DeriveChildKey identityKey counterpartyPub invoice.
Definition DeriveChildPub (identityPub : PublicKey) (invoice : bytes) : option PublicKey :=
  DerivePubChild identityPub AnyoneKey invoice.
Definition AnyonePub : PublicKey := PubKey AnyoneKey.

(** ** Scripts ([token.go]) *)

Inductive brc_err :=
  | BeNotPushDrop | BeTooFewFields | BeProtocol (got : bytes) | BeIdentityHex | BeIdentity
  | BeDerive | BeLockingKey | BeScript.

(** [TokenFields]: protocol, identity, domain, topic or provider, locking key. *)
Record TokenFields := MkTokenFields {
  tf_Protocol : bytes; tf_IdentityPub : bytes; tf_Domain : bytes; tf_TopicProvider : bytes;
  tf_LockingPub : PublicKey
}.

Definition ParseTokenScript (s : bytes) : res brc_err TokenFields :=
  match pushdrop_Decode s with
  | None => Err BeNotPushDrop
  | Some (a :: b :: c :: d :: _, pub) => Ok (MkTokenFields a b c d pub)
  | Some _ => Err BeTooFewFields
  end.

(** The drops after [n] fields: two at a time, then one. *)
Fixpoint drop_ops (n : nat) : list ScriptChunk :=
  match n with
  | S (S n') => MkChunk Op2DROP None :: drop_ops n'
  | S O => [MkChunk OpDROP None]
  | O => []
  end.

Definition token_chunks (lockingPub : PublicKey) (fields : list bytes) : list ScriptChunk :=
  let pubBytes := Compressed lockingPub in
  MkChunk (z_byte (Z.of_nat (length pubBytes))) (Some pubBytes) :: MkChunk OpCHECKSIG None ::
  (CreateMinimallyEncodedScriptChunk <$> fields) ++ drop_ops (length fields).

Definition buildPushDropScript (lockingPub : PublicKey) (fields : list bytes) : option bytes :=
  NewScriptFromScriptOps (token_chunks lockingPub fields).

(** ** Tokens ([ship.go], [slap.go])

    The two kinds differ in protocol, invoice and the name of the last field. *)
Record Token := MkToken {
  tk_IdentityPub : bytes; tk_Domain : bytes; tk_Topic : bytes; tk_LockingPub : PublicKey
}.

Definition parse_token (protocol : bytes) (scriptBytes : bytes) : res brc_err Token :=
  match pushdrop_Decode scriptBytes with
  | Some (f0 :: f1 :: f2 :: f3 :: _, pub) =>
      if bool_decide (f0 ≠ protocol) then Err (BeProtocol f0)
      else Ok (MkToken (hex_encode f1) f2 f3 pub)
  | _ => Err BeNotPushDrop
  end.

Definition validate_token (protocol invoice : bytes) (scriptBytes : bytes) : res brc_err Token :=
  token ← parse_token protocol scriptBytes;
  identityPubBytes ← res_of_option BeIdentityHex (hex_decode (tk_IdentityPub token));
  identityPub ← res_of_option BeIdentity (PublicKeyFromBytes identityPubBytes);
  expectedPub ← res_of_option BeDerive (DeriveChildPub identityPub invoice);
  _ ← guard_err (bool_decide (Compressed expectedPub ≠ Compressed (tk_LockingPub token))) BeLockingKey;
  Ok token.

Definition build_token (protocol invoice : bytes) (identityKey : PrivateKey) (domain topic : bytes)
    : res brc_err (bytes * PublicKey) :=
  lockingKey ← res_of_option BeDerive (DeriveChildKey identityKey AnyonePub invoice);
  let lockingPub := PubKey lockingKey in
  s ← res_of_option BeScript (buildPushDropScript lockingPub
        [protocol; Compressed (PubKey identityKey); domain; topic]);
  Ok (s, lockingPub).

Definition ParseSHIPScript := parse_token ProtocolSHIP.
Definition ParseSLAPScript := parse_token ProtocolSLAP.
Definition ValidateSHIPToken := validate_token ProtocolSHIP InvoiceSHIP.
Definition ValidateSLAPToken := validate_token ProtocolSLAP InvoiceSLAP.
Definition BuildSHIPScript := build_token ProtocolSHIP InvoiceSHIP.
Definition BuildSLAPScript := build_token ProtocolSLAP InvoiceSLAP.
End brc.

(** BRC-42: both parties derive the same child key; a push-drop script gives
    back the fields it was built from when they are not numbers in minimal
    encoding (two bytes or more). *)
Class SdkTokensLaws `{SdkTokens} : Prop := {
  derive_total k p i : is_Some (DeriveChildKey k p i);
  derive_commutes k c i k' :
    DeriveChildKey k (PubKey c) i = Some k' → DerivePubChild (PubKey k) c i = Some (PubKey k');
  script_total l : is_Some (NewScriptFromScriptOps l);
  pushdrop_roundtrip pub fields s : Forall (λ f, (2 ≤ length f)%nat) fields →
    NewScriptFromScriptOps (token_chunks pub fields) = Some s → pushdrop_Decode s = Some (fields, pub)
}.

Section tokens.
Context `{SdkTokensLaws} `{!ECLaws}.

Lemma build_token_validates protocol invoice key domain topic :
  (2 ≤ length protocol)%nat → (2 ≤ length domain)%nat → (2 ≤ length topic)%nat →
  ∃ s pub, build_token protocol invoice key domain topic = Ok (s, pub) ∧
  validate_token protocol invoice s = Ok (MkToken (hex_encode (Compressed (PubKey key))) domain topic pub).
Proof.
  intros Hp Hd Ht. unfold build_token, buildPushDropScript.
  destruct (derive_total key AnyonePub invoice) as [k' Hk]. rewrite Hk. cbn [res_of_option mbind res_mbind].
  set (fields := [protocol; Compressed (PubKey key); domain; topic]).
  destruct (script_total (token_chunks (PubKey k') fields)) as [s Hs]. rewrite Hs.
  cbn [res_of_option mbind res_mbind]. eexists _, _. split; [reflexivity|].
  unfold validate_token, parse_token. rewrite (pushdrop_roundtrip (PubKey k') fields s); [|..|done].
  2: { unfold fields. repeat constructor; try done. rewrite compressed_length. lia. }
  unfold fields. rewrite bool_decide_false by naive_solver. cbn [mbind res_mbind tk_IdentityPub].
  rewrite hex_decode_encode_Some. cbn [res_of_option mbind res_mbind].
  rewrite pub_from_compressed. cbn [res_of_option mbind res_mbind].
  unfold DeriveChildPub. rewrite (derive_commutes _ _ _ _ Hk). cbn [res_of_option mbind res_mbind tk_LockingPub].
  by rewrite bool_decide_false by naive_solver.
Qed.

(** A token built for an identity, domain and topic validates, as the
    registration of that identity at that domain for that topic. *)
Theorem BuildSHIPScript_validates key domain topic :
  (2 ≤ length domain)%nat → (2 ≤ length topic)%nat →
  ∃ s pub, BuildSHIPScript key domain topic = Ok (s, pub) ∧
  ValidateSHIPToken s = Ok (MkToken (hex_encode (Compressed (PubKey key))) domain topic pub).
Proof. apply build_token_validates. simpl. lia. Qed.

(** A valid token names an identity key whose derivation is the locking key. *)
Lemma validate_token_sound protocol invoice s tk : validate_token protocol invoice s = Ok tk →
  ∃ b pub child, tk_IdentityPub tk = hex_encode b ∧ PublicKeyFromBytes b = Some pub ∧
  DeriveChildPub pub invoice = Some child ∧ Compressed child = Compressed (tk_LockingPub tk).
Proof.
  unfold validate_token, parse_token. intros HH.
  destruct (pushdrop_Decode s) as [[[|f0 [|f1 [|f2 [|f3 l]]]] pub]|]; try discriminate HH.
  destruct (decide (f0 = protocol)) as [->|]; [|by rewrite bool_decide_true in HH].
  rewrite bool_decide_false in HH by naive_solver. cbn [mbind res_mbind tk_IdentityPub tk_LockingPub] in HH.
  rewrite hex_decode_encode_Some in HH. res_inv. subst.
  match goal with E : bool_decide _ = false |- _ => apply bool_decide_eq_false, dec_stable in E end.
  cbn [tk_IdentityPub tk_LockingPub]. simplify_eq/=. eexists _, _, _. by split_and!.
Qed.
End tokens.
