(* ===== verification/Directory.v ===== *)
(** * The overlay directory ([internal/overlay/directory.go], [discover.go],
    [bootstrap.go], [junglebus.go])

    SHIP and SLAP registrations in LevelDB as JSON, under
    [ship:<topic>:<identity prefix>] and [slap:<domain>:<identity prefix>]. A
    method is one atomic step under the directory's lock. A failing iteration
    ends early and its error is ignored, except by the lookups. *)

From Stdlib Require Import Init.Byte Strings.Byte Strings.String Lia ZArith.
From stdpp Require Import base gmap sets list strings numbers sorting fin_maps.
From S2P Require Import Prelude GoStd Sha256 LevelDB Ec Brc Tx.
Open Scope Z_scope.

Definition prefixSHIP : bytes := lit "ship:".
Definition prefixSLAP : bytes := lit "slap:".
Definition DefaultSHIPTTL : Z := 6 * hour.

(** [None] is the zero time. *)
Record PeerEntry := MkPeerEntry {
  pe_IdentityPub : bytes; pe_Domain : bytes; pe_NodeName : bytes; pe_Version : bytes;
  pe_Topic : bytes; pe_TxID : bytes; pe_OutputIndex : Z;
  pe_DiscoveredAt : option Z; pe_LastSeen : option Z
}.
Record ProviderEntry := MkProviderEntry {
  pv_IdentityPub : bytes; pv_Domain : bytes; pv_Provider : bytes; pv_TxID : bytes;
  pv_OutputIndex : Z; pv_DiscoveredAt : option Z
}.

Definition set_lastSeen (t : option Z) (e : PeerEntry) : PeerEntry :=
  MkPeerEntry (pe_IdentityPub e) (pe_Domain e) (pe_NodeName e) (pe_Version e) (pe_Topic e)
    (pe_TxID e) (pe_OutputIndex e) (pe_DiscoveredAt e) t.

Record Directory (DB : Type) := MkDirectory { d_db : DB; d_ttl : Z }.
Arguments MkDirectory {DB}.
Arguments d_db {DB}.
Arguments d_ttl {DB}.

Inductive dir_err :=
  | DeOpen (e : kv_err) | DeToken (e : brc_err) | DeMarshal | DeKV (e : kv_err).

Definition id_prefix (identityPub : bytes) : bytes := take 16 identityPub.
Definition topic_prefix (topic : bytes) : bytes := prefixSHIP ++ topic ++ lit ":".
Definition domain_prefix (domain : bytes) : bytes := prefixSLAP ++ domain ++ lit ":".
Definition shipKey (topic identityPub : bytes) : bytes := topic_prefix topic ++ id_prefix identityPub.
Definition slapKey (domain identityPub : bytes) : bytes := domain_prefix domain ++ id_prefix identityPub.

(** The time an entry was last seen, or discovered when that is not set; the
    zero time is before every cutoff. *)
Definition expired_at (cutoff : Z) (e : PeerEntry) : bool :=
  match (match pe_LastSeen e with Some t => Some t | None => pe_DiscoveredAt e end) with
  | Some seen => seen <? cutoff
  | None => true
  end.

Section directory.
Context {DB : Type} `{LevelDB DB} `{SdkTokens} `{JsonCodec PeerEntry} `{JsonCodec ProviderEntry}.
Abbreviation directory := (Directory DB).

Definition NewDirectory (open : kv_err + DB) : res dir_err directory :=
  match open with
  | inl e => Err (DeOpen e)
  | inr db => Ok (MkDirectory db DefaultSHIPTTL)
  end.

Definition set_ddb (db : DB) (d : directory) : directory := MkDirectory db (d_ttl d).

(** The entries of an iteration that decode, with their keys. *)
Definition visit_entries (l : list (bytes * bytes)) : list (bytes * PeerEntry) :=
  omap (λ kv, e ← json_unmarshal kv.2; Some (kv.1, e)) l.

(** The keys of the entries under a prefix that satisfy a test. *)
Definition matching (db : DB) (prefix : bytes) (P : PeerEntry → bool) : list bytes :=
  (filter (λ ke, P ke.2 = true) (visit_entries (db_iter db prefix).1)).*1.

Definition removeStaleDomainLocked (topic domain currentIdentity : bytes) (db : DB) : DB :=
  delete_keys db (matching db (topic_prefix topic)
    (λ e, bool_decide (pe_Domain e = domain) && bool_decide (pe_IdentityPub e ≠ currentIdentity))).

(** The common end of the two registrations. *)
Definition register (entry : PeerEntry) (d : directory) : directory * res dir_err unit :=
  match json_marshal entry with
  | None => (d, Err DeMarshal)
  | Some data =>
      let db := removeStaleDomainLocked (pe_Topic entry) (pe_Domain entry) (pe_IdentityPub entry) (d_db d) in
      match db_put db (shipKey (pe_Topic entry) (pe_IdentityPub entry)) data with
      | (db, None) => (set_ddb db d, Ok ())
      | (db, Some e) => (set_ddb db d, Err (DeKV e))
      end
  end.

Definition AddSHIPPeer (now : Z) (entry : PeerEntry) (script : bytes) (d : directory)
    : directory * res dir_err unit :=
  match ValidateSHIPToken script with
  | Err e => (d, Err (DeToken e))
  | Panic => (d, Panic)
  | Ok _ => register (set_lastSeen (Some now) entry) d
  end.

Definition AddSHIPPeerFromGossip (now : Z) (identity domain nodeName version topic : bytes)
    (d : directory) : directory * res dir_err unit :=
  register (MkPeerEntry identity domain nodeName version topic (lit "gossip") 0 (Some now) (Some now)) d.

Definition AddSLAPProvider (entry : ProviderEntry) (script : bytes) (d : directory)
    : directory * res dir_err unit :=
  match ValidateSLAPToken script with
  | Err e => (d, Err (DeToken e))
  | Panic => (d, Panic)
  | Ok _ =>
      match json_marshal entry with
      | None => (d, Err DeMarshal)
      | Some data =>
          match db_put (d_db d) (slapKey (pv_Domain entry) (pv_IdentityPub entry)) data with
          | (db, None) => (set_ddb db d, Ok ())
          | (db, Some e) => (set_ddb db d, Err (DeKV e))
          end
      end
  end.

(** The results, and the error of the iteration. *)
Definition LookupSHIPByTopic (topic : bytes) (d : directory) : list PeerEntry * option kv_err :=
  let '(l, e) := db_iter (d_db d) (topic_prefix topic) in ((visit_entries l).*2, e).

Definition LookupSLAPByDomain (domain : bytes) (d : directory) : list ProviderEntry * option kv_err :=
  let '(l, e) := db_iter (d_db d) (domain_prefix domain) in (omap (λ kv, json_unmarshal kv.2) l, e).

Definition RemoveSHIPPeer (topic identityPub : bytes) (d : directory) : directory * option kv_err :=
  let '(db, e) := db_delete (d_db d) (shipKey topic identityPub) in (set_ddb db d, e).

Definition CountSHIP (d : directory) : Z := Z.of_nat (length (db_iter (d_db d) prefixSHIP).1).

(** [fn] is called on each entry until it answers [false]. *)
Fixpoint call_each {A S} (fn : A → S → S * bool) (l : list A) (s : S) : S :=
  match l with
  | [] => s
  | a :: l' => let '(s, more) := fn a s in if (more : bool) then call_each fn l' s else s
  end.
Definition ForEachSHIP {S} (fn : PeerEntry → S → S * bool) (d : directory) (s : S) : S :=
  call_each fn (visit_entries (db_iter (d_db d) prefixSHIP).1).*2 s.

(** The deletions of a sweep, counted. *)
Definition sweep (P : PeerEntry → bool) (d : directory) : directory * Z :=
  let toDelete := matching (d_db d) prefixSHIP P in
  (set_ddb (delete_keys (d_db d) toDelete) d, Z.of_nat (length toDelete)).

Definition SweepExpired (now : Z) (d : directory) : directory * Z :=
  sweep (expired_at (now - d_ttl d)) d.

Definition CleanupOnBoot (now : Z) (localDomains : gmap bytes bytes) (d : directory) : directory * Z :=
  sweep (λ e, expired_at (now - d_ttl d) e ||
              match localDomains !! pe_Domain e with
              | Some currentID => bool_decide (pe_IdentityPub e ≠ currentID)
              | None => false
              end) d.

Definition RemoveSHIPPeerByIdentity (identity : bytes) (d : directory) : directory :=
  (sweep (λ e, bool_decide (pe_IdentityPub e = identity)) d).1.

(** ** Discovery ([discover.go]) *)

(** The log line slices the identity: shorter than 16 bytes it panics. *)
Definition log_identity (identity : bytes) : res dir_err unit :=
  if (length identity <? 16)%nat then Panic else Ok ().

Definition ProcessSHIPScript (now : Z) (script txid : bytes) (outputIndex : Z) (d : directory)
    : directory * res dir_err unit :=
  match ValidateSHIPToken script with
  | Err e => (d, Err (DeToken e))
  | Panic => (d, Panic)
  | Ok token =>
      let '(d, r) := AddSHIPPeer now (MkPeerEntry (tk_IdentityPub token) (tk_Domain token) [] []
                       (tk_Topic token) txid outputIndex (Some now) None) script d in
      (d, _ ← r; log_identity (tk_IdentityPub token))
  end.

Definition ProcessSLAPScript (now : Z) (script txid : bytes) (outputIndex : Z) (d : directory)
    : directory * res dir_err unit :=
  match ValidateSLAPToken script with
  | Err e => (d, Err (DeToken e))
  | Panic => (d, Panic)
  | Ok token =>
      let '(d, r) := AddSLAPProvider (MkProviderEntry (tk_IdentityPub token) (tk_Domain token)
                       (tk_Topic token) txid outputIndex (Some now)) script d in
      (d, _ ← r; log_identity (tk_IdentityPub token))
  end.

Definition DiscoverPeersForTopic := LookupSHIPByTopic.

(** ** Self-registration ([bootstrap.go]): a failing topic is skipped *)

Fixpoint Bootstrap (now : Z) (identityKey : PrivateKey) (domain nodeName version : bytes)
    (topics : list bytes) (d : directory) : directory * res dir_err unit :=
  match topics with
  | [] => (d, Ok ())
  | topic :: topics' =>
      let identityPubHex := hex_encode (Compressed (PubKey identityKey)) in
      let rest := Bootstrap now identityKey domain nodeName version topics' in
      match BuildSHIPScript identityKey domain topic with
      | Err _ => rest d
      | Panic => (d, Panic)
      | Ok (scriptBytes, _) =>
          let entry := MkPeerEntry identityPubHex domain nodeName version topic
                         (lit "self-registered") 0 (Some now) None in
          match AddSHIPPeer now entry scriptBytes d with
          | (d, Err _) => rest d
          | (d, Panic) => (d, Panic)
          | (d, Ok _) =>
              match log_identity identityPubHex with Ok _ => rest d | _ => (d, Panic) end
          end
      end
  end.

(** ** JungleBus ([junglebus.go]): the outputs of a transaction, scanned for
    tokens; an invalid one is logged and skipped *)
Context `{TxLib}.

Definition scan_output (now : Z) (txid : bytes) (i : Z) (out : TxOutput) (d : directory)
    : directory * res dir_err unit :=
  match out_LockingScript out with
  | None => (d, Ok ())
  | Some script =>
      match pushdrop_Decode script with
      | Some (protocol :: ident :: _ :: _ :: _, _) =>
          if bool_decide (protocol = ProtocolSHIP) then
            match ProcessSHIPScript now script txid i d with
            | (d, Ok _) => (d, log_identity (hex_encode ident))
            | (d, Err _) => (d, Ok ())
            | (d, Panic) => (d, Panic)
            end
          else if bool_decide (protocol = ProtocolSLAP) then
            match ProcessSLAPScript now script txid i d with
            | (d, Panic) => (d, Panic)
            | (d, _) => (d, Ok ())
            end
          else (d, Ok ())
      | _ => (d, Ok ())
      end
  end.

Fixpoint scan_outputs (now : Z) (txid : bytes) (i : Z) (outs : list TxOutput) (d : directory)
    : directory * res dir_err unit :=
  match outs with
  | [] => (d, Ok ())
  | out :: outs' =>
      match scan_output now txid i out d with
      | (d, Ok _) => scan_outputs now txid (i + 1) outs' d
      | (d, r) => (d, r)
      end
  end.

Definition onTransaction (now : Z) (rawTx : bytes) (d : directory) : directory * res dir_err unit :=
  if bool_decide (rawTx = []) then (d, Ok ())
  else match NewTransactionFromBytes rawTx with
       | None => (d, Ok ())
       | Some tx => scan_outputs now (TxID tx) 0 (tx_Outputs tx) d
       end.
End directory.
