(* ===== verification/DirectoryProps.v ===== *)
(** * Properties of the overlay directory *)

From Stdlib Require Import Init.Byte Strings.Byte Strings.String Lia ZArith.
From stdpp Require Import base gmap sets list strings numbers sorting fin_maps.
From S2P Require Import Prelude GoStd Sha256 LevelDB Ec Brc Tx Directory.
Open Scope Z_scope.

Section directory_props.
Context {DB : Type} `{LevelDBLaws DB} `{!LevelDBReliable DB} `{SdkTokens}.
Context `{JsonCodec PeerEntry} `{!JsonCodecLaws PeerEntry} `{JsonCodec ProviderEntry}.
Implicit Types (d : Directory DB) (db : DB) (e : PeerEntry).

(** The registration [e] is stored under [k]. *)
Definition stored db (k : bytes) e : Prop := ∃ v,
  prefixSHIP `prefix_of` k ∧ db_view db !! k = Some v ∧ json_unmarshal v = Some e.

(** Registrations are under their own keys, and no topic has two identities at
    one domain. *)
Record dir_inv db : Prop := {
  di_key k e : stored db k e → k = shipKey (pe_Topic e) (pe_IdentityPub e);
  di_one k1 k2 e1 e2 : stored db k1 e1 → stored db k2 e2 →
    pe_Topic e1 = pe_Topic e2 → pe_Domain e1 = pe_Domain e2 → pe_IdentityPub e1 = pe_IdentityPub e2
}.

Lemma deletes_ok : deletes_succeed DB.
Proof. intros d k. apply db_delete_total. Qed.

Lemma elem_of_visit_entries l k e :
  (k, e) ∈ visit_entries l ↔ ∃ v, (k, v) ∈ l ∧ json_unmarshal v = Some e.
Proof.
  unfold visit_entries. rewrite list_elem_of_omap. split.
  - intros ([k' v] & Hin & He). cbn [fst snd] in He.
    destruct (json_unmarshal v) as [e'|] eqn:E; [|discriminate He]. injection He as -> ->. eauto.
  - intros (v & Hin & He). exists (k, v). simpl. by rewrite He.
Qed.

Lemma elem_of_iter db p k v : (k, v) ∈ (db_iter db p).1 ↔ p `prefix_of` k ∧ db_view db !! k = Some v.
Proof.
  pose proof (db_iter_total db p) as Ht. destruct (db_iter db p) as [l o] eqn:E. simpl in *. subst o.
  by eapply db_iter_elem.
Qed.

Lemma elem_of_matching db p P k :
  k ∈ matching db p P ↔ ∃ v e, p `prefix_of` k ∧ db_view db !! k = Some v ∧
                                json_unmarshal v = Some e ∧ P e = true.
Proof.
  unfold matching. rewrite list_elem_of_fmap. split.
  - intros ([k' e] & -> & [HP Hin]%list_elem_of_filter).
    apply elem_of_visit_entries in Hin as (v & [Hp Hv]%elem_of_iter & He). exists v, e. by simpl in *.
  - intros (v & e & Hp & Hv & He & HP). exists (k, e). split; [done|].
    apply list_elem_of_filter. split; [done|]. apply elem_of_visit_entries. exists v.
    split; [|done]. by apply elem_of_iter.
Qed.

(** Deleting what matches leaves what does not. *)
Lemma matching_gone db p P k :
  db_view (delete_keys db (matching db p P)) !! k =
  if decide (k ∈ matching db p P) then None else db_view db !! k.
Proof. apply delete_keys_view, deletes_ok. Qed.

Lemma stored_after_delete db p P k e : prefixSHIP `prefix_of` p →
  stored (delete_keys db (matching db p P)) k e ↔
  stored db k e ∧ ¬ (p `prefix_of` k ∧ P e = true).
Proof.
  intros Hp. unfold stored. split.
  - intros (v & Hk & Hv & He). rewrite matching_gone in Hv. case_decide as Hm; [done|].
    split; [by exists v|]. intros [Hpk HPe]. apply Hm, elem_of_matching. by exists v, e.
  - intros [(v & Hk & Hv & He) HP]. exists v. rewrite matching_gone.
    rewrite decide_False; [done|]. intros (v' & e' & ? & ? & ? & ?)%elem_of_matching.
    simplify_eq. by apply HP.
Qed.

Lemma dir_inv_subset db db' : (∀ k e, stored db' k e → stored db k e) → dir_inv db → dir_inv db'.
Proof. intros Hs [I1 I2]. split; eauto. Qed.

Lemma prefixSHIP_topic t : prefixSHIP `prefix_of` topic_prefix t.
Proof. by eexists. Qed.
Lemma prefixSHIP_key t i : prefixSHIP `prefix_of` shipKey t i.
Proof. unfold shipKey. apply prefix_app_r, prefixSHIP_topic. Qed.
Lemma topic_prefix_key t i : topic_prefix t `prefix_of` shipKey t i.
Proof. by eexists. Qed.

Lemma sweep_stored P d d' n k e : sweep P d = (d', n) →
  stored (d_db d') k e ↔ stored (d_db d) k e ∧ P e = false.
Proof.
  intros [= <- _]. simpl. rewrite stored_after_delete by done.
  rewrite not_and_l, not_true_iff_false. split; [intros [Hs [?|?]]; [|done]|tauto].
  destruct Hs as (? & ? & _). done.
Qed.

(** What a registration stores: itself, and what it does not replace. *)
Lemma register_stored e d d' : json_norm e = e → register e d = (d', Ok ()) → ∀ k e',
  stored (d_db d') k e' ↔
    (k = shipKey (pe_Topic e) (pe_IdentityPub e) ∧ e' = e) ∨
    (k ≠ shipKey (pe_Topic e) (pe_IdentityPub e) ∧ stored (d_db d) k e' ∧
     ¬ (topic_prefix (pe_Topic e) `prefix_of` k ∧ pe_Domain e' = pe_Domain e ∧
        pe_IdentityPub e' ≠ pe_IdentityPub e)).
Proof.
  intros HN. unfold register. destruct (json_marshal e) as [data|] eqn:Em; [|done].
  destruct (db_put _ _ _) as [db1 [o|]] eqn:Ep; [done|]. intros [= <-] k e'. simpl.
  apply db_put_ok in Ep. set (key := shipKey _ _) in *. unfold stored at 1. rewrite Ep.
  apply json_roundtrip in Em. rewrite HN in Em. destruct (decide (k = key)) as [->|Hk].
  - setoid_rewrite lookup_insert_eq. split.
    + intros (v & _ & [= <-] & He). left. split; [done|congruence].
    + intros [[_ ->]|[? _]]; [|done]. exists data. split_and!; [apply prefixSHIP_key|done..].
  - setoid_rewrite lookup_insert_ne; [|done..].
    fold (stored (removeStaleDomainLocked (pe_Topic e) (pe_Domain e) (pe_IdentityPub e) (d_db d)) k e').
    unfold removeStaleDomainLocked. rewrite stored_after_delete by apply prefixSHIP_topic.
    rewrite andb_true_iff, !bool_decide_eq_true. intuition.
Qed.

Lemma register_inv e d d' : json_norm e = e → register e d = (d', Ok ()) →
  dir_inv (d_db d) → dir_inv (d_db d').
Proof.
  intros HN HR [I1 I2]. pose proof (register_stored _ _ _ HN HR) as HS. split.
  - intros k e'. rewrite HS. intros [[-> ->]|(_ & Hs & _)]; [done|by apply I1].
  - assert (∀ k e', stored (d_db d) k e' →
      ¬ (topic_prefix (pe_Topic e) `prefix_of` k ∧ pe_Domain e' = pe_Domain e ∧
         pe_IdentityPub e' ≠ pe_IdentityPub e) →
      pe_Topic e' = pe_Topic e → pe_Domain e' = pe_Domain e → pe_IdentityPub e' = pe_IdentityPub e) as Hnew.
    { intros k e' Hs Hn Ht Hd. destruct (decide (pe_IdentityPub e' = pe_IdentityPub e)); [done|].
      destruct Hn. split_and!; [|done..]. rewrite (I1 _ _ Hs), Ht. apply topic_prefix_key. }
    intros k1 k2 e1 e2. rewrite !HS.
    intros [[-> ->]|(_ & Hs1 & Hn1)] [[-> ->]|(_ & Hs2 & Hn2)] Ht Hd; [done|..].
    + symmetry. by eapply Hnew.
    + by eapply Hnew.
    + by eapply (I2 k1 k2).
Qed.

Lemma register_fails e d d' r : register e d = (d', r) → r = Ok () ∨ d' = d.
Proof.
  unfold register. destruct (json_marshal e); [|intros [= <- <-]; by right].
  destruct (db_put _ _ _) as [db1 o] eqn:Ep.
  match type of Ep with db_put ?a ?b ?c = _ => pose proof (db_put_total a b c) as Ht' end.
  rewrite Ep in Ht'. simpl in Ht'. subst o. intros [= _ <-]. by left.
Qed.

(** The operations of the directory. *)
Inductive dir_step : relation (Directory DB) :=
  | step_add now e script d d' r :
      json_norm (set_lastSeen (Some now) e) = set_lastSeen (Some now) e →
      AddSHIPPeer now e script d = (d', r) → dir_step d d'
  | step_gossip now i dom n v t d d' r :
      let e := MkPeerEntry i dom n v t (lit "gossip") 0 (Some now) (Some now) in
      json_norm e = e → AddSHIPPeerFromGossip now i dom n v t d = (d', r) → dir_step d d'
  | step_slap p script d d' r : AddSLAPProvider p script d = (d', r) → dir_step d d'
  | step_remove t i d d' r : RemoveSHIPPeer t i d = (d', r) → dir_step d d'
  | step_sweep now d d' n : SweepExpired now d = (d', n) → dir_step d d'
  | step_cleanup now local d d' n : CleanupOnBoot now local d = (d', n) → dir_step d d'
  | step_identity i d : dir_step d (RemoveSHIPPeerByIdentity i d).

Lemma sweep_inv P d : dir_inv (d_db d) → dir_inv (d_db (sweep P d).1).
Proof.
  intros I. destruct (sweep P d) as [d' n] eqn:E. eapply dir_inv_subset; [|exact I].
  intros k e. rewrite (sweep_stored _ _ _ _ _ _ E). tauto.
Qed.

Lemma register_any_inv e d d' r : json_norm e = e → register e d = (d', r) →
  dir_inv (d_db d) → dir_inv (d_db d').
Proof.
  intros HN HR. destruct (register_fails _ _ _ _ HR) as [->| ->]; [by eapply register_inv|done].
Qed.

Lemma slapKey_ship domain i : ¬ prefixSHIP `prefix_of` slapKey domain i.
Proof. intros [k E]. discriminate E. Qed.

Lemma slap_inv p script d d' r : AddSLAPProvider p script d = (d', r) →
  dir_inv (d_db d) → dir_inv (d_db d').
Proof.
  unfold AddSLAPProvider. intros HA I. case_match; [|congruence..]. case_match; [|congruence].
  destruct (db_put _ _ _) as [db1 o] eqn:Ep.
  assert (o = None) as -> by (rewrite <- (db_put_total (d_db d) (slapKey (pv_Domain p) (pv_IdentityPub p)) l), Ep; done).
  injection HA as <- _. apply db_put_ok in Ep. eapply dir_inv_subset; [|exact I].
  intros k e' (v & Hk & Hv & He). exists v. simpl in Hv. rewrite Ep in Hv.
  rewrite lookup_insert_ne in Hv by (intros <-; by eapply slapKey_ship). done.
Qed.

(** C20: at every moment each registration is stored under its own key, and a
    topic has one identity per domain: registering a re-keyed node replaces its
    old entry, whatever operations come in between. *)
Theorem one_identity_per_domain d d' :
  dir_inv (d_db d) → rtc dir_step d d' → dir_inv (d_db d').
Proof.
  intros I HR. induction HR as [|d d1 d2 Hstep _ IH]; [done|]. apply IH. clear IH.
  destruct Hstep as [now e script d d' r HN HA|now i dom n v t d d' r e HN HA|e script d d' r HA
    |t i d d' r HA|now d d' n HA|now local d d' n HA|i d].
  - unfold AddSHIPPeer in HA. case_match; [by eapply register_any_inv|congruence..].
  - by eapply register_any_inv.
  - by eapply slap_inv.
  - unfold RemoveSHIPPeer in HA. destruct (db_delete _ _) as [db1 o] eqn:Ed. injection HA as <- _.
    pose proof (db_delete_total (d_db d) (shipKey t i)) as Ht. rewrite Ed in Ht. simpl in Ht. subst o.
    apply db_delete_ok in Ed. eapply dir_inv_subset; [|exact I].
    intros k e (v & Hk & Hv & He). exists v. simpl in Hv. rewrite Ed in Hv.
    by apply lookup_delete_Some in Hv as [_ Hv].
  - unfold SweepExpired in HA. pose proof (sweep_inv (expired_at (now - d_ttl d)) d I) as Hs. by rewrite HA in Hs.
  - unfold CleanupOnBoot in HA. match type of HA with sweep ?P d = _ => pose proof (sweep_inv P d I) as Hs end.
    by rewrite HA in Hs.
  - by apply sweep_inv.
Qed.

(** The sweep removes exactly the registrations last seen before the
    cutoff, and tells how many keys it removed; every other key of the database
    is left alone. *)
Theorem SweepExpired_spec now d d' n : SweepExpired now d = (d', n) →
  (∀ k e, stored (d_db d') k e ↔ stored (d_db d) k e ∧ expired_at (now - d_ttl d) e = false) ∧
  (∀ k, (∀ e, stored (d_db d) k e → expired_at (now - d_ttl d) e = false) →
        db_view (d_db d') !! k = db_view (d_db d) !! k) ∧
  (n = 0 ↔ ∀ k e, stored (d_db d) k e → expired_at (now - d_ttl d) e = false).
Proof.
  intros HS. split_and!.
  - intros k e. by apply (sweep_stored _ _ _ _ _ _ HS).
  - injection HS as <- _. intros k Hk. simpl. rewrite matching_gone, decide_False; [done|].
    intros (v & e & Hp & Hv & He & HP)%elem_of_matching.
    specialize (Hk e). rewrite Hk in HP; [done|]. by exists v.
  - injection HS as _ <-. set (l := matching _ _ _). split.
    + intros Hl k e (v & Hp & Hv & He). destruct (expired_at _ _) eqn:Ee; [|done].
      assert (k ∈ l) as Hin by (apply elem_of_matching; by exists v, e).
      destruct l; [by apply not_elem_of_nil in Hin|discriminate Hl].
    + intros Hall. destruct l as [|k l'] eqn:El; [done|]. exfalso.
      assert (k ∈ matching (d_db d) prefixSHIP (expired_at (now - d_ttl d))) as Hin
        by (fold l; rewrite El; left).
      apply elem_of_matching in Hin as (v & e & Hp & Hv & He & HP).
      rewrite (Hall k e) in HP; [done|]. by exists v.
Qed.

(** Stale entries are looked for under the prefix of the topic, which the
    keys of longer topics share: registering for a topic deletes another node's
    registration, at the same domain, for a topic [topic:rest]. *)
Theorem register_evicts_subtopic e d d' k other rest :
  json_norm e = e → register e d = (d', Ok ()) →
  dir_inv (d_db d) → stored (d_db d) k other →
  pe_Topic other = pe_Topic e ++ lit ":" ++ rest → pe_Domain other = pe_Domain e →
  pe_IdentityPub other ≠ pe_IdentityPub e →
  ¬ stored (d_db d') k other ∧ pe_Topic other ≠ pe_Topic e.
Proof.
  intros HN HR [I1 _] Hs Ht Hd Hi. split.
  - intros Hs'. apply (register_stored _ _ _ HN HR) in Hs' as [[_ ->]|(_ & _ & Hn)]; [done|].
    apply Hn. split_and!; [|done..]. rewrite (I1 _ _ Hs), Ht. unfold shipKey, topic_prefix.
    exists (rest ++ lit ":" ++ id_prefix (pe_IdentityPub other)). by rewrite <- !app_assoc.
  - rewrite Ht. intros E%(f_equal length). rewrite !length_app in E. simpl in E. lia.
Qed.
End directory_props.
