(* ===== verification/Engine.v ===== *)
(** * The overlay engine ([internal/overlay/engine.go])

    Transactions submitted to topic managers, the outputs they admit tracked in
    LevelDB under [ovl:<topic>:<txid>:<vout>], queries answered by lookup
    services. A topic manager and a lookup service are the functions of their
    interfaces. *)

From Stdlib Require Import Init.Byte Strings.Byte Strings.String Lia ZArith.
From stdpp Require Import base gmap sets list strings numbers sorting fin_maps.
From S2P Require Import Prelude GoStd LevelDB Tx.
Open Scope Z_scope.

Record AdmittedOutput := MkAdmitted {
  ao_Txid : bytes; ao_Vout : Z; ao_Topic : bytes; ao_OutputScript : bytes;
  ao_Satoshis : Z; ao_Metadata : bytes; ao_Spent : bool
}.

Record AdmittanceInstructions := MkInstructions {
  ai_OutputsToAdmit : list Z;
  ai_CoinsToRetain : list Z;
  ai_CoinsRemoved : list Z;
  ai_OutputMetadata : gmap Z bytes
}.

(** [Admit]: an error, no instructions, or instructions. *)
Record TopicManager := MkTopicManager {
  tm_Admit : bytes → list AdmittedOutput → res unit (option AdmittanceInstructions);
  tm_Documentation : bytes
}.

Inductive LookupResult :=
  | OutputList (l : list AdmittedOutput)
  | Freeform (counts : gmap bytes Z).

Inductive engine_err :=
  | EeTransaction | EeUnknownService (s : bytes) | EeQuery | EeKV (e : kv_err) | EeMarshal.

(** A lookup service reads the engine's database. *)
Record LookupService (DB : Type) := MkLookupService {
  ls_Lookup : DB → bytes → res engine_err LookupResult
}.
Arguments MkLookupService {DB}.
Arguments ls_Lookup {DB}.

Record Engine (DB : Type) := MkEngine {
  en_db : DB;
  en_topics : gmap bytes TopicManager;
  en_lookups : gmap bytes (LookupService DB);
  en_lookupTopics : gmap bytes (list bytes)
}.
Arguments MkEngine {DB}.
Arguments en_db {DB}.
Arguments en_topics {DB}.
Arguments en_lookups {DB}.
Arguments en_lookupTopics {DB}.

Definition topicKey (topic : bytes) : bytes := lit "ovl:" ++ topic ++ lit ":".
Definition outputKey (topic txid : bytes) (vout : Z) : bytes :=
  topicKey topic ++ txid ++ lit ":" ++ itoa vout.

Section engine.
Context {DB : Type} `{LevelDB DB} `{TxLib} `{JsonCodec AdmittedOutput}.
Abbreviation engine := (Engine DB).

Definition NewEngine (db : DB) : engine := MkEngine db ∅ ∅ ∅.
Definition RegisterTopic (name : bytes) (tm : TopicManager) (e : engine) : engine :=
  MkEngine (en_db e) (<[name := tm]> (en_topics e)) (en_lookups e) (en_lookupTopics e).
Definition RegisterLookup (name : bytes) (ls : LookupService DB) (topics : list bytes) (e : engine) : engine :=
  MkEngine (en_db e) (en_topics e) (<[name := ls]> (en_lookups e)) (<[name := topics]> (en_lookupTopics e)).

(** Atomic BEEF is recognized by its first bytes; what does not parse as such
    is tried as a raw transaction. *)
Definition tryParseBEEFOrRaw (data : bytes) : option Transaction :=
  if (4 <? length data)%nat && bool_decide (take 4 data = [x01; x00; xbe; xef]) then
    match NewTransactionFromBEEF data with
    | Some tx => Some tx
    | None => NewTransactionFromBytes data
    end
  else NewTransactionFromBytes data.

Definition storeOutput (db : DB) (out : AdmittedOutput) : DB * res engine_err unit :=
  match json_marshal out with
  | None => (db, Err EeMarshal)
  | Some data =>
      match db_put db (outputKey (ao_Topic out) (ao_Txid out) (ao_Vout out)) data with
      | (db, None) => (db, Ok ())
      | (db, Some e) => (db, Err (EeKV e))
      end
  end.

Definition removeOutput (db : DB) (txid : bytes) (vout : Z) (topic : bytes) : DB :=
  (db_delete db (outputKey topic txid vout)).1.

Definition spent_by (db : DB) (topic : bytes) (input : TxInput) : option AdmittedOutput :=
  prevTxid ← in_SourceTXID input;
  match db_get db (outputKey topic prevTxid (in_SourceTxOutIndex input)) with
  | inr data => json_unmarshal data
  | inl _ => None
  end.

(** Input index and the admitted output it spends, in the order of the inputs. *)
Fixpoint findSpentUTXOs (db : DB) (topic : bytes) (i : Z) (inputs : list TxInput)
    : list (Z * AdmittedOutput) :=
  match inputs with
  | [] => []
  | input :: inputs' =>
      let rest := findSpentUTXOs db topic (i + 1) inputs' in
      match spent_by db topic input with
      | Some out => (i, out) :: rest
      | None => rest
      end
  end.

(** One admitted output, with its script, value and metadata. *)
Definition admitted_output (tx : Transaction) (topic : bytes) (ins : AdmittanceInstructions) (outIdx : Z)
    : res engine_err AdmittedOutput :=
  let meta := default [] (ai_OutputMetadata ins !! outIdx) in
  if outIdx <? Z.of_nat (length (tx_Outputs tx)) then
    if outIdx <? 0 then Panic
    else match tx_Outputs tx !! Z.to_nat outIdx with
         | None => Panic
         | Some out => Ok (MkAdmitted (TxID tx) outIdx topic (default [] (out_LockingScript out))
                             (out_Satoshis out) meta false)
         end
  else Ok (MkAdmitted (TxID tx) outIdx topic [] 0 meta false).

(** [s[:16]] in the log lines. *)
Definition log_txid (txid : bytes) : res engine_err unit :=
  if (length txid <? 16)%nat then Panic else Ok ().

Fixpoint admit_outputs (db : DB) (tx : Transaction) (topic : bytes) (ins : AdmittanceInstructions)
    (idxs : list Z) : DB * res engine_err unit :=
  match idxs with
  | [] => (db, Ok ())
  | outIdx :: idxs' =>
      match admitted_output tx topic ins outIdx with
      | Ok output =>
          match storeOutput db output with
          | (db, Ok _) => admit_outputs db tx topic ins idxs'
          | (db, _) => match log_txid (TxID tx) with
                       | Ok _ => admit_outputs db tx topic ins idxs'
                       | _ => (db, Panic)
                       end
          end
      | _ => (db, Panic)
      end
  end.

(** A previous output by its index; a negative index panics. *)
Definition prev_at (previousUTXOs : list AdmittedOutput) (prevIdx : Z) : res engine_err (option AdmittedOutput) :=
  if Z.of_nat (length previousUTXOs) <=? prevIdx then Ok None
  else if prevIdx <? 0 then Panic
  else Ok (previousUTXOs !! Z.to_nat prevIdx).

(** The real input index of a previous output: the first that matches in the
    order Go happens to visit the map, [visit]. *)
Definition remapToInputIdx (visit : list (Z * AdmittedOutput)) (previousUTXOs : list AdmittedOutput)
    (prevIdx : Z) : res engine_err Z :=
  prev ← prev_at previousUTXOs prevIdx;
  Ok (match prev with
      | None => -1
      | Some prev =>
          match list_find (λ io, ao_Txid io.2 = ao_Txid prev ∧ ao_Vout io.2 = ao_Vout prev) visit with
          | Some (_, (inIdx, _)) => inIdx
          | None => -1
          end
      end).

Fixpoint remap_all (visit : list (Z * AdmittedOutput)) (previousUTXOs : list AdmittedOutput)
    (idxs : list Z) : res engine_err (list Z) :=
  match idxs with
  | [] => Ok []
  | i :: idxs' =>
      real ← remapToInputIdx visit previousUTXOs i;
      rest ← remap_all visit previousUTXOs idxs';
      Ok (if 0 <=? real then real :: rest else rest)
  end.

Fixpoint remove_coins (db : DB) (topic : bytes) (previousUTXOs : list AdmittedOutput) (idxs : list Z)
    : DB * res engine_err unit :=
  match idxs with
  | [] => (db, Ok ())
  | i :: idxs' =>
      match prev_at previousUTXOs i with
      | Ok (Some prev) =>
          let db := removeOutput db (ao_Txid prev) (ao_Vout prev) topic in
          match log_txid (ao_Txid prev) with
          | Ok _ => remove_coins db topic previousUTXOs idxs'
          | _ => (db, Panic)
          end
      | Ok None => remove_coins db topic previousUTXOs idxs'
      | _ => (db, Panic)
      end
  end.

(** One topic of a submission: nothing happens for an unknown topic, an error
    of the manager, or no instructions. *)
Definition submit_topic (visit : list (Z * AdmittedOutput) → list (Z * AdmittedOutput))
    (topics : gmap bytes TopicManager) (tx : Transaction) (topic : bytes) (db : DB)
    : DB * res engine_err (option AdmittanceInstructions) :=
  match topics !! topic with
  | None => (db, Ok None)
  | Some tm =>
      let spentByInput := findSpentUTXOs db topic 0 (tx_Inputs tx) in
      let previousUTXOs := spentByInput.*2 in
      match tm_Admit tm (TxBytes tx) previousUTXOs with
      | Panic => (db, Panic)
      | Err _ | Ok None => (db, Ok None)
      | Ok (Some ins) =>
          match admit_outputs db tx topic ins (ai_OutputsToAdmit ins) with
          | (db, Ok _) =>
              match remove_coins db topic previousUTXOs (ai_CoinsRemoved ins) with
              | (db, Ok _) =>
                  (db, removed ← remap_all (visit spentByInput) previousUTXOs (ai_CoinsRemoved ins);
                       retained ← remap_all (visit spentByInput) previousUTXOs (ai_CoinsToRetain ins);
                       Ok (Some (MkInstructions (ai_OutputsToAdmit ins) retained removed
                                   (ai_OutputMetadata ins))))
              | (db, _) => (db, Panic)
              end
          | (db, _) => (db, Panic)
          end
      end
  end.

Fixpoint submit_topics (visit : list (Z * AdmittedOutput) → list (Z * AdmittedOutput))
    (mgrs : gmap bytes TopicManager) (tx : Transaction) (topics : list bytes) (db : DB)
    (steak : gmap bytes AdmittanceInstructions) : DB * res engine_err (gmap bytes AdmittanceInstructions) :=
  match topics with
  | [] => (db, Ok steak)
  | topic :: topics' =>
      match submit_topic visit mgrs tx topic db with
      | (db, Ok (Some ins)) => submit_topics visit mgrs tx topics' db (<[topic := ins]> steak)
      | (db, Ok None) => submit_topics visit mgrs tx topics' db steak
      | (db, _) => (db, Panic)
      end
  end.

Definition set_edb (db : DB) (e : engine) : engine :=
  MkEngine db (en_topics e) (en_lookups e) (en_lookupTopics e).

Definition Submit (visit : list (Z * AdmittedOutput) → list (Z * AdmittedOutput)) (txData : bytes)
    (topics : list bytes) (e : engine) : engine * res engine_err (gmap bytes AdmittanceInstructions) :=
  match tryParseBEEFOrRaw txData with
  | None => (e, Err EeTransaction)
  | Some tx => let '(db, r) := submit_topics visit (en_topics e) tx topics (en_db e) ∅ in (set_edb db e, r)
  end.

Definition Lookup (service query : bytes) (e : engine) : res engine_err LookupResult :=
  match en_lookups e !! service with
  | None => Err (EeUnknownService service)
  | Some ls => ls_Lookup ls (en_db e) query
  end.

Definition GetOutputsByTopic (db : DB) (topic : bytes) : list AdmittedOutput * option kv_err :=
  let '(l, e) := db_iter db (topicKey topic) in
  (filter (λ o, ao_Spent o = false) (omap (λ kv, json_unmarshal kv.2) l), e).

(** The keys of the outputs the checker says are spent; those it cannot tell
    are kept. [checker] is [IsUnspent], [None] an error. *)
Definition spent_keys (checker : bytes → Z → option bool) (l : list (bytes * bytes)) : list bytes :=
  omap (λ kv, out ← json_unmarshal (A:=AdmittedOutput) kv.2;
              unspent ← checker (ao_Txid out) (ao_Vout out);
              if (unspent : bool) then None else Some kv.1) l.

(** Removed, checked, and the error of the iteration. *)
Definition Reconcile (checker : bytes → Z → option bool) (e : engine)
    : engine * Z * Z * option kv_err :=
  let '(l, err) := db_iter (en_db e) (lit "ovl:") in
  let toDelete := spent_keys checker l in
  (set_edb (delete_keys (en_db e) toDelete) e, Z.of_nat (length toDelete), Z.of_nat (length l), err).
End engine.
