(* ===== verification/Uhrp.v ===== *)
(** * UHRP content advertisements ([internal/overlay/topics])

    The topic manager that admits outputs [OP_FALSE OP_RETURN "UHRP" <hash>
    [<url>] [<content type>]], and the lookup service over them. *)

From Stdlib Require Import Init.Byte Strings.Byte Strings.String Lia ZArith.
From stdpp Require Import base gmap sets list strings numbers sorting fin_maps.
From S2P Require Import Prelude GoStd Sha256 LevelDB GoText Tx Engine.
Open Scope Z_scope.

Definition UHRPTopicName : bytes := lit "tm_uhrp".
Definition UHRPProtocolID : bytes := lit "UHRP".

Record UHRPEntry := MkUHRPEntry { ue_ContentHash : bytes; ue_URL : bytes; ue_ContentType : bytes }.

(** The pushes of a script, up to the first opcode that is not one or does not
    fit. Every turn consumes a byte: a fuel of the script's length plus one is
    enough; [None] is fuel run out. *)
Fixpoint push_fields (fuel : nat) (s : bytes) : option (list bytes) :=
  match fuel with
  | O => None
  | S fuel =>
      let direct (size : nat) (s : bytes) :=
        if (length s <? size)%nat then Some []
        else l ← push_fields fuel (drop size s); Some (take size s :: l) in
      match s with
      | [] => Some []
      | op :: s' =>
          let z := byte_z op in
          if z =? 0 then l ← push_fields fuel s'; Some ([] :: l)
          else if z <=? 75 then direct (Z.to_nat z) s'
          else if z =? 76 then
            match s' with
            | [] => Some []
            | n :: s' => direct (Z.to_nat (byte_z n)) s'
            end
          else if z =? 77 then
            match s' with
            | lo :: hi :: s' => direct (Z.to_nat (Z.lor (byte_z lo) (Z.shiftl (byte_z hi) 8))) s'
            | _ => Some []
            end
          else Some []
      end
  end.

Definition parsePushDataFields (script : bytes) : list bytes :=
  default [] (push_fields (S (length script)) script).

Definition parseUHRPOutput (script : bytes) : option UHRPEntry :=
  if (length script <? 6)%nat then None
  else match script with
       | x00 :: x6a :: rest =>
           match parsePushDataFields rest with
           | protocol :: hashField :: more =>
               if bool_decide (protocol ≠ UHRPProtocolID) then None
               else
                 contentHash ← (if (length hashField =? 32)%nat then Some (hex_encode hashField)
                                else if (length hashField =? 64)%nat then Some hashField else None);
                 Some (MkUHRPEntry contentHash (default [] (more !! 0%nat)) (default [] (more !! 1%nat)))
           | _ => None
           end
       | _ => None
       end.

Definition HashContent (data : bytes) : bytes := hex_encode (sum256 data).

(** [byte(len(x))] keeps the low byte of a length. *)
Definition byte_len (b : bytes) : byte := z_byte (zlen b).

Definition BuildUHRPScript (contentHash url contentType : bytes) : option bytes :=
  hashBytes ← hex_decode contentHash;
  if bool_decide (length hashBytes ≠ 32%nat) then None
  else
    let script := [x00; x6a] ++ [byte_len UHRPProtocolID] ++ UHRPProtocolID ++
                  [byte_len hashBytes] ++ hashBytes in
    let script := script ++
      (if bool_decide (url = []) then []
       else if zlen url <=? 75 then byte_len url :: url else [x4c; byte_len url] ++ url) in
    Some (script ++ if bool_decide (contentType = []) then [] else byte_len contentType :: contentType).

Section uhrp.
Context `{TxLib} `{JsonCodec UHRPEntry} `{JsonCodec AdmittedOutput}.

(** The indices of the advertisements among the outputs, with their metadata. *)
Fixpoint uhrp_outputs (i : Z) (outs : list TxOutput) : list (Z * UHRPEntry) :=
  match outs with
  | [] => []
  | out :: outs' =>
      match out_LockingScript out ≫= parseUHRPOutput with
      | Some entry => (i, entry) :: uhrp_outputs (i + 1) outs'
      | None => uhrp_outputs (i + 1) outs'
      end
  end.

Definition uhrp_metadata (l : list (Z * UHRPEntry)) : gmap Z bytes :=
  list_to_map (omap (λ ie, m ← json_marshal ie.2; Some (ie.1, m)) l).

Definition Admit (txData : bytes) (previousUTXOs : list AdmittedOutput)
    : res unit (option AdmittanceInstructions) :=
  match NewTransactionFromBytes txData with
  | None => Err ()
  | Some tx =>
      let found := uhrp_outputs 0 (tx_Outputs tx) in
      let coinsRemoved := Z.of_nat <$> seq 0 (length previousUTXOs) in
      if bool_decide (found = []) && bool_decide (coinsRemoved = []) then Ok None
      else Ok (Some (MkInstructions found.*1 [] coinsRemoved (uhrp_metadata found)))
  end.

Definition NewUHRPTopicManager : TopicManager := MkTopicManager Admit
  (lit "UHRP (BRC-26): Universal Hash Resolution Protocol. Tracks content availability advertisements — maps SHA-256 file hashes to hosting locations.").

(** ** Lookup ([uhrp_lookup.go]) *)

Record UHRPLookupQuery := MkUHRPQuery { uq_ContentHash : bytes; uq_List : bytes }.
Context `{JsonCodec UHRPLookupQuery}.
Context {DB : Type} `{LevelDB DB} (uni : bytes → bytes).

Definition entry_of (out : AdmittedOutput) : option UHRPEntry := json_unmarshal (ao_Metadata out).

Definition UHRPLookup (db : DB) (queryRaw : bytes) : res engine_err LookupResult :=
  match json_unmarshal (A:=UHRPLookupQuery) queryRaw with
  | None => Err EeQuery
  | Some q =>
      match GetOutputsByTopic db UHRPTopicName with
      | (_, Some e) => Err (EeKV e)
      | (outputs, None) =>
          if negb (bool_decide (uq_ContentHash q = [])) then
            let hash := to_lower uni (uq_ContentHash q) in
            Ok (OutputList (filter (λ out, to_lower uni ∘ ue_ContentHash <$> entry_of out = Some hash) outputs))
          else if bool_decide (uq_List q = lit "all") then Ok (OutputList outputs)
          else if bool_decide (uq_List q = lit "hashes") then
            Ok (Freeform (foldl (λ counts out,
              match entry_of out with
              | Some entry => <[ue_ContentHash entry := default 0 (counts !! ue_ContentHash entry) + 1]> counts
              | None => counts
              end) ∅ outputs))
          else Err EeQuery
      end
  end.

Definition NewUHRPLookupService : LookupService DB := MkLookupService UHRPLookup.
End uhrp.
