(* ===== verification/EngineProps.v ===== *)
(** * Properties of the overlay engine and of UHRP *)

From Stdlib Require Import Init.Byte Strings.Byte Strings.String Lia ZArith.
From stdpp Require Import base gmap sets list strings numbers sorting fin_maps.
From S2P Require Import Prelude GoStd Sha256 LevelDB GoText Tx Engine Uhrp.
Open Scope Z_scope.

(** ** Push data *)

Lemma push_fields_total fuel s : (length s < fuel)%nat → is_Some (push_fields fuel s).
Proof.
  revert s. induction fuel as [|fuel IH]; intros s Hs; [lia|].
  assert (∀ n s', (length s' < length s)%nat → is_Some
    (if (length s' <? n)%nat then Some []
     else l ← push_fields fuel (drop n s'); Some (take n s' :: l))) as Hd.
  { intros n s' Hl. destruct (Nat.ltb_spec (length s') n); [done|].
    destruct (IH (drop n s')) as [l ->]; [|done]. rewrite length_drop. lia. }
  cbn [push_fields]. destruct s as [|op s']; [done|]. cbn [length] in Hs, Hd.
  case_match. { destruct (IH s') as [l ->]; [lia|done]. }
  case_match. { apply Hd. lia. }
  case_match. { destruct s' as [|n s']; [done|]. apply Hd. simpl. lia. }
  case_match; [|done]. destruct s' as [|lo [|hi s']]; try done. apply Hd. simpl. lia.
Qed.

Lemma push_fields_mono fuel s l : push_fields fuel s = Some l → push_fields (S fuel) s = Some l.
Proof.
  revert s l. induction fuel as [|fuel IH]; intros s l Hl; [done|].
  assert (∀ n s' l',
    (if (length s' <? n)%nat then Some []
     else l ← push_fields fuel (drop n s'); Some (take n s' :: l)) = Some l' →
    (if (length s' <? n)%nat then Some []
     else l ← push_fields (S fuel) (drop n s'); Some (take n s' :: l)) = Some l') as Hd.
  { intros n s' l'. destruct (length s' <? n)%nat; [done|].
    destruct (push_fields fuel (drop n s')) as [l0|] eqn:E; [|done]. by rewrite (IH _ _ E). }
  remember (S fuel) as f eqn:Ef. cbn [push_fields]. rewrite Ef in Hl. cbn [push_fields] in Hl.
  subst f. destruct s as [|op s']; [done|].
  case_match. { destruct (push_fields fuel s') as [l0|] eqn:E; [|done]. by rewrite (IH _ _ E). }
  case_match; [by apply Hd|]. case_match. { destruct s' as [|n s']; [done|]. by apply Hd. }
  case_match; [|done]. destruct s' as [|lo [|hi s']]; try done. by apply Hd.
Qed.

Lemma push_fields_fuel s fuel :
  (length s < fuel)%nat → push_fields fuel s = Some (parsePushDataFields s).
Proof.
  intros Hf. unfold parsePushDataFields.
  destruct (push_fields_total (S (length s)) s) as [l El]; [lia|]. rewrite El. cbn [from_option id].
  induction Hf as [|fuel Hf IH]; [done|]. by apply push_fields_mono.
Qed.

(** What is read fits in the script, opcodes included. *)
Lemma push_fields_size fuel s l :
  push_fields fuel s = Some l → (length (concat l) + length l ≤ length s)%nat.
Proof.
  revert s l. induction fuel as [|fuel IH]; intros s l Hl; [done|].
  assert (∀ n s' l',
    (if (length s' <? n)%nat then Some []
     else l ← push_fields fuel (drop n s'); Some (take n s' :: l)) = Some l' →
    (length (concat l') + length l' ≤ S (length s'))%nat) as Hd.
  { intros n s' l'. destruct (Nat.ltb_spec (length s') n); [intros [= <-]; simpl; lia|].
    destruct (push_fields fuel (drop n s')) as [l0|] eqn:E; [|done]. intros [= <-].
    apply IH in E. rewrite length_drop in E. simpl. rewrite length_app, length_take. lia. }
  cbn [push_fields] in Hl. destruct s as [|op s']; [simplify_eq; simpl; lia|].
  case_match.
  { destruct (push_fields fuel s') as [l0|] eqn:E; [|done]. apply IH in E. simplify_eq/=. lia. }
  case_match; [by apply Hd in Hl|].
  case_match. { destruct s' as [|n s']; [simplify_eq; simpl; lia|]. apply Hd in Hl. simpl. lia. }
  case_match; [|simplify_eq; simpl; lia].
  destruct s' as [|lo [|hi s']]; try (simplify_eq; simpl; lia). apply Hd in Hl. simpl. lia.
Qed.

(** C40: the push loop of UHRP scripts ends on every script, within a turn per
    byte and one more; more turns do not change what it reads, and what it
    reads, with an opcode for each field, is no longer than the script. *)
Theorem push_fields_terminates s :
  ∃ l, (∀ fuel, (length s < fuel)%nat → push_fields fuel s = Some l) ∧
       (length (concat l) + length l ≤ length s)%nat.
Proof.
  exists (parsePushDataFields s). split; [by apply push_fields_fuel|].
  apply (push_fields_size (S (length s))), push_fields_fuel. lia.
Qed.

Lemma byte_len_z b : (length b < 256)%nat → byte_z (byte_len b) = zlen b.
Proof. intros Hb. unfold byte_len, zlen. rewrite byte_z_z. rewrite Z.mod_small; lia. Qed.

(** A direct push, and a push with a length byte. *)
Lemma parse_push_direct b rest :
  b ≠ [] → (length b ≤ 75)%nat →
  parsePushDataFields (byte_len b :: b ++ rest) = b :: parsePushDataFields rest.
Proof.
  intros Hb Hl. unfold parsePushDataFields at 1. cbn [push_fields].
  rewrite byte_len_z by lia. assert (length b ≠ 0%nat) by (by destruct b). unfold zlen.
  rewrite (proj2 (Z.eqb_neq _ _)) by lia. rewrite (proj2 (Z.leb_le _ _)) by lia.
  rewrite Nat2Z.id, length_app. rewrite (proj2 (Nat.ltb_ge _ _)) by lia.
  rewrite drop_app_length, take_app_length.
  rewrite push_fields_fuel by (simpl; rewrite length_app; lia). done.
Qed.

Lemma parse_push_data1 b rest :
  (length b < 256)%nat →
  parsePushDataFields (x4c :: byte_len b :: b ++ rest) = b :: parsePushDataFields rest.
Proof.
  intros Hl. unfold parsePushDataFields at 1. cbn [push_fields].
  change (byte_z x4c) with 76. cbn [Z.eqb Z.leb Z.compare Pos.compare Pos.compare_cont Pos.eqb].
  rewrite byte_len_z by lia. unfold zlen.
  rewrite Nat2Z.id, length_app. rewrite (proj2 (Nat.ltb_ge _ _)) by lia.
  rewrite drop_app_length, take_app_length.
  rewrite push_fields_fuel by (simpl; rewrite length_app; lia). done.
Qed.

(** ** UHRP scripts *)

Lemma parse_nil : parsePushDataFields [] = [].
Proof. done. Qed.

(** The optional URL and content type of a script. *)
Definition uhrp_tail (url contentType : bytes) : bytes :=
  (if bool_decide (url = []) then []
   else if zlen url <=? 75 then byte_len url :: url else [x4c; byte_len url] ++ url) ++
  (if bool_decide (contentType = []) then [] else byte_len contentType :: contentType).

Lemma parse_content_type ct :
  (length ct ≤ 75)%nat →
  parsePushDataFields (if bool_decide (ct = []) then [] else byte_len ct :: ct) =
  if bool_decide (ct = []) then [] else [ct].
Proof.
  intros Hc. case_bool_decide; [done|].
  rewrite <- (app_nil_r ct) at 2. by rewrite parse_push_direct, parse_nil.
Qed.

Lemma parse_uhrp_tail url ct :
  (length url < 256)%nat → (length ct ≤ 75)%nat →
  parsePushDataFields (uhrp_tail url ct) =
  (if bool_decide (url = []) then [] else [url]) ++ (if bool_decide (ct = []) then [] else [ct]).
Proof.
  intros Hu Hc. unfold uhrp_tail. case_bool_decide as Eu; cbn [app]; [by apply parse_content_type|].
  destruct (Z.leb_spec (zlen url) 75) as [Hz|Hz]; unfold zlen in Hz; cbn [app].
  - rewrite parse_push_direct by (done || lia). by rewrite parse_content_type.
  - rewrite parse_push_data1 by done. by rewrite parse_content_type.
Qed.

Lemma BuildUHRPScript_shape hash url ct :
  length hash = 32%nat →
  BuildUHRPScript (hex_encode hash) url ct =
  Some (x00 :: x6a :: x04 :: UHRPProtocolID ++ byte_len hash :: hash ++ uhrp_tail url ct).
Proof.
  intros Hh. unfold BuildUHRPScript. rewrite hex_decode_encode_Some. cbn [mbind option_bind].
  rewrite bool_decide_false by lia. unfold uhrp_tail. cbv zeta.
  change (byte_len UHRPProtocolID) with x04. f_equal. repeat (rewrite <- app_assoc; cbn [app]).
  done.
Qed.

Lemma parse_built hash url ct :
  length hash = 32%nat → (length url < 256)%nat → (length ct ≤ 75)%nat →
  BuildUHRPScript (hex_encode hash) url ct ≫= parseUHRPOutput =
  Some (MkUHRPEntry (hex_encode hash) (if bool_decide (url = []) then ct else url)
          (if bool_decide (url = []) then [] else ct)).
Proof.
  intros Hh Hu Hc. rewrite BuildUHRPScript_shape by done. cbn [mbind option_bind].
  unfold parseUHRPOutput. rewrite (proj2 (Nat.ltb_ge _ _)) by (simpl; lia).
  change x04 with (byte_len UHRPProtocolID).
  rewrite parse_push_direct by (done || simpl; lia).
  rewrite parse_push_direct by (try lia; by destruct hash).
  rewrite bool_decide_false by auto. rewrite Hh. cbn [Nat.eqb].
  rewrite parse_uhrp_tail by done. cbn [mbind option_bind].
  destruct (decide (url = [])) as [->|Eu].
  - rewrite !bool_decide_true by done. destruct ct; reflexivity.
  - rewrite !(bool_decide_false (url = [])) by done. destruct ct; reflexivity.
Qed.

(** A script built for a content hash, a location and a content type is
    parsed back to exactly that advertisement, as long as the lengths fit
    their one length byte. *)
Theorem UHRP_roundtrip hash url ct :
  length hash = 32%nat → (length url < 256)%nat → (length ct ≤ 75)%nat → (url = [] → ct = []) →
  ∃ script, BuildUHRPScript (hex_encode hash) url ct = Some script ∧
            parseUHRPOutput script = Some (MkUHRPEntry (hex_encode hash) url ct).
Proof.
  intros Hh Hu Hc Huc. pose proof (parse_built hash url ct Hh Hu Hc) as E.
  rewrite BuildUHRPScript_shape in E |- * by done. eexists. split; [done|].
  cbn [mbind option_bind] in E. rewrite E. case_bool_decide; [|done]. by rewrite Huc; subst.
Qed.

(** A content type without a location is read back as the location, and a
    content type of 76 bytes is not read back. *)
Lemma UHRP_no_url hash ct :
  length hash = 32%nat → (length ct ≤ 75)%nat →
  BuildUHRPScript (hex_encode hash) [] ct ≫= parseUHRPOutput = Some (MkUHRPEntry (hex_encode hash) ct []).
Proof. intros Hh Hc. by rewrite parse_built by (done || simpl; lia). Qed.

Example UHRP_long_content_type :
  ue_ContentType <$> (BuildUHRPScript (hex_encode (replicate 32 x00)) (lit "u") (replicate 76 x41)
                        ≫= parseUHRPOutput) = Some (replicate 65 x41).
Proof. vm_compute. reflexivity. Qed.

(** ** The engine's set of live outputs *)

Lemma outputKey_inj topic t1 v1 t2 v2 :
  outputKey topic t1 v1 = outputKey topic t2 v2 → t1 = t2 ∧ v1 = v2.
Proof.
  unfold outputKey. intros E%(inj (topicKey topic ++.)).
  apply app_last_sep_inj in E as [-> E%(inj itoa)]; auto using itoa_no_colon.
Qed.

(** ** Walking a list with an index *)

Fixpoint zomap {A B} (f : A → option B) (k : Z) (l : list A) : list (Z * B) :=
  match l with
  | [] => []
  | a :: l' => match f a with
               | Some b => (k, b) :: zomap f (k + 1) l'
               | None => zomap f (k + 1) l'
               end
  end.

Section zomap.
Context {A B : Type} (f : A → option B).

Lemma elem_of_zomap k l i b :
  (i, b) ∈ zomap f k l ↔ k ≤ i ∧ (l !! Z.to_nat (i - k) ≫= f) = Some b.
Proof.
  revert k. induction l as [|a l IH]; intros k; cbn [zomap].
  { split; [intros H'; by apply elem_of_nil in H'|]. by intros [_ H']. }
  assert (k ≤ i ∧ ((a :: l) !! Z.to_nat (i - k) ≫= f) = Some b ↔
          i = k ∧ f a = Some b ∨ (i, b) ∈ zomap f (k + 1) l) as ->.
  { rewrite IH. destruct (decide (i = k)) as [->|Hne].
    - rewrite Z.sub_diag. cbn. split; [intros [_ ?]; by left|]. intros [[_ ?]|[? _]]; [done|lia].
    - replace (Z.to_nat (i - k)) with (if decide (k < i) then S (Z.to_nat (i - (k + 1))) else 0%nat)
        by (case_decide; lia).
      case_decide; cbn; split; [intros [? ?]; right; split; [lia|done]| |intros [? _]; lia|];
        (lia || (intros [[? _]|[? ?]]; [done|split; [lia|done]])). }
  destruct (f a) as [b'|]; [|naive_solver]. rewrite elem_of_cons. naive_solver.
Qed.

Lemma zomap_NoDup k l : NoDup (zomap f k l).*1.
Proof.
  revert k. induction l as [|a l IH]; intros k; cbn; [constructor|].
  destruct (f a); cbn; [|apply IH]. constructor; [|apply IH].
  intros ([i b'] & Hi & Hin)%list_elem_of_fmap. cbn in Hi. subst i.
  apply elem_of_zomap in Hin as [? _]. lia.
Qed.

Lemma zomap_snd k l : (zomap f k l).*2 = omap f l.
Proof. revert k. induction l as [|a l IH]; intros k; cbn; [done|]. destruct (f a); cbn; by rewrite IH. Qed.
End zomap.

(** The output the engine would read at an outpoint of a topic. *)
Definition live {DB} `{LevelDB DB} `{JsonCodec AdmittedOutput} (db : DB) (topic : bytes) (pt : bytes * Z)
    : option AdmittedOutput := db_view db !! outputKey topic pt.1 pt.2 ≫= json_unmarshal.

Definition outpoint (o : AdmittedOutput) : bytes * Z := (ao_Txid o, ao_Vout o).
Definition input_point (i : TxInput) : option (bytes * Z) :=
  t ← in_SourceTXID i; Some (t, in_SourceTxOutIndex i).

Section engine.
Context {DB : Type} `{LevelDBLaws DB, !LevelDBReliable DB}.
Context `{TxLibLaws} `{JsonCodec AdmittedOutput} `{JsonCodec UHRPEntry}.
Local Abbreviation topic := UHRPTopicName.

(** What the UHRP manager admits: the outputs of real transactions under its
    topic, with an advertisement as metadata. *)
Definition uhrp_output (o : AdmittedOutput) : Prop :=
  ao_Topic o = topic ∧ (∃ t, ao_Txid o = TxID t) ∧ ∃ e, json_marshal (A:=UHRPEntry) e = Some (ao_Metadata o).

(** The advertisement of a transaction at an outpoint, as an output. *)
Definition advertised (tx : Transaction) (pt : bytes * Z) : option AdmittedOutput :=
  if bool_decide (pt.1 = TxID tx) && (0 <=? pt.2) then
    out ← tx_Outputs tx !! Z.to_nat pt.2;
    script ← out_LockingScript out;
    entry ← parseUHRPOutput script;
    Some (MkAdmitted (TxID tx) pt.2 topic script (out_Satoshis out) (default [] (json_marshal entry)) false)
  else None.

(** The abstract transition of the ledger of live outputs: what the inputs
    spend goes, what the outputs advertise comes. *)
Definition ledger_step (tx : Transaction) (l : bytes * Z → option AdmittedOutput) (pt : bytes * Z)
    : option AdmittedOutput :=
  if decide (Some pt ∈ input_point <$> tx_Inputs tx ∧ is_Some (l pt)) then None
  else match advertised tx pt with Some o => Some o | None => l pt end.

Definition ledger_ok (l : bytes * Z → option AdmittedOutput) : Prop :=
  ∀ pt o, l pt = Some o → outpoint o = pt ∧ uhrp_output o.

Lemma spent_by_live (db : DB) i :
  spent_by db topic i = input_point i ≫= live db topic.
Proof.
  unfold spent_by, input_point, live. destruct (in_SourceTXID i) as [t|]; [|done]. cbn.
  rewrite db_get_total. by destruct (db_view db !! _).
Qed.

Lemma findSpentUTXOs_zomap (db : DB) k l :
  findSpentUTXOs db topic k l = zomap (λ i, input_point i ≫= live db topic) k l.
Proof.
  revert k. induction l as [|i l IH]; intros k; cbn; [done|]. rewrite spent_by_live, IH. done.
Qed.

Context (Hstored : ∀ o, uhrp_output o → ∃ b, json_marshal o = Some b ∧ json_unmarshal b = Some o).

Lemma storeOutput_live (db : DB) o :
  uhrp_output o →
  ∃ db', storeOutput db o = (db', Ok ()) ∧
    (∀ pt, live db' topic pt = if decide (pt = outpoint o) then Some o else live db topic pt) ∧
    (∀ k, ¬ topicKey topic `prefix_of` k → db_view db' !! k = db_view db !! k).
Proof.
  intros Ho. destruct (Hstored o Ho) as (b & Em & Eu). destruct Ho as (Et & _ & _).
  unfold storeOutput. rewrite Em, Et.
  pose proof (db_put_total db (outputKey topic (ao_Txid o) (ao_Vout o)) b) as Hp.
  destruct (db_put db _ b) as [db' r] eqn:Ep. simpl in Hp. subst r. apply db_put_ok in Ep.
  exists db'. split; [done|]. unfold live. rewrite Ep. split.
  - intros [t v]. cbn [fst snd]. case_decide as E.
    + injection E as -> ->. by rewrite lookup_insert_eq.
    + rewrite lookup_insert_ne; [done|]. intros [<- <-]%outputKey_inj. by apply E.
  - intros k Hk. rewrite lookup_insert_ne; [done|]. intros <-. apply Hk.
    unfold outputKey. by apply prefix_app_r.
Qed.

Lemma removeOutput_live (db : DB) t v :
  (∀ pt, live (removeOutput db t v topic) topic pt =
         if decide (pt = (t, v)) then None else live db topic pt) ∧
  (∀ k, ¬ topicKey topic `prefix_of` k → db_view (removeOutput db t v topic) !! k = db_view db !! k).
Proof.
  unfold removeOutput, live. pose proof (db_delete_total db (outputKey topic t v)) as Hp.
  destruct (db_delete db _) as [db' r] eqn:Ep. simpl in Hp. subst r. apply db_delete_ok in Ep.
  cbn [fst]. rewrite Ep. split.
  - intros [t' v']. cbn [fst snd]. case_decide as E.
    + injection E as -> ->. by rewrite lookup_delete_eq.
    + rewrite lookup_delete_ne; [done|]. intros [<- <-]%outputKey_inj. by apply E.
  - intros k Hk. rewrite lookup_delete_ne; [done|]. intros <-. apply Hk.
    unfold outputKey. by apply prefix_app_r.
Qed.

Context (Hmarshal : ∀ e : UHRPEntry, is_Some (json_marshal e)).

Lemma advertised_output tx pt o : advertised tx pt = Some o → outpoint o = pt ∧ uhrp_output o.
Proof.
  unfold advertised. destruct (bool_decide _ && _) eqn:E; [|done].
  apply andb_true_iff in E as [Et%bool_decide_eq_true _].
  destruct (tx_Outputs tx !! _) as [out|]; [|done]. cbn.
  destruct (out_LockingScript out) as [script|]; [|done]. cbn.
  destruct (parseUHRPOutput script) as [e|]; [|done]. cbn. intros [= <-].
  destruct pt as [t v]. cbn in Et. subst t. split; [done|]. split; [done|]. cbn. split; [by exists tx|].
  destruct (Hmarshal e) as [m Em]. exists e. by rewrite Em.
Qed.

Lemma uhrp_outputs_zomap k outs :
  uhrp_outputs k outs = zomap (λ out, out_LockingScript out ≫= parseUHRPOutput) k outs.
Proof. revert k. induction outs as [|out outs IH]; intros k; cbn; [done|]. case_match; by rewrite IH. Qed.

Lemma uhrp_metadata_lookup l i e :
  NoDup l.*1 → (i, e) ∈ l → uhrp_metadata l !! i = json_marshal e.
Proof.
  intros Hnd Hin. unfold uhrp_metadata. destruct (Hmarshal e) as [m Em]. rewrite Em.
  apply elem_of_list_to_map_1.
  - clear Hin. induction l as [|[j f] l IH]; cbn; [constructor|].
    apply list.NoDup_cons in Hnd as [Hj Hnd]. destruct (Hmarshal f) as [mf ->]. cbn.
    constructor; [|by apply IH].
    intros ([j' m'] & Ej & Hin)%list_elem_of_fmap. cbn in Ej. subst j'.
    apply list_elem_of_omap in Hin as ([j' f'] & Hin & E'). apply Hj.
    apply list_elem_of_fmap. exists (j', f'). split; [|done].
    cbn in E'. destruct (json_marshal f') in E'; by simplify_eq/=.
  - apply list_elem_of_omap. exists (i, e). cbn. by rewrite Em.
Qed.

(** What [Submit] stores for an advertised output. *)
Lemma admitted_output_advertised tx ret rem i e :
  (i, e) ∈ uhrp_outputs 0 (tx_Outputs tx) →
  ∃ o, advertised tx (TxID tx, i) = Some o ∧
       admitted_output tx topic (MkInstructions (uhrp_outputs 0 (tx_Outputs tx)).*1 ret rem
                                   (uhrp_metadata (uhrp_outputs 0 (tx_Outputs tx)))) i = Ok o.
Proof.
  intros Hin. pose proof Hin as Hm. rewrite uhrp_outputs_zomap in Hin.
  apply elem_of_zomap in Hin as [Hi He]. rewrite Z.sub_0_r in He. unfold admitted_output, advertised. cbn [ai_OutputMetadata fst snd].
  rewrite (uhrp_metadata_lookup _ i e) by (rewrite ?uhrp_outputs_zomap; apply zomap_NoDup || by rewrite <- uhrp_outputs_zomap).
  rewrite bool_decide_true, (proj2 (Z.leb_le _ _)) by done. cbn [andb].
  destruct (tx_Outputs tx !! Z.to_nat i) as [out|] eqn:Eo; [|done]. cbn in He |- *.
  apply lookup_lt_Some in Eo. rewrite (proj2 (Z.ltb_lt _ _)) by lia.
  rewrite (proj2 (Z.ltb_ge _ _)) by lia.
  destruct (out_LockingScript out) as [s|]; [|done]. cbn in He |- *. rewrite He. cbn.
  by eexists.
Qed.

Lemma admit_outputs_live tx ins (idxs : list Z) (db : DB) :
  (∀ i, i ∈ idxs → ∃ o, advertised tx (TxID tx, i) = Some o ∧ admitted_output tx topic ins i = Ok o) →
  ∃ db', admit_outputs db tx topic ins idxs = (db', Ok ()) ∧
    (∀ pt, live db' topic pt = if decide (pt.1 = TxID tx ∧ pt.2 ∈ idxs) then advertised tx pt else live db topic pt) ∧
    (∀ k, ¬ topicKey topic `prefix_of` k → db_view db' !! k = db_view db !! k).
Proof.
  revert db. induction idxs as [|i idxs IH]; intros db Hi.
  { exists db. split; [done|]. split; [|done]. intros pt. rewrite decide_False; [done|].
    intros [_ []%elem_of_nil]. }
  destruct (Hi i) as (o & Ea & Eo); [by left|]. cbn [admit_outputs]. rewrite Eo.
  destruct (advertised_output _ _ _ Ea) as [Hpt Hu].
  destruct (storeOutput_live db o Hu) as (db1 & -> & Hl1 & Hf1).
  destruct (IH db1) as (db' & E & Hl & Hf); [intros j Hj; apply Hi; by right|]. exists db'. split; [done|]. split.
  - intros [t v]. rewrite Hl, Hl1, Hpt. cbn [fst snd].
    destruct (decide (t = TxID tx ∧ v ∈ i :: idxs)) as [[-> [->|Hv]%elem_of_cons]|Hn].
    + destruct (decide (_ ∧ _)); [done|]. by rewrite decide_True.
    + by rewrite decide_True.
    + rewrite !decide_False; [done| |]; [|set_solver]. intros [= -> ->]. set_solver.
  - intros k Hk. rewrite Hf, Hf1 by done. done.
Qed.

Lemma prev_at_nat (prevs : list AdmittedOutput) (k : nat) : prev_at prevs (Z.of_nat k) = Ok (prevs !! k).
Proof.
  unfold prev_at. destruct (Z.leb_spec (Z.of_nat (length prevs)) (Z.of_nat k)).
  - by rewrite lookup_ge_None_2 by lia.
  - rewrite (proj2 (Z.ltb_ge _ _)) by lia. by rewrite Nat2Z.id.
Qed.

Lemma remove_coins_live prevs n k (db : DB) :
  (∀ o, o ∈ prevs → (16 ≤ length (ao_Txid o))%nat) → (k + n = length prevs)%nat →
  ∃ db', remove_coins db topic prevs (Z.of_nat <$> seq k n) = (db', Ok ()) ∧
    (∀ pt, live db' topic pt = if decide (pt ∈ outpoint <$> drop k prevs) then None else live db topic pt) ∧
    (∀ x, ¬ topicKey topic `prefix_of` x → db_view db' !! x = db_view db !! x).
Proof.
  intros H16. revert k db. induction n as [|n IH]; intros k db Hk.
  { exists db. split; [done|]. split; [|done]. intros pt. rewrite drop_ge by lia. done. }
  cbn [seq fmap list_fmap remove_coins]. rewrite prev_at_nat.
  destruct (lookup_lt_is_Some_2 prevs k) as [o Eo]; [lia|]. rewrite Eo.
  unfold log_txid. rewrite (proj2 (Nat.ltb_ge _ _)) by (apply H16; by eapply list_elem_of_lookup_2).
  destruct (removeOutput_live db (ao_Txid o) (ao_Vout o)) as [Hl1 Hf1].
  destruct (IH (S k) (removeOutput db (ao_Txid o) (ao_Vout o) topic)) as (db' & E & Hl & Hf); [lia|].
  exists db'. split; [done|]. split.
  - intros pt. rewrite Hl, Hl1, (drop_S _ _ _ Eo). cbn [fmap list_fmap].
    fold (outpoint o). repeat case_decide; set_solver.
  - intros x Hx. rewrite Hf, Hf1 by done. done.
Qed.

(** The remapped indices are those of inputs that spend the coins; [g] is what
    each input spends. *)
Lemma remap_all_spec visit (g : Z → option AdmittedOutput) prevs n k :
  (∀ o, o ∈ prevs → ∃ i, (i, o) ∈ visit) → (∀ i o, (i, o) ∈ visit → 0 ≤ i ∧ g i = Some o) →
  (k + n = length prevs)%nat →
  ∃ r, remap_all visit prevs (Z.of_nat <$> seq k n) = Ok r ∧
    (∀ pt, (∃ i, i ∈ r ∧ outpoint <$> g i = Some pt) ↔ pt ∈ outpoint <$> drop k prevs).
Proof.
  intros Hv Hg. revert k. induction n as [|n IH]; intros k Hk.
  { exists []. split; [done|]. intros pt. rewrite drop_ge by lia.
    split; [intros (? & []%elem_of_nil & _)|intros []%elem_of_nil]. }
  change (Z.of_nat <$> seq k (S n)) with (Z.of_nat k :: (Z.of_nat <$> seq (S k) n)).
  cbn [remap_all]. unfold remapToInputIdx. rewrite prev_at_nat.
  destruct (lookup_lt_is_Some_2 prevs k) as [o Eo]; [lia|]. rewrite Eo. cbn.
  destruct (list_find _ visit) as [[j [i o']]|] eqn:Ef.
  2:{ apply list_find_None in Ef. destruct (Hv o) as [i Hi]; [by eapply list_elem_of_lookup_2|].
      rewrite list.Forall_forall in Ef. exfalso. by eapply (Ef _ Hi). }
  apply list_find_Some in Ef as (Ej & [Et Ev] & _). cbn in Et, Ev.
  apply list_elem_of_lookup_2, Hg in Ej as [Hi Egi].
  destruct (IH (S k)) as (r & Er & Hr); [lia|].
  rewrite Er. cbn. rewrite (proj2 (Z.leb_le _ _)) by done.
  exists (i :: r). split; [done|].
  intros pt. rewrite (drop_S _ _ _ Eo). cbn [fmap list_fmap]. rewrite elem_of_cons, <- Hr.
  assert (outpoint o' = outpoint o) as Eo'. { unfold outpoint. by rewrite Et, Ev. }
  setoid_rewrite elem_of_cons. split.
  - intros (i' & [->|Hi'] & Eg); [left|right; eauto]. rewrite Egi in Eg. injection Eg as <-. done.
  - intros [->|(i' & Hi' & Eg)]; [exists i|by eauto]. split; [by left|]. by rewrite Egi, <- Eo'.
Qed.

Definition spent (tx : Transaction) (l : bytes * Z → option AdmittedOutput) (pt : bytes * Z) : Prop :=
  Some pt ∈ input_point <$> tx_Inputs tx ∧ is_Some (l pt).

(** The live output that an input spends. *)
Definition spends (tx : Transaction) (l : bytes * Z → option AdmittedOutput) (i : Z) : option AdmittedOutput :=
  input ← tx_Inputs tx !! Z.to_nat i; input_point input ≫= l.

Lemma spent_outpoints tx (l : bytes * Z → option AdmittedOutput) pt :
  ledger_ok l → pt ∈ outpoint <$> omap (λ i, input_point i ≫= l) (tx_Inputs tx) ↔ spent tx l pt.
Proof.
  intros Hok. unfold spent. rewrite !list_elem_of_fmap. split.
  - intros (o & -> & (i & Hi & Eo)%list_elem_of_omap).
    destruct (input_point i) as [pt|] eqn:Ei; [|done]. cbn in Eo.
    destruct (Hok _ _ Eo) as [-> _]. split; [by exists i|by exists o].
  - intros [(i & Ei & Hi) [o Eo]]. exists o. split; [symmetry; by apply Hok|].
    apply list_elem_of_omap. exists i. split; [done|]. by rewrite <- Ei.
Qed.

Lemma ledger_step_ok tx l : ledger_ok l → ledger_ok (ledger_step tx l).
Proof.
  intros Hok pt o. unfold ledger_step. case_decide; [done|].
  destruct (advertised tx pt) as [o'|] eqn:E; [|apply Hok]. intros [= <-]. by eapply advertised_output.
Qed.

Lemma advertised_iff tx i :
  i ∈ (uhrp_outputs 0 (tx_Outputs tx)).*1 ↔ is_Some (advertised tx (TxID tx, i)).
Proof.
  rewrite list_elem_of_fmap. split.
  - intros ([i' e] & -> & Hin). cbn.
    destruct (admitted_output_advertised tx [] [] i' e Hin) as (o & -> & _). done.
  - intros [o Eo]. unfold advertised in Eo. cbn [fst snd] in Eo.
    destruct (bool_decide _ && _) eqn:E; [|done]. apply andb_true_iff in E as [_ Hi%Z.leb_le].
    destruct (tx_Outputs tx !! _) as [out|] eqn:Eout; [|done]. cbn in Eo.
    destruct (out_LockingScript out) as [s|] eqn:Es; [|done]. cbn in Eo.
    destruct (parseUHRPOutput s) as [e|] eqn:Ee; [|done]. exists (i, e). split; [done|].
    rewrite uhrp_outputs_zomap. apply elem_of_zomap. split; [done|].
    rewrite Z.sub_0_r, Eout. cbn. by rewrite Es.
Qed.

Lemma advertised_txid tx pt : is_Some (advertised tx pt) → pt.1 = TxID tx.
Proof.
  intros [o Eo]. unfold advertised in Eo. destruct (bool_decide _ && _) eqn:E; [|done].
  by apply andb_true_iff in E as [E%bool_decide_eq_true _].
Qed.

(** Admitting and then removing is the ledger's transition. *)
Lemma removed_then_ledger tx l (idxs : list Z) pt :
  ledger_ok l → (∀ i, i ∈ idxs ↔ is_Some (advertised tx (TxID tx, i))) →
  (if decide (pt ∈ outpoint <$> omap (λ i, input_point i ≫= l) (tx_Inputs tx)) then None
   else if decide (pt.1 = TxID tx ∧ pt.2 ∈ idxs) then advertised tx pt else l pt) = ledger_step tx l pt.
Proof.
  intros Hok Hi. unfold ledger_step.
  pose proof (spent_outpoints tx l pt Hok) as Hsp. unfold spent in Hsp.
  case_decide as H1'; rewrite Hsp in H1'; [by rewrite decide_True|].
  rewrite (decide_False (P:=_ ∧ is_Some _)) by done. destruct pt as [t v]. cbn [fst snd].
  case_decide as Ht.
  - destruct Ht as [-> [o ->]%Hi]. done.
  - destruct (advertised tx (t, v)) as [o|] eqn:E; [|done]. destruct Ht.
    assert (is_Some (advertised tx (t, v))) as Hs by done.
    pose proof (advertised_txid _ _ Hs) as Et. cbn in Et. subst t. by rewrite Hi.
Qed.

Lemma Admit_spec tx prevs :
  Admit (TxBytes tx) prevs =
  Ok (if bool_decide ((uhrp_outputs 0 (tx_Outputs tx)) = []) && bool_decide (prevs = []) then None
      else Some (MkInstructions (uhrp_outputs 0 (tx_Outputs tx)).*1 [] (Z.of_nat <$> seq 0 (length prevs))
                   (uhrp_metadata (uhrp_outputs 0 (tx_Outputs tx))))).
Proof.
  unfold Admit. rewrite tx_roundtrip.
  assert (bool_decide (Z.of_nat <$> seq 0 (length prevs) = []) = bool_decide (prevs = [])) as ->.
  { apply bool_decide_ext. by destruct prevs. }
  by destruct (_ && _).
Qed.

(** C3: submitting a transaction to the UHRP topic implements the transition
    of an abstract ledger of live outputs: it removes exactly the live outputs
    the inputs spend and adds exactly the advertisements among the outputs,
    keeps the ledger well formed, touches no key of another prefix, does not
    panic, and answers the indices of what it admitted and of the inputs that
    spent. *)
Theorem submit_refines_ledger visit topics tx (db : DB) :
  (∀ l, visit l ≡ₚ l) → topics !! topic = Some NewUHRPTopicManager → ledger_ok (live db topic) →
  ∃ db' r, submit_topic visit topics tx topic db = (db', Ok r) ∧
    (∀ pt, live db' topic pt = ledger_step tx (live db topic) pt) ∧ ledger_ok (live db' topic) ∧
    (∀ k, ¬ topicKey topic `prefix_of` k → db_view db' !! k = db_view db !! k) ∧
    (∀ ins, r = Some ins →
       (∀ i, i ∈ ai_OutputsToAdmit ins ↔ is_Some (advertised tx (TxID tx, i))) ∧
       (∀ pt, (∃ i, i ∈ ai_CoinsRemoved ins ∧
          outpoint <$> spends tx (live db topic) i = Some pt) ↔
          spent tx (live db topic) pt)) ∧
    (r = None → ∀ pt, ¬ spent tx (live db topic) pt ∧ advertised tx pt = None).
Proof.
  intros Hvisit Htm Hok. unfold submit_topic. rewrite Htm. cbv zeta.
  rewrite findSpentUTXOs_zomap, zomap_snd.
  cbn [tm_Admit NewUHRPTopicManager]. rewrite Admit_spec.
  set (prevs := omap (λ i, input_point i ≫= live db topic) (tx_Inputs tx)).
  destruct (bool_decide _ && _) eqn:E.
  { apply andb_true_iff in E as [E1%bool_decide_eq_true E2%bool_decide_eq_true].
    assert (∀ pt, ¬ spent tx (live db topic) pt ∧ advertised tx pt = None) as Hn.
    { intros pt. split.
      - rewrite <- spent_outpoints by done. fold prevs. rewrite E2. by intros []%elem_of_nil.
      - apply eq_None_not_Some. intros Hs. pose proof (advertised_txid _ _ Hs) as Ept.
        destruct pt as [t v]. cbn in Ept. subst t. apply advertised_iff in Hs. rewrite E1 in Hs.
        by apply elem_of_nil in Hs. }
    assert (∀ pt, live db topic pt = ledger_step tx (live db topic) pt) as Hs.
    { intros pt. unfold ledger_step. destruct (Hn pt) as [Hsp ->]. by rewrite decide_False. }
    exists db, None. do 5 (split; [done|]). done. }
  cbn [ai_OutputsToAdmit ai_CoinsRemoved ai_CoinsToRetain ai_OutputMetadata].
  match goal with |- context [admit_outputs db tx topic ?I _] => set (ins := I) end.
  destruct (admit_outputs_live tx ins (uhrp_outputs 0 (tx_Outputs tx)).*1 db) as (db1 & -> & Hl1 & Hf1).
  { intros i ([i' e] & -> & Hin)%list_elem_of_fmap. by apply admitted_output_advertised with e. }
  destruct (remove_coins_live prevs (length prevs) 0 db1) as (db' & -> & Hl & Hf); [|done|].
  { intros o (i & Hi & Eo)%list_elem_of_omap.
    destruct (input_point i) as [pt|]; [|done]. destruct (Hok _ _ Eo) as [_ (_ & [t ->] & _)].
    rewrite txid_length. lia. }
  destruct (remap_all_spec (visit (zomap (λ i, input_point i ≫= live db topic) 0 (tx_Inputs tx)))
              (spends tx (live db topic))
              prevs (length prevs) 0) as (r & Er & Hr); [| |done|].
  { intros o Ho. setoid_rewrite Hvisit. unfold prevs in Ho.
    rewrite <- (zomap_snd _ 0), list_elem_of_fmap in Ho. destruct Ho as ([i o'] & -> & Hin). by exists i. }
  { intros i o. rewrite Hvisit, elem_of_zomap. rewrite Z.sub_0_r. intros [Hi Eo]. split; [done|].
    done. }
  rewrite drop_0 in Hl, Hr. unfold prevs in Hl at 1, Hr. setoid_rewrite spent_outpoints in Hr; [|done].
  rewrite Er. cbn.
  assert (∀ pt, live db' topic pt = ledger_step tx (live db topic) pt) as Hs.
  { intros pt. rewrite Hl, Hl1. apply removed_then_ledger; [done|]. intros i. apply advertised_iff. }
  exists db', (Some (MkInstructions (ai_OutputsToAdmit ins) [] r (ai_OutputMetadata ins))).
  split; [done|]. split; [done|]. split; [|split; [|split]]; [| | |done].
  - intros pt o. rewrite Hs. by apply ledger_step_ok.
  - intros k Hk. by rewrite Hf, Hf1.
  - intros ins' [= <-]. split; [intros i; apply advertised_iff|done].
Qed.
End engine.
