(* ===== verification/OverlayRuns.v ===== *)
(** * The overlay at concrete inputs

    An instance of the token interface, and the properties of [Brc],
    [DirectoryProps] and [EngineProps] applied to small directories and a
    small ledger. *)

From Stdlib Require Import Init.Byte Strings.Byte Strings.String Lia ZArith.
From stdpp Require Import base gmap sets list strings numbers sorting.
From S2P Require Import Prelude GoStd Sha256 LevelDB GoText Ec Tx Brc Directory DirectoryProps.
From S2P Require Import Engine Uhrp EngineProps.
Open Scope Z_scope.

(** ** Tokens: a script is the frame of its chunks, keys add up *)

Definition chunk_field (c : ScriptChunk) : bytes := chunk_Op c :: option_field id (chunk_Data c).
Definition field_chunk (b : bytes) : option ScriptChunk :=
  match b with op :: b' => d ← field_option Some b'; Some (MkChunk op d) | [] => None end.

Lemma field_chunk_field c : field_chunk (chunk_field c) = Some c.
Proof. destruct c as [op d]. cbn. by rewrite (field_option_field id Some). Qed.

(** The data of the leading chunks that have some. *)
Fixpoint leading_data (l : list ScriptChunk) : list bytes :=
  match l with
  | c :: l' => match chunk_Data c with Some d => d :: leading_data l' | None => [] end
  | [] => []
  end.

Definition toy_decode (s : bytes) : option (list bytes * byte) :=
  chunks ← field_list field_chunk s;
  match chunks with
  | c :: _ :: rest => pub ← chunk_Data c ≫= toy_pub; Some (leading_data rest, pub)
  | _ => None
  end.

Definition toy_child (a b : byte) (invoice : bytes) : byte :=
  z_byte (byte_z a + byte_z b + Z.of_nat (length invoice)).

#[export] Instance toy_tokens : @SdkTokens toy_ec := {
  DeriveChildKey k p i := Some (toy_child k p i);
  DerivePubChild p k i := Some (toy_child p k i);
  AnyoneKey := x01;
  pushdrop_Decode := toy_decode;
  CreateMinimallyEncodedScriptChunk f := MkChunk x00 (Some f);
  NewScriptFromScriptOps l := Some (list_field chunk_field l);
  ProtocolIDSHIP := lit "service host interconnect";
  ProtocolIDSLAP := lit "service lookup availability"
}.

Lemma leading_data_drops n : leading_data (drop_ops n) = [].
Proof. by destruct n as [|[|n]]. Qed.

#[export] Instance toy_tokens_laws : SdkTokensLaws.
Proof.
  split; [by eexists|intros ? ? ? ? [= <-]; done|by eexists|].
  intros pub fields s _ [= <-]. cbn [pushdrop_Decode toy_tokens]. unfold toy_decode.
  rewrite (field_list_field _ _ _ field_chunk_field).
  unfold token_chunks. cbn -[replicate drop_ops]. rewrite decide_True by done. cbn -[drop_ops].
  do 2 f_equal. assert (∀ n, leading_data (((λ f, MkChunk x00 (Some f)) <$> fields) ++ drop_ops n) = fields) as E.
  { intros n. induction fields as [|f l IH]; cbn; [apply leading_data_drops|by rewrite IH]. }
  apply E.
Qed.

Lemma BuildSHIPScript_validates_witness : ∃ s pub,
  BuildSHIPScript (x07 : @PrivateKey toy_ec) (lit "node.example") (lit "anvil:mainnet") = Ok (s, pub) ∧
  ValidateSHIPToken s =
    Ok (MkToken (hex_encode (x02 :: x07 :: replicate 31 x00)) (lit "node.example") (lit "anvil:mainnet") pub).
Proof.
  apply (BuildSHIPScript_validates (x07 : @PrivateKey toy_ec)); simpl; lia.
Defined.

(** ** Directories *)

Definition peer_fields (e : PeerEntry) : list bytes :=
  [pe_IdentityPub e; pe_Domain e; pe_NodeName e; pe_Version e; pe_Topic e; pe_TxID e;
   z_field (pe_OutputIndex e); option_field z_field (pe_DiscoveredAt e); option_field z_field (pe_LastSeen e)].
Definition fields_peer (l : list bytes) : option PeerEntry :=
  match l with
  | [i; d; n; v; t; x; o; a; b] =>
      o ← field_z o; a ← field_option field_z a; b ← field_option field_z b;
      Some (MkPeerEntry i d n v t x o a b)
  | _ => None
  end.
#[export] Instance peer_json : JsonCodec PeerEntry := frame_codec peer_fields fields_peer id.
#[export] Instance peer_json_laws : JsonCodecLaws PeerEntry.
Proof.
  apply frame_codec_laws. intros []. cbn -[z_field field_z field_option option_field].
  rewrite field_z_field. cbn -[z_field field_z field_option option_field].
  by rewrite !(field_option_field _ _ _ field_z_field).
Qed.
#[export] Instance provider_json : JsonCodec ProviderEntry :=
  frame_codec (λ p, [pv_IdentityPub p; pv_Domain p; pv_Provider p; pv_TxID p]) (λ _, None) id.

Definition directory0 : Directory (gmap bytes bytes) := MkDirectory ∅ DefaultSHIPTTL.
Definition alice : bytes := replicate 66 x61.
Definition bob : bytes := replicate 66 x62.
Definition node : bytes := lit "node.example".
Definition gossip_add (now : Z) (identity topic : bytes) (d : Directory (gmap bytes bytes)) :=
  AddSHIPPeerFromGossip now identity node [] [] topic d.
Definition directory1 := (gossip_add 0 alice (lit "rates:eur") directory0).1.
Definition directory2 := (gossip_add hour bob (lit "rates:eur") directory1).1.
Definition sub_entry : PeerEntry :=
  MkPeerEntry alice node [] [] (lit "rates:eur") (lit "gossip") 0 (Some 0) (Some 0).
Definition parent_entry : PeerEntry :=
  MkPeerEntry bob node [] [] (lit "rates") (lit "gossip") 0 (Some hour) (Some hour).

Lemma directory0_inv : dir_inv (d_db directory0).
Proof.
  assert (∀ k (e : PeerEntry), ¬ stored (d_db directory0) k e) as Hn.
  { intros k e (v & _ & Hv & _). cbn in Hv. by rewrite lookup_empty in Hv. }
  split; intros; exfalso; by eapply Hn.
Qed.

Lemma step1 : dir_step directory0 directory1.
Proof.
  apply (step_gossip 0 alice node [] [] (lit "rates:eur") _ _ (gossip_add 0 alice (lit "rates:eur") directory0).2);
    [reflexivity|apply surjective_pairing].
Qed.
Lemma step2 : dir_step directory1 directory2.
Proof.
  apply (step_gossip hour bob node [] [] (lit "rates:eur") _ _ (gossip_add hour bob (lit "rates:eur") directory1).2);
    [reflexivity|apply surjective_pairing].
Qed.

Lemma one_identity_per_domain_witness :
  dir_inv (d_db directory2) ∧ CountSHIP directory1 = 1 ∧ CountSHIP directory2 = 1.
Proof.
  split; [|split; vm_compute; reflexivity].
  apply (one_identity_per_domain directory0); [exact directory0_inv|].
  exact (rtc_l _ _ _ _ step1 (rtc_once _ _ step2)).
Defined.

Lemma SweepExpired_spec_witness :
  (SweepExpired (6 * hour + 1) directory1).2 = 1 ∧
  ∀ k e, stored (d_db (SweepExpired (6 * hour + 1) directory1).1) k e →
         expired_at 1 e = false.
Proof.
  split; [vm_compute; reflexivity|]. intros k e Hs.
  destruct (SweepExpired_spec (6 * hour + 1) directory1 _ _ (surjective_pairing _)) as (H1 & _ & _).
  apply H1 in Hs as [_ Hs]. exact Hs.
Defined.

(** Registering for [rates] evicts a registration for [rates:eur]. *)
Lemma sub_stored : stored (d_db directory1) (shipKey (lit "rates:eur") alice) sub_entry.
Proof.
  exists (default [] (d_db directory1 !! shipKey (lit "rates:eur") alice)).
  split; [apply prefixSHIP_key|]. split; vm_compute; reflexivity.
Qed.
Lemma directory1_inv : dir_inv (d_db directory1).
Proof.
  eapply (register_inv sub_entry directory0 directory1); [done| |exact directory0_inv].
  refine (run_ok (register sub_entry directory0) _ _). vm_compute. reflexivity.
Qed.

Lemma register_evicts_subtopic_witness :
  ¬ stored (d_db (register parent_entry directory1).1) (shipKey (lit "rates:eur") alice) sub_entry.
Proof.
  refine (proj1 (register_evicts_subtopic parent_entry directory1 _ _ sub_entry (lit "eur")
    eq_refl (run_ok (register parent_entry directory1) _ _) directory1_inv sub_stored eq_refl eq_refl _));
    [vm_compute; reflexivity|discriminate].
Defined.

(** ** The UHRP ledger *)

Lemma UHRP_roundtrip_witness : ∃ script,
  BuildUHRPScript (hex_encode (replicate 32 xab)) (lit "https://cdn.example/f") (lit "text/html") = Some script ∧
  parseUHRPOutput script =
    Some (MkUHRPEntry (hex_encode (replicate 32 xab)) (lit "https://cdn.example/f") (lit "text/html")).
Proof. apply UHRP_roundtrip; [reflexivity|vm_compute; lia|vm_compute; lia|discriminate]. Defined.

#[export] Instance entry_json : JsonCodec UHRPEntry :=
  frame_codec (λ e, [ue_ContentHash e; ue_URL e; ue_ContentType e])
    (λ l, match l with [h; u; c] => Some (MkUHRPEntry h u c) | _ => None end) id.

Definition output_fields (o : AdmittedOutput) : list bytes :=
  [ao_Txid o; z_field (ao_Vout o); ao_Topic o; ao_OutputScript o; z_field (ao_Satoshis o); ao_Metadata o;
   bool_field (ao_Spent o)].
Definition fields_output (l : list bytes) : option AdmittedOutput :=
  match l with
  | [t; v; p; s; a; m; b] => v ← field_z v; a ← field_z a; Some (MkAdmitted t v p s a m (field_bool b))
  | _ => None
  end.
#[export] Instance output_json : JsonCodec AdmittedOutput := frame_codec output_fields fields_output id.

Lemma output_stored (o : AdmittedOutput) : ∃ b, json_marshal o = Some b ∧ json_unmarshal b = Some o.
Proof.
  eexists. split; [done|]. cbn [json_unmarshal output_json frame_codec json_marshal].
  rewrite unframe_frame. destruct o. cbn -[z_field field_z field_bool bool_field].
  rewrite !field_z_field. cbn -[field_bool bool_field]. by rewrite field_bool_field.
Qed.

Definition advert (url : bytes) : bytes := default [] (BuildUHRPScript (hex_encode (replicate 32 xab)) url []).
Definition tx_a : Transaction := MkTx [] [MkOutput 1 (Some (advert (lit "https://a")))].
Definition tx_b : Transaction :=
  MkTx [MkInput (Some (TxID tx_a)) 0] [MkOutput 5 (Some []); MkOutput 1 (Some (advert (lit "https://b")))].
Definition managers : gmap bytes TopicManager := {[ UHRPTopicName := NewUHRPTopicManager ]}.
Definition ledger0 : gmap bytes bytes := ∅.
Definition ledger1 := (submit_topic id managers tx_a UHRPTopicName ledger0).1.

Lemma ledger0_ok : ledger_ok (live ledger0 UHRPTopicName).
Proof. intros pt o E. unfold live, ledger0 in E. cbn in E. by rewrite lookup_empty in E. Qed.

(** A second transaction spends the advertisement of the first. *)
Lemma submit_refines_ledger_witness : ∃ db1 r1 db2 r2,
  submit_topic id managers tx_a UHRPTopicName ledger0 = (db1, Ok r1) ∧
  submit_topic id managers tx_b UHRPTopicName db1 = (db2, Ok r2) ∧
  (∀ pt, live db2 UHRPTopicName pt =
         ledger_step tx_b (ledger_step tx_a (live ledger0 UHRPTopicName)) pt).
Proof.
  destruct (submit_refines_ledger (λ o _, output_stored o) (λ e, ltac:(by eexists)) id managers tx_a ledger0)
    as (db1 & r1 & E1 & Hl1 & Hok1 & _); [done|reflexivity|exact ledger0_ok|].
  destruct (submit_refines_ledger (λ o _, output_stored o) (λ e, ltac:(by eexists)) id managers tx_b db1)
    as (db2 & r2 & E2 & Hl2 & _); [done|reflexivity|exact Hok1|].
  exists db1, r1, db2, r2. split; [exact E1|]. split; [exact E2|].
  intros pt. rewrite Hl2. unfold ledger_step at 1 2. rewrite Hl1. reflexivity.
Defined.

(** The same run, evaluated: one output comes, then goes for another. *)
Example ledger_run : match submit_topic id managers tx_b UHRPTopicName ledger1 with
  | (db2, Ok (Some ins)) =>
      bool_decide (is_Some (live ledger1 UHRPTopicName (TxID tx_a, 0))) && bool_decide (live db2 UHRPTopicName (TxID tx_a, 0) = None) &&
      bool_decide (is_Some (live db2 UHRPTopicName (TxID tx_b, 1))) &&
      bool_decide (ai_OutputsToAdmit ins = [1]) && bool_decide (ai_CoinsRemoved ins = [0])
  | _ => false
  end = true.
Proof. vm_compute. reflexivity. Qed.
