(* ===== verification/Http.v ===== *)
(** * HTTP requests and responses ([net/http])

    What the handlers read of a request and write to a response. Header names
    are in canonical form; [header] of an absent header is the empty string,
    as [Header.Get]. A JSON body is kept as the value that is encoded. *)

From Stdlib Require Import Init.Byte Strings.Byte Strings.String Lia ZArith.
From stdpp Require Import base gmap sets list strings numbers.
From S2P Require Import Prelude GoStd LevelDB GoText.
Open Scope Z_scope.

Record Request := MkRequest {
  r_method : bytes;
  r_host : bytes;
  r_path : bytes;
  r_query : bytes;
  r_headers : gmap bytes bytes;
  r_body : bytes;
  r_remote : bytes
}.

Definition header (r : Request) (name : bytes) : bytes := default [] (r_headers r !! name).

(** [r.URL.Query().Get(key)]. *)
Definition query_param (r : Request) (key : bytes) : bytes := query_get (r_query r) key.

(** [r.Header.Set(name, value)]. *)
Definition set_header (name value : bytes) (r : Request) : Request :=
  MkRequest (r_method r) (r_host r) (r_path r) (r_query r) (<[name := value]> (r_headers r))
    (r_body r) (r_remote r).

Definition set_body (body : bytes) (r : Request) : Request :=
  MkRequest (r_method r) (r_host r) (r_path r) (r_query r) (r_headers r) body (r_remote r).

(** [io.ReadAll(io.LimitReader(r.Body, n))] of a body that arrives whole. *)
Definition read_limited (n : nat) (r : Request) : bytes := take n (r_body r).
Definition mib : nat := Z.to_nat (2 ^ 20).

(** JSON values, as the handlers build them from maps, records and strings;
    [JRaw] is the encoding of a record, [JNull] that of a nil slice. *)
#[warnings="-register-all"]
Inductive json :=
  | JStr (s : bytes)
  | JNum (n : Z)
  | JBool (b : bool)
  | JRaw (b : bytes)
  | JNull
  | JArr (l : list json)
  | JObj (fields : list (bytes * json)).

(** A slice that is nil until something is appended. *)
Definition jslice (l : list json) : json := if l is [] then JNull else JArr l.

Inductive body :=
  | NoBody
  | Text (b : bytes)
  | Json (j : json).

Record Response := MkResponse {
  w_status : Z;
  w_headers : gmap bytes bytes;
  w_body : body
}.

Definition StatusOK : Z := 200.
Definition StatusNoContent : Z := 204.
Definition StatusFound : Z := 302.
Definition StatusBadRequest : Z := 400.
Definition StatusUnauthorized : Z := 401.
Definition StatusPaymentRequired : Z := 402.
Definition StatusForbidden : Z := 403.
Definition StatusNotFound : Z := 404.
Definition StatusUnprocessableEntity : Z := 422.
Definition StatusTooManyRequests : Z := 429.
Definition StatusInternalServerError : Z := 500.
Definition StatusBadGateway : Z := 502.
Definition StatusServiceUnavailable : Z := 503.

Definition content_type : bytes := lit "Content-Type".

Definition writeJSON (status : Z) (v : json) : Response :=
  MkResponse status {[ content_type := lit "application/json" ]} (Json v).

Definition writeError (status : Z) (msg : bytes) : Response :=
  writeJSON status (JObj [(lit "error", JStr msg)]).

(** [http.Error] of the standard library. *)
Definition http_error (msg : bytes) (status : Z) : Response :=
  MkResponse status
    {[ content_type := lit "text/plain; charset=utf-8"; lit "X-Content-Type-Options" := lit "nosniff" ]}
    (Text (msg ++ [x0a])).

(** [w.Header().Set] before the handler runs: what the handler itself sets
    wins. *)
Definition add_header (name value : bytes) (w : Response) : Response :=
  MkResponse (w_status w) (w_headers w ∪ {[ name := value ]}) (w_body w).

(** A handler over a state; [None] is a panic, which ends the request without
    an answer. *)
Definition Handler (S : Type) : Type := Request → S → S * option Response.

Definition answer {S} (w : Response) : Handler S := λ _ s, (s, Some w).

Definition with_header {S} (name value : bytes) (h : Handler S) : Handler S := λ r s,
  let '(s', w) := h r s in (s', add_header name value <$> w).

Definition MethodOptions : bytes := lit "OPTIONS".

Lemma with_header_state {S} n v (h : Handler S) r s : (with_header n v h r s).1 = (h r s).1.
Proof. unfold with_header. by destruct (h r s). Qed.

Lemma status_add_header n v w : w_status (add_header n v w) = w_status w.
Proof. done. Qed.
Lemma body_add_header n v w : w_body (add_header n v w) = w_body w.
Proof. done. Qed.

Lemma header_set name value r : header (set_header name value r) name = value.
Proof. unfold header, set_header. simpl. by rewrite lookup_insert_eq. Qed.
