(* ===== verification/Content.v ===== *)
(** * The content server ([internal/content/serve.go])

    Inscriptions cut out of raw transactions: the transaction is walked by
    position to one output, whose script is searched for an ordinal envelope or
    a B:// data carrier. Positions and lengths are 64-bit integers that wrap,
    as in the code. The sources of transactions are functions; the answers of
    the WhatsOnChain API are a function of the URL. *)

From Stdlib Require Import Init.Byte Strings.Byte Strings.String Lia ZArith.
From stdpp Require Import base gmap sets list strings numbers sorting fin_maps.
From S2P Require Import Prelude GoStd LevelDB GoText Http.
Open Scope Z_scope.

Record inscription := MkInscription { ContentType : bytes; Data : bytes; FetchedAt : Z }.

(** ** Walking a raw transaction *)

(** A compact size integer and the number of bytes read. *)
Definition readVarInt (data : bytes) : Z * Z :=
  match data with
  | [] => (0, 0)
  | first :: rest =>
      let z := byte_z first in
      let wide (n : nat) :=
        if (length data <? S n)%nat then (0, 1) else (le_bytes_z (take n rest), Z.of_nat (S n)) in
      if z <? 253 then (z, 1)
      else if z =? 253 then wide 2%nat else if z =? 254 then wide 4%nat else wide 8%nat
  end.

Inductive content_err :=
  | CeHex | CeVout | CeShort | CeInput (i : Z) | CeVoutRange (vout count : Z)
  | CeOutput (i : Z) | CeOutputScript (i : Z) | CeNotFound (vout : Z) | CeNoInscription (vout : Z).

(** Input [i] of [n] at [pos]: previous output, script, sequence. [None] is
    fuel run out. *)
Fixpoint skip_inputs (fuel : nat) (tx : bytes) (i n pos : Z) : option (res content_err Z) :=
  if n <=? i then Some (Ok pos)
  else match fuel with
       | O => None
       | S fuel =>
           let pos := i64 (pos + 36) in
           match slice_from (E:=content_err) tx pos with
           | Ok rest =>
               let '(scriptLen, k) := readVarInt rest in
               let pos := i64 (i64 (i64 (pos + k) + i64 scriptLen) + 4) in
               if zlen tx <? pos then Some (Err (CeInput i)) else skip_inputs fuel tx (i + 1) n pos
           | _ => Some Panic
           end
       end.

(** Output [i] of [n] at [pos]: value and script. *)
Fixpoint find_output (fuel : nat) (tx : bytes) (vout i n pos : Z) : option (res content_err bytes) :=
  if n <=? i then Some (Err (CeNotFound vout))
  else match fuel with
       | O => None
       | S fuel =>
           if zlen tx <? i64 (pos + 8) then Some (Err (CeOutput i))
           else
             let pos := i64 (pos + 8) in
             match slice_from (E:=content_err) tx pos with
             | Ok rest =>
                 let '(scriptLen, k) := readVarInt rest in
                 let pos := i64 (pos + k) in
                 let next := i64 (pos + i64 scriptLen) in
                 if zlen tx <? next then Some (Err (CeOutputScript i))
                 else if i =? vout then Some (slice tx pos next)
                 else find_output fuel tx vout (i + 1) n next
             | _ => Some Panic
             end
       end.

Definition extractOutputScript (fuel : nat) (tx : bytes) (vout : Z) : option (res content_err bytes) :=
  if (length tx <? 10)%nat then Some (Err CeShort)
  else
    let '(inputCount, k) := readVarInt (drop 4 tx) in
    match skip_inputs fuel tx 0 (i64 inputCount) (4 + k) with
    | None => None
    | Some (Err e) => Some (Err e)
    | Some Panic => Some Panic
    | Some (Ok pos) =>
        match slice_from (E:=content_err) tx pos with
        | Ok rest =>
            let '(outputCount, k) := readVarInt rest in
            if i64 outputCount <=? vout then Some (Err (CeVoutRange vout outputCount))
            else find_output fuel tx vout 0 (i64 outputCount) (i64 (pos + k))
        | _ => Some Panic
        end
    end.

(** ** Scripts *)

(** One push and what follows it. *)
Definition readPush (data : bytes) : option (bytes * bytes) :=
  let sized (n : Z) (s : bytes) :=
    if zlen s <? n then None else Some (take (Z.to_nat n) s, drop (Z.to_nat n) s) in
  match data with
  | [] => None
  | op :: s =>
      let z := byte_z op in
      if (1 <=? z) && (z <=? 75) then sized z s
      else if z =? 76 then match s with n :: s => sized (byte_z n) s | [] => None end
      else if z =? 77 then
        match s with
        | a :: b :: s => sized (Z.lor (byte_z a) (Z.shiftl (byte_z b) 8)) s
        | _ => None
        end
      else if z =? 78 then
        match s with
        | a :: b :: c :: d :: s =>
            sized (Z.lor (Z.lor (Z.lor (byte_z a) (Z.shiftl (byte_z b) 8)) (Z.shiftl (byte_z c) 16))
                     (Z.shiftl (byte_z d) 24)) s
        | _ => None
        end
      else None
  end.

(** [OP_FALSE OP_IF "ord"]. *)
Definition ord_marker : bytes := [x00; x63; x03; x6f; x72; x64].

(** The fields of an envelope: every turn consumes a byte, a fuel of the
    length plus one is enough. [data] is nil until there is some. *)
Fixpoint ordinal_fields (fuel : nat) (now : Z) (s : bytes) (ct : bytes) (data : option bytes)
    : option (option inscription) :=
  let done := (λ d, MkInscription ct d now) <$> data in
  match fuel with
  | O => None
  | S fuel =>
      match s with
      | [] => Some done
      | op :: s =>
          if decide (op = x51) then
            match readPush s with
            | Some (d, s) => ordinal_fields fuel now s d data
            | None => Some None
            end
          else if decide (op = x00) then
            match readPush s with
            | Some (d, s) => ordinal_fields fuel now s ct (Some d)
            | None => Some None
            end
          else if decide (op = x68) then Some done
          else ordinal_fields fuel now s ct data
      end
  end.

Definition tryParseOrdinal (now : Z) (script : bytes) : option inscription :=
  idx ← bytes_index script ord_marker;
  let s := drop (idx + length ord_marker) script in
  default None (ordinal_fields (S (length s)) now s [] None).

(** The pushes up to the first thing that is not one. *)
Fixpoint read_pushes (fuel : nat) (s : bytes) : list bytes :=
  match fuel with
  | O => []
  | S fuel => match readPush s with Some (d, s) => d :: read_pushes fuel s | None => [] end
  end.

Definition bAddr : bytes := lit "19HxigV4QyBv3tHpQVcUEQyq1pzZVdoAut".

Definition tryParseBProtocol (now : Z) (script : bytes) : option inscription :=
  idx ← bytes_index script [x6a];
  let s := drop (idx + 1) script in
  match read_pushes (length s) s with
  | p0 :: p1 :: p2 :: _ =>
      if bool_decide (p0 = bAddr) || contains p0 bAddr then Some (MkInscription p2 p1 now) else None
  | _ => None
  end.

Definition parseInscription (fuel : nat) (now : Z) (rawTxHex voutStr : bytes) : option (res content_err inscription) :=
  match hex_decode rawTxHex with
  | None => Some (Err CeHex)
  | Some txBytes =>
      match atoi voutStr with
      | None => Some (Err CeVout)
      | Some vout =>
          match extractOutputScript fuel txBytes vout with
          | None => None
          | Some (Err e) => Some (Err e)
          | Some Panic => Some Panic
          | Some (Ok script) =>
              Some (match tryParseOrdinal now script with
                    | Some insc => Ok insc
                    | None => match tryParseBProtocol now script with
                              | Some insc => Ok insc
                              | None => Err (CeNoInscription vout)
                              end
                    end)
          end
      end
  end.

(** ** Sources of transactions *)

Record WoCStatus := MkWoCStatus { ws_BlockHeight : Z; ws_BlockHash : bytes }.

(** A block source looks a transaction up among the blocks it has, and fetches
    it from a block, or answers the text of an error. *)
Record Sources := MkSources {
  wocURL : bytes;
  p2pSource : option (bytes → option bytes);
  blockSource : option ((bytes → option bytes) * (bytes → bytes → bytes + bytes));
  headerLookup : option (Z → bytes);
  (** [client.Get]: status and body. *)
  woc_get : bytes → option (Z * bytes)
}.

Definition defaultWocURL : bytes := lit "https://api.whatsonchain.com/v1/bsv/main".

Definition set_wocURL (u : bytes) (s : Sources) : Sources :=
  MkSources u (p2pSource s) (blockSource s) (headerLookup s) (woc_get s).

Section sources.
(** The decoders of the three answers, and of the transaction's own. *)
Context (decode_status decode_tx : bytes → option WoCStatus) (decode_proofs : bytes → option (list bytes))
        (decode_hex : bytes → option bytes) (uni : bytes → bytes).

Definition woc_ok (s : Sources) (url : bytes) : option bytes :=
  match woc_get s url with
  | Some (code, body) => if code =? StatusOK then Some body else None
  | None => None
  end.

(** [""] is no answer. *)
Definition status_hash (s : Sources) (status : option WoCStatus) : bytes :=
  match status with
  | None => []
  | Some st =>
      if negb (bool_decide (ws_BlockHash st = [])) then ws_BlockHash st
      else match headerLookup s with
           | Some lookup => if 0 <? ws_BlockHeight st then lookup (ws_BlockHeight st) else []
           | None => []
           end
  end.

Definition tryWoCStatus (s : Sources) (txid : bytes) : bytes :=
  status_hash s (woc_ok s (wocURL s ++ lit "/tx/" ++ txid ++ lit "/status") ≫= decode_status).

Definition tryWoCProof (s : Sources) (txid : bytes) : bytes :=
  match woc_ok s (wocURL s ++ lit "/tx/" ++ txid ++ lit "/proof/tsc") ≫= decode_proofs with
  | Some (target :: _) => target
  | _ => []
  end.

Definition tryWoCConfirmation (s : Sources) (txid : bytes) : bytes :=
  status_hash s (woc_ok s (wocURL s ++ lit "/tx/" ++ txid) ≫= decode_tx).

Definition findBlockHash (s : Sources) (txid : bytes) : bytes :=
  let h := tryWoCStatus s txid in
  if negb (bool_decide (h = [])) then h
  else let h := tryWoCProof s txid in
       if negb (bool_decide (h = [])) then h else tryWoCConfirmation s txid.

Definition fetchRawTxFromWoC (s : Sources) (txid : bytes) : option bytes :=
  match woc_get s (wocURL s ++ lit "/tx/" ++ txid ++ lit "/hex") with
  | None => None
  | Some (code, body) =>
      if code =? StatusOK then Some (trim_space uni body)
      else match woc_get s (wocURL s ++ lit "/tx/" ++ txid) with
           | None => None
           | Some (_, body) => decode_hex body
           end
  end.

(** The sources in order; [None] is "all sources failed". *)
Definition from_cache (s : Sources) (txid : bytes) : option bytes :=
  match blockSource s with Some (lookup, _) => lookup txid | None => None end.
Definition from_p2p (s : Sources) (txid : bytes) : option bytes :=
  match p2pSource s with Some fetch => fetch txid | None => None end.
Definition from_block (s : Sources) (txid : bytes) : option bytes :=
  match blockSource s with
  | None => None
  | Some (_, fetch) =>
      let blockHash := findBlockHash s txid in
      if bool_decide (blockHash = []) then None
      else match fetch txid blockHash with inr raw => Some raw | inl _ => None end
  end.

Definition fetchRawTx (s : Sources) (txid : bytes) : option bytes :=
  match from_cache s txid with
  | Some raw => Some raw
  | None =>
      match from_p2p s txid with
      | Some raw => Some raw
      | None => match fetchRawTxFromWoC s txid with Some raw => Some raw | None => from_block s txid end
      end
  end.

(** ** The server *)

Record Server := MkServer { sv_sources : Sources; sv_cache : gmap bytes inscription; sv_maxAge : Z }.

Definition NewServer (src : Sources) : Server :=
  MkServer (if bool_decide (wocURL src = []) then set_wocURL defaultWocURL src else src) ∅ (24 * hour).

Definition set_cache (c : gmap bytes inscription) (s : Server) : Server :=
  MkServer (sv_sources s) c (sv_maxAge s).

Definition cache_limit : Z := 10000.

(** The oldest entry fetched before [now], in the order the map is visited. *)
Definition oldest_step (acc : bytes * Z) (kv : bytes * inscription) : bytes * Z :=
  if FetchedAt kv.2 <? acc.2 then (kv.1, FetchedAt kv.2) else acc.
Definition oldest (now : Z) (visit : list (bytes * inscription)) : bytes := (foldl oldest_step ([], now) visit).1.

Definition cache_put `{MapOrder} (now : Z) (key : bytes) (insc : inscription) (c : gmap bytes inscription)
    : gmap bytes inscription :=
  let c := <[key := insc]> c in
  if cache_limit <? Z.of_nat (size c) then
    let old := oldest now (map_order c) in
    if bool_decide (old = []) then c else delete old c
  else c.

Definition serveInscription (insc : inscription) : Response :=
  let ct := if bool_decide (ContentType insc = []) then lit "application/octet-stream" else ContentType insc in
  MkResponse StatusOK
    (<[content_type := ct]> {[ lit "Cache-Control" := lit "public, max-age=86400, immutable";
                               lit "Access-Control-Allow-Origin" := lit "*" ]})
    (Text (Data insc)).

Context (error_text : content_err → bytes).

(** [origin] is the path's [{origin}]; [None] is a handler that does not
    return, [Some None] one that panics. *)
Definition ServeContent `{MapOrder} (fuel : nat) (now : Z) (origin : bytes) (s : Server)
    : option (Server * option Response) :=
  if bool_decide (origin = []) then Some (s, Some (http_error (lit "missing origin") StatusBadRequest))
  else
    let '(txid, rest) := split2 x5f origin in
    let vout := default (lit "0") rest in
    if negb (length txid =? 64)%nat then Some (s, Some (http_error (lit "invalid txid") StatusBadRequest))
    else
      let cacheKey := txid ++ lit "_" ++ vout in
      let fetch :=
        match fetchRawTx (sv_sources s) txid with
        | None => Some (s, Some (http_error (lit "fetch tx: all sources failed for tx " ++ txid) StatusBadGateway))
        | Some rawHex =>
            match parseInscription fuel now rawHex vout with
            | None => None
            | Some Panic => Some (s, None)
            | Some (Err e) =>
                Some (s, Some (http_error (lit "parse inscription: " ++ error_text e) StatusNotFound))
            | Some (Ok insc) =>
                Some (set_cache (cache_put now cacheKey insc (sv_cache s)) s, Some (serveInscription insc))
            end
        end in
      match sv_cache s !! cacheKey with
      | Some cached => if since now (FetchedAt cached) <? sv_maxAge s then Some (s, Some (serveInscription cached))
                       else fetch
      | None => fetch
      end.

Definition dummyTxid : bytes := replicate 64 x30.

Definition BootstrapBlock (blockHash : bytes) (s : Server) : Response :=
  if negb (length blockHash =? 64)%nat then http_error (lit "invalid block hash") StatusBadRequest
  else match blockSource (sv_sources s) with
       | None => http_error (lit "block fetching not configured") StatusServiceUnavailable
       | Some (_, fetch) =>
           match fetch dummyTxid blockHash with
           | inl err =>
               if negb (contains err (lit "not found in block")) then
                 http_error (lit "block fetch failed: " ++ err) StatusBadGateway
               else MkResponse StatusOK
                      {[ content_type := lit "application/json"; lit "Access-Control-Allow-Origin" := lit "*" ]}
                      (Json (JObj [(lit "status", JStr (lit "ok")); (lit "block", JStr blockHash);
                        (lit "message", JStr (lit "block cached, inscriptions now serveable"))]))
           | inr _ => MkResponse StatusOK
                        {[ content_type := lit "application/json"; lit "Access-Control-Allow-Origin" := lit "*" ]}
                        (Json (JObj [(lit "status", JStr (lit "ok")); (lit "block", JStr blockHash);
                          (lit "message", JStr (lit "block cached, inscriptions now serveable"))]))
           end
       end.
End sources.
