(* ===== verification/ContentProps.v ===== *)
(** * Properties of the content server

    A raw transaction and an envelope as they are meant to be written, and what
    the server cuts out of them; what it does on others; its cache. *)

From Stdlib Require Import Init.Byte Strings.Byte Strings.String Lia ZArith.
From stdpp Require Import base gmap sets list strings numbers sorting fin_maps.
From S2P Require Import Prelude GoStd LevelDB GoText Http Content.
Open Scope Z_scope.

(** ** Compact sizes *)

Definition put_varint (z : Z) : bytes :=
  if z <? 253 then [z_byte z]
  else if z <? 2 ^ 16 then xfd :: z_le_bytes 2 z
  else if z <? 2 ^ 32 then xfe :: z_le_bytes 4 z else xff :: z_le_bytes 8 z.

Lemma read_wide (b : byte) n z rest :
  0 ≤ z < 256 ^ Z.of_nat n →
  (if (length ((b :: z_le_bytes n z) ++ rest) <? S n)%nat then (0, 1)
   else (le_bytes_z (take n (z_le_bytes n z ++ rest)), Z.of_nat (S n))) = (z, zlen (b :: z_le_bytes n z)).
Proof.
  intros Hz. rewrite length_app. cbn [length]. rewrite length_z_le_bytes.
  rewrite (proj2 (Nat.ltb_ge _ _)) by lia. rewrite take_app_le by (rewrite length_z_le_bytes; lia).
  rewrite take_ge by (rewrite length_z_le_bytes; lia). rewrite le_bytes_z_le, Z.mod_small by done.
  unfold zlen. cbn [length]. by rewrite length_z_le_bytes.
Qed.

Lemma readVarInt_put z rest :
  0 ≤ z < 2 ^ 64 → readVarInt (put_varint z ++ rest) = (z, zlen (put_varint z)).
Proof.
  intros Hz. unfold put_varint.
  destruct (Z.ltb_spec z 253) as [H1|H1].
  { cbn [app readVarInt]. rewrite byte_z_z, Z.mod_small by lia.
    by rewrite (proj2 (Z.ltb_lt _ _)) by lia. }
  destruct (Z.ltb_spec z (2 ^ 16)) as [H2|H2]; [|destruct (Z.ltb_spec z (2 ^ 32)) as [H3|H3]].
  - apply (read_wide xfd 2). change (256 ^ Z.of_nat 2) with (2 ^ 16). lia.
  - apply (read_wide xfe 4). change (256 ^ Z.of_nat 4) with (2 ^ 32). lia.
  - apply (read_wide xff 8). change (256 ^ Z.of_nat 8) with (2 ^ 64). lia.
Qed.

(** ** Raw transactions *)

Record RawInput := MkRawInput { ri_prev : bytes; ri_script : bytes; ri_sequence : bytes }.
Record RawOutput := MkRawOutput { ro_value : bytes; ro_script : bytes }.

Definition put_script (s : bytes) : bytes := put_varint (zlen s) ++ s.
Definition put_input (i : RawInput) : bytes := ri_prev i ++ put_script (ri_script i) ++ ri_sequence i.
Definition put_output (o : RawOutput) : bytes := ro_value o ++ put_script (ro_script o).
Definition put_tx (version : bytes) (ins : list RawInput) (outs : list RawOutput) (locktime : bytes) : bytes :=
  version ++ put_varint (Z.of_nat (length ins)) ++ (ins ≫= put_input) ++
  put_varint (Z.of_nat (length outs)) ++ (outs ≫= put_output) ++ locktime.

Definition wf_input (i : RawInput) : Prop := length (ri_prev i) = 36%nat ∧ length (ri_sequence i) = 4%nat.
Definition wf_output (o : RawOutput) : Prop := length (ro_value o) = 8%nat.

Lemma zlen_bound {a b : bytes} : zlen (a ++ b) < 2 ^ 62 → zlen a < 2 ^ 62 ∧ zlen b < 2 ^ 62.
Proof. rewrite zlen_app. pose proof (zlen_nonneg a). pose proof (zlen_nonneg b). lia. Qed.

Lemma i64_pos z : 0 ≤ z < 2 ^ 63 → i64 z = z.
Proof. intros. apply i64_small. lia. Qed.

Lemma mbind_cons_bytes {A} (f : A → bytes) a l : (a :: l) ≫= f = f a ++ (l ≫= f).
Proof. done. Qed.

Lemma put_script_read s rest : zlen s < 2 ^ 62 →
  readVarInt (put_script s ++ rest) = (zlen s, zlen (put_varint (zlen s))).
Proof.
  intros Hs. unfold put_script. rewrite <- app_assoc. apply readVarInt_put.
  pose proof (zlen_nonneg s). lia.
Qed.

Lemma zlen_put_varint z : 0 ≤ zlen (put_varint z) ≤ 9.
Proof.
  unfold put_varint, zlen. repeat case_match; cbn [length]; rewrite ?length_z_le_bytes; lia.
Qed.

Lemma zlen_length {b : bytes} {n} : length b = n → zlen b = Z.of_nat n.
Proof. by intros <-. Qed.

Lemma zlen_put_input inp : wf_input inp →
  zlen (put_input inp) = 36 + zlen (put_varint (zlen (ri_script inp))) + zlen (ri_script inp) + 4.
Proof. intros [Hp Hs]. unfold put_input, put_script. rewrite !zlen_app, (zlen_length Hp), (zlen_length Hs). lia. Qed.

Lemma zlen_put_output o : wf_output o →
  zlen (put_output o) = 8 + zlen (put_varint (zlen (ro_script o))) + zlen (ro_script o).
Proof. intros Hv. unfold put_output, put_script. rewrite !zlen_app, (zlen_length Hv). lia. Qed.

(** Reading the script at the end of a prefix. *)
Lemma read_script_at {E} pre s rest : zlen s < 2 ^ 62 →
  slice_from (E:=E) (pre ++ put_script s ++ rest) (zlen pre) = Ok (put_script s ++ rest) ∧
  readVarInt (put_script s ++ rest) = (zlen s, zlen (put_varint (zlen s))).
Proof. intros Hs. split; [apply slice_from_app|by apply put_script_read]. Qed.

(** One input. *)
Lemma skip_one pre inp rest fuel i n :
  wf_input inp → zlen (pre ++ put_input inp ++ rest) < 2 ^ 62 → i < n →
  skip_inputs (S fuel) (pre ++ put_input inp ++ rest) i n (zlen pre) =
  skip_inputs fuel (pre ++ put_input inp ++ rest) (i + 1) n (zlen (pre ++ put_input inp)).
Proof.
  intros Hwf Hb Hi. cbn [skip_inputs]. rewrite (proj2 (Z.leb_gt _ _)) by done.
  pose proof (zlen_put_input inp Hwf) as El. rewrite !zlen_app, El in Hb.
  pose proof (zlen_nonneg pre). pose proof (zlen_nonneg (ri_script inp)). pose proof (zlen_nonneg rest).
  pose proof (zlen_put_varint (zlen (ri_script inp))).
  rewrite (i64_pos (zlen pre + 36)) by lia.
  assert (zlen pre + 36 = zlen (pre ++ ri_prev inp)) as Ep.
  { destruct Hwf as [Hp _]. by rewrite zlen_app, (zlen_length Hp). }
  assert (pre ++ put_input inp ++ rest =
          (pre ++ ri_prev inp) ++ put_script (ri_script inp) ++ ri_sequence inp ++ rest) as Etx.
  { unfold put_input. by rewrite <- !app_assoc. }
  destruct (read_script_at (E:=content_err) (pre ++ ri_prev inp) (ri_script inp) (ri_sequence inp ++ rest))
    as [Hs Hr]; [lia|].
  rewrite Ep, Etx at 1. rewrite Hs, Hr. rewrite (i64_pos (zlen (ri_script inp))) by lia.
  rewrite (i64_pos (_ + zlen (put_varint _))), (i64_pos (_ + zlen (ri_script inp))), i64_pos by lia.
  rewrite (proj2 (Z.ltb_ge _ _)) by (rewrite !zlen_app, El; lia).
  f_equal. rewrite zlen_app, El. lia.
Qed.

(** The inputs are skipped to their end. *)
Lemma skip_inputs_put ins pre post fuel i :
  Forall wf_input ins → zlen (pre ++ (ins ≫= put_input) ++ post) < 2 ^ 62 → (length ins ≤ fuel)%nat →
  skip_inputs fuel (pre ++ (ins ≫= put_input) ++ post) i (i + Z.of_nat (length ins)) (zlen pre) =
  Some (Ok (zlen (pre ++ (ins ≫= put_input)))).
Proof.
  intros Hwf. revert pre fuel i. induction Hwf as [|inp ins Hi Hwf IH]; intros pre fuel i Hb Hf.
  - rewrite app_nil_r. destruct fuel; cbn [skip_inputs]; by rewrite (proj2 (Z.leb_le _ _)) by (simpl; lia).
  - destruct fuel as [|fuel]; [cbn in Hf; lia|]. rewrite mbind_cons_bytes, <- app_assoc in *.
    rewrite skip_one by (done || cbn [length]; lia). cbn [length] in *.
    replace (i + Z.of_nat (S (length ins))) with (i + 1 + Z.of_nat (length ins)) by lia.
    rewrite !(app_assoc pre) in *. rewrite IH by (done || lia). by rewrite <- (app_assoc _ _ (ins ≫= _)).
Qed.

(** One output that is not the one looked for, and the one that is. *)
Lemma find_one pre o rest fuel vout i n :
  wf_output o → zlen (pre ++ put_output o ++ rest) < 2 ^ 62 → i < n →
  find_output (S fuel) (pre ++ put_output o ++ rest) vout i n (zlen pre) =
  if i =? vout then Some (Ok (ro_script o))
  else find_output fuel (pre ++ put_output o ++ rest) vout (i + 1) n (zlen (pre ++ put_output o)).
Proof.
  intros Hwf Hb Hi. cbn [find_output]. rewrite (proj2 (Z.leb_gt _ _)) by done.
  pose proof (zlen_put_output o Hwf) as El. rewrite !zlen_app, El in Hb.
  pose proof (zlen_nonneg pre). pose proof (zlen_nonneg (ro_script o)). pose proof (zlen_nonneg rest).
  pose proof (zlen_put_varint (zlen (ro_script o))).
  rewrite (i64_pos (zlen pre + 8)) by lia.
  rewrite (proj2 (Z.ltb_ge _ _)) by (rewrite !zlen_app, El; lia).
  assert (zlen pre + 8 = zlen (pre ++ ro_value o)) as Ep.
  { by rewrite zlen_app, (zlen_length Hwf). }
  assert (pre ++ put_output o ++ rest = (pre ++ ro_value o) ++ put_script (ro_script o) ++ rest) as Etx.
  { unfold put_output. by rewrite <- !app_assoc. }
  destruct (read_script_at (E:=content_err) (pre ++ ro_value o) (ro_script o) rest) as [Hs Hr]; [lia|].
  rewrite Ep, Etx at 1. rewrite Hs, Hr. rewrite (i64_pos (zlen (ro_script o))) by lia.
  rewrite (i64_pos (_ + zlen (put_varint _))), i64_pos by lia.
  rewrite (proj2 (Z.ltb_ge _ _)) by (rewrite !zlen_app, El; lia).
  destruct (i =? vout).
  - f_equal. rewrite Etx. unfold put_script. rewrite <- (app_assoc (put_varint _)).
    rewrite (app_assoc (pre ++ ro_value o)). rewrite Ep, <- zlen_app. apply slice_app.
  - f_equal. rewrite zlen_app, El. lia.
Qed.

Lemma find_output_put outs pre post fuel i vout o :
  Forall wf_output outs → zlen (pre ++ (outs ≫= put_output) ++ post) < 2 ^ 62 → (length outs ≤ fuel)%nat →
  outs !! vout = Some o →
  find_output fuel (pre ++ (outs ≫= put_output) ++ post) (i + Z.of_nat vout) i (i + Z.of_nat (length outs))
    (zlen pre) = Some (Ok (ro_script o)).
Proof.
  intros Hwf. revert pre fuel i vout. induction Hwf as [|o' outs Ho Hwf IH]; intros pre fuel i vout Hb Hf Hl;
    [done|].
  destruct fuel as [|fuel]; [cbn in Hf; lia|]. rewrite mbind_cons_bytes, <- app_assoc in *.
  rewrite find_one by (done || cbn [length]; lia). cbn [length] in *. destruct vout as [|vout].
  - simplify_eq/=. by rewrite (proj2 (Z.eqb_eq _ _)) by lia.
  - rewrite (proj2 (Z.eqb_neq _ _)) by lia.
    replace (i + Z.of_nat (S (length outs))) with (i + 1 + Z.of_nat (length outs)) by lia.
    replace (i + Z.of_nat (S vout)) with (i + 1 + Z.of_nat vout) by lia.
    rewrite !(app_assoc pre) in *. by apply IH; [done|lia|].
Qed.

(** ** One output of a transaction *)

Lemma extract_put version ins outs locktime fuel vout o :
  length version = 4%nat → Forall wf_input ins → Forall wf_output outs →
  zlen (put_tx version ins outs locktime) < 2 ^ 62 → (10 ≤ length (put_tx version ins outs locktime))%nat →
  (length ins ≤ fuel)%nat → (length outs ≤ fuel)%nat → outs !! vout = Some o →
  extractOutputScript fuel (put_tx version ins outs locktime) (Z.of_nat vout) = Some (Ok (ro_script o)).
Proof.
  intros Hv Hi Ho Hb H10 Hfi Hfo Hl. unfold extractOutputScript.
  rewrite (proj2 (Nat.ltb_ge _ _)) by done. unfold put_tx in *.
  set (n := Z.of_nat (length ins)) in *. set (m := Z.of_nat (length outs)) in *.
  set (tail := put_varint m ++ (outs ≫= put_output) ++ locktime) in *.
  rewrite (drop_app_length' version) by done.
  assert (0 ≤ n ≤ zlen (ins ≫= put_input)) as Hni.
  { split; [lia|]. unfold n. clear -Hi. induction Hi as [|inp ins Hinp Hi IH]; [apply zlen_nonneg|].
    rewrite mbind_cons_bytes, zlen_app, zlen_put_input by done. cbn [length].
    pose proof (zlen_put_varint (zlen (ri_script inp))). pose proof (zlen_nonneg (ri_script inp)). lia. }
  assert (0 ≤ m ≤ zlen (outs ≫= put_output)) as Hno.
  { split; [lia|]. unfold m. clear -Ho. induction Ho as [|out outs Hout Ho IH]; [apply zlen_nonneg|].
    rewrite mbind_cons_bytes, zlen_app, zlen_put_output by done. cbn [length].
    pose proof (zlen_put_varint (zlen (ro_script out))). pose proof (zlen_nonneg (ro_script out)). lia. }
  pose proof Hb as Hb'. unfold tail in Hb'. rewrite !zlen_app in Hb'.
  pose proof (zlen_nonneg version). pose proof (zlen_nonneg locktime).
  pose proof (zlen_put_varint n). pose proof (zlen_put_varint m).
  rewrite readVarInt_put by lia. rewrite (i64_pos n) by lia.
  replace (4 + zlen (put_varint n)) with (zlen (version ++ put_varint n))
    by (by rewrite zlen_app, (zlen_length Hv)).
  rewrite (app_assoc version). rewrite (app_assoc version) in Hb.
  pose proof (skip_inputs_put ins (version ++ put_varint n) tail fuel 0 Hi Hb Hfi) as Es.
  rewrite Z.add_0_l in Es. fold n in Es. rewrite Es. rewrite app_assoc, slice_from_app. unfold tail at 1.
  rewrite readVarInt_put by lia. rewrite (i64_pos m) by lia.
  pose proof (lookup_lt_Some _ _ _ Hl). rewrite (proj2 (Z.leb_gt _ _)) by lia.
  rewrite <- zlen_app, i64_pos by (rewrite !zlen_app; lia).
  unfold tail in *. rewrite (app_assoc (_ ++ _) (put_varint m)). rewrite !(app_assoc _ (put_varint m)) in Hb.
  rewrite app_assoc in Hb.
  pose proof (find_output_put outs (((version ++ put_varint n) ++ (ins ≫= put_input)) ++ put_varint m)
    locktime fuel 0 vout o Ho) as Ef.
  rewrite !Z.add_0_l in Ef. apply Ef; [|done..]. by rewrite <- !app_assoc in Hb |- *.
Qed.

(** ** Pushes and envelopes *)

Definition put_push (b : bytes) : bytes :=
  let n := zlen b in
  if (1 <=? n) && (n <=? 75) then z_byte n :: b
  else if n <? 2 ^ 8 then x4c :: z_le_bytes 1 n ++ b
  else if n <? 2 ^ 16 then x4d :: z_le_bytes 2 n ++ b else x4e :: z_le_bytes 4 n ++ b.

Lemma le2 a b : Z.lor (byte_z a) (Z.shiftl (byte_z b) 8) = le_bytes_z [a; b].
Proof.
  rewrite Z.lor_comm, lor_shiftl_add by (pose proof (byte_z_bound a); lia). cbn [le_bytes_z]. lia.
Qed.

Lemma le4 a b c d :
  Z.lor (Z.lor (Z.lor (byte_z a) (Z.shiftl (byte_z b) 8)) (Z.shiftl (byte_z c) 16)) (Z.shiftl (byte_z d) 24)
  = le_bytes_z [a; b; c; d].
Proof.
  rewrite le2, (Z.lor_comm (le_bytes_z _)).
  pose proof (byte_z_bound a). pose proof (byte_z_bound b). pose proof (byte_z_bound c).
  rewrite lor_shiftl_add by (cbn [le_bytes_z]; lia).
  rewrite (Z.lor_comm _ (Z.shiftl _ 24)), lor_shiftl_add by (cbn [le_bytes_z]; lia).
  cbn [le_bytes_z]. lia.
Qed.

Lemma take_drop_sized b rest :
  (if zlen (b ++ rest) <? zlen b then None
   else Some (take (Z.to_nat (zlen b)) (b ++ rest), drop (Z.to_nat (zlen b)) (b ++ rest))) = Some (b, rest).
Proof.
  rewrite zlen_app. pose proof (zlen_nonneg rest). rewrite (proj2 (Z.ltb_ge _ _)) by lia.
  unfold zlen. by rewrite Nat2Z.id, take_app_length, drop_app_length.
Qed.

Lemma readPush_put b rest : zlen b < 2 ^ 32 → readPush (put_push b ++ rest) = Some (b, rest).
Proof.
  intros Hb. pose proof (zlen_nonneg b) as Hn. unfold put_push.
  destruct ((1 <=? zlen b) && (zlen b <=? 75)) eqn:E.
  - apply andb_true_iff in E as [H1%Z.leb_le H2%Z.leb_le]. cbn [app readPush].
    rewrite byte_z_z, Z.mod_small by lia.
    rewrite (proj2 (Z.leb_le 1 _)), (proj2 (Z.leb_le _ 75)) by lia. apply take_drop_sized.
  - clear E. destruct (Z.ltb_spec (zlen b) (2 ^ 8)) as [H1|H1];
      [|destruct (Z.ltb_spec (zlen b) (2 ^ 16)) as [H2|H2]]; cbn -[Z.lor Z.shiftl zlen].
    + rewrite byte_z_z, Z.mod_small by lia. apply take_drop_sized.
    + rewrite le2. change [z_byte (zlen b); z_byte (zlen b / 256)] with (z_le_bytes 2 (zlen b)).
      rewrite le_bytes_z_le, Z.mod_small by (change (256 ^ Z.of_nat 2) with (2 ^ 16); lia).
      apply take_drop_sized.
    + rewrite le4. change [z_byte (zlen b); z_byte (zlen b / 256); z_byte (zlen b / 256 / 256);
        z_byte (zlen b / 256 / 256 / 256)] with (z_le_bytes 4 (zlen b)).
      rewrite le_bytes_z_le, Z.mod_small by (change (256 ^ Z.of_nat 4) with (2 ^ 32); lia).
      apply take_drop_sized.
Qed.

(** [OP_FALSE OP_IF "ord" OP_1 <type> OP_0 <data> OP_ENDIF]. *)
Definition ordinal (ct data : bytes) : bytes :=
  ord_marker ++ x51 :: put_push ct ++ x00 :: put_push data ++ [x68].

Lemma tryParseOrdinal_put now pre ct data post :
  bytes_index (pre ++ ordinal ct data ++ post) ord_marker = Some (length pre) →
  zlen ct < 2 ^ 32 → zlen data < 2 ^ 32 →
  tryParseOrdinal now (pre ++ ordinal ct data ++ post) = Some (MkInscription ct data now).
Proof.
  intros Hidx Hc Hd. unfold tryParseOrdinal. rewrite Hidx. cbn [mbind option_bind].
  unfold ordinal. rewrite <- !app_assoc. rewrite <- drop_drop, drop_app_length, drop_app_length.
  cbn [app]. rewrite <- !app_assoc. cbn [app]. rewrite <- !app_assoc. cbn [app].
  set (s := put_push ct ++ _). cbn [length].
  assert (∃ k, length s = S (S k)) as [k ->].
  { unfold s. exists (length s - 2)%nat. unfold s. rewrite !length_app. cbn [length].
    rewrite length_app. cbn [length]. unfold put_push. repeat case_match; cbn [length]; lia. }
  cbn [ordinal_fields]. rewrite decide_True by done. unfold s. rewrite readPush_put by done.
  cbn [ordinal_fields]. rewrite decide_False, decide_True by done. rewrite readPush_put by done.
  cbn [ordinal_fields]. by rewrite !decide_False, decide_True by done.
Qed.

(** A transaction with an output has at least ten bytes. *)
Lemma put_tx_long version ins outs locktime vout o :
  length version = 4%nat → Forall wf_output outs → outs !! vout = Some o →
  (10 ≤ length (put_tx version ins outs locktime))%nat.
Proof.
  intros Hv Ho Hl. unfold put_tx. rewrite !length_app.
  assert (8 ≤ length (outs ≫= put_output))%nat ; [|lia].
  apply list_elem_of_lookup_2, list_elem_of_split in Hl as (l1 & l2 & ->).
  rewrite bind_app, length_app, mbind_cons_bytes, length_app.
  apply Forall_app in Ho as [_ Ho]. apply list.Forall_cons in Ho as [Ho _].
  unfold wf_output in Ho. unfold put_output. rewrite length_app. lia.
Qed.

(** C31: the inscription in an output of a well-formed transaction is found by
    the output's number, with its content type and every byte of its data,
    whatever precedes and follows the envelope, the inputs and the other
    outputs; the walk ends within a turn per input and output. *)
Theorem parseInscription_roundtrip version ins outs locktime fuel now voutStr vout value pre ct data post :
  length version = 4%nat → Forall wf_input ins → Forall wf_output outs →
  zlen (put_tx version ins outs locktime) < 2 ^ 62 →
  (length ins ≤ fuel)%nat → (length outs ≤ fuel)%nat →
  atoi voutStr = Some (Z.of_nat vout) →
  outs !! vout = Some (MkRawOutput value (pre ++ ordinal ct data ++ post)) →
  bytes_index (pre ++ ordinal ct data ++ post) ord_marker = Some (length pre) →
  zlen ct < 2 ^ 32 → zlen data < 2 ^ 32 →
  parseInscription fuel now (hex_encode (put_tx version ins outs locktime)) voutStr =
  Some (Ok (MkInscription ct data now)).
Proof.
  intros Hv Hi Ho Hb Hfi Hfo Ha Hl Hidx Hc Hd. unfold parseInscription.
  rewrite hex_decode_encode_Some, Ha.
  pose proof (put_tx_long version ins outs locktime vout _ Hv Ho Hl) as H10.
  rewrite (extract_put version ins outs locktime fuel vout _ Hv Hi Ho Hb H10 Hfi Hfo Hl).
  cbn [ro_script]. by rewrite tryParseOrdinal_put.
Qed.

(** ** Transactions that are not what they should be *)

(** A count of [2^63 - 1] inputs and one input whose script length, read as a
    signed number, takes the position back to where it was. *)
Definition spinning_tx : bytes :=
  replicate 4 x01 ++ (xff :: z_le_bytes 8 (2 ^ 63 - 1)) ++
  replicate 36 x00 ++ (xff :: z_le_bytes 8 (2 ^ 64 - 49)).

Lemma spin_step fuel i n : i < n →
  skip_inputs (S fuel) spinning_tx i n 13 = skip_inputs fuel spinning_tx (i + 1) n 13.
Proof.
  intros Hi. cbn [skip_inputs]. rewrite (proj2 (Z.leb_gt _ _)) by done.
  assert (slice_from (E:=content_err) spinning_tx (i64 (13 + 36)) = Ok (xff :: z_le_bytes 8 (2 ^ 64 - 49)))
    as -> by (vm_compute; reflexivity).
  assert (readVarInt (xff :: z_le_bytes 8 (2 ^ 64 - 49)) = (2 ^ 64 - 49, 9)) as -> by (vm_compute; reflexivity).
  assert (i64 (i64 (i64 (i64 (13 + 36) + 9) + i64 (2 ^ 64 - 49)) + 4) = 13) as -> by (vm_compute; reflexivity).
  by assert ((zlen spinning_tx <? 13) = false) as -> by (vm_compute; reflexivity).
Qed.

Lemma spin_inputs fuel i : i + Z.of_nat fuel < 2 ^ 63 - 1 → skip_inputs fuel spinning_tx i (2 ^ 63 - 1) 13 = None.
Proof.
  revert i. induction fuel as [|fuel IH]; intros i Hi.
  - cbn [skip_inputs]. by rewrite (proj2 (Z.leb_gt _ _)) by lia.
  - rewrite spin_step by lia. apply IH. lia.
Qed.

(** A transaction of 58 bytes keeps the walk busy for more than [2^62]
    turns: a script length that is negative as an [int] takes the position
    back, and the check against the length of the transaction looks at one
    direction only. *)
Theorem extractOutputScript_spins fuel vout :
  length spinning_tx = 58%nat ∧
  (Z.of_nat fuel ≤ 2 ^ 62 → extractOutputScript fuel spinning_tx vout = None).
Proof.
  split; [reflexivity|]. intros Hf. unfold extractOutputScript.
  assert ((length spinning_tx <? 10)%nat = false) as -> by reflexivity.
  assert (readVarInt (drop 4 spinning_tx) = (2 ^ 63 - 1, 9)) as -> by (vm_compute; reflexivity).
  assert (i64 (2 ^ 63 - 1) = 2 ^ 63 - 1) as -> by reflexivity.
  change (4 + 9) with 13. by rewrite spin_inputs by lia.
Qed.

(** A transaction cut off inside an input is sliced beyond its end. *)
Lemma extractOutputScript_panics vout :
  extractOutputScript 1 (replicate 4 x01 ++ (x01 :: replicate 5 x00)) vout = Some Panic.
Proof. reflexivity. Qed.

(** ** The cache *)

Lemma oldest_spec now visit : let '(k, t) := foldl oldest_step ([], now) visit in
  (∀ kv, kv ∈ visit → t ≤ FetchedAt kv.2) ∧ t ≤ now ∧
  (t < now → ∃ i, (k, i) ∈ visit ∧ FetchedAt i = t).
Proof.
  induction visit as [|kv visit IH] using rev_ind.
  - split; [by intros ? []%elem_of_nil|]. split; lia.
  - rewrite foldl_snoc. destruct (foldl oldest_step ([], now) visit) as [k t].
    destruct IH as (Hmin & Hle & Hin). unfold oldest_step. cbn [snd].
    destruct (Z.ltb_spec (FetchedAt kv.2) t) as [Hlt|Hge].
    + split; [|split; [lia|]].
      * intros kv' [Hk| ->%list_elem_of_singleton]%elem_of_app; [|lia]. specialize (Hmin _ Hk). lia.
      * intros _. exists kv.2. split; [|done]. apply elem_of_app. right.
        apply list_elem_of_singleton. by destruct kv.
    + split; [|split; [done|]].
      * intros kv' [Hk| ->%list_elem_of_singleton]%elem_of_app; [by apply Hmin|done].
      * intros Ht. destruct (Hin Ht) as (i & Hi & E). exists i. split; [|done]. apply elem_of_app. by left.
Qed.

Section cache.
Context `{MapOrderLaws} (decode_status decode_tx : bytes → option WoCStatus)
  (decode_proofs : bytes → option (list bytes)) (decode_hex : bytes → option bytes) (uni : bytes → bytes)
  (error_text : content_err → bytes).

(** At most ten thousand entries, all fetched before [now]. *)
Definition cache_ok (now : Z) (c : gmap bytes inscription) : Prop :=
  Z.of_nat (size c) ≤ cache_limit ∧ ∀ k i, c !! k = Some i → k ≠ [] ∧ FetchedAt i < now.

(** Only an oldest entry is given up. *)
Definition drops_oldest (c c' : gmap bytes inscription) : Prop :=
  ∀ k i, c !! k = Some i → c' !! k = None → ∀ k' i', c' !! k' = Some i' → FetchedAt i ≤ FetchedAt i'.

Lemma cache_put_ok now key insc c :
  key ≠ [] → FetchedAt insc = now → cache_ok now c →
  (∀ later, now < later → cache_ok later (cache_put now key insc c)) ∧
  drops_oldest c (cache_put now key insc c) ∧ cache_put now key insc c !! key = Some insc.
Proof.
  intros Hkey Hnow [Hs Hc]. unfold cache_put. set (c1 := <[key:=insc]> c).
  assert (∀ k i, c1 !! k = Some i → k ≠ [] ∧ FetchedAt i ≤ now) as Hc1.
  { intros k i [[<- <-]|[Hk Hi]]%lookup_insert_Some; [split; [done|lia]|].
    destruct (Hc _ _ Hi). split; [done|lia]. }
  destruct (Z.ltb_spec cache_limit (Z.of_nat (size c1))) as [Hsz|Hsz].
  2:{ split; [|split; [|unfold c1; by rewrite lookup_insert_eq]].
      - intros later Hl. split; [done|]. intros k i Hi. destruct (Hc1 _ _ Hi). split; [done|lia].
      - intros k i Hi Hn. unfold c1 in Hn. by apply lookup_insert_None in Hn as [Hn _]; rewrite Hi in Hn. }
  assert (c !! key = None) as Hnew.
  { destruct (c !! key) as [i|] eqn:E; [|done]. unfold c1 in Hsz. rewrite map_size_insert_Some in Hsz by eauto. lia. }
  unfold c1 in Hsz. rewrite map_size_insert_None in Hsz by done. unfold cache_limit in *.
  unfold oldest. pose proof (oldest_spec now (map_order c1)) as Ho.
  destruct (foldl oldest_step ([], now) (map_order c1)) as [old t]. cbn [fst].
  destruct Ho as (Hmin & Hle & Hin).
  assert (t < now) as Ht.
  { destruct (map_choose c) as (k & i & Hi); [intros ->; rewrite map_size_empty in Hsz; lia|].
    destruct (Hc _ _ Hi) as [_ Hlt]. assert ((k, i) ∈ map_order c1) as Hel.
    { apply elem_of_map_order. unfold c1. rewrite lookup_insert_ne; [done|]. intros ->. by rewrite Hi in Hnew. }
    specialize (Hmin _ Hel). cbn in Hmin. lia. }
  destruct (Hin Ht) as (io & Hio & Eo). apply elem_of_map_order in Hio.
  destruct (Hc1 _ _ Hio) as [Hold _]. rewrite bool_decide_false by done.
  assert (old ≠ key) as Hok.
  { intros ->. unfold c1 in Hio. rewrite lookup_insert_eq in Hio. simplify_eq. lia. }
  split; [|split].
  - intros later Hl. split.
    + rewrite map_size_delete_Some by done. unfold c1. rewrite map_size_insert_None by done. unfold cache_limit. lia.
    + intros k i [_ Hi]%lookup_delete_Some. destruct (Hc1 _ _ Hi). split; [done|lia].
  - intros k i Hi Hn k' i' [_ Hi']%lookup_delete_Some.
    assert (FetchedAt i ≤ t) as Hit; [|apply elem_of_map_order, Hmin in Hi'; cbn in Hi'; lia].
    apply lookup_delete_None in Hn as [<-|Hn].
    + unfold c1 in Hio. rewrite lookup_insert_ne in Hio by done. simplify_eq. lia.
    + unfold c1 in Hn. by apply lookup_insert_None in Hn as [Hn _]; rewrite Hi in Hn.
  - rewrite lookup_delete_ne by done. unfold c1. by rewrite lookup_insert_eq.
Qed.

Lemma ordinal_fields_now fuel now b ct data insc :
  ordinal_fields fuel now b ct data = Some (Some insc) → FetchedAt insc = now.
Proof.
  revert b ct data. induction fuel as [|fuel IH]; intros b ct data Ho; [done|]. cbn [ordinal_fields] in Ho.
  destruct b as [|op b]; [destruct data; by simplify_eq/=|].
  repeat case_decide; try (case_match; [|done]; case_match); eauto. destruct data; by simplify_eq/=.
Qed.

Lemma parseInscription_now fuel now rawTxHex voutStr insc :
  parseInscription fuel now rawTxHex voutStr = Some (Ok insc) → FetchedAt insc = now.
Proof.
  unfold parseInscription. case_match; [|done]. case_match; [|done].
  destruct (extractOutputScript _ _ _) as [[script| |]|]; try done. intros [= E].
  destruct (tryParseOrdinal now script) as [i|] eqn:Eo.
  - injection E as <-. unfold tryParseOrdinal in Eo. destruct (bytes_index _ _); [|done]. cbn -[ordinal_fields] in Eo.
    destruct (ordinal_fields _ _ _ _ _) as [[i'|]|] eqn:Ef; [|done|done].
    cbn [default from_option id] in Eo. injection Eo as ->. by eapply ordinal_fields_now.
  - destruct (tryParseBProtocol now script) as [i|] eqn:Eb; [|done]. injection E as <-.
    unfold tryParseBProtocol in Eb. destruct (bytes_index _ _); [|done]. cbn in Eb. case_all; done.
Qed.

(** Whatever is requested, the cache keeps at most ten thousand entries,
    and gives up none but an oldest one; an entry of the last day is served as
    it was parsed. *)
Theorem ServeContent_cache fuel now origin s s' w :
  cache_ok now (sv_cache s) →
  ServeContent decode_status decode_tx decode_proofs decode_hex uni error_text fuel now origin s = Some (s', w) →
  (∀ later, now < later → cache_ok later (sv_cache s')) ∧ drops_oldest (sv_cache s) (sv_cache s') ∧
  (∀ txid vout insc, origin = txid ++ lit "_" ++ vout → length txid = 64%nat → x5f ∉ txid →
     sv_cache s !! origin = Some insc → since now (FetchedAt insc) < sv_maxAge s →
     s' = s ∧ w = Some (serveInscription insc)).
Proof.
  intros Hok HS.
  assert ((∀ later, now < later → cache_ok later (sv_cache s)) ∧ drops_oldest (sv_cache s) (sv_cache s)) as Hsame.
  { split.
    - intros later Hl. destruct Hok as [Hs Hc]. split; [done|]. intros k i Hi. destruct (Hc _ _ Hi). split; [done|lia].
    - intros k i Hi Hn. by rewrite Hi in Hn. }
  assert (s' = s ∨ ∃ key insc, key ≠ [] ∧ FetchedAt insc = now ∧
            s' = set_cache (cache_put now key insc (sv_cache s)) s) as Hs'.
  { unfold ServeContent in HS. case_match; [simplify_eq; by left|].
    destruct (split2 x5f origin) as [txid rest]. case_match; [simplify_eq; by left|]. cbv zeta in HS.
    set (key := txid ++ lit "_" ++ _) in HS.
    assert (key ≠ []) as Hkey by (unfold key; destruct txid; done).
    assert (∀ fetch, (match sv_cache s !! key with
      | Some cached => if since now (FetchedAt cached) <? sv_maxAge s
                       then Some (s, Some (serveInscription cached)) else fetch
      | None => fetch end) = Some (s', w) → s' = s ∨ fetch = Some (s', w)) as Hf.
    { intros fetch. case_match; [case_match|]; intros E; simplify_eq; auto. }
    apply Hf in HS as [HS|HS]; [by left|].
    match type of HS with match ?f with _ => _ end = _ => destruct f as [raw|] end;
      [|injection HS as <- _; by left].
    destruct (parseInscription _ _ _ _) as [[insc| |]|] eqn:Ep; try done; injection HS as <- _; try by left.
    right. exists key, insc. split; [done|]. split; [by eapply parseInscription_now|done]. }
  split; [|split].
  - destruct Hs' as [->|(key & insc & Hk & Hn & ->)]; [apply Hsame|]. by eapply cache_put_ok.
  - destruct Hs' as [->|(key & insc & Hk & Hn & ->)]; [apply Hsame|]. by eapply cache_put_ok.
  - intros txid vout insc -> H64 Hsep Hl Hage. unfold ServeContent in HS.
    rewrite bool_decide_false in HS by (destruct txid; done).
    rewrite split2_app in HS by done. rewrite H64 in HS. cbn [Nat.eqb negb default from_option id] in HS.
    cbv zeta in HS. rewrite Hl, (proj2 (Z.ltb_lt _ _)) in HS by done. by simplify_eq.
Qed.
End cache.

(** * The content server at concrete transactions *)

Definition input1 : RawInput := MkRawInput (replicate 36 xaa) [x51; x52] (replicate 4 xff).
Definition png : bytes := lit "image/png".
Definition picture : bytes := replicate 300 x7f.
Definition output0 : RawOutput := MkRawOutput (replicate 8 x00) [x6a].
Definition output1 : RawOutput := MkRawOutput (replicate 8 x01) ([x76; xa9] ++ ordinal png picture ++ [xac]).
Definition inscribed : bytes := put_tx (replicate 4 x01) [input1] [output0; output1] (replicate 4 x00).

Lemma parseInscription_roundtrip_witness :
  parseInscription 2 7 (hex_encode inscribed) (lit "1") = Some (Ok (MkInscription png picture 7)).
Proof.
  refine (parseInscription_roundtrip (replicate 4 x01) [input1] [output0; output1] (replicate 4 x00)
    2 7 (lit "1") 1 (replicate 8 x01) [x76; xa9] png picture [xac] eq_refl _ _ _ _ _ _ eq_refl _ _ _);
    try (vm_compute; reflexivity); try (simpl; lia).
  - repeat constructor.
  - repeat constructor.
Defined.

(** A server that asks the explorer, which has one transaction. *)
Definition txid1 : bytes := replicate 64 x61.
Definition explorer (url : bytes) : option (Z * bytes) :=
  if bool_decide (url = lit "woc/tx/" ++ txid1 ++ lit "/hex") then Some (200, hex_encode inscribed) else None.
Definition sources1 : Sources := MkSources (lit "woc") None None None explorer.
Definition no_decode {A} (_ : bytes) : option A := None.
Definition serve (now : Z) (s : Server) : option (Server * option Response) :=
  ServeContent no_decode no_decode no_decode no_decode id (λ _, []) 2 now (txid1 ++ lit "_" ++ lit "1") s.
Definition server0 : Server := NewServer sources1.
Definition served (r : option (Server * option Response)) : Server :=
  match r with Some (s, _) => s | None => server0 end.
Definition server1 : Server := served (serve 5 server0).

Lemma serve_first : match serve 5 server0 with Some (_, Some w) => w_body w = Text picture | _ => False end.
Proof. vm_compute. reflexivity. Qed.

(** The second request is answered from the cache. *)
Lemma cache0_ok : cache_ok 5 (sv_cache server0).
Proof. split; [vm_compute; discriminate|]. intros k i Hi. cbn in Hi. by rewrite lookup_empty in Hi. Qed.
Definition insc1 : inscription := MkInscription png picture 5.
Lemma server1_entry : sv_cache server1 !! (txid1 ++ lit "_" ++ lit "1") = Some insc1.
Proof. vm_compute. reflexivity. Qed.

Lemma run_served now s : match serve now s with Some _ => true | None => false end = true →
  serve now s = Some (served (serve now s), match serve now s with Some (_, w) => w | None => None end).
Proof. destruct (serve now s) as [[]|]; done. Qed.

Lemma ServeContent_cache_witness :
  cache_ok 6 (sv_cache server1) ∧
  match serve hour server1 with Some (_, w) => w | None => None end = Some (serveInscription insc1).
Proof.
  destruct (ServeContent_cache no_decode no_decode no_decode no_decode id (λ _, []) 2 5
    (txid1 ++ lit "_" ++ lit "1") server0 server1 _ cache0_ok (run_served 5 server0 ltac:(vm_compute; reflexivity)))
    as (Hok & _ & _).
  split; [apply Hok; lia|].
  destruct (ServeContent_cache no_decode no_decode no_decode no_decode id (λ _, []) 2 hour
    (txid1 ++ lit "_" ++ lit "1") server1 _ _ (Hok hour ltac:(vm_compute; reflexivity))
    (run_served hour server1 ltac:(vm_compute; reflexivity))) as (_ & _ & Hf).
  destruct (Hf txid1 (lit "1") insc1 eq_refl eq_refl ltac:(vm_compute; intros HH; repeat (apply elem_of_cons in HH as [HH|HH]; [discriminate HH|]); by apply elem_of_nil in HH)
    server1_entry ltac:(vm_compute; reflexivity)) as [_ Hw].
  exact Hw.
Defined.
