(* ===== verification/RateLimit.v ===== *)
(** * Operator authentication and request rate limits ([internal/api/auth.go]) *)

From Stdlib Require Import Init.Byte Strings.Byte Strings.String Lia ZArith.
From stdpp Require Import base gmap sets list strings numbers.
From S2P Require Import Prelude GoStd LevelDB GoText Float Http.
Open Scope Z_scope.

(** ** requireAuth *)

Definition cors_origin : bytes * bytes := (lit "Access-Control-Allow-Origin", lit "*").

(** The token of a request: [X-Anvil-Auth], else the bearer token. *)
Definition request_token (r : Request) : bytes :=
  let token := header r (lit "X-Anvil-Auth") in
  if bool_decide (token = []) then
    let auth := header r (lit "Authorization") in
    if (7 <? length auth)%nat && bool_decide (take 7 auth = lit "Bearer ") then drop 7 auth
    else token
  else token.

Definition requireAuth {S} (authToken : bytes) (next : Handler S) : Handler S := λ r s,
  if bool_decide (r_method r = MethodOptions) then
    answer (add_header (lit "Access-Control-Allow-Origin") (lit "*")
      (add_header (lit "Access-Control-Allow-Headers")
         (lit "Content-Type, X-App-Token, X-Anvil-Auth, Authorization, X402-Proof")
         (add_header (lit "Access-Control-Allow-Methods") (lit "GET, POST, DELETE, OPTIONS")
            (MkResponse StatusNoContent ∅ NoBody)))) r s
  else if bool_decide (authToken = []) then
    answer (writeError StatusForbidden (lit "no auth token configured — write endpoints disabled")) r s
  else if bool_decide (request_token r ≠ authToken) then
    answer (writeError StatusUnauthorized (lit "unauthorized")) r s
  else with_header (lit "Access-Control-Allow-Origin") (lit "*") next r s.

(** ** The rate limiter *)

Record bucket := MkBucket { b_tokens : float64; b_lastSeen : Z }.

Record RateLimiter := MkRateLimiter {
  rl_buckets : gmap bytes bucket;
  rl_rate : Z;
  rl_burst : Z;
  rl_cleanup : Z;
  rl_trustProxy : bool
}.

Definition NewRateLimiter (rate : Z) (trustProxy : bool) : RateLimiter :=
  let rate := if rate <=? 0 then 100 else rate in
  let burst := if rate <? 10 then 10 else rate in
  MkRateLimiter ∅ rate burst (5 * minute) trustProxy.

Definition set_bucket (key : bytes) (b : bucket) (rl : RateLimiter) : RateLimiter :=
  MkRateLimiter (<[key := b]> (rl_buckets rl)) (rl_rate rl) (rl_burst rl) (rl_cleanup rl)
    (rl_trustProxy rl).

Definition Allow (now : Z) (key : bytes) (rl : RateLimiter) : RateLimiter * bool :=
  match rl_buckets rl !! key with
  | None =>
      (set_bucket key (MkBucket (f64_sub (f64_of_Z (rl_burst rl)) (f64_of_Z 1)) now) rl, true)
  | Some b =>
      let tokens := refill (f64_of_Z (rl_rate rl)) (f64_of_Z (rl_burst rl))
                      (since now (b_lastSeen b)) (b_tokens b) in
      let '(tokens, ok) := take_token tokens in
      (set_bucket key (MkBucket tokens now) rl, ok)
  end.

(** One turn of [evictLoop]. *)
Definition evict (now : Z) (rl : RateLimiter) : RateLimiter :=
  let cutoff := now - rl_cleanup rl in
  MkRateLimiter (filter (λ kb, cutoff ≤ b_lastSeen kb.2) (rl_buckets rl)) (rl_rate rl)
    (rl_burst rl) (rl_cleanup rl) (rl_trustProxy rl).

(** The bytes before the first comma; the bytes before the last colon. *)
Fixpoint before_comma (s : bytes) : bytes :=
  match s with
  | [] => []
  | c :: s' => if decide (c = x2c) then [] else c :: before_comma s'
  end.
Fixpoint before_last_colon (s : bytes) : option bytes :=
  match s with
  | [] => None
  | c :: s' =>
      match before_last_colon s' with
      | Some p => Some (c :: p)
      | None => if decide (c = x3a) then Some [] else None
      end
  end.

Definition clientIP (r : Request) (trustProxy : bool) : bytes :=
  let xff := header r (lit "X-Forwarded-For") in
  if trustProxy && negb (bool_decide (xff = [])) then before_comma xff
  else default (r_remote r) (before_last_colon (r_remote r)).

Definition Middleware {S} (now : Z) (next : Handler S) : Handler (RateLimiter * S) := λ r '(rl, s),
  let '(rl, ok) := Allow now (clientIP r (rl_trustProxy rl)) rl in
  if ok then let '(s, w) := next r s in ((rl, s), w)
  else ((rl, s), Some (add_header (lit "Retry-After") (lit "1")
                         (writeError StatusTooManyRequests (lit "rate limit exceeded")))).

(** ** Properties *)

(** A protected handler runs exactly for the requests (other than CORS
    preflights) that present the configured token; without a configured token
    every request is refused. *)
Theorem requireAuth_iff {S} authToken (next : Handler S) r s :
  r_method r ≠ MethodOptions →
  requireAuth authToken next r s =
    (if bool_decide (authToken ≠ [] ∧ request_token r = authToken)
     then with_header (lit "Access-Control-Allow-Origin") (lit "*") next r s
     else (s, Some (if bool_decide (authToken = [])
          then writeError StatusForbidden (lit "no auth token configured — write endpoints disabled")
          else writeError StatusUnauthorized (lit "unauthorized")))).
Proof.
  intros Hm. unfold requireAuth, answer. rewrite bool_decide_false by done.
  repeat case_bool_decide; try done; naive_solver.
Qed.

Lemma requireAuth_iff_witness :
  requireAuth (lit "s3cret") (answer (MkResponse StatusOK ∅ NoBody))
    (MkRequest (lit "POST") (lit "node") (lit "/data") []
       {[ lit "Authorization" := lit "Bearer guess" ]} [] []) ()
  = ((), Some (writeError StatusUnauthorized (lit "unauthorized"))).
Proof.
  refine (requireAuth_iff (lit "s3cret") _ _ _ _). discriminate.
Defined.

(** The outcomes of a sequence of requests at one instant. *)
Fixpoint allow_all (now : Z) (keys : list bytes) (rl : RateLimiter) : list bool :=
  match keys with
  | [] => []
  | k :: keys' => let '(rl', ok) := Allow now k rl in ok :: allow_all now keys' rl'
  end.

(** The outcomes of the requests of one key. *)
Definition outcomes_of (key : bytes) (keys : list bytes) (outs : list bool) : list bool :=
  (filter (λ p, p.1 = key) (zip keys outs)).*2.

Lemma allow_params now k rl :
  rl_rate (Allow now k rl).1 = rl_rate rl ∧ rl_burst (Allow now k rl).1 = rl_burst rl.
Proof. unfold Allow. case_match; [destruct (take_token _)|]; done. Qed.

Lemma allow_other now k k' rl :
  k ≠ k' → rl_buckets (Allow now k rl).1 !! k' = rl_buckets rl !! k'.
Proof.
  intros Hne. unfold Allow. case_match; [destruct (take_token _)|]; simpl;
    by rewrite lookup_insert_ne.
Qed.

(** What the limiter does to one key does not depend on the others. *)
Lemma allow_all_drain now key keys : ∀ rl b,
  rl_buckets rl !! key = Some b → b_lastSeen b = now →
  outcomes_of key keys (allow_all now keys rl) =
  drain (f64_of_Z (rl_rate rl)) (f64_of_Z (rl_burst rl))
    (length (filter (λ k, k = key) keys)) (b_tokens b).
Proof.
  induction keys as [|k keys IH]; intros rl b Hb Hnow; [done|].
  cbn [allow_all]. destruct (Allow now k rl) as [rl' ok] eqn:HA.
  pose proof (allow_params now k rl) as [HR HB]. rewrite HA in HR, HB. simpl in HR, HB.
  unfold outcomes_of. cbn [zip_with]. destruct (decide (k = key)) as [->|Hne].
  - rewrite !filter_cons_True by done. cbn [length drain fmap list_fmap snd].
    unfold Allow in HA. rewrite Hb, Hnow, since_refl in HA.
    destruct (take_token _) as [t ok']. injection HA as <- <-. f_equal.
    rewrite <- HR, <- HB. apply (IH _ (MkBucket t now)); [apply lookup_insert_eq|done].
  - rewrite !filter_cons_False by done. rewrite <- HR, <- HB. apply IH; [|done].
    pose proof (allow_other now k key rl Hne) as E. rewrite HA in E. simpl in E. by rewrite E.
Qed.

Lemma allow_all_fresh now key keys : ∀ rl,
  rl_buckets rl !! key = None →
  outcomes_of key keys (allow_all now keys rl) =
  take (length (filter (λ k, k = key) keys))
    (true :: drain (f64_of_Z (rl_rate rl)) (f64_of_Z (rl_burst rl))
       (length (filter (λ k, k = key) keys) - 1)
       (f64_sub (f64_of_Z (rl_burst rl)) (f64_of_Z 1))).
Proof.
  induction keys as [|k keys IH]; intros rl Hb; [done|].
  cbn [allow_all]. destruct (Allow now k rl) as [rl' ok] eqn:HA.
  pose proof (allow_params now k rl) as [HR HB]. rewrite HA in HR, HB. simpl in HR, HB.
  unfold outcomes_of. cbn [zip_with]. destruct (decide (k = key)) as [->|Hne].
  - rewrite !filter_cons_True by done. cbn [length fmap list_fmap snd].
    rewrite Nat.sub_succ, Nat.sub_0_r. cbn [take].
    unfold Allow in HA. rewrite Hb in HA.
    apply pair_equal_spec in HA as [<- <-]. f_equal.
    etrans; [apply (allow_all_drain now key keys _ (MkBucket (f64_sub (f64_of_Z (rl_burst rl)) (f64_of_Z 1)) now));
      [apply lookup_insert_eq|done]|].
    rewrite take_ge; [done|].
    generalize (length (filter (λ k, k = key) keys)) as n. intros n.
    generalize (f64_sub (f64_of_Z (rl_burst rl)) (f64_of_Z 1)) as t.
    induction n as [|n IHn]; intros t; [done|]. cbn [drain].
    destruct (take_token _). simpl. apply le_n_S, IHn.
  - rewrite !filter_cons_False by done. rewrite <- HR, <- HB. apply IH.
    pose proof (allow_other now k key rl Hne) as E. rewrite HA in E. simpl in E. by rewrite E.
Qed.

(** The burst of a configured rate. *)
Definition burst_of (rate : Z) : Z := if rate <? 10 then 10 else rate.

(** C39: at one instant a new client is granted exactly its burst, whatever the
    other clients do: of its requests the first [burst] are allowed and the
    rest refused, for every configured rate up to 500 requests per second. *)
Theorem Allow_burst now rate trustProxy keys key :
  1 ≤ rate ≤ 500 →
  let n := length (filter (λ k, k = key) keys) in
  let burst := Z.to_nat (burst_of rate) in
  outcomes_of key keys (allow_all now keys (NewRateLimiter rate trustProxy)) =
  take n (replicate burst true) ++ replicate (n - burst) false.
Proof.
  intros Hr n burst. rewrite allow_all_fresh by apply lookup_empty. fold n.
  unfold NewRateLimiter. destruct (Z.leb_spec rate 0); [lia|].
  cbn [rl_rate rl_burst]. fold (burst_of rate).
  assert (10 ≤ burst_of rate ≤ 500) as Hb5 by (unfold burst_of; destruct (Z.ltb_spec rate 10); lia).
  destruct (integer_500 (burst_of rate)) as (_ & _ & _ & Htake & _); [lia|].
  assert (f64_sub (f64_of_Z (burst_of rate)) (f64_of_Z 1)
          = f64_of_Z (Z.of_nat (Z.to_nat (burst_of rate - 1)))) as ->.
  { rewrite Z2Nat.id by lia. unfold take_token in Htake. case_match; congruence. }
  rewrite drain_500 by lia.
  assert (burst = S (Z.to_nat (burst_of rate - 1))) as Hb.
  { unfold burst, burst_of. destruct (rate <? 10); lia. }
  rewrite Hb. generalize (Z.to_nat (burst_of rate - 1)) as k. intros k.
  destruct n as [|n]; [done|]. rewrite Nat.sub_succ, Nat.sub_0_r. cbn [take replicate app].
  f_equal. rewrite Nat.sub_succ, take_ge; [done|].
  rewrite length_app, length_take, !length_replicate. lia.
Qed.

Lemma Allow_burst_witness :
  outcomes_of (lit "a") (replicate 12 (lit "a") ++ [lit "b"])
    (allow_all 0 (replicate 12 (lit "a") ++ [lit "b"]) (NewRateLimiter 5 false))
  = replicate 10 true ++ replicate 2 false.
Proof.
  refine (Allow_burst 0 5 false (replicate 12 (lit "a") ++ [lit "b"]) (lit "a") _). lia.
Defined.

(** Without a trusted proxy the client key is the connection's address, which
    no header can change. *)
Lemma clientIP_unspoofable r r' :
  r_remote r = r_remote r' → clientIP r false = clientIP r' false.
Proof. intros E. unfold clientIP. by rewrite E. Qed.
