(* ===== verification/Payment.v ===== *)
(** * Payment for requests: x402 ([internal/api/payment.go],
    [payment_resolve.go], [payment_verify.go])

    The gate asks an unpaid request for payment with a challenge, remembers
    the challenge, and lets a request through that proves a payment to every
    payee. [verifyProof] reads and removes the pending challenge in separate
    critical sections: [lookup_challenge], [check_proof] and
    [consume_challenge] are its steps. *)

From Stdlib Require Import Init.Byte Strings.Byte Strings.String Lia ZArith.
From stdpp Require Import base gmap sets list strings numbers sorting.
From S2P Require Import Prelude GoStd Sha256 LevelDB GoText Http Tx Ec Envelope EnvelopeStore.
Open Scope Z_scope.

Record Payee := MkPayee { Role : bytes; LockingScriptHex : bytes; AmountSats : Z }.

Record NonceUTXO := MkNonce {
  nu_TxID : bytes; nu_Vout : Z; nu_Satoshis : Z; nu_LockingScriptHex : bytes
}.

Record X402Challenge := MkChallenge {
  ch_V : Z; ch_Scheme : bytes; ch_Domain : bytes; ch_Method : bytes; ch_Path : bytes;
  ch_Query : bytes; ch_ReqHeadersSHA256 : bytes; ch_ReqBodySHA256 : bytes; ch_AmountSats : Z;
  ch_PayeeLockingScriptHex : bytes; ch_Payees : list Payee; ch_NonceUTXO : option NonceUTXO;
  ch_ExpiresAt : Z; ch_RequireMempoolAccept : bool
}.

Record ProofRequest := MkProofRequest {
  pr_Method : bytes; pr_Path : bytes; pr_Query : bytes;
  pr_ReqHeadersSHA256 : bytes; pr_ReqBodySHA256 : bytes
}.
Record ProofPayment := MkProofPayment { pp_TxID : bytes; pp_RawTxB64 : bytes }.
Record X402Proof := MkProof {
  pf_V : Z; pf_Scheme : bytes; pf_ChallengeSHA256 : bytes;
  pf_Request : ProofRequest; pf_Payment : ProofPayment
}.

Record X402Receipt := MkReceipt { rc_TxID : bytes; rc_Satoshis : Z; rc_Timestamp : Z }.

Record pendingChallenge := MkPending { pc_challenge : X402Challenge; pc_payees : list Payee }.

(** What the gate uses of the ARC client: the status ARC answers, or a failure. *)
Definition ArcSubmit := bytes → option bytes.

(** The topic resolver and the nonce provider of the gate are arguments of its
    operations. *)
Record PaymentGate := MkGate {
  pg_priceSats : Z;
  pg_payeeScriptHex : bytes;
  pg_challengeTTL : Z;
  pg_requireMempool : bool;
  pg_arcClient : option ArcSubmit;
  pg_allowPassthrough : bool;
  pg_allowSplit : bool;
  pg_maxAppPriceSats : Z;
  pg_endpointPrices : gmap bytes Z;
  pg_pendingChallenges : gmap bytes pendingChallenge
}.

Definition set_pending (p : gmap bytes pendingChallenge) (pg : PaymentGate) : PaymentGate :=
  MkGate (pg_priceSats pg) (pg_payeeScriptHex pg) (pg_challengeTTL pg) (pg_requireMempool pg)
    (pg_arcClient pg) (pg_allowPassthrough pg) (pg_allowSplit pg) (pg_maxAppPriceSats pg)
    (pg_endpointPrices pg) p.

Record PaymentGateConfig := MkGateConfig {
  cfg_PriceSats : Z;
  cfg_PayeeScriptHex : bytes;
  cfg_NonceProvider : bool; (* whether there is one *)
  cfg_ChallengeTTL : Z;
  cfg_RequireMempool : bool;
  cfg_ARCClient : option ArcSubmit;
  cfg_AllowPassthrough : bool;
  cfg_AllowSplit : bool;
  cfg_MaxAppPriceSats : Z;
  cfg_EndpointPrices : gmap bytes Z
}.

Definition NewPaymentGate (cfg : PaymentGateConfig) : option PaymentGate :=
  let appMonetizationEnabled := cfg_AllowPassthrough cfg || cfg_AllowSplit cfg in
  let nodeCharges := 0 <? cfg_PriceSats cfg in
  if negb nodeCharges && negb appMonetizationEnabled then None
  else if negb (cfg_NonceProvider cfg) then None
  else if nodeCharges && bool_decide (cfg_PayeeScriptHex cfg = []) then None
  else Some (MkGate (cfg_PriceSats cfg) (cfg_PayeeScriptHex cfg)
               (if cfg_ChallengeTTL cfg =? 0 then 60 * second else cfg_ChallengeTTL cfg)
               (cfg_RequireMempool cfg) (cfg_ARCClient cfg) (cfg_AllowPassthrough cfg)
               (cfg_AllowSplit cfg) (cfg_MaxAppPriceSats cfg) (cfg_EndpointPrices cfg) ∅).

(** ** Prices and payees *)

Definition priceForPath (pg : PaymentGate) (path : bytes) : Z :=
  if has_prefix path (lit "/content/") || has_prefix path (lit "/.well-known/") then 0
  else match pg_endpointPrices pg !! path with
       | Some price => price
       | None => pg_priceSats pg
       end.

(** [Resolve]: the monetization of the newest envelope of a topic. *)
Definition Resolve {DB} `{LevelDB DB, EC, JsonCodec Envelope, SortSlice} (now : Z)
    (visit : list (bytes * Envelope)) (s : Store DB) (topic : bytes) : option Monetization :=
  if bool_decide (topic = []) then None
  else match QueryByTopic now visit s topic 1 with
       | Ok (env :: _) => EMonetization env
       | _ => None
       end.

Definition MonetizationPassthrough : bytes := lit "passthrough".
Definition MonetizationSplit : bytes := lit "split".
Definition MonetizationToken : bytes := lit "token".

(** The price of the application, capped by the operator. *)
Definition app_payee (pg : PaymentGate) (mon : Monetization) : Payee :=
  let appPrice := PriceSats mon in
  let appPrice := if (0 <? pg_maxAppPriceSats pg) && (pg_maxAppPriceSats pg <? appPrice)
                  then pg_maxAppPriceSats pg else appPrice in
  MkPayee (lit "content") (PayeeLockingScriptHex mon) appPrice.

Definition node_payee (pg : PaymentGate) (path : bytes) : option Payee :=
  let nodePrice := priceForPath pg path in
  if (0 <? nodePrice) && negb (bool_decide (pg_payeeScriptHex pg = []))
  then Some (MkPayee (lit "infrastructure") (pg_payeeScriptHex pg) nodePrice) else None.

(** [resolve] is the resolver's [Resolve], [None] when the gate has none. *)
Definition resolvePayees (resolve : option (bytes → option Monetization)) (pg : PaymentGate)
    (r : Request) : list Payee * bool :=
  let node := match node_payee pg (r_path r) with Some p => [p] | None => [] end in
  let topic := query_param r (lit "topic") in
  match resolve with
  | None => (node, false)
  | Some resolve =>
      if bool_decide (topic = []) then (node, false)
      else match resolve topic with
           | None => (node, false)
           | Some mon =>
               if bool_decide (Model mon = MonetizationPassthrough) then
                 if negb (pg_allowPassthrough pg) then (node, false)
                 else ([app_payee pg mon], false)
               else if bool_decide (Model mon = MonetizationSplit) then
                 if negb (pg_allowSplit pg) then (node, false)
                 else (node ++ [app_payee pg mon], false)
               else if bool_decide (Model mon = MonetizationToken) then ([], true)
               else (node, false)
           end
  end.

(** ** Challenges *)

Definition sha256Hex (data : bytes) : bytes := hex_encode (sum256 data).
Definition base64Url : bytes → bytes := b64_encode_raw_url.

Definition devNonceScript : bytes := lit "dev-mode-no-real-utxo".

(** [DevNonceProvider.MintNonce] with its counter. *)
Definition DevMintNonce (now counter : Z) : Z * NonceUTXO :=
  let n := i64 (counter + 1) in
  let h := sum256 (lit "dev-nonce-" ++ itoa n ++ lit "-" ++ itoa now) in
  (n, MkNonce (hex_encode h) 0 1 devNonceScript).

(** [uni] is [strings.TrimSpace] on text that is not ASCII. *)
Definition canonicalHeaderHash (uni : bytes → bytes) (r : Request) : bytes :=
  let pair (name canonical : bytes) :=
    let val := header r canonical in
    let val := if bool_decide (val = []) && bool_decide (name = lit "host") then r_host r else val in
    if bool_decide (val = []) then [] else [name ++ lit ":" ++ trim_space uni val] in
  let pairs := pair (lit "host") (lit "Host") ++ pair (lit "content-type") (lit "Content-Type") ++
               pair (lit "accept") (lit "Accept") in
  sha256Hex (join [x0a] (sort_strings pairs) ++ [x0a]).

Section payment.
Context `{TxLib} `{JsonCodec X402Challenge} `{JsonCodec X402Proof} `{JsonCodec X402Receipt}.
Context (uni : bytes → bytes).

(** [json.Marshal] with its error ignored. *)
Definition marshal {A} `{JsonCodec A} (a : A) : bytes := default [] (json_marshal a).

Definition total_sats (payees : list Payee) : Z := foldl (λ t p, i64 (t + AmountSats p)) 0 payees.

Definition build_challenge (now : Z) (nonce : NonceUTXO) (pg : PaymentGate) (r : Request)
    (payees : list Payee) : X402Challenge :=
  let bodyBytes := read_limited mib r in
  let primaryScript := match payees with [p] => LockingScriptHex p | _ => pg_payeeScriptHex pg end in
  MkChallenge 1 (lit "bsv-tx-v1") (r_host r) (r_method r) (r_path r) (r_query r)
    (canonicalHeaderHash uni r) (sha256Hex bodyBytes) (total_sats payees) primaryScript
    (if (1 <? length payees)%nat then payees else []) (Some nonce)
    (unix (now + pg_challengeTTL pg)) (pg_requireMempool pg).

(** [mint] is the outcome of the nonce provider. *)
Definition issueChallengeForPayees (now : Z) (mint : bytes + NonceUTXO) (pg : PaymentGate)
    (r : Request) (payees : list Payee) : PaymentGate * Response :=
  match mint with
  | inl e => (pg, writeError StatusInternalServerError (lit "failed to mint nonce: " ++ e))
  | inr nonce =>
      let challenge := build_challenge now nonce pg r payees in
      let challengeJSON := marshal challenge in
      (set_pending (<[sha256Hex challengeJSON := MkPending challenge payees]>
                      (pg_pendingChallenges pg)) pg,
       MkResponse StatusPaymentRequired
         {[ lit "X402-Challenge" := base64Url challengeJSON;
            content_type := lit "application/json" ]}
         (Json (JRaw challengeJSON)))
  end.

Definition cleanExpired (now : Z) (pg : PaymentGate) : PaymentGate :=
  set_pending (filter (λ kp, unix now ≤ ch_ExpiresAt (pc_challenge kp.2))
                 (pg_pendingChallenges pg)) pg.

(** ** Verification *)

Inductive pay_err :=
  | PeProofJSON | PeVersion (v : Z) | PeUnknownChallenge | PeMethod | PePath | PeQuery
  | PeHeadersProof | PeHeadersLive | PeBodyProof | PeBodyLive | PeExpired | PeRawTx | PeTx
  | PeNonce (txid : bytes) (vout : Z) | PePayeeScript (role : bytes)
  | PeUnpaid (sats : Z) (role : bytes) | PeTxID (claimed computed : bytes)
  | PeARC | PeARCStatus (status : bytes) | PeEmptyHeader | PeDecode.

(** Whether an output pays a payee; a nil locking script is dereferenced. *)
Definition out_pays (amount : Z) (script : bytes) (out : TxOutput) : res pay_err bool :=
  if u64 amount <=? out_Satoshis out then
    match out_LockingScript out with
    | None => Panic
    | Some s => Ok (bool_decide (s = script))
    end
  else Ok false.

Fixpoint find_payment (amount : Z) (script : bytes) (outs : list TxOutput) : res pay_err bool :=
  match outs with
  | [] => Ok false
  | out :: outs' =>
      b ← out_pays amount script out;
      if (b : bool) then Ok true else find_payment amount script outs'
  end.

Fixpoint verify_payees (payees : list Payee) (outs : list TxOutput) (totalPaid : Z)
    : res pay_err Z :=
  match payees with
  | [] => Ok totalPaid
  | payee :: payees' =>
      script ← res_of_option (PePayeeScript (Role payee)) (hex_decode (LockingScriptHex payee));
      found ← find_payment (AmountSats payee) script outs;
      if (found : bool) then verify_payees payees' outs (i64 (totalPaid + AmountSats payee))
      else Err (PeUnpaid (AmountSats payee) (Role payee))
  end.

Fixpoint nonce_spent (nonce : NonceUTXO) (inputs : list TxInput) : res pay_err bool :=
  match inputs with
  | [] => Ok false
  | input :: inputs' =>
      match in_SourceTXID input with
      | None => Panic
      | Some txid =>
          if bool_decide (txid = nu_TxID nonce) && (in_SourceTxOutIndex input =? u32 (nu_Vout nonce))
          then Ok true else nonce_spent nonce inputs'
      end
  end.

Definition check_nonce (nonce : option NonceUTXO) (inputs : list TxInput) : res pay_err unit :=
  match nonce with
  | None => Ok ()
  | Some n =>
      if bool_decide (nu_LockingScriptHex n = devNonceScript) then Ok ()
      else spent ← nonce_spent n inputs;
           guard_err (negb spent) (PeNonce (nu_TxID n) (nu_Vout n))
  end.

Definition arc_accepts (status : bytes) : bool :=
  bool_decide (status ∈ [lit "SEEN_ON_NETWORK"; lit "MINED"; lit "SEEN_IN_ORPHAN_MEMPOOL"]).

Definition submit_to_arc (arc : ArcSubmit) (txBytes : bytes) : res pay_err unit :=
  status ← res_of_option PeARC (arc txBytes);
  guard_err (negb (arc_accepts status)) (PeARCStatus status).

Definition decode_proof (proofHeader : bytes) : res pay_err X402Proof :=
  let proofJSON := default proofHeader (b64_raw_url proofHeader) in
  proof ← res_of_option PeProofJSON (json_unmarshal (A:=X402Proof) proofJSON);
  _ ← guard_err (negb (pf_V proof =? 1)) (PeVersion (pf_V proof));
  Ok proof.

(** The critical sections of [verifyProof] on the pending challenges. *)
Definition lookup_challenge (proof : X402Proof) (pg : PaymentGate) : option pendingChallenge :=
  pg_pendingChallenges pg !! pf_ChallengeSHA256 proof.
Definition consume_challenge (proof : X402Proof) (pg : PaymentGate) : PaymentGate :=
  set_pending (delete (pf_ChallengeSHA256 proof) (pg_pendingChallenges pg)) pg.

(** The binding of the proof to the challenge and to the live request. *)
Definition check_binding (challenge : X402Challenge) (proof : X402Proof) (r : Request)
    : res pay_err unit :=
  let pr := pf_Request proof in
  _ ← guard_err (bool_decide (pr_Method pr ≠ ch_Method challenge ∨ pr_Method pr ≠ r_method r)) PeMethod;
  _ ← guard_err (bool_decide (pr_Path pr ≠ ch_Path challenge ∨ pr_Path pr ≠ r_path r)) PePath;
  _ ← guard_err (bool_decide (pr_Query pr ≠ ch_Query challenge ∨ pr_Query pr ≠ r_query r)) PeQuery;
  _ ← guard_err (bool_decide (pr_ReqHeadersSHA256 pr ≠ ch_ReqHeadersSHA256 challenge)) PeHeadersProof;
  _ ← guard_err (bool_decide (ch_ReqHeadersSHA256 challenge ≠ canonicalHeaderHash uni r)) PeHeadersLive;
  _ ← guard_err (bool_decide (pr_ReqBodySHA256 pr ≠ ch_ReqBodySHA256 challenge)) PeBodyProof;
  guard_err (bool_decide (ch_ReqBodySHA256 challenge ≠ sha256Hex (read_limited mib r))) PeBodyLive.

Definition decode_rawtx (s : bytes) : res pay_err bytes :=
  match b64_std s with Some b => Ok b | None => res_of_option PeRawTx (hex_decode s) end.

(** The transaction pays: steps 5 to 9. *)
Definition check_payment (now : Z) (arc : option ArcSubmit) (pending : pendingChallenge)
    (proof : X402Proof) : res pay_err X402Receipt :=
  let challenge := pc_challenge pending in
  txBytes ← decode_rawtx (pp_RawTxB64 (pf_Payment proof));
  tx ← res_of_option PeTx (NewTransactionFromBytes txBytes);
  _ ← check_nonce (ch_NonceUTXO challenge) (tx_Inputs tx);
  totalPaid ← verify_payees (pc_payees pending) (tx_Outputs tx) 0;
  let txid := TxID tx in
  let claimed := pp_TxID (pf_Payment proof) in
  _ ← guard_err (negb (bool_decide (claimed = [])) && bool_decide (claimed ≠ txid))
        (PeTxID claimed txid);
  _ ← match arc with
      | Some submit => if ch_RequireMempoolAccept challenge then submit_to_arc submit txBytes else Ok ()
      | None => Ok ()
      end;
  Ok (MkReceipt txid totalPaid (unix now)).

(** [verifyProof] once the challenge has been read: whether the challenge is to
    be removed, and the outcome. *)
Definition check_proof (now : Z) (arc : option ArcSubmit) (pending : pendingChallenge)
    (proof : X402Proof) (r : Request) : bool * res pay_err X402Receipt :=
  match check_binding (pc_challenge pending) proof r with
  | Err e => (false, Err e)
  | Panic => (false, Panic)
  | Ok _ =>
      if ch_ExpiresAt (pc_challenge pending) <? unix now then (true, Err PeExpired)
      else match check_payment now arc pending proof with
           | Ok receipt => (true, Ok receipt)
           | Err e => (false, Err e)
           | Panic => (false, Panic)
           end
  end.

(** [verifyProof] without another request in between. *)
Definition verifyProof (now : Z) (proofHeader : bytes) (r : Request) (pg : PaymentGate)
    : PaymentGate * res pay_err X402Receipt :=
  match decode_proof proofHeader with
  | Err e => (pg, Err e)
  | Panic => (pg, Panic)
  | Ok proof =>
      match lookup_challenge proof pg with
      | None => (pg, Err PeUnknownChallenge)
      | Some pending =>
          let '(remove, outcome) := check_proof now (pg_arcClient pg) pending proof r in
          (if (remove : bool) then consume_challenge proof pg else pg, outcome)
      end
  end.

(** The transaction of an [X-Bsv-Payment] header: hex, then base64. *)
Definition decode_payment (h : bytes) : res pay_err bytes :=
  match hex_decode h with
  | Some b => Ok b
  | None => match b64_std h with
            | Some b => Ok b
            | None => res_of_option PeDecode (b64_raw_std h)
            end
  end.

Definition verifyDirectPayment (now : Z) (arc : option ArcSubmit) (paymentHeader : bytes)
    (payees : list Payee) : res pay_err X402Receipt :=
  let h := trim_space uni paymentHeader in
  _ ← guard_err (bool_decide (h = [])) PeEmptyHeader;
  txBytes ← decode_payment h;
  tx ← res_of_option PeTx (NewTransactionFromBytes txBytes);
  totalPaid ← verify_payees payees (tx_Outputs tx) 0;
  _ ← match arc with Some submit => submit_to_arc submit txBytes | None => Ok () end;
  Ok (MkReceipt (TxID tx) totalPaid (unix now)).

(** ** The middleware

    [error_text] is the text of an error. *)
Context (error_text : pay_err → bytes).

Definition authed : bytes := lit "X-Anvil-Authed".

Definition grant {S} (receipt : X402Receipt) (next : Handler S) : Handler S := λ r,
  with_header (lit "X402-Receipt") (base64Url (marshal receipt)) next (set_header authed (lit "true") r).

Definition rejected (what : bytes) (e : pay_err) : Response :=
  writeError StatusPaymentRequired (what ++ error_text e).

Definition Middleware {S} (now : Z) (mint : bytes + NonceUTXO)
    (resolve : option (bytes → option Monetization)) (next : Handler S)
    : Handler (PaymentGate * S) := λ r '(pg, s),
  let '(payees, tokenGated) := resolvePayees resolve pg r in
  let run (h : Handler S) (r : Request) (pg : PaymentGate) :=
    let '(s, w) := h r s in ((pg, s), w) in
  if (tokenGated : bool) then run next (set_header authed (lit "true") r) pg
  else if bool_decide (payees = []) then run next r pg
  else
    let proofHeader := header r (lit "X402-Proof") in
    let bsvPayment := header r (lit "X-Bsv-Payment") in
    if bool_decide (proofHeader = []) && bool_decide (bsvPayment = []) then
      let '(pg, w) := issueChallengeForPayees now mint pg r payees in ((pg, s), Some w)
    else if negb (bool_decide (bsvPayment = [])) && bool_decide (proofHeader = []) then
      match verifyDirectPayment now (pg_arcClient pg) bsvPayment payees with
      | Ok receipt => run (grant receipt next) r pg
      | Err e => ((pg, s), Some (rejected (lit "direct payment rejected: ") e))
      | Panic => ((pg, s), None)
      end
    else
      let '(pg, outcome) := verifyProof now proofHeader r pg in
      match outcome with
      | Ok receipt => run (grant receipt next) (set_body (read_limited mib r) r) pg
      | Err e => ((pg, s), Some (rejected (lit "payment rejected: ") e))
      | Panic => ((pg, s), None)
      end.
End payment.
