(* ===== verification/TokenGate.v ===== *)
(** * Token-gated topics ([internal/api/token_gate.go])

    A topic whose newest envelope declares the [token] model is served to
    requests with a credential signed by the key the envelope names. *)

From Stdlib Require Import Init.Byte Strings.Byte Strings.String Lia ZArith.
From stdpp Require Import base gmap sets list strings numbers.
From S2P Require Import Prelude GoStd Sha256 LevelDB GoText Http Ec Envelope Tx Payment.
Open Scope Z_scope.

Inductive tok_err :=
  | TeFormat | TeAuthPubkey | TeParsePubkey | TeSignatureHex | TeSignatureDER
  | TeSignature | TeTimestamp | TeExpired.

#[export] Instance tok_err_eq_dec : EqDecision tok_err.
Proof. solve_decision. Defined.

(** [validityWindow] is in nanoseconds. *)
Record TokenGate := MkTokenGate { tg_validityWindow : Z }.

(** [resolver] says whether there is one. *)
Definition NewTokenGate (resolver enabled : bool) : option TokenGate :=
  if negb enabled || negb resolver then None else Some (MkTokenGate (5 * minute)).

Section token_gate.
Context `{EC}.

Definition token_digest (topic timestampStr : bytes) : bytes :=
  sum256 (topic ++ lit ":" ++ timestampStr).

Definition verifyToken (now : Z) (tg : TokenGate) (token topic authPubkeyHex : bytes)
    : res tok_err unit :=
  let '(sigHex, rest) := split2 x3a token in
  timestampStr ← res_of_option TeFormat rest;
  pubBytes ← res_of_option TeAuthPubkey (hex_decode authPubkeyHex);
  _ ← guard_err (negb (zlen pubBytes =? 33)) TeAuthPubkey;
  pub ← res_of_option TeParsePubkey (PublicKeyFromBytes pubBytes);
  sigBytes ← res_of_option TeSignatureHex (hex_decode sigHex);
  sig ← res_of_option TeSignatureDER (FromDER sigBytes);
  _ ← guard_err (negb (VerifyDigest sig (token_digest topic timestampStr) pub)) TeSignature;
  ts ← res_of_option TeTimestamp (sscanf_d timestampStr);
  let now := unix now in
  guard_err ((tg_validityWindow tg / second <? i64 (now - ts)) || (60 <? i64 (ts - now))) TeExpired.

(** [error_text] is the text of an error. *)
Context (error_text : tok_err → bytes).

Definition Middleware {S} (now : Z) (resolve : bytes → option Monetization) (tg : option TokenGate)
    (next : Handler S) : Handler S := λ r s,
  match tg with
  | None => next r s
  | Some tg =>
      let topic := query_param r (lit "topic") in
      if bool_decide (topic = []) then next r s
      else match resolve topic with
           | None => next r s
           | Some mon =>
               if bool_decide (Model mon ≠ MonetizationToken) then next r s
               else
                 let tokenHeader := header r (lit "X-App-Token") in
                 if bool_decide (tokenHeader = []) then
                   answer (writeError StatusUnauthorized
                             (lit "this topic requires X-App-Token credential")) r s
                 else match verifyToken now tg tokenHeader topic (AuthPubkey mon) with
                      | Ok _ => next (set_header authed (lit "true") r) s
                      | Err e => answer (writeError StatusForbidden
                                   (lit "invalid token: " ++ error_text e)) r s
                      | Panic => (s, None)
                      end
           end
  end.
End token_gate.
