(* ===== verification/Server.v ===== *)
(** * The middleware chains of the API server ([internal/api/server.go])

    [cors], [openRead] and [authOrPay]: which gates a request passes, in which
    order, before its handler runs. The state of a chain is the rate limiter
    and the payment gate, each [None] when it is not configured, with the state
    of the handlers. *)

From Stdlib Require Import Init.Byte Strings.Byte Strings.String Lia ZArith.
From stdpp Require Import base gmap sets list strings numbers.
From S2P Require Import Prelude GoStd Sha256 LevelDB GoText Http Tx Ec Float Envelope RateLimit.
From S2P Require Import Payment TokenGate.
Open Scope Z_scope.

Definition allow_origin : bytes := lit "Access-Control-Allow-Origin".
Definition allow_methods : bytes := lit "Access-Control-Allow-Methods".
Definition allow_headers : bytes := lit "Access-Control-Allow-Headers".

Definition cors {S} (next : Handler S) : Handler S := λ r s,
  with_header allow_origin (lit "*")
    (with_header allow_methods (lit "GET, POST, DELETE, OPTIONS")
       (with_header allow_headers
          (lit "Content-Type, X-App-Token, X-Anvil-Auth, X402-Proof, X-Bsv-Payment, X-Topics")
          (λ r s, if bool_decide (r_method r = MethodOptions)
                  then answer (MkResponse StatusNoContent ∅ NoBody) r s
                  else next r s))) r s.

(** A middleware that is not configured passes the request on. *)
Definition optional {A S} (mw : Handler (A * S)) (next : Handler S) : Handler (option A * S) := λ r '(a, s),
  match a with
  | None => let '(s, w) := next r s in ((None, s), w)
  | Some a => let '(a, s, w) := mw r (a, s) in ((Some a, s), w)
  end.

Section server.
Context `{EC} `{TxLib} `{JsonCodec X402Challenge} `{JsonCodec X402Proof} `{JsonCodec X402Receipt}.
Context `{JsonCodec Envelope}.
Context (uni : bytes → bytes) (pay_text : pay_err → bytes) (tok_text : tok_err → bytes).

(** What a chain reads besides its state: the clock, the nonce the provider
    mints if it is asked, the resolver. *)
Record Env := MkEnv {
  ev_now : Z;
  ev_mint : bytes + NonceUTXO;
  ev_resolve : option (bytes → option Monetization)
}.

Definition pay (ev : Env) {S} (next : Handler S) : Handler (option PaymentGate * S) :=
  optional (Payment.Middleware uni pay_text (ev_now ev) (ev_mint ev) (ev_resolve ev) next) next.

(** A token gate exists only with a resolver. *)
Definition gate_token (ev : Env) (tg : option TokenGate) {S} (next : Handler S) : Handler S :=
  TokenGate.Middleware tok_text (ev_now ev) (default (λ _, None) (ev_resolve ev)) tg next.

Definition openRead (ev : Env) (tg : option TokenGate) {S} (next : Handler S)
    : Handler (option RateLimiter * (option PaymentGate * S)) :=
  let h := gate_token ev tg (pay ev next) in
  cors (optional (RateLimit.Middleware (ev_now ev) h) h).

(** The last resort of [authOrPay]: a valid signed envelope in the body. *)
Definition signed_envelope (body : bytes) : res unit bool :=
  if bool_decide (body = []) then Ok false
  else match json_unmarshal (A:=Envelope) body with
       | None => Ok false
       | Some env =>
           if bool_decide (Signature env = []) || bool_decide (Pubkey env = []) then Ok false
           else match Validate env with Ok _ => Ok true | Err _ => Ok false | Panic => Panic end
       end.

Definition authOrPay (ev : Env) (authToken : bytes) {S} (next : Handler S)
    : Handler (option PaymentGate * S) := λ r '(pg, s),
  let origin {S} (h : Handler S) := with_header allow_origin (lit "*") h in
  if bool_decide (r_method r = MethodOptions) then
    (with_header allow_origin (lit "*")
      (with_header allow_headers
         (lit "Content-Type, Authorization, X-App-Token, X-Anvil-Auth, X402-Proof, X-Bsv-Payment")
         (with_header allow_methods (lit "GET, POST, OPTIONS")
            (answer (MkResponse StatusNoContent ∅ NoBody))))) r (pg, s)
  else
    let token := request_token r in
    if negb (bool_decide (token = [])) && negb (bool_decide (authToken = [])) &&
       bool_decide (token = authToken) then
      let '(s, w) := origin next (set_header authed (lit "true") r) s in ((pg, s), w)
    else match pg with
         | Some _ => origin (pay ev next) r (pg, s)
         | None =>
             let body := read_limited mib r in
             match signed_envelope body with
             | Ok true =>
                 let '(s, w) := origin next (set_body body r) s in ((pg, s), w)
             | Ok false =>
                 origin (answer (writeError StatusUnauthorized
                   (lit "unauthorized — provide auth token, x402 payment, or signed envelope"))) r (pg, s)
             | _ => ((pg, s), None)
             end
         end.
End server.
