(* ===== verification/DataApi.v ===== *)
(** * The data endpoints ([internal/api/handlers.go], [sse.go])

    [POST], [GET] and [DELETE /data] over the envelope store, the redaction of
    paid payloads, and the hub that fans new envelopes out to event streams.
    Channels are numbered; each is the queue of what was sent and not yet
    received. *)

From Stdlib Require Import Init.Byte Strings.Byte Strings.String Lia ZArith.
From stdpp Require Import base gmap sets list strings numbers sorting.
From S2P Require Import Prelude GoStd Sha256 LevelDB GoText Http Ec Envelope EnvelopeStore Tx.
From S2P Require Import Payment.
Open Scope Z_scope.

(** ** The hub *)

Record envelopeHub := MkHub {
  hub_subs : gmap bytes (gmap nat (list Envelope));
  hub_seqID : Z
}.
Definition newEnvelopeHub : envelopeHub := MkHub ∅ 0.
Definition set_subs (s : gmap bytes (gmap nat (list Envelope))) (h : envelopeHub) : envelopeHub :=
  MkHub s (hub_seqID h).

Definition chan_capacity : nat := 16.

Definition subscribe (topic : bytes) (ch : nat) (h : envelopeHub) : envelopeHub :=
  set_subs (<[topic := <[ch := []]> (default ∅ (hub_subs h !! topic))]> (hub_subs h)) h.

Definition unsubscribe (topic : bytes) (ch : nat) (h : envelopeHub) : envelopeHub :=
  let chs := delete ch (default ∅ (hub_subs h !! topic)) in
  set_subs (if bool_decide (chs = ∅) then delete topic (hub_subs h)
            else <[topic := chs]> (hub_subs h)) h.

(** A full channel is skipped. *)
Definition offer (env : Envelope) (queue : list Envelope) : list Envelope :=
  if (length queue <? chan_capacity)%nat then queue ++ [env] else queue.

Definition notify (env : Envelope) (h : envelopeHub) : envelopeHub :=
  set_subs (alter (fmap (offer env)) (Topic env) (hub_subs h)) h.

(** The counter and the number it gives out. *)
Definition nextID (h : envelopeHub) : envelopeHub * Z :=
  let id := i64 (hub_seqID h + 1) in (MkHub (hub_subs h) id, id).

Definition subscriberCount (h : envelopeHub) : Z :=
  map_fold (λ _ chs n, n + Z.of_nat (size chs)) 0 (hub_subs h).

(** ** Redaction *)

Definition redacted_text : bytes := lit "[paid content — access via HTTP 402]".

Definition set_payload (p : bytes) (e : Envelope) : Envelope :=
  MkEnvelope (EType e) (Topic e) p (Signature e) (Pubkey e) (TTL e) (Durable e) (Timestamp e)
    (NoGossip e) (EMonetization e) (ReceivedAt e).

Definition paid (e : Envelope) : bool :=
  match EMonetization e with Some m => 0 <? PriceSats m | None => false end.

Definition redact (isAuthed : bool) (e : Envelope) : Envelope :=
  if negb isAuthed && paid e then set_payload redacted_text e else e.

Definition isAuthed (authToken : bytes) (r : Request) : bool :=
  bool_decide (header r authed = lit "true") ||
  (negb (bool_decide (authToken = [])) &&
   bool_decide (header r (lit "Authorization") = lit "Bearer " ++ authToken)).

Section data_api.
Context {DB : Type} `{LevelDB DB} `{EC} `{JsonCodec Envelope} `{SortSlice}.

(** The store and the hub; [M] is the state of the mesh. *)
Record Api (M : Type) := MkApi { api_store : option (Store DB); api_hub : envelopeHub; api_mesh : M }.
Arguments MkApi {M}.
Arguments api_store {M}.
Arguments api_hub {M}.
Arguments api_mesh {M}.

Context {M : Type}.
(** [broadcast] hands an envelope to the mesh; [visit] is the iteration order
    of the ephemeral envelopes; the texts are those of the errors. *)
Context (broadcast : Envelope → M → M) (visit : Store DB → list (bytes * Envelope)).
Context (json_text : bytes → bytes) (store_text : estore_err → bytes).

Definition unavailable : Response :=
  writeError StatusServiceUnavailable (lit "envelope store not configured").

Definition handlePostData (now : Z) : Handler (Api M) := λ r st,
  match api_store st with
  | None => answer unavailable r st
  | Some s =>
      let body := read_limited mib r in
      match json_unmarshal (A:=Envelope) body with
      | None => answer (writeError StatusBadRequest (lit "invalid envelope JSON: " ++ json_text body)) r st
      | Some env =>
          match Ingest now s env with
          | (s, env, Ok _) =>
              let st := MkApi (Some s) (notify env (api_hub st)) (broadcast env (api_mesh st)) in
              match Key env with
              | Ok k => answer (writeJSON StatusOK (JObj
                          [(lit "accepted", JBool true); (lit "topic", JStr (Topic env));
                           (lit "durable", JBool (Durable env)); (lit "key", JStr k)])) r st
              | _ => (st, None)
              end
          | (s, _, Err e) =>
              answer (writeError StatusUnprocessableEntity (lit "rejected: " ++ store_text e)) r
                (MkApi (Some s) (api_hub st) (api_mesh st))
          | (s, _, Panic) => (MkApi (Some s) (api_hub st) (api_mesh st), None)
          end
      end
  end.

(** The [limit] parameter: 100 unless it is a number from 1 to 1000. *)
Definition query_limit (r : Request) : Z :=
  let limit := default 100 (sscanf_d (query_param r (lit "limit"))) in
  if (limit <=? 0) || (1000 <? limit) then 100 else limit.

Definition query_since (r : Request) : Z := default 0 (sscanf_d (query_param r (lit "since"))).

Definition handleQueryData (authToken : bytes) (now : Z) : Handler (Api M) := λ r st,
  match api_store st with
  | None => answer unavailable r st
  | Some s =>
      let topic := query_param r (lit "topic") in
      if bool_decide (topic = []) then
        answer (writeError StatusBadRequest (lit "topic query parameter required")) r st
      else match QueryByTopic now (visit s) s topic (query_limit r) with
           | Err e => answer (writeError StatusInternalServerError (lit "query error: " ++ store_text e)) r st
           | Panic => (st, None)
           | Ok envs =>
               let since := query_since r in
               let envs := if 0 <? since then filter (λ e, since < Timestamp e) envs else envs in
               let out := redact (isAuthed authToken r) <$> envs in
               answer (writeJSON StatusOK (JObj
                 [(lit "topic", JStr topic); (lit "count", JNum (Z.of_nat (length out)));
                  (lit "envelopes", JArr ((λ e, JRaw (marshal e)) <$> out))])) r st
           end
  end.

Definition handleDeleteData : Handler (Api M) := λ r st,
  match api_store st with
  | None => answer unavailable r st
  | Some s =>
      let topic := query_param r (lit "topic") in
      let key := query_param r (lit "key") in
      if bool_decide (topic = []) || bool_decide (key = []) then
        answer (writeError StatusBadRequest (lit "topic and key required (query params)")) r st
      else
        let '(s, res) := Delete s topic key in
        let st := MkApi (Some s) (api_hub st) (api_mesh st) in
        match res with
        | Err e => answer (writeError StatusInternalServerError (lit "delete error: " ++ store_text e)) r st
        | Ok false => answer (writeError StatusNotFound (lit "envelope not found")) r st
        | Ok true => answer (writeJSON StatusOK (JObj
            [(lit "deleted", JBool true); (lit "topic", JStr topic); (lit "key", JStr key)])) r st
        | Panic => (st, None)
        end
  end.

(** One turn of [handleSubscribe]: the next envelope of the stream's channel as
    an event, unless it cannot be encoded. *)
Definition stream_step (isAuthed : bool) (topic : bytes) (ch : nat) (h : envelopeHub)
    : envelopeHub * option bytes :=
  match hub_subs h !! topic ≫= (.!! ch) with
  | Some (env :: queue) =>
      let h := set_subs (alter (<[ch := queue]>) topic (hub_subs h)) h in
      match json_marshal (redact isAuthed env) with
      | None => (h, None)
      | Some data =>
          let '(h, id) := nextID h in
          (h, Some (lit "id: " ++ itoa id ++ [x0a] ++ lit "data: " ++ data ++ [x0a; x0a]))
      end
  | _ => (h, None)
  end.
End data_api.
Arguments MkApi {DB M}.
Arguments api_store {DB M}.
Arguments api_hub {DB M}.
Arguments api_mesh {DB M}.
