(* ===== verification/PaymentProps.v ===== *)
(** * Properties of the payment gate *)

From Stdlib Require Import Init.Byte Strings.Byte Strings.String Lia ZArith.
From stdpp Require Import base gmap sets list strings numbers sorting.
From S2P Require Import Prelude GoStd Sha256 LevelDB GoText Http Tx Ec Envelope Payment.
Open Scope Z_scope.

(** ** base64 *)

Lemma b64_value_digit n : 0 ≤ n < 64 → b64_value true (b64_digit true n) = Some n.
Proof.
  intros Hn.
  assert (forallb (λ k, bool_decide (b64_value true (b64_digit true (Z.of_nat k)) = Some (Z.of_nat k)))
            (seq 0 64) = true) as HF by (vm_compute; reflexivity).
  rewrite forallb_forall in HF. specialize (HF (Z.to_nat n)).
  rewrite in_seq in HF. specialize (HF ltac:(lia)). apply bool_decide_eq_true in HF.
  by rewrite Z2Nat.id in HF by lia.
Qed.

Lemma b64_digit_plain n : 0 ≤ n < 64 → b64_digit true n ≠ x0a ∧ b64_digit true n ≠ x0d.
Proof.
  intros Hn. pose proof (b64_value_digit n Hn) as E.
  split; intros E'; rewrite E' in E; discriminate E.
Qed.

(** The three bytes of a group, from its digits. *)
Lemma group_bytes a b c :
  let x := byte_z a in let y := byte_z b in let z := byte_z c in
  z_byte (4 * (x / 4) + (x mod 4 * 16 + y / 16) / 16) = a ∧
  z_byte (16 * (x mod 4 * 16 + y / 16) + (y mod 16 * 4 + z / 64) / 4) = b ∧
  z_byte (64 * (y mod 16 * 4 + z / 64) + z mod 64) = c.
Proof.
  intros x y z.
  pose proof (byte_z_bound a). pose proof (byte_z_bound b). pose proof (byte_z_bound c).
  fold x y z in H, H0, H1.
  assert (0 ≤ y / 16 < 16) by (split; [apply Z.div_pos; lia|apply Z.div_lt_upper_bound; lia]).
  assert (0 ≤ z / 64 < 4) by (split; [apply Z.div_pos; lia|apply Z.div_lt_upper_bound; lia]).
  assert (∀ d n k, byte_z d = n → k mod 256 = n → z_byte k = d) as Hb.
  { intros d n k <- Hk. apply byte_z_inj. by rewrite byte_z_z. }
  pose proof (Z.div_mod x 4 ltac:(lia)). pose proof (Z.mod_pos_bound x 4 ltac:(lia)).
  pose proof (Z.div_mod y 16 ltac:(lia)). pose proof (Z.mod_pos_bound y 16 ltac:(lia)).
  pose proof (Z.div_mod z 64 ltac:(lia)). pose proof (Z.mod_pos_bound z 64 ltac:(lia)).
  split_and!.
  - apply (Hb a x); [done|]. rewrite Z.div_add_l, (Z.div_small (y / 16) 16) by lia.
    rewrite Z.mod_small; lia.
  - apply (Hb b y); [done|]. rewrite Z.div_add_l, (Z.div_small (z / 64) 4) by lia.
    replace (16 * (x mod 4 * 16 + y / 16) + (y mod 16 + 0)) with (y + x mod 4 * 256) by lia.
    rewrite Z.mod_add by lia. by apply Z.mod_small.
  - apply (Hb c z); [done|].
    replace (64 * (y mod 16 * 4 + z / 64) + z mod 64) with (z + y mod 16 * 256) by lia.
    rewrite Z.mod_add by lia. by apply Z.mod_small.
Qed.

Lemma group_digits a b c :
  let x := byte_z a in let y := byte_z b in let z := byte_z c in
  0 ≤ x / 4 < 64 ∧ 0 ≤ x mod 4 * 16 + y / 16 < 64 ∧ 0 ≤ y mod 16 * 4 + z / 64 < 64 ∧
  0 ≤ z mod 64 < 64 ∧ 0 ≤ x mod 4 * 16 < 64 ∧ 0 ≤ y mod 16 * 4 < 64.
Proof.
  intros x y z.
  pose proof (byte_z_bound a). pose proof (byte_z_bound b). pose proof (byte_z_bound c).
  fold x y z in H, H0, H1.
  assert (0 ≤ x / 4 < 64) by (split; [apply Z.div_pos; lia|apply Z.div_lt_upper_bound; lia]).
  assert (0 ≤ y / 16 < 16) by (split; [apply Z.div_pos; lia|apply Z.div_lt_upper_bound; lia]).
  assert (0 ≤ z / 64 < 4) by (split; [apply Z.div_pos; lia|apply Z.div_lt_upper_bound; lia]).
  pose proof (Z.mod_pos_bound x 4 ltac:(lia)). pose proof (Z.mod_pos_bound y 16 ltac:(lia)).
  pose proof (Z.mod_pos_bound z 64 ltac:(lia)). lia.
Qed.

(** Lists by groups of three. *)
Lemma list_ind3 {A} (P : list A → Prop) :
  P [] → (∀ a, P [a]) → (∀ a b, P [a; b]) → (∀ a b c l, P l → P (a :: b :: c :: l)) → ∀ l, P l.
Proof.
  intros H0 H1 H2 H3 l. induction l as [l IH] using (induction_ltof1 _ length); unfold ltof in IH.
  destruct l as [|a [|b [|c l]]]; auto. apply H3, IH. simpl. lia.
Qed.

Lemma b64_encode_plain s : Forall (λ c, c ≠ x0a ∧ c ≠ x0d) (b64_encode_raw_url s).
Proof.
  induction s as [|a|a b|a b c s IH] using list_ind3; [constructor|..].
  - destruct (group_digits a x00 x00) as (?&?&?&?&?&?).
    repeat constructor; by apply b64_digit_plain.
  - destruct (group_digits a b x00) as (?&?&?&?&?&?).
    repeat constructor; by apply b64_digit_plain.
  - destruct (group_digits a b c) as (?&?&?&?&?&?). cbn [b64_encode_raw_url].
    do 4 (constructor; [by apply b64_digit_plain|]). exact IH.
Qed.

(** What [base64Url] writes, the decoder of proof headers reads back. *)
Lemma b64_raw_url_roundtrip s : b64_raw_url (b64_encode_raw_url s) = Some s.
Proof.
  unfold b64_raw_url, b64_decode. rewrite filter_true.
  2: { intros c Hc. pose proof (b64_encode_plain s) as HF. by eapply list.Forall_forall in HF. }
  induction s as [|a|a b|a b c s IH] using list_ind3; [done|..].
  - destruct (group_bytes a x00 x00) as (E1 & _). destruct (group_digits a x00 x00) as (?&?&?&?&?&?).
    cbn [b64_encode_raw_url b64_groups]. rewrite !b64_value_digit by lia. cbn [mbind option_bind].
    change (byte_z x00) with 0 in *. rewrite Z.div_0_l, Z.add_0_r in E1 by lia. by rewrite E1.
  - destruct (group_bytes a b x00) as (E1 & E2 & _). destruct (group_digits a b x00) as (?&?&?&?&?&?).
    cbn [b64_encode_raw_url b64_groups]. rewrite !b64_value_digit by lia. cbn [mbind option_bind].
    change (byte_z x00) with 0 in *. rewrite Z.div_0_l, Z.add_0_r in E2 by lia. by rewrite E1, E2.
  - destruct (group_bytes a b c) as (E1 & E2 & E3). destruct (group_digits a b c) as (?&?&?&?&?&?).
    cbn [b64_encode_raw_url b64_groups andb]. rewrite !b64_value_digit by lia. cbn [mbind option_bind].
    rewrite IH. cbn [mbind option_bind]. by rewrite E1, E2, E3.
Qed.

(** Hexadecimal text is also base64 text when the number of bytes is even. *)
Lemma hex_digit_b64 n : 0 ≤ n < 16 → let c := hex_digit n in
  is_Some (b64_value false c) ∧ c ≠ pad ∧ c ≠ x0a ∧ c ≠ x0d.
Proof.
  intros Hn.
  assert (forallb (λ k, let c := hex_digit (Z.of_nat k) in
    bool_decide (is_Some (b64_value false c) ∧ c ≠ pad ∧ c ≠ x0a ∧ c ≠ x0d)) (seq 0 16) = true) as HF
    by (vm_compute; reflexivity).
  rewrite forallb_forall in HF. specialize (HF (Z.to_nat n)). rewrite in_seq in HF.
  specialize (HF ltac:(lia)). apply bool_decide_eq_true in HF. by rewrite Z2Nat.id in HF by lia.
Qed.

Lemma hex_encode_cons x b :
  hex_encode (x :: b) = hex_digit (byte_z x / 16) :: hex_digit (byte_z x mod 16) :: hex_encode b.
Proof. done. Qed.

Lemma hex_digits_b64 x : ∃ n m, hex_encode [x] = [hex_digit n; hex_digit m] ∧ 0 ≤ n < 16 ∧ 0 ≤ m < 16.
Proof.
  exists (byte_z x / 16), (byte_z x mod 16). split; [done|]. pose proof (byte_z_bound x).
  pose proof (Z.mod_pos_bound (byte_z x) 16 ltac:(lia)).
  split; [split; [apply Z.div_pos; lia|apply Z.div_lt_upper_bound; lia]|lia].
Qed.

Lemma list_ind2 {A} (P : list A → Prop) :
  P [] → (∀ a, P [a]) → (∀ a b l, P l → P (a :: b :: l)) → ∀ l, P l.
Proof.
  intros H0 H1 H2 l. induction l as [l IH] using (induction_ltof1 _ length); unfold ltof in IH.
  destruct l as [|a [|b l]]; auto. apply H2, IH. simpl. lia.
Qed.

Lemma hex_b64_std b : Nat.Even (length b) →
  ∃ b', b64_std (hex_encode b) = Some b' ∧ (2 * length b' = 3 * length b)%nat.
Proof.
  unfold b64_std, b64_decode. induction b as [|x|x y b IH] using list_ind2.
  - intros _. by exists [].
  - intros [k Hk]. simpl in Hk. lia.
  - intros Hev. destruct IH as (b' & E & Hlen).
    { destruct Hev as [k Hk]. exists (k - 1)%nat. cbn [length] in Hk. lia. }
    destruct (hex_digits_b64 x) as (n1 & n2 & E1 & H1 & H2).
    destruct (hex_digits_b64 y) as (n3 & n4 & E2 & H3 & H4).
    destruct (hex_digit_b64 n1 H1) as ([v1 V1] & P1 & ? & ?), (hex_digit_b64 n2 H2) as ([v2 V2] & P2 & ? & ?),
      (hex_digit_b64 n3 H3) as ([v3 V3] & P3 & ? & ?), (hex_digit_b64 n4 H4) as ([v4 V4] & P4 & ? & ?).
    rewrite !hex_encode_cons. rewrite hex_encode_cons in E1, E2. injection E1 as -> ->. injection E2 as -> ->.
    rewrite !filter_cons_True by done. cbn [b64_groups andb].
    rewrite (bool_decide_false (_ = pad)) by done. rewrite (bool_decide_false (_ = pad)) by done.
    rewrite V1, V2, V3, V4, E. cbn [mbind option_bind andb]. eexists. split; [reflexivity|].
    cbn [length]. lia.
Qed.

(** ** Payments *)

(** A transaction output pays a payee at least its amount. *)
Definition pays (outs : list TxOutput) (p : Payee) : Prop := ∃ script out,
  hex_decode (LockingScriptHex p) = Some script ∧ out ∈ outs ∧
  out_LockingScript out = Some script ∧ u64 (AmountSats p) ≤ out_Satoshis out.

Lemma find_payment_sound amount script outs :
  find_payment amount script outs = Ok true → ∃ out, out ∈ outs ∧
    out_LockingScript out = Some script ∧ u64 amount ≤ out_Satoshis out.
Proof.
  induction outs as [|out outs IH]; cbn [find_payment]; [done|].
  unfold out_pays. destruct (Z.leb_spec (u64 amount) (out_Satoshis out)) as [Hle|Hlt].
  - destruct (out_LockingScript out) as [s|] eqn:Es; [|done]. cbn [mbind res_mbind].
    case_bool_decide as Hs; subst.
    + intros _. exists out. split_and!; [left|done|done].
    + intros (o & Ho & ?)%IH. exists o. split; [by right|done].
  - cbn [mbind res_mbind]. intros (o & Ho & ?)%IH. exists o. split; [by right|done].
Qed.

Lemma find_payment_complete amount script outs out :
  Forall (λ o, is_Some (out_LockingScript o)) outs → out ∈ outs →
  out_LockingScript out = Some script → u64 amount ≤ out_Satoshis out →
  find_payment amount script outs = Ok true.
Proof.
  intros HF. induction HF as [|o outs [s Hs] HF IH]; intros Hin E Hle; [by apply not_elem_of_nil in Hin|].
  cbn [find_payment]. unfold out_pays. rewrite Hs.
  apply elem_of_cons in Hin as [->|Hin].
  - rewrite (proj2 (Z.leb_le _ _)) by done. cbn [mbind res_mbind].
    rewrite E in Hs. injection Hs as ->. by rewrite bool_decide_true.
  - case_match; cbn [mbind res_mbind]; [case_bool_decide; [done|]|]; by apply IH.
Qed.

Definition add_amount (t : Z) (p : Payee) : Z := i64 (t + AmountSats p).

Lemma verify_payees_sound payees outs t t' :
  verify_payees payees outs t = Ok t' → Forall (pays outs) payees ∧ t' = foldl add_amount t payees.
Proof.
  revert t. induction payees as [|p payees IH]; intros t; cbn [verify_payees].
  - intros [= ->]. split; [constructor|done].
  - intros HH. res_inv. case_match; [|discriminate]. subst. apply IH in HH as [HF ->].
    destruct (find_payment_sound _ _ _ H0) as (out & Hin & Hs & Hle).
    split; [|done]. constructor; [|done]. eexists _, out. eauto.
Qed.

Lemma verify_payees_complete payees outs t :
  Forall (λ o, is_Some (out_LockingScript o)) outs → Forall (pays outs) payees →
  verify_payees payees outs t = Ok (foldl add_amount t payees).
Proof.
  intros HF Hp. revert t. induction Hp as [|p payees (script & out & Es & Hin & Eo & Hle) Hp IH]; intros t; [done|].
  cbn [verify_payees]. rewrite Es. cbn [res_of_option mbind res_mbind].
  rewrite (find_payment_complete _ _ _ out) by done. cbn [mbind res_mbind]. apply IH.
Qed.

(** Two payees that share a script can be satisfied by one output. *)
Lemma one_output_two_payees p outs t : Forall (λ o, is_Some (out_LockingScript o)) outs →
  pays outs p → verify_payees [p; p] outs t = Ok (add_amount (add_amount t p) p).
Proof. intros HF Hp. by rewrite (verify_payees_complete [p; p]) by (repeat constructor; done). Qed.

(** The nonce of a challenge is spent by an input, or the nonce is the
    development provider's. *)
Definition spends_nonce (nonce : option NonceUTXO) (inputs : list TxInput) : Prop :=
  match nonce with
  | None => True
  | Some n => nu_LockingScriptHex n = devNonceScript ∨
              MkInput (Some (nu_TxID n)) (u32 (nu_Vout n)) ∈ inputs
  end.

Lemma nonce_spent_sound n inputs :
  nonce_spent n inputs = Ok true → MkInput (Some (nu_TxID n)) (u32 (nu_Vout n)) ∈ inputs.
Proof.
  induction inputs as [|[[txid|] i] inputs IH]; cbn [nonce_spent]; [done| |done].
  cbn [in_SourceTXID in_SourceTxOutIndex]. case_bool_decide as Ht; cbn [andb].
  - destruct (Z.eqb_spec i (u32 (nu_Vout n))) as [->|]; [subst; left|right; by apply IH].
  - right. by apply IH.
Qed.

Lemma nonce_spent_complete n inputs :
  Forall (λ i, is_Some (in_SourceTXID i)) inputs →
  MkInput (Some (nu_TxID n)) (u32 (nu_Vout n)) ∈ inputs → nonce_spent n inputs = Ok true.
Proof.
  intros HF. induction HF as [|[txid i] inputs [t Ht] HF IH]; intros Hin; [by apply not_elem_of_nil in Hin|].
  cbn [in_SourceTXID] in Ht. subst txid. cbn [nonce_spent in_SourceTXID in_SourceTxOutIndex].
  apply elem_of_cons in Hin as [[= <- <-]|Hin].
  - by rewrite bool_decide_true, Z.eqb_refl.
  - case_match; [done|]. by apply IH.
Qed.

Lemma check_nonce_sound nonce inputs u :
  check_nonce nonce inputs = Ok u → spends_nonce nonce inputs.
Proof.
  unfold check_nonce, spends_nonce. destruct nonce as [n|]; [|done].
  case_bool_decide; [by left|]. intros HH. res_inv.
  match goal with E : nonce_spent _ _ = Ok ?b |- _ => destruct b; [|done] end.
  right. by apply nonce_spent_sound.
Qed.

Section props.
Context `{TxLib} `{JsonCodec X402Challenge} `{JsonCodec X402Proof} `{JsonCodec X402Receipt}.
Context (uni : bytes → bytes).

(** The request of a proof is the one challenged, and it is the live one. *)
Definition bound_to (ch : X402Challenge) (proof : X402Proof) (r : Request) : Prop :=
  pf_Request proof = MkProofRequest (r_method r) (r_path r) (r_query r)
    (canonicalHeaderHash uni r) (sha256Hex (read_limited mib r)) ∧
  pf_Request proof = MkProofRequest (ch_Method ch) (ch_Path ch) (ch_Query ch)
    (ch_ReqHeadersSHA256 ch) (ch_ReqBodySHA256 ch).

Lemma check_binding_iff ch proof r :
  check_binding uni ch proof r = Ok () ↔ bound_to ch proof r.
Proof.
  unfold bound_to, check_binding. destruct (pf_Request proof) as [m p q h b]. cbn.
  split.
  - intros HH. res_inv. repeat match goal with
    | E : bool_decide _ = false |- _ => apply bool_decide_eq_false in E end.
    repeat match goal with
      | E : ¬ (_ ∨ _) |- _ => apply Decidable.not_or in E as [? ?]
      | E : ¬ (_ ≠ _) |- _ => apply dec_stable in E end.
    split; f_equal; congruence.
  - intros [[= -> -> -> -> ->] [= E1 E2 E3 E4 E5]].
    rewrite <- E1, <- E2, <- E3, <- E4, <- E5.
    rewrite !bool_decide_false by naive_solver. done.
Qed.

Lemma check_payment_sound now arc pending proof receipt :
  check_payment now arc pending proof = Ok receipt → ∃ raw tx,
    decode_rawtx (pp_RawTxB64 (pf_Payment proof)) = Ok raw ∧
    NewTransactionFromBytes raw = Some tx ∧
    spends_nonce (ch_NonceUTXO (pc_challenge pending)) (tx_Inputs tx) ∧
    Forall (pays (tx_Outputs tx)) (pc_payees pending) ∧
    rc_TxID receipt = TxID tx ∧ rc_Satoshis receipt = total_sats (pc_payees pending).
Proof.
  unfold check_payment. intros HH. res_inv.
  apply verify_payees_sound in H6 as [HF ->].
  eexists _, _. split_and!; [done|done| |done|by subst|by subst].
  by eapply check_nonce_sound.
Qed.

Lemma check_proof_sound now arc pending proof r rem receipt :
  check_proof uni now arc pending proof r = (rem, Ok receipt) →
  rem = true ∧ bound_to (pc_challenge pending) proof r ∧
  unix now ≤ ch_ExpiresAt (pc_challenge pending) ∧
  check_payment now arc pending proof = Ok receipt.
Proof.
  unfold check_proof. destruct (check_binding _ _ _ _) as [[]|e|] eqn:EB; [|done..].
  apply check_binding_iff in EB. destruct (Z.ltb_spec (ch_ExpiresAt (pc_challenge pending)) (unix now)); [done|].
  destruct (check_payment _ _ _ _); [|done..]. by intros [= <- ->].
Qed.

Lemma verifyProof_eq now h r pg pg' receipt :
  verifyProof uni now h r pg = (pg', Ok receipt) → ∃ proof pending,
    decode_proof h = Ok proof ∧ lookup_challenge proof pg = Some pending ∧
    check_proof uni now (pg_arcClient pg) pending proof r = (true, Ok receipt) ∧
    pg' = consume_challenge proof pg.
Proof.
  unfold verifyProof. destruct (decode_proof h) as [proof|e|] eqn:ED; [|done..].
  destruct (lookup_challenge proof pg) as [pending|] eqn:EL; [|done].
  destruct (check_proof _ _ _ _ _ _) as [rem o] eqn:EC. intros [= <- ->].
  destruct (check_proof_sound _ _ _ _ _ _ _ EC) as (-> & _). eauto 10.
Qed.

(** C2: a proof is accepted only for a challenge that is pending and not
    expired, on the live request it was issued for, with a transaction that
    pays every payee of the challenge and spends its nonce; the receipt names
    that transaction and the total, and the challenge is used up. *)
Theorem verifyProof_accepts now h r pg pg' receipt :
  verifyProof uni now h r pg = (pg', Ok receipt) → ∃ proof pending raw tx,
    decode_proof h = Ok proof ∧
    pg_pendingChallenges pg !! pf_ChallengeSHA256 proof = Some pending ∧
    bound_to (pc_challenge pending) proof r ∧
    unix now ≤ ch_ExpiresAt (pc_challenge pending) ∧
    decode_rawtx (pp_RawTxB64 (pf_Payment proof)) = Ok raw ∧
    NewTransactionFromBytes raw = Some tx ∧
    spends_nonce (ch_NonceUTXO (pc_challenge pending)) (tx_Inputs tx) ∧
    Forall (pays (tx_Outputs tx)) (pc_payees pending) ∧
    rc_TxID receipt = TxID tx ∧ rc_Satoshis receipt = total_sats (pc_payees pending) ∧
    pg_pendingChallenges pg' = delete (pf_ChallengeSHA256 proof) (pg_pendingChallenges pg).
Proof.
  intros (proof & pending & HD & HL & HC & ->)%verifyProof_eq.
  apply check_proof_sound in HC as (_ & HB & HE & HP).
  apply check_payment_sound in HP as (raw & tx & ? & ? & ? & ? & ? & ?).
  exists proof, pending, raw, tx. by split_and!.
Qed.

(** ** Requests at the same time

    The gate serves its requests concurrently and its lock covers single
    critical sections: the entry of an issued challenge, the lookup, the
    removal, the sweep of expired challenges. A verification is its lookup and,
    later, its checks with the removal; [dk_flying] has the verifications
    between the two, by the request they are of. *)
Record Desk := MkDesk {
  dk_gate : PaymentGate;
  dk_flying : gmap nat (X402Proof * pendingChallenge * Request)
}.
Inductive event := Issued (k : bytes) | Looked (i : nat) (k : bytes) | Accepted (i : nat) (k : bytes) | Refused (i : nat) (k : bytes).

Inductive desk_step : Desk → list event → Desk → Prop :=
  | desk_issue now nonce r payees pg pg' w fl :
      issueChallengeForPayees uni now (inr nonce) pg r payees = (pg', w) →
      desk_step (MkDesk pg fl) [Issued (sha256Hex (marshal (build_challenge uni now nonce pg r payees)))] (MkDesk pg' fl)
  | desk_lookup i h r proof pending pg fl :
      fl !! i = None → decode_proof h = Ok proof → lookup_challenge proof pg = Some pending →
      desk_step (MkDesk pg fl) [Looked i (pf_ChallengeSHA256 proof)] (MkDesk pg (<[i := (proof, pending, r)]> fl))
  | desk_finish i now r proof pending remove outcome pg fl :
      fl !! i = Some (proof, pending, r) →
      check_proof uni now (pg_arcClient pg) pending proof r = (remove, outcome) →
      desk_step (MkDesk pg fl)
        [match outcome with Ok _ => Accepted i (pf_ChallengeSHA256 proof) | _ => Refused i (pf_ChallengeSHA256 proof) end]
        (MkDesk (if (remove : bool) then consume_challenge proof pg else pg) (delete i fl))
  | desk_clean now pg fl : desk_step (MkDesk pg fl) [] (MkDesk (cleanExpired now pg) fl).

(** A day at the desk, with its events in the order of time. *)
Inductive desk_run (pg : PaymentGate) : list event → Desk → Prop :=
  | desk_open : pg_pendingChallenges pg = ∅ → desk_run pg [] (MkDesk pg ∅)
  | desk_next tr d evs d' : desk_run pg tr d → desk_step d evs d' → desk_run pg (tr ++ evs) d'.

(** [verifyProof] that finds its challenge is its lookup and its checks with
    nothing in between. *)
Lemma verifyProof_two_steps i now h r pg fl pg' receipt :
  fl !! i = None → verifyProof uni now h r pg = (pg', Ok receipt) → ∃ k d,
  desk_step (MkDesk pg fl) [Looked i k] d ∧ desk_step d [Accepted i k] (MkDesk pg' fl).
Proof.
  intros Hi (proof & pending & HD & HL & HC & ->)%verifyProof_eq.
  exists (pf_ChallengeSHA256 proof), (MkDesk pg (<[i := (proof, pending, r)]> fl)). split.
  - by eapply desk_lookup.
  - pose proof (desk_finish i now r proof pending true (Ok receipt) pg (<[i := (proof, pending, r)]> fl)) as HS.
    rewrite delete_insert_id in HS by done. apply HS; [apply lookup_insert_eq|done].
Qed.

(** The challenge has been issued and not been accepted since. *)
Definition live (k : bytes) (tr : list event) : Prop :=
  ∃ t1 t2, tr = t1 ++ Issued k :: t2 ∧ ∀ j, Accepted j k ∉ t2.
(** The request looked the challenge up while it was live and has not been
    answered since. *)
Definition looked (i : nat) (k : bytes) (tr : list event) : Prop :=
  ∃ t1 t2, tr = t1 ++ Looked i k :: t2 ∧ live k t1 ∧ ∀ k', (Looked i k' ∉ t2) ∧ (Accepted i k' ∉ t2) ∧ (Refused i k' ∉ t2).

Lemma live_app k tr evs : live k tr → (∀ j, Accepted j k ∉ evs) → live k (tr ++ evs).
Proof.
  intros (t1 & t2 & -> & Hn) He. exists t1, (t2 ++ evs). split; [by rewrite <- (assoc_L (++))|].
  intros j [Hj|Hj]%elem_of_app; [by eapply Hn|by eapply He].
Qed.
Lemma looked_app i k tr evs :
  looked i k tr → (∀ k', (Looked i k' ∉ evs) ∧ (Accepted i k' ∉ evs) ∧ (Refused i k' ∉ evs)) → looked i k (tr ++ evs).
Proof.
  intros (t1 & t2 & -> & HL & Hn) He. exists t1, (t2 ++ evs). split; [by rewrite <- (assoc_L (++))|]. split; [done|].
  intros k'. specialize (Hn k'). specialize (He k'). rewrite !elem_of_app. tauto.
Qed.

(** What the desk knows is in the trace. *)
Record desk_inv (tr : list event) (d : Desk) : Prop := {
  di_pending : ∀ k, is_Some (pg_pendingChallenges (dk_gate d) !! k) → live k tr;
  di_flying : ∀ i p, dk_flying d !! i = Some p → looked i (pf_ChallengeSHA256 p.1.1) tr;
  di_accepted : ∀ t1 i k t2, tr = t1 ++ Accepted i k :: t2 → looked i k t1
}.

Lemma accepted_snoc (tr t1 t2 : list event) i k e :
  tr ++ [e] = t1 ++ Accepted i k :: t2 → (∃ t2', tr = t1 ++ Accepted i k :: t2') ∨ t1 = tr ∧ e = Accepted i k.
Proof.
  destruct t2 as [|e' t2 _] using rev_ind.
  - intros [-> [= ->]]%app_inj_tail. by right.
  - intros E. left. exists t2. rewrite app_comm_cons, (assoc_L (++)) in E. by apply app_inj_tail in E as [-> _].
Qed.

Lemma desk_inv_quiet tr d d' e :
  desk_inv tr d → (∀ i k, e ≠ Accepted i k) →
  (∀ k, is_Some (pg_pendingChallenges (dk_gate d') !! k) → live k (tr ++ [e])) →
  (∀ i p, dk_flying d' !! i = Some p → looked i (pf_ChallengeSHA256 p.1.1) (tr ++ [e])) → desk_inv (tr ++ [e]) d'.
Proof.
  intros HI He Hp Hf. split; [done..|]. intros t1 i k t2 [[t2' ->]|[-> E]]%accepted_snoc; [|by apply He in E].
  by eapply di_accepted.
Qed.

Lemma finish_inv tr d i now p remove outcome :
  desk_inv tr d → dk_flying d !! i = Some p → check_proof uni now (pg_arcClient (dk_gate d)) p.1.2 p.1.1 p.2 = (remove, outcome) →
  desk_inv (tr ++ [match outcome with Ok _ => Accepted i (pf_ChallengeSHA256 p.1.1) | _ => Refused i (pf_ChallengeSHA256 p.1.1) end])
    (MkDesk (if (remove : bool) then consume_challenge p.1.1 (dk_gate d) else dk_gate d) (delete i (dk_flying d))).
Proof.
  intros HI Hi HC. set (k := pf_ChallengeSHA256 p.1.1) in *.
  assert (∀ j q, delete i (dk_flying d) !! j = Some q → j ≠ i ∧ dk_flying d !! j = Some q) as Hdel
    by (intros j q [? ?]%lookup_delete_Some; done).
  assert (∀ e, e = Accepted i k ∨ e = Refused i k → ∀ j q, delete i (dk_flying d) !! j = Some q →
    looked j (pf_ChallengeSHA256 q.1.1) (tr ++ [e])) as Hfl.
  { intros e He j q [Hj Hq]%Hdel. apply looked_app; [by eapply di_flying|]. intros k'. rewrite !list_elem_of_singleton.
    destruct He as [-> | ->]; split_and!; congruence. }
  destruct outcome as [receipt|e|].
  - destruct (check_proof_sound _ _ _ _ _ _ _ HC) as (-> & _). split; cbn [dk_gate dk_flying].
    + intros k' Hk. cbn in Hk. fold k in Hk. destruct (decide (k' = k)) as [->|Hne]; [by rewrite lookup_delete_eq in Hk; apply is_Some_None in Hk|].
      rewrite lookup_delete_ne in Hk by done. apply live_app; [by eapply di_pending|]. intros j. rewrite list_elem_of_singleton. congruence.
    + apply Hfl. by left.
    + intros t1 j k' t2 [[t2' ->]|[-> [= <- <-]]]%accepted_snoc; [by eapply di_accepted|]. by eapply di_flying in Hi.
  - apply (desk_inv_quiet tr d); [done|done| |apply Hfl; by right]. cbn [dk_gate]. intros k' Hk.
    apply live_app; [|intros j; rewrite list_elem_of_singleton; done]. eapply di_pending; [done|].
    destruct remove; [|done]. cbn in Hk. destruct Hk as [x [_ Hx]%lookup_delete_Some]. by exists x.
  - apply (desk_inv_quiet tr d); [done|done| |apply Hfl; by right]. cbn [dk_gate]. intros k' Hk.
    apply live_app; [|intros j; rewrite list_elem_of_singleton; done]. eapply di_pending; [done|].
    destruct remove; [|done]. cbn in Hk. destruct Hk as [x [_ Hx]%lookup_delete_Some]. by exists x.
Qed.

Lemma desk_step_inv tr d evs d' : desk_inv tr d → desk_step d evs d' → desk_inv (tr ++ evs) d'.
Proof.
  intros HI HS. destruct HS as [now nonce r payees pg pg' w fl HC|i h r proof pending pg fl Hi HD HL|i now r proof pending remove outcome pg fl Hi HC|now pg fl].
  - apply (desk_inv_quiet tr (MkDesk pg fl)); [done|done|..]; cbn [dk_gate dk_flying].
    + injection HC as <- _. cbn. intros k Hk. destruct (decide (k = sha256Hex (marshal (build_challenge uni now nonce pg r payees)))) as [->|Hne].
      * exists tr, []. split; [done|]. intros j. apply not_elem_of_nil.
      * rewrite lookup_insert_ne in Hk by done. apply live_app; [by eapply (di_pending tr (MkDesk pg fl))|].
        intros j. by rewrite list_elem_of_singleton.
    + intros i p Hp. apply looked_app; [by eapply (di_flying tr (MkDesk pg fl))|]. intros k'. by rewrite !list_elem_of_singleton.
  - assert (live (pf_ChallengeSHA256 proof) tr) as Hlive by (eapply (di_pending tr (MkDesk pg fl)); [done|by eexists]).
    apply (desk_inv_quiet tr (MkDesk pg fl)); [done|done|..]; cbn [dk_gate dk_flying].
    + intros k Hk. apply live_app; [by eapply (di_pending tr (MkDesk pg fl))|]. intros j. by rewrite list_elem_of_singleton.
    + intros j p [[<- <-]|[Hj Hp]]%lookup_insert_Some.
      * exists tr, []. split; [done|]. split; [done|]. intros k'. split_and!; apply not_elem_of_nil.
      * apply looked_app; [by eapply (di_flying tr (MkDesk pg fl))|]. intros k'. rewrite !list_elem_of_singleton. split_and!; congruence.
  - by apply (finish_inv tr (MkDesk pg fl) i now (proof, pending, r)).
  - rewrite app_nil_r. split; cbn [dk_gate dk_flying].
    + intros k [x Hx]. cbn in Hx. apply map_lookup_filter_Some in Hx as [Hx _]. eapply (di_pending tr (MkDesk pg fl)); [done|by eexists].
    + apply HI.
    + apply HI.
Qed.

(** C18: however requests for challenges, verifications and sweeps interleave, a
    proof of a challenge is accepted only for a request that had looked the
    challenge up after it was issued and before any proof of it was accepted:
    once one has been accepted, a request that comes later is not, until the
    challenge is issued again. (Requests that overlap can both be accepted:
    [concurrent_replay].) *)
Theorem verifyProof_one_time pg tr d t1 i k t2 :
  desk_run pg tr d → tr = t1 ++ Accepted i k :: t2 →
  ∃ u v w, t1 = u ++ Issued k :: v ++ Looked i k :: w ∧ (∀ j, Accepted j k ∉ v) ∧
    ∀ k', (Looked i k' ∉ w) ∧ (Accepted i k' ∉ w) ∧ (Refused i k' ∉ w).
Proof.
  intros HR ->. assert (desk_inv (t1 ++ Accepted i k :: t2) d) as HI.
  { induction HR as [Hpg|]; [|by eapply desk_step_inv]. split; cbn.
    - intros k' Hk. rewrite Hpg in Hk. by apply is_Some_None in Hk.
    - by intros j p.
    - by intros [] ? ? ?. }
  destruct (di_accepted _ _ HI t1 i k t2 eq_refl) as (t & w & -> & (u & v & -> & Hv) & Hw).
  exists u, v, w. split; [by rewrite <- (assoc_L (++))|]. done.
Qed.

(** Two requests whose lookups both come before either removal, as the two
    critical sections of [verifyProof] allow. *)
Definition verify_interleaved (now : Z) (h1 h2 : bytes) (r1 r2 : Request) (pg : PaymentGate)
    : PaymentGate * res pay_err X402Receipt * res pay_err X402Receipt :=
  match decode_proof h1, decode_proof h2 with
  | Ok p1, Ok p2 =>
      match lookup_challenge p1 pg, lookup_challenge p2 pg with
      | Some c1, Some c2 =>
          let '(rem1, o1) := check_proof uni now (pg_arcClient pg) c1 p1 r1 in
          let '(rem2, o2) := check_proof uni now (pg_arcClient pg) c2 p2 r2 in
          let pg := if (rem1 : bool) then consume_challenge p1 pg else pg in
          let pg := if (rem2 : bool) then consume_challenge p2 pg else pg in
          (pg, o1, o2)
      | _, _ => (pg, Err PeUnknownChallenge, Err PeUnknownChallenge)
      end
  | _, _ => (pg, Err PeProofJSON, Err PeProofJSON)
  end.

(** The lookup and the removal of a challenge are separate critical
    sections, so one payment is accepted for two simultaneous requests. *)
Theorem concurrent_replay now h r pg pg' receipt :
  verifyProof uni now h r pg = (pg', Ok receipt) →
  (verify_interleaved now h h r r pg).1.2 = Ok receipt ∧
  (verify_interleaved now h h r r pg).2 = Ok receipt.
Proof.
  intros (proof & pending & HD & HL & HC & ->)%verifyProof_eq.
  unfold verify_interleaved. by rewrite HD, HL, HC.
Qed.

(** The hexadecimal form of a transaction of an even number of bytes is
    read as base64, so [verifyProof] never sees the transaction. *)
Theorem decode_rawtx_hex_misread raw :
  Nat.Even (length raw) → raw ≠ [] →
  ∃ other, decode_rawtx (hex_encode raw) = Ok other ∧ other ≠ raw.
Proof.
  intros Hev Hne. destruct (hex_b64_std raw Hev) as (b' & E & Hlen).
  unfold decode_rawtx. rewrite E. exists b'. split; [done|]. intros ->.
  destruct raw; [done|]. cbn [length] in Hlen. lia.
Qed.

(** A payment a client may offer for a challenge. *)
Definition payment_for (nonce : NonceUTXO) (payees : list Payee) (rawtx raw : bytes) (tx : Transaction) : Prop :=
  decode_rawtx rawtx = Ok raw ∧ NewTransactionFromBytes raw = Some tx ∧
  Forall (λ i, is_Some (in_SourceTXID i)) (tx_Inputs tx) ∧
  Forall (λ o, is_Some (out_LockingScript o)) (tx_Outputs tx) ∧
  spends_nonce (Some nonce) (tx_Inputs tx) ∧ Forall (pays (tx_Outputs tx)) payees.

Lemma check_nonce_complete n inputs : Forall (λ i, is_Some (in_SourceTXID i)) inputs →
  spends_nonce (Some n) inputs → check_nonce (Some n) inputs = Ok ().
Proof.
  intros HF Hs. unfold check_nonce. case_bool_decide; [done|].
  destruct Hs as [?|Hs]; [done|]. by rewrite nonce_spent_complete.
Qed.

(** What ARC is asked before a payment of the challenge is accepted: nothing
    when there is no client or the challenge does not require acceptance. *)
Definition arc_verdict (arc : option ArcSubmit) (required : bool) (raw : bytes) : res pay_err unit :=
  match arc with Some submit => if required then submit_to_arc submit raw else Ok () | None => Ok () end.

Lemma check_payment_complete now arc pending proof nonce rawtx raw tx :
  payment_for nonce (pc_payees pending) rawtx raw tx →
  pf_Payment proof = MkProofPayment (TxID tx) rawtx →
  ch_NonceUTXO (pc_challenge pending) = Some nonce →
  check_payment now arc pending proof =
    (arc_verdict arc (ch_RequireMempoolAccept (pc_challenge pending)) raw;;
     Ok (MkReceipt (TxID tx) (total_sats (pc_payees pending)) (unix now))).
Proof.
  intros (ER & EN & Hi & Ho & Hs & Hp) EP EC. unfold check_payment.
  rewrite EP, EC. cbn [pp_RawTxB64 pp_TxID]. rewrite ER. cbn [mbind res_mbind res_of_option].
  rewrite EN. cbn [mbind res_mbind res_of_option]. rewrite check_nonce_complete by done.
  cbn [mbind res_mbind]. rewrite verify_payees_complete by done. cbn [mbind res_mbind].
  rewrite (bool_decide_false (TxID tx ≠ TxID tx)) by (intros HH; by apply HH).
  by rewrite andb_false_r.
Qed.

(** C12: a challenge can be met: the client that puts a transaction paying the
    payees and spending the nonce in a proof for the same request, before the
    challenge expires, gets its receipt, and the challenge is gone, unless the
    gate has an ARC client and requires mempool acceptance and ARC refuses the
    transaction or does not answer: then the client gets that error, and its
    challenge stays for another try. *)
Theorem issue_then_pay `{!JsonCodecLaws X402Proof} now now' nonce pg r payees rawtx raw tx pg1 w data :
  issueChallengeForPayees uni now (inr nonce) pg r payees = (pg1, w) →
  payment_for nonce payees rawtx raw tx → now' ≤ now + pg_challengeTTL pg →
  let ch := build_challenge uni now nonce pg r payees in
  let proof := MkProof 1 (ch_Scheme ch) (sha256Hex (marshal ch))
    (MkProofRequest (r_method r) (r_path r) (r_query r) (canonicalHeaderHash uni r)
       (sha256Hex (read_limited mib r)))
    (MkProofPayment (TxID tx) rawtx) in
  json_marshal proof = Some data → json_norm proof = proof →
  verifyProof uni now' (base64Url data) r pg1 =
    match arc_verdict (pg_arcClient pg) (pg_requireMempool pg) raw with
    | Ok _ => (set_pending (delete (sha256Hex (marshal ch)) (pg_pendingChallenges pg)) pg,
               Ok (MkReceipt (TxID tx) (total_sats payees) (unix now')))
    | Err e => (pg1, Err e)
    | Panic => (pg1, Panic)
    end.
Proof.
  intros HI Hpay Hexp ch proof HM HN.
  assert (pg1 = set_pending (<[sha256Hex (marshal ch) := MkPending ch payees]>
            (pg_pendingChallenges pg)) pg) as -> by exact (eq_sym (f_equal fst HI)).
  unfold verifyProof, decode_proof, base64Url. rewrite b64_raw_url_roundtrip. cbn [from_option id].
  rewrite (json_roundtrip proof data HM), HN. cbn [mbind res_mbind res_of_option].
  change (pf_V proof =? 1) with true. cbn [negb guard_err mbind res_mbind].
  unfold lookup_challenge. cbn [pf_ChallengeSHA256 proof set_pending pg_pendingChallenges].
  rewrite lookup_insert_eq. unfold check_proof. cbn [pc_challenge pc_payees].
  rewrite (proj2 (check_binding_iff ch proof r)) by done.
  assert (unix now' ≤ ch_ExpiresAt ch) as HE by (apply Z.div_le_mono; [done|lia]).
  rewrite (proj2 (Z.ltb_ge _ _)) by done. cbn [pg_arcClient set_pending].
  rewrite (check_payment_complete now' _ (MkPending ch payees) proof nonce rawtx raw tx) by done.
  cbn [pc_challenge pc_payees]. change (ch_RequireMempoolAccept ch) with (pg_requireMempool pg).
  destruct (arc_verdict _ _ _) as [[]|e|]; cbn [mbind res_mbind]; [|done..].
  unfold consume_challenge, set_pending. cbn. by rewrite delete_insert_eq.
Qed.
End props.
