(* ===== verification/ServerProps.v ===== *)
(** * Properties of the middleware chains and the data endpoints *)

From Stdlib Require Import Init.Byte Strings.Byte Strings.String Lia ZArith.
From stdpp Require Import base gmap sets list strings numbers sorting.
From S2P Require Import Prelude GoStd Sha256 LevelDB GoText Http Tx Ec Float Envelope EnvelopeStore.
From S2P Require Import RateLimit Payment TokenGate Server DataApi PaymentProps.
Open Scope Z_scope.

(** ** Credentials *)

Lemma scan_int_range s v r : scan_int s = Some (v, r) → - 2 ^ 63 ≤ v < 2 ^ 63.
Proof.
  unfold scan_int. intros HH. case_all.
  all: match goal with E : (_ && _) = true |- _ => apply andb_prop in E as [E1%Z.leb_le E2%Z.ltb_lt] end; lia.
Qed.

Lemma sscanf_d_range s v : sscanf_d s = Some v → - 2 ^ 63 ≤ v < 2 ^ 63.
Proof.
  unfold sscanf_d. intros HH. destruct (skip_spaces 0 s) as [s'|]; [|done]. cbn in HH.
  destruct (scan_int s') as [[v' r]|] eqn:E; [|done]. cbn in HH. injection HH as ->.
  by eapply scan_int_range.
Qed.

(** The two comparisons of [verifyToken] in 64-bit arithmetic: the time exactly
    2^63 seconds back passes too, both differences being the least integer. *)
Lemma token_fresh n ts w : 0 ≤ w < 2 ^ 62 → 0 ≤ n < 2 ^ 62 → - 2 ^ 63 ≤ ts < 2 ^ 63 →
  ((w <? i64 (n - ts)) || (60 <? i64 (ts - n)) = false ↔ n - w ≤ ts ≤ n + 60 ∨ ts = n - 2 ^ 63).
Proof.
  intros Hw Hn Ht. rewrite orb_false_iff, !Z.ltb_ge.
  assert (∀ z, 2 ^ 63 ≤ z < 2 ^ 64 → i64 z = z - 2 ^ 64) as Hhi.
  { intros z Hz. unfold i64, wrapS. change (64 - 1) with 63.
    rewrite <- (Z.mod_add _ (-1)) by lia. rewrite Z.mod_small; lia. }
  assert (∀ z, - 2 ^ 64 < z < - 2 ^ 63 → i64 z = z + 2 ^ 64) as Hlo.
  { intros z Hz. unfold i64, wrapS. change (64 - 1) with 63.
    rewrite <- (Z.mod_add _ 1) by lia. rewrite Z.mod_small; lia. }
  destruct (decide (ts < n - 2 ^ 63)); [rewrite (Hlo (ts - n)) by lia; lia|].
  destruct (decide (ts = n - 2 ^ 63)); [rewrite (Hhi (n - ts)), i64_small by lia; lia|].
  rewrite !i64_small by lia. lia.
Qed.

Section token.
Context `{EC}.

(** C34: a credential is accepted exactly when it is a signature, by the key of
    the topic's envelope, of the topic and a time at most the validity window
    old and at most a minute ahead. The 64-bit subtractions of the check let one
    other time through, 2^63 seconds ago. *)
Theorem verifyToken_iff now tg token topic key :
  0 ≤ unix now < 2 ^ 62 → 0 ≤ tg_validityWindow tg / second < 2 ^ 62 →
  verifyToken now tg token topic key = Ok () ↔ ∃ sigHex ts_text pub_bytes pub sig_bytes sig ts,
    split2 x3a token = (sigHex, Some ts_text) ∧
    hex_decode key = Some pub_bytes ∧ length pub_bytes = 33%nat ∧
    PublicKeyFromBytes pub_bytes = Some pub ∧
    hex_decode sigHex = Some sig_bytes ∧ FromDER sig_bytes = Some sig ∧
    VerifyDigest sig (token_digest topic ts_text) pub = true ∧
    sscanf_d ts_text = Some ts ∧
    (unix now - tg_validityWindow tg / second ≤ ts ≤ unix now + 60 ∨ ts = unix now - 2 ^ 63).
Proof.
  intros Hn Hw. unfold verifyToken. destruct (split2 x3a token) as [sigHex rest]. split.
  - intros HH. res_inv. subst.
    repeat match goal with E : negb _ = false |- _ => apply negb_false_iff in E end.
    match goal with E : (zlen _ =? 33) = true |- _ => apply Z.eqb_eq in E; unfold zlen in E end.
    match goal with E : sscanf_d _ = Some _ |- _ => pose proof (sscanf_d_range _ _ E) end.
    eexists _, _, _, _, _, _, _. split_and!; [done|done|lia|done..|].
    by apply token_fresh.
  - intros (?&ts_text&?&?&?&?&ts& [= <- ->] & -> & Hl & HP & -> & HD & HV & Hts & Ht).
    cbn [res_of_option mbind res_mbind]. unfold zlen. rewrite Hl, HP. cbn -[sscanf_d i64 VerifyDigest].
    rewrite HD. cbn -[sscanf_d i64 VerifyDigest]. rewrite HV, Hts. cbn -[sscanf_d i64].
    by rewrite (proj2 (token_fresh _ _ _ Hw Hn (sscanf_d_range _ _ Hts))).
Qed.
End token.

(** ** The chains *)

Lemma with_header_eq {S} n v (h : Handler S) r s s' w : with_header n v h r s = (s', w) →
  ∃ w0, h r s = (s', w0).
Proof. unfold with_header. destruct (h r s) as [s0 w0]. intros [= -> _]. by exists w0. Qed.

(** Two answers alike but for their headers. *)
Definition essence (w : option Response) : option (Z * body) := (λ w, (w_status w, w_body w)) <$> w.

Lemma with_header_essence {S} n v (h : Handler S) r s s' w : with_header n v h r s = (s', w) →
  ∃ w0, h r s = (s', w0) ∧ essence w = essence w0.
Proof. unfold with_header. destruct (h r s) as [s0 w0]. intros [= -> <-]. exists w0. by destruct w0. Qed.

(** The handler was not run: its state is as it was and the request has not
    been answered with 200. *)
Definition refused {S} (s s' : S) (w : option Response) : Prop :=
  s' = s ∧ ∀ x, w = Some x → w_status x ≠ StatusOK.
Lemma refused_error {S} (s : S) status text : status ≠ StatusOK → refused s s (Some (writeError status text)).
Proof. intros Hs. split; [done|]. by intros x [= <-]. Qed.
Lemma refused_none {S} (s : S) : refused s s None.
Proof. done. Qed.

Lemma cors_eq {S} (h : Handler S) r s s' w : cors h r s = (s', w) →
  refused s s' w ∨ r_method r ≠ MethodOptions ∧ ∃ w0, h r s = (s', w0) ∧ essence w = essence w0.
Proof.
  intros (w1 & (w2 & (w3 & HH & E3)%with_header_essence & E2)%with_header_essence & E1)%with_header_essence.
  rewrite E2, E3 in E1. clear E2 E3. case_bool_decide.
  - left. unfold answer in HH. injection HH as <- <-. split; [done|]. intros x ->. injection E1 as E _. by rewrite E.
  - right. eauto.
Qed.

(** The request with the mark of the gates. *)
Definition marked (r r' : Request) : Prop := ∃ b, r' = set_body b (set_header authed (lit "true") r).
Lemma set_header_marked r : marked r (set_header authed (lit "true") r).
Proof. by exists (r_body r). Qed.
Lemma set_body_marked b r : marked r (set_header authed (lit "true") (set_body b r)).
Proof. by exists b. Qed.
Lemma header_set_header r n v m : m ≠ n → header (set_header n v r) m = header r m.
Proof. intros Hn. unfold header, set_header. cbn. by rewrite lookup_insert_ne. Qed.
Lemma header_marked r r' : marked r r' → header r' authed = lit "true".
Proof. intros [b ->]. unfold header. cbn. by rewrite lookup_insert_eq. Qed.

Section chains.
Context `{EC} `{TxLib} `{JsonCodec X402Challenge} `{JsonCodec X402Proof} `{JsonCodec X402Receipt}.
Context `{JsonCodec Envelope}.
Context (uni : bytes → bytes) (pay_text : pay_err → bytes) (tok_text : tok_err → bytes).

(** The request carries a transaction that pays these payees, or a proof, bound
    to it, of a pending challenge with a transaction that pays the payees of
    the challenge and spends its nonce. *)
Definition has_paid (g : PaymentGate) (r : Request) (payees : list Payee) : Prop :=
  (∃ raw tx, decode_payment (trim_space uni (header r (lit "X-Bsv-Payment"))) = Ok raw ∧
     NewTransactionFromBytes raw = Some tx ∧ Forall (pays (tx_Outputs tx)) payees) ∨
  (∃ proof pending raw tx, decode_proof (header r (lit "X402-Proof")) = Ok proof ∧
     pg_pendingChallenges g !! pf_ChallengeSHA256 proof = Some pending ∧ bound_to uni (pc_challenge pending) proof r ∧
     decode_rawtx (pp_RawTxB64 (pf_Payment proof)) = Ok raw ∧ NewTransactionFromBytes raw = Some tx ∧
     spends_nonce (ch_NonceUTXO (pc_challenge pending)) (tx_Inputs tx) ∧ Forall (pays (tx_Outputs tx)) (pc_payees pending)).

Lemma bound_to_authed ch proof v r : bound_to uni ch proof (set_header authed v r) → bound_to uni ch proof r.
Proof.
  unfold bound_to.
  assert (canonicalHeaderHash uni (set_header authed v r) = canonicalHeaderHash uni r) as ->.
  { unfold canonicalHeaderHash. by rewrite !header_set_header. }
  assert (∀ n, read_limited n (set_header authed v r) = read_limited n r) as Hr by done.
  rewrite Hr. exact (λ HH, HH).
Qed.
Lemma has_paid_authed g v r payees : has_paid g (set_header authed v r) payees → has_paid g r payees.
Proof.
  unfold has_paid. rewrite !header_set_header by done. intros [HH|(proof & pending & raw & tx & HD & HL & HB & HH)]; [by left|].
  right. exists proof, pending, raw, tx. split; [exact HD|]. split; [exact HL|]. split; [by eapply bound_to_authed|exact HH].
Qed.

Lemma verifyDirectPayment_sound now g r payees receipt :
  verifyDirectPayment uni now (pg_arcClient g) (header r (lit "X-Bsv-Payment")) payees = Ok receipt → has_paid g r payees.
Proof.
  unfold verifyDirectPayment. intros HH. res_inv.
  match goal with E : verify_payees _ _ _ = Ok _ |- _ => apply verify_payees_sound in E as [HF _] end.
  left. eauto.
Qed.
Lemma verifyProof_has_paid now g r payees g' receipt :
  verifyProof uni now (header r (lit "X402-Proof")) r g = (g', Ok receipt) → has_paid g r payees.
Proof.
  intros (proof & pending & HD & HL & HC & _)%verifyProof_eq.
  apply check_proof_sound in HC as (_ & HB & _ & HP).
  apply check_payment_sound in HP as (raw & tx & HR & HT & HN & HF & _).
  right. by exists proof, pending, raw, tx.
Qed.

(** It owes something and has paid it. *)
Definition has_paid_owed (resolve : option (bytes → option Monetization)) (g : PaymentGate) (r : Request) : Prop :=
  (resolvePayees resolve g r).1 ≠ [] ∧ has_paid g r (resolvePayees resolve g r).1.

(** The payment gate refuses a request, or passes it on: unmarked when it owes
    nothing, marked when it names a token-gated topic or has paid. *)
Lemma pay_outcome {S} now mint resolve (next : Handler S) r g s g' s' w :
  Payment.Middleware uni pay_text now mint resolve next r (g, s) = ((g', s'), w) →
  refused s s' w ∨ ∃ r' w0, next r' s = (s', w0) ∧ essence w = essence w0 ∧
    (r' = r ∧ resolvePayees resolve g r = ([], false) ∨
     marked r r' ∧ ((resolvePayees resolve g r).2 = true ∨ has_paid_owed resolve g r)).
Proof.
  unfold Payment.Middleware, has_paid_owed. destruct (resolvePayees resolve g r) as [payees []]; cbn [fst snd].
  { destruct (next _ s) as [s1 w1] eqn:En. intros [= _ <- <-]. right. eexists _, _. split; [exact En|]. split; [done|].
    right. split; [apply set_header_marked|by left]. }
  case_bool_decide as Hp; [subst payees|].
  { destruct (next _ s) as [s1 w1] eqn:En. intros [= _ <- <-]. right. eexists _, _. split; [exact En|]. split; [done|]. by left. }
  cbv zeta beta iota. case_match.
  { unfold issueChallengeForPayees. destruct mint; intros [= _ <- <-]; left; split; [done|by intros x [= <-]|done|by intros x [= <-]]. }
  case_match.
  - destruct (verifyDirectPayment _ _ _ _ _) as [receipt|e|] eqn:EV.
    + destruct (grant _ _ _ _) as [s1 w1] eqn:En. intros [= _ <- <-]. right.
      unfold grant in En. apply with_header_essence in En as (w0 & En & Ew). eexists _, w0. split; [exact En|]. split; [done|].
      right. split; [apply set_header_marked|]. right. split; [done|]. by eapply verifyDirectPayment_sound.
    + intros [= _ <- <-]. left. by apply refused_error.
    + intros [= _ <- <-]. left. apply refused_none.
  - destruct (verifyProof _ _ _ _ _) as [g1 [receipt|e|]] eqn:EV.
    + destruct (grant _ _ _ _) as [s1 w1] eqn:En. intros [= _ <- <-]. right.
      unfold grant in En. apply with_header_essence in En as (w0 & En & Ew). eexists _, w0. split; [exact En|]. split; [done|].
      right. split; [apply set_body_marked|]. right. split; [done|]. by eapply verifyProof_has_paid.
    + intros [= _ <- <-]. left. by apply refused_error.
    + intros [= _ <- <-]. left. apply refused_none.
Qed.

Lemma resolvePayees_authed resolve g v r :
  resolvePayees resolve g (set_header authed v r) = resolvePayees resolve g r.
Proof. done. Qed.

Lemma optional_effect {A S} (mw : Handler (A * S)) (next : Handler S) r a s a' s' w :
  optional mw next r (Some a, s) = ((a', s'), w) → ∃ a1, mw r (a, s) = ((a1, s'), w).
Proof. unfold optional. destruct (mw r (a, s)) as [[a1 s1] w1]. intros [= <- <- <-]. eauto. Qed.

(** Why a request is let through the payment gate: there is none, the request
    owes nothing, it names a token-gated topic, or it has paid. *)
Definition pay_passes (ev : Env) (pg : option PaymentGate) (r : Request) : Prop :=
  match pg with
  | None => True
  | Some g => resolvePayees (ev_resolve ev) g r = ([], false) ∨
              (resolvePayees (ev_resolve ev) g r).2 = true ∨ has_paid_owed (ev_resolve ev) g r
  end.
(** Why it is marked there. *)
Definition pay_marks (ev : Env) (pg : option PaymentGate) (r : Request) : Prop :=
  ∃ g, pg = Some g ∧ ((resolvePayees (ev_resolve ev) g r).2 = true ∨ has_paid_owed (ev_resolve ev) g r).

Lemma optional_pay_outcome ev {S} (next : Handler S) r pg s pg' s' w :
  pay uni pay_text ev next r (pg, s) = ((pg', s'), w) →
  refused s s' w ∨ pay_passes ev pg r ∧ ∃ r' w0, next r' s = (s', w0) ∧ essence w = essence w0 ∧
    (r' = r ∨ marked r r' ∧ pay_marks ev pg r).
Proof.
  unfold pay. destruct pg as [g|].
  - intros [a1 HH]%optional_effect. apply pay_outcome in HH as [HH|(r' & w0 & Hn & He & Hr)]; [by left|right].
    unfold pay_passes, pay_marks. destruct Hr as [[-> Hr]|[Hk Hr]]; [by eauto 10|]. split; [by right|]. exists r', w0. eauto 10.
  - unfold optional. destruct (next r s) as [s1 w1] eqn:En. intros [= _ <- <-]. right. split; [done|]. eauto 10.
Qed.

(** The request names a token-gated topic, whose envelope has these terms. *)
Definition token_topic (ev : Env) (r : Request) (mon : Monetization) : Prop :=
  ∃ resolve, ev_resolve ev = Some resolve ∧ query_param r (lit "topic") ≠ [] ∧
    resolve (query_param r (lit "topic")) = Some mon ∧ Model mon = MonetizationToken.
Lemma resolvePayees_gated ev g r : (resolvePayees (ev_resolve ev) g r).2 = true → ∃ mon, token_topic ev r mon.
Proof.
  unfold resolvePayees, token_topic. destruct (ev_resolve ev) as [resolve|]; [|done].
  case_bool_decide; [done|]. destruct (resolve _) as [mon|] eqn:Er; [|done]. repeat case_match; try done.
  intros _. exists mon, resolve. split_and!; [done..|]. by eapply bool_decide_eq_true_1.
Qed.
(** It shows the credential they ask for. *)
Definition shows_token (ev : Env) (tg : TokenGate) (r : Request) (mon : Monetization) : Prop :=
  verifyToken (ev_now ev) tg (header r (lit "X-App-Token")) (query_param r (lit "topic")) (AuthPubkey mon) = Ok ().
(** What the token gate, if there is one, has seen of a request it passes. *)
Definition credential_ok (ev : Env) (tg : option TokenGate) (r : Request) : Prop :=
  ∀ tg0 mon, tg = Some tg0 → token_topic ev r mon → shows_token ev tg0 r mon.

Lemma gate_token_outcome ev tg {S} (next : Handler S) r s s' w :
  gate_token tok_text ev tg next r s = (s', w) →
  refused s s' w ∨ credential_ok ev tg r ∧ ∃ r', next r' s = (s', w) ∧
    (r' = r ∨ r' = set_header authed (lit "true") r ∧ ∃ mon, token_topic ev r mon).
Proof.
  unfold gate_token, TokenGate.Middleware, credential_ok, token_topic, shows_token.
  destruct tg as [tg|]; [|intros HH; right; split; [done|by eauto]].
  case_bool_decide as Ht; [intros HH; right; split; [naive_solver|by eauto]|].
  destruct (ev_resolve ev) as [resolve|]; cbn [default from_option id]; [|intros HH; right; split; [naive_solver|by eauto]].
  destruct (resolve (query_param r (lit "topic"))) as [mon|] eqn:Er; [|intros HH; right; split; [naive_solver|by eauto]].
  case_bool_decide as Hm; [intros HH; right; split; [naive_solver|by eauto]|].
  unfold answer. case_bool_decide; [intros [= <- <-]; left; by apply refused_error|].
  destruct (verifyToken _ _ _ _ _) as [[]|e|] eqn:EV;
    [|intros [= <- <-]; left; first [by apply refused_error|apply refused_none]..].
  intros HH. right. split.
  - intros tg0 mon' [= <-] (resolve' & [= <-] & _ & Hres & _). rewrite Er in Hres. by injection Hres as <-.
  - exists (set_header authed (lit "true") r). split; [done|]. right. split; [done|]. by exists mon, resolve.
Qed.

(** A request to an open endpoint is refused, or its handler runs: the request
    is not a preflight, shows the credential its topic asks for, and owes
    nothing, names a token-gated topic, or has been paid for. The handler sees
    it unmarked, or marked because the topic is token-gated or it was paid for. *)
Theorem openRead_guards ev tg {S} (next : Handler S) r rl pg s rl' pg' s' w :
  openRead uni pay_text tok_text ev tg next r (rl, (pg, s)) = ((rl', (pg', s')), w) →
  refused s s' w ∨ r_method r ≠ MethodOptions ∧ credential_ok ev tg r ∧ pay_passes ev pg r ∧
    ∃ r' w0, next r' s = (s', w0) ∧ essence w = essence w0 ∧
      (r' = r ∨ marked r r' ∧ ((∃ mon, token_topic ev r mon) ∨ pay_marks ev pg r)).
Proof.
  intros [[[= -> -> ->] Hw]|[Hm (w0 & HH & Ew)]]%cors_eq; [by left|].
  set (h := gate_token tok_text ev tg (pay uni pay_text ev next)) in *.
  assert (refused s s' w0 ∨ h r (pg, s) = ((pg', s'), w0)) as [[-> Hs]|Hg].
  { destruct rl as [rl|].
    - apply optional_effect in HH as [a1 HH]. unfold RateLimit.Middleware in HH.
      destruct (Allow _ _ _) as [rl1 []].
      + destruct (h r (pg, s)) as [s1 w1]. injection HH as _ -> <-. by right.
      + unfold answer in HH. injection HH as _ _ <- <-. left. split; [done|]. by intros x [= <-].
    - unfold optional in HH. destruct (h r (pg, s)) as [s1 w1]. injection HH as _ -> <-. by right. }
  { left. split; [done|]. intros x ->. destruct w0 as [w0|]; [|done]. injection Ew as -> _. by apply Hs. }
  apply gate_token_outcome in Hg as [[[= -> ->] Hs]|(Hc & r1 & Hp & Hr1)].
  { left. split; [done|]. intros x ->. destruct w0 as [w0|]; [|done]. injection Ew as -> _. by apply Hs. }
  apply optional_pay_outcome in Hp as [[-> Hs]|(Hpass & r2 & w2 & Hn & Ew2 & Hr2)].
  { left. split; [done|]. intros x ->. destruct w0 as [w0|]; [|done]. injection Ew as -> _. by apply Hs. }
  right. split; [done|]. split; [done|].
  assert (∀ g, resolvePayees (ev_resolve ev) g r1 = resolvePayees (ev_resolve ev) g r) as Er
    by (intros g; destruct Hr1 as [->|[-> _]]; done).
  assert (∀ g, has_paid_owed (ev_resolve ev) g r1 → has_paid_owed (ev_resolve ev) g r) as Hback.
  { intros g. unfold has_paid_owed. rewrite Er. intros [Hne Hp]. split; [exact Hne|].
    destruct Hr1 as [->|[-> _]]; [exact Hp|by eapply has_paid_authed]. }
  split. { unfold pay_passes in *. destruct pg as [g|]; [|done]. rewrite Er in Hpass.
    destruct Hpass as [Hp|[Hp|Hp]]; [left; exact Hp|right; left; exact Hp|right; right; exact (Hback _ Hp)]. }
  exists r2, w2. split; [done|]. split; [congruence|]. unfold pay_marks in *.
  destruct Hr2 as [->|[[b ->] (g & -> & Hg)]].
  - destruct Hr1 as [->|[-> Ht]]; [by left|]. right. split; [apply set_header_marked|by left].
  - right. split.
    + exists b. destruct Hr1 as [->|[-> _]]; [done|]. unfold set_header. cbn. by rewrite insert_insert_eq.
    + right. exists g. split; [done|]. rewrite Er in Hg.
      destruct Hg as [Hg|Hg]; [left; exact Hg|right; exact (Hback _ Hg)].
Qed.

(** [authOrPay] has no token gate: naming any token-gated topic in the
    query of [POST /data] gets an unauthenticated request past the payment
    gate, marked as authenticated. *)
Theorem authOrPay_token_bypass ev authToken {S} (next : Handler S) r g s resolve mon :
  r_method r ≠ MethodOptions → request_token r ≠ authToken →
  ev_resolve ev = Some resolve → query_param r (lit "topic") ≠ [] →
  resolve (query_param r (lit "topic")) = Some mon → Model mon = MonetizationToken →
  authOrPay uni pay_text ev authToken next r (Some g, s) =
    (let '(s', w) := next (set_header authed (lit "true") r) s in
     ((Some g, s'), add_header allow_origin (lit "*") <$> w)).
Proof.
  intros Hm Ht Hr Hq Hres Hmod. unfold authOrPay. rewrite bool_decide_false by done.
  rewrite (bool_decide_false (request_token r = authToken)), andb_false_r by done.
  unfold with_header, pay, optional, Payment.Middleware, resolvePayees.
  rewrite Hr, bool_decide_false by done. rewrite Hres.
  rewrite Hmod, !(bool_decide_false (MonetizationToken = _)), bool_decide_true by done.
  by destruct (next _ s).
Qed.

(** What lets a request without the operator's token post data: with a gate, to
    pass it (in the ways of [pay_passes]); without one, a valid signed envelope
    in the body. *)
Definition may_post (ev : Env) (pg : option PaymentGate) (r : Request) : Prop :=
  match pg with Some _ => pay_passes ev pg r | None => signed_envelope (read_limited mib r) = Ok true end.

Lemma authOrPay_guards ev authToken {S} (next : Handler S) r pg s pg' s' w :
  r_method r ≠ MethodOptions → (authToken = [] ∨ request_token r ≠ authToken) →
  authOrPay uni pay_text ev authToken next r (pg, s) = ((pg', s'), w) → refused s s' w ∨ may_post ev pg r.
Proof.
  intros Hm Ht. unfold authOrPay. rewrite bool_decide_false by done.
  assert (negb (bool_decide (request_token r = [])) && negb (bool_decide (authToken = [])) &&
    bool_decide (request_token r = authToken) = false) as ->.
  { destruct Ht as [-> |Ht]; [by rewrite (bool_decide_true ([] = [])), andb_false_r|].
    by rewrite (bool_decide_false (request_token r = authToken)), andb_false_r. }
  destruct pg as [g|].
  - intros (w0 & HH & Ew)%with_header_essence. apply optional_pay_outcome in HH as [[-> Hs]|[HP _]]; [|by right].
    left. split; [done|]. intros x ->. destruct w0 as [w0|]; [|done]. injection Ew as -> _. by apply Hs.
  - unfold may_post. destruct (signed_envelope (read_limited mib r)) as [[]| |]; [by right|..].
    + intros (w0 & [= _ <- <-] & Ew)%with_header_essence. left. split; [done|]. intros x ->. injection Ew as -> _. done.
    + intros [= _ <- <-]. left. apply refused_none.
    + intros [= _ <- <-]. left. apply refused_none.
Qed.
End chains.

(** ** Redaction *)

Lemma redact_false e : paid (redact false e) = false ∨ Payload (redact false e) = redacted_text.
Proof. unfold redact. destruct (paid e) eqn:E; cbn [negb andb]; auto. Qed.

Lemma redact_true e : redact true e = e.
Proof. done. Qed.

Section data.
Context {DB : Type} `{LevelDB DB} `{EC} `{JsonCodec Envelope} `{SortSlice} {M : Type}.
Context (visit : Store DB → list (bytes * Envelope)) (store_text : estore_err → bytes).

(** The answer of [GET /data] with these envelopes. *)
Definition data_answer (topic : bytes) (es : list Envelope) : Response :=
  writeJSON StatusOK (JObj
    [(lit "topic", JStr topic); (lit "count", JNum (Z.of_nat (length es)));
     (lit "envelopes", JArr ((λ e, JRaw (marshal e)) <$> es))]).

(** The envelopes a query selects. *)
Definition selected (now : Z) (r : Request) (s : Store DB) (es : list Envelope) : Prop :=
  ∃ all, QueryByTopic now (visit s) s (query_param r (lit "topic")) (query_limit r) = Ok all ∧
  es = if 0 <? query_since r then filter (λ e, query_since r < Timestamp e) all else all.

Lemma handleQueryData_eq authToken now r (st : Api (DB:=DB) M) st' w :
  handleQueryData visit store_text authToken now r st = (st', Some w) → w_status w = StatusOK →
  ∃ s es, api_store st = Some s ∧ selected now r s es ∧
  w = data_answer (query_param r (lit "topic")) (redact (isAuthed authToken r) <$> es).
Proof.
  unfold handleQueryData, answer, selected. destruct (api_store st) as [s|].
  2: { intros [= _ <-] HS. discriminate HS. }
  case_bool_decide. { intros [= _ <-] HS. discriminate HS. }
  destruct (QueryByTopic _ _ _ _ _) as [envs|e|] eqn:EQ; [|intros [= _ <-] HS; discriminate HS|intros [=]].
  intros [= _ <-] _. exists s. eexists. split_and!; [done|exists envs; split; [exact EQ|reflexivity]|].
  unfold data_answer. by rewrite !length_fmap.
Qed.

(** The operator's token as a bearer. *)
Definition bearer (authToken : bytes) (r : Request) : Prop :=
  authToken ≠ [] ∧ header r (lit "Authorization") = lit "Bearer " ++ authToken.
Lemma isAuthed_iff authToken r : isAuthed authToken r = true ↔ header r authed = lit "true" ∨ bearer authToken r.
Proof.
  unfold isAuthed, bearer. rewrite orb_true_iff, andb_true_iff, negb_true_iff, bool_decide_eq_false, !bool_decide_eq_true. done.
Qed.

(** C33: the whole route of [GET /data], behind its gates. A reader who neither
    carries the operator's token nor sets the mark of the gates himself, and who
    gets an answer, gets the selected envelopes with the notice for the payload
    of each that has a price; he gets these payloads as they are only when the
    topic is token-gated, with a valid credential for it if there is a token
    gate, or when there is a payment gate and he has paid at it. (The mark is a
    header that a client can set: [openRead_spoofed_mark].) *)
Theorem openRead_redacts `{TxLib} `{JsonCodec X402Challenge} `{JsonCodec X402Proof} `{JsonCodec X402Receipt}
    uni pay_text tok_text ev tg authToken r rl pg (st : Api (DB:=DB) M) rl' pg' st' w :
  header r authed ≠ lit "true" → ¬ bearer authToken r →
  openRead uni pay_text tok_text ev tg (handleQueryData visit store_text authToken (ev_now ev)) r
    (rl, (pg, st)) = ((rl', (pg', st')), Some w) → w_status w = StatusOK →
  ∃ s es out, api_store st = Some s ∧ selected (ev_now ev) r s es ∧
    w_body w = w_body (data_answer (query_param r (lit "topic")) out) ∧
    (Forall2 (λ e o, if paid e then o = set_payload redacted_text e else o = e) es out ∨
     out = es ∧
       ((∃ mon, token_topic ev r mon ∧ ∀ tg0, tg = Some tg0 → shows_token ev tg0 r mon) ∨
        ∃ g, pg = Some g ∧ has_paid_owed uni (ev_resolve ev) g r)).
Proof.
  intros Hmark Hbear HO HS. apply openRead_guards in HO as [[_ Hr]|(_ & Hc & _ & r' & w0 & HQ & Ew & Hr)]; [by destruct (Hr w eq_refl)|].
  destruct w0 as [w0|]; [|done]. injection Ew as Es Eb. rewrite HS in Es.
  destruct (handleQueryData_eq _ _ _ _ _ _ HQ (eq_sym Es)) as (s & es & Hs & Hsel & ->).
  exists s, es, (redact (isAuthed authToken r') <$> es). split; [exact Hs|].
  assert (r_query r' = r_query r) as Hq by (destruct Hr as [->|[[b ->] _]]; reflexivity).
  assert (∀ k, query_param r' k = query_param r k) as Hqp by (intros k; unfold query_param; by rewrite Hq).
  split. { destruct Hsel as (all & HA & HE). exists all. unfold query_limit, query_since in *. rewrite !Hqp in *. done. }
  split; [rewrite <- Hqp; exact Eb|]. destruct Hr as [->|[Hk Hwhy]].
  - left. assert (isAuthed authToken r = false) as -> by (apply not_true_iff_false; rewrite isAuthed_iff; tauto).
    clear. induction es as [|e es IH]; cbn; constructor; [|done]. unfold redact. by destruct (paid e).
  - right. assert (isAuthed authToken r' = true) as -> by (apply isAuthed_iff; left; by apply (header_marked r)).
    split. { rewrite (list_fmap_ext _ id); [by rewrite list_fmap_id|]. intros; apply redact_true. }
    assert (Ht : ∀ mon, token_topic ev r mon → ∀ tg0, tg = Some tg0 → shows_token ev tg0 r mon) by (intros mon Hmon tg0 ->; by apply Hc).
    destruct Hwhy as [[mon Hmon]|(g & -> & [Hg|Hp])]; [left; by eauto| |right; by exists g].
    apply resolvePayees_gated in Hg as [mon Hmon]. left. by eauto.
Qed.

(** The mark of an authenticated request is a request header, which
    nothing removes from what a client sends: a client that sets it reads the
    paid payloads of a node without gates. *)
Theorem openRead_spoofed_mark `{TxLib} `{JsonCodec X402Challenge} `{JsonCodec X402Proof}
    `{JsonCodec X402Receipt} uni pay_text tok_text ev authToken r (st : Api (DB:=DB) M) st' w :
  header r authed = lit "true" → r_method r ≠ MethodOptions →
  openRead uni pay_text tok_text ev None (handleQueryData visit store_text authToken (ev_now ev)) r
    (None, (None, st)) = ((None, (None, st')), Some w) → w_status w = StatusOK →
  ∃ s es, api_store st = Some s ∧ selected (ev_now ev) r s es ∧
  w_body w = w_body (data_answer (query_param r (lit "topic")) es).
Proof.
  intros HA Hm HO HS.
  unfold openRead, cors, with_header, gate_token, TokenGate.Middleware, pay, optional in HO.
  rewrite bool_decide_false in HO by done.
  destruct (handleQueryData visit store_text authToken (ev_now ev) r st) as [st1 w1] eqn:EQ.
  destruct w1 as [w1|]; [|discriminate HO]. injection HO as <- <-.
  destruct (handleQueryData_eq _ _ _ _ _ _ EQ HS) as (s & es & Hs & Hsel & ->).
  exists s, es. split_and!; [done..|]. rewrite !body_add_header.
  assert (isAuthed authToken r = true) as -> by (unfold isAuthed; by rewrite bool_decide_true).
  by rewrite (list_fmap_ext _ id), list_fmap_id by (intros; apply redact_true).
Qed.
End data.
