(* ===== verification/ServerRuns.v ===== *)
(** * The API server at concrete requests

    The properties of [PaymentProps] and [ServerProps] applied to a gate that
    charges, a challenge that is paid, and a store with a paid envelope. *)

From Stdlib Require Import Init.Byte Strings.Byte Strings.String Lia ZArith.
From stdpp Require Import base gmap sets list strings numbers sorting.
From S2P Require Import Prelude GoStd Sha256 LevelDB GoText Http Tx Ec Float Envelope EnvelopeStore.
From S2P Require Import EnvelopeProps EnvelopeRuns RateLimit Payment TokenGate Server DataApi.
From S2P Require Import PaymentProps ServerProps.
Open Scope Z_scope.

(** The codecs of the records. *)
Definition payee_field (p : Payee) : bytes := frame [Role p; LockingScriptHex p; z_field (AmountSats p)].
Definition nonce_field (n : NonceUTXO) : bytes :=
  frame [nu_TxID n; z_field (nu_Vout n); z_field (nu_Satoshis n); nu_LockingScriptHex n].

Definition challenge_fields (c : X402Challenge) : list bytes :=
  [z_field (ch_V c); ch_Scheme c; ch_Domain c; ch_Method c; ch_Path c; ch_Query c;
   ch_ReqHeadersSHA256 c; ch_ReqBodySHA256 c; z_field (ch_AmountSats c); ch_PayeeLockingScriptHex c;
   list_field payee_field (ch_Payees c); option_field nonce_field (ch_NonceUTXO c);
   z_field (ch_ExpiresAt c); bool_field (ch_RequireMempoolAccept c)].
(** The gate never reads a challenge back. *)
#[export] Instance challenge_json : JsonCodec X402Challenge := frame_codec challenge_fields (λ _, None) id.

Definition proof_fields (p : X402Proof) : list bytes :=
  let r := pf_Request p in
  [z_field (pf_V p); pf_Scheme p; pf_ChallengeSHA256 p; pr_Method r; pr_Path r; pr_Query r;
   pr_ReqHeadersSHA256 r; pr_ReqBodySHA256 r; pp_TxID (pf_Payment p); pp_RawTxB64 (pf_Payment p)].
Definition fields_proof (l : list bytes) : option X402Proof :=
  match l with
  | [v; s; c; m; p; q; h; b; t; x] =>
      v ← field_z v; Some (MkProof v s c (MkProofRequest m p q h b) (MkProofPayment t x))
  | _ => None
  end.
#[export] Instance proof_json : JsonCodec X402Proof := frame_codec proof_fields fields_proof id.
#[export] Instance proof_json_laws : JsonCodecLaws X402Proof.
Proof. apply frame_codec_laws. intros [? ? ? [] []]. cbn -[z_field field_z]. by rewrite field_z_field. Qed.
#[export] Instance receipt_json : JsonCodec X402Receipt :=
  frame_codec (λ c, [rc_TxID c; z_field (rc_Satoshis c); z_field (rc_Timestamp c)]) (λ _, None) id.

(** ** A request that is charged and paid *)

Definition t1 : Z := 1700000000 * second.
Definition gate : PaymentGate := MkGate 100 (lit "76a9") (60 * second) false None true true 0 ∅ ∅.
Definition get_tip : Request :=
  MkRequest (lit "GET") (lit "node") (lit "/headers/tip") [] ∅ [] (lit "1.2.3.4:5").
Definition nonce1 : NonceUTXO := MkNonce (lit "abc") 1 1 (lit "51").
Definition payees1 : list Payee := [MkPayee (lit "infrastructure") (lit "76a9") 100].
Definition tx1 : Transaction :=
  MkTx [MkInput (Some (lit "abc")) 1] [MkOutput 100 (Some [x76; xa9])].
Definition rawtx1 : bytes := hex_encode (toy_print tx1).
Definition challenge1 : X402Challenge := build_challenge id t1 nonce1 gate get_tip payees1.
Definition issue1 := issueChallengeForPayees id t1 (inr nonce1) gate get_tip payees1.
Definition gate1 : PaymentGate := issue1.1.
Definition proof1 : X402Proof :=
  MkProof 1 (ch_Scheme challenge1) (sha256Hex (marshal challenge1))
    (MkProofRequest (lit "GET") (lit "/headers/tip") [] (canonicalHeaderHash id get_tip)
       (sha256Hex (read_limited mib get_tip)))
    (MkProofPayment (TxID tx1) rawtx1).
Definition proof_header : bytes := base64Url (marshal proof1).
Definition receipt1 : X402Receipt := MkReceipt (TxID tx1) 100 (unix t1).

(** The proof of the challenge is accepted. *)
Definition verify1 := verifyProof id t1 proof_header get_tip gate1.
Lemma verify1_ok : verifyProof id t1 proof_header get_tip gate1 = (verify1.1, Ok receipt1).
Proof. refine (run_ok (verifyProof id t1 proof_header get_tip gate1) _ _). vm_compute. reflexivity. Qed.

Lemma decode_proof1 : decode_proof proof_header = Ok proof1.
Proof. vm_compute. reflexivity. Qed.

Lemma verifyProof_accepts_witness : ∃ raw tx, decode_rawtx rawtx1 = Ok raw ∧
  NewTransactionFromBytes raw = Some tx ∧ Forall (pays (tx_Outputs tx)) payees1.
Proof.
  destruct (verifyProof_accepts id t1 proof_header get_tip gate1 verify1.1 receipt1 verify1_ok)
    as (proof & pending & raw & tx & HD & HP & _ & _ & HR & HT & _ & HF & _).
  rewrite decode_proof1 in HD. injection HD as <-. exists raw, tx. split_and!; [exact HR|exact HT|].
  assert (pending = MkPending challenge1 payees1) as ->; [|exact HF].
  assert (pg_pendingChallenges gate1 = {[ sha256Hex (marshal challenge1) := MkPending challenge1 payees1 ]})
    as E by reflexivity.
  rewrite E in HP. by apply lookup_singleton_Some in HP as [_ <-].
Defined.

(** A challenge issued, looked up by two requests at the same time, and accepted
    for both; for no request after. *)
Definition k1 : bytes := sha256Hex (marshal challenge1).
Definition busy_trace : list event := [Issued k1; Looked 1 k1; Looked 2 k1; Accepted 1 k1; Accepted 2 k1].
Definition flying1 : gmap nat (X402Proof * pendingChallenge * Request) := {[ 1%nat := (proof1, MkPending challenge1 payees1, get_tip) ]}.
Definition flying2 := <[2%nat := (proof1, MkPending challenge1 payees1, get_tip)]> flying1.
Lemma busy_run : desk_run id gate busy_trace
  (MkDesk (consume_challenge proof1 (consume_challenge proof1 gate1)) (delete 2%nat (delete 1%nat flying2))).
Proof.
  assert (HL : lookup_challenge proof1 gate1 = Some (MkPending challenge1 payees1)) by (vm_compute; reflexivity).
  assert (HC : ∀ g, pg_arcClient g = None → check_proof id t1 (pg_arcClient g) (MkPending challenge1 payees1) proof1 get_tip = (true, Ok receipt1))
    by (intros g ->; vm_compute; reflexivity).
  change busy_trace with ((((([] ++ [Issued k1]) ++ [Looked 1 k1]) ++ [Looked 2 k1]) ++ [Accepted 1 k1]) ++ [Accepted 2 k1]).
  eapply desk_next; [eapply desk_next; [eapply desk_next; [eapply desk_next; [eapply desk_next; [by apply desk_open|]|]|]|]|].
  - exact (desk_issue id t1 nonce1 get_tip payees1 gate gate1 issue1.2 ∅ eq_refl).
  - exact (desk_lookup id 1 proof_header get_tip proof1 _ gate1 ∅ eq_refl decode_proof1 HL).
  - exact (desk_lookup id 2 proof_header get_tip proof1 _ gate1 flying1 eq_refl decode_proof1 HL).
  - exact (desk_finish id 1 t1 get_tip proof1 _ true (Ok receipt1) gate1 flying2 eq_refl (HC gate1 eq_refl)).
  - exact (desk_finish id 2 t1 get_tip proof1 _ true (Ok receipt1) (consume_challenge proof1 gate1) (delete 1%nat flying2) eq_refl (HC (consume_challenge proof1 gate1) eq_refl)).
Qed.

Lemma verifyProof_one_time_witness : ∃ u v w,
  [Issued k1; Looked 1 k1; Looked 2 k1; Accepted 1 k1] = u ++ Issued k1 :: v ++ Looked 2 k1 :: w ∧ ∀ j, Accepted j k1 ∉ v.
Proof.
  destruct (verifyProof_one_time id gate busy_trace _ [Issued k1; Looked 1 k1; Looked 2 k1; Accepted 1 k1] 2 k1 [] busy_run eq_refl)
    as (u & v & w & E & Hv & _).
  exists u, v, w. exact (conj E Hv).
Defined.

Lemma concurrent_replay_witness :
  (verify_interleaved id t1 proof_header proof_header get_tip get_tip gate1).2 = Ok receipt1.
Proof. exact (proj2 (concurrent_replay id t1 proof_header get_tip gate1 _ receipt1 verify1_ok)). Defined.

Lemma decode_rawtx_hex_misread_witness : ∃ other, decode_rawtx (lit "76a9") = Ok other ∧ other ≠ [x76; xa9].
Proof. refine (decode_rawtx_hex_misread [x76; xa9] _ _); [by exists 1%nat|discriminate]. Defined.

Lemma payment1 : payment_for nonce1 payees1 rawtx1 (toy_print tx1) tx1.
Proof.
  split; [vm_compute; reflexivity|]. split; [vm_compute; reflexivity|].
  split; [repeat constructor; eauto|]. split; [repeat constructor; eauto|]. split; [right; left|].
  repeat constructor. exists [x76; xa9], (MkOutput 100 (Some [x76; xa9])).
  split; [vm_compute; reflexivity|]. split; [left|]. split; [done|vm_compute; discriminate].
Qed.

(** A gate that asks ARC, with an answer. *)
Definition arc_gate (status : option bytes) : PaymentGate :=
  MkGate 100 (lit "76a9") (60 * second) true (Some (λ _, status)) true true 0 ∅ ∅.
Definition arc_challenge : X402Challenge := build_challenge id t1 nonce1 (arc_gate None) get_tip payees1.
Definition arc_proof : X402Proof :=
  MkProof 1 (ch_Scheme arc_challenge) (sha256Hex (marshal arc_challenge)) (pf_Request proof1) (pf_Payment proof1).

Lemma issue_then_pay_witness :
  (∃ pg, verifyProof id (t1 + second) proof_header get_tip gate1 = (pg, Ok (MkReceipt (TxID tx1) 100 (unix (t1 + second))))) ∧
  (∃ pg1, verifyProof id (t1 + second) (base64Url (marshal arc_proof)) get_tip pg1 = (pg1, Err (PeARCStatus (lit "REJECTED")))).
Proof.
  split; eexists.
  - exact (issue_then_pay id t1 (t1 + second) nonce1 gate get_tip payees1 rawtx1 (toy_print tx1) tx1 gate1 issue1.2
      (marshal proof1) eq_refl payment1 ltac:(vm_compute; discriminate) eq_refl eq_refl).
  - exact (issue_then_pay id t1 (t1 + second) nonce1 (arc_gate (Some (lit "REJECTED"))) get_tip payees1 rawtx1 (toy_print tx1) tx1
      _ _ (marshal arc_proof) eq_refl payment1 ltac:(vm_compute; discriminate) eq_refl eq_refl).
Defined.

(** ** A token-gated topic *)

Definition topic1 : bytes := lit "premium".
Definition key9 : PrivateKey := x09.
Definition auth_key : bytes := hex_encode (Compressed (PubKey key9)).
Definition token_terms : Monetization := MkMonetization MonetizationToken [] 0 auth_key.
Definition resolve1 (t : bytes) : option Monetization :=
  if bool_decide (t = topic1) then Some token_terms else None.
Definition tgate : TokenGate := MkTokenGate (5 * minute).
Definition ts1 : bytes := itoa (unix t1).
Definition sig9 : @ECSig toy_ec := (key9, token_digest topic1 ts1).
Definition credential : bytes := hex_encode (SerializeDER sig9) ++ lit ":" ++ ts1.

Lemma verifyToken_iff_witness :
  verifyToken (t1 + minute) tgate credential topic1 auth_key = Ok () ∧
  verifyToken (t1 + 10 * minute) tgate credential topic1 auth_key ≠ Ok ().
Proof.
  split.
  - apply (verifyToken_iff (t1 + minute)); [vm_compute; intuition discriminate|vm_compute; intuition discriminate|].
    exists (hex_encode (SerializeDER sig9)), ts1,
      (Compressed (PubKey key9)), key9, (SerializeDER sig9),
      sig9, (unix t1).
    split; [vm_compute; reflexivity|].
    split; [vm_compute; reflexivity|].
    split; [vm_compute; reflexivity|].
    split; [vm_compute; reflexivity|].
    split; [vm_compute; reflexivity|].
    split; [vm_compute; reflexivity|].
    split; [vm_compute; reflexivity|].
    split; [vm_compute; reflexivity|].
    left. vm_compute. split; discriminate.
  - vm_compute. discriminate.
Defined.

(** A handler that counts its runs. *)
Definition counting : Handler nat := λ _ n, (S n, Some (MkResponse StatusOK ∅ NoBody)).
Definition env1 : Env := MkEnv t1 (inr nonce1) (Some resolve1).
Definition no_text {A} (_ : A) : bytes := [].
Definition paid_tip : Request := set_header (lit "X402-Proof") proof_header get_tip.
Definition open1 := openRead id no_text no_text env1 (Some tgate) counting paid_tip (None, (Some gate1, 0%nat)).

Lemma open1_runs : open1.1.2.2 = 1%nat.
Proof. vm_compute. reflexivity. Qed.

Lemma openRead_guards_witness : has_paid id gate1 paid_tip payees1.
Proof.
  destruct (openRead_guards id no_text no_text env1 (Some tgate) counting paid_tip None (Some gate1) 0%nat
    open1.1.1 open1.1.2.1 open1.1.2.2 open1.2) as [[HR _]|(_ & _ & HP & _)].
  - unfold open1. destruct (openRead _ _ _ _ _ _ _ _) as [[? []] ?]. reflexivity.
  - rewrite open1_runs in HR. discriminate HR.
  - assert (resolvePayees (ev_resolve env1) gate1 paid_tip = (payees1, false)) as E
      by (vm_compute; reflexivity).
    unfold pay_passes, has_paid_owed in HP. rewrite E in HP. destruct HP as [HP|[HP|[_ HP]]]; [discriminate HP|discriminate HP|exact HP].
Defined.

Definition post_any : Request :=
  MkRequest (lit "POST") (lit "node") (lit "/data") (lit "topic=premium") ∅ [] (lit "6.6.6.6:6").

Lemma authOrPay_token_bypass_witness :
  (authOrPay id no_text env1 (lit "s3cret") counting post_any (Some gate, 0%nat)).1 = (Some gate, 1%nat).
Proof.
  rewrite (authOrPay_token_bypass id no_text env1 (lit "s3cret") counting post_any gate 0%nat resolve1 token_terms);
    [reflexivity|discriminate|discriminate|reflexivity|discriminate|reflexivity|reflexivity].
Defined.

(** ** Paid payloads *)

Definition read_rates (mark : bytes) : Request :=
  MkRequest (lit "GET") (lit "node") (lit "/data") (lit "topic=rates&limit=5")
    {[ authed := mark ]} [] (lit "6.6.6.6:6").
Definition api1 : Api (DB:=gmap bytes bytes) unit := MkApi (Some store1) newEnvelopeHub ().
Definition default_response : Response := MkResponse 0 ∅ NoBody.

Lemma some_default {A} (d : A) o : match o with Some _ => true | None => false end = true →
  o = Some (default d o).
Proof. by destruct o. Qed.

Definition env0 : Env := MkEnv t0 (inr nonce1) None.
Definition open_rates (mark : bytes) := openRead id no_text no_text env0 None
  (handleQueryData visit no_text (lit "s3cret") t0) (read_rates mark) (None, (None, api1)).
Definition open_spoofed := open_rates (lit "true").

Lemma open_rates_run mark : match (open_rates mark).2 with Some _ => true | None => false end = true →
  open_rates mark = ((((open_rates mark).1.1, ((open_rates mark).1.2.1, (open_rates mark).1.2.2))),
    Some (default default_response (open_rates mark).2)).
Proof. intros HH. rewrite <- (some_default default_response (open_rates mark).2 HH). by destruct (open_rates mark) as [[? []] ?]. Qed.

(** No mark, no token, no gates: the answer is redacted. *)
Lemma openRead_redacts_witness : ∃ s es out, api_store api1 = Some s ∧
  w_body (default default_response (open_rates []).2) = w_body (data_answer (lit "rates") out) ∧
  Forall2 (λ e o, if paid e then o = set_payload redacted_text e else o = e) es out.
Proof.
  destruct (openRead_redacts visit no_text id no_text no_text env0 None (lit "s3cret") (read_rates []) None None api1
    (open_rates []).1.1 (open_rates []).1.2.1 (open_rates []).1.2.2 (default default_response (open_rates []).2))
    as (s & es & out & Hs & _ & Ha & HF).
  - vm_compute. discriminate.
  - intros [_ HB]. vm_compute in HB. discriminate HB.
  - exact (open_rates_run [] ltac:(vm_compute; reflexivity)).
  - vm_compute. reflexivity.
  - exists s, es, out. split; [exact Hs|]. split; [exact Ha|].
    destruct HF as [HF|[_ [[mon [[resolve [Hr _]] _]]|[g [Hg _]]]]]; [exact HF|discriminate Hr|discriminate Hg].
Defined.

Lemma openRead_spoofed_mark_witness : ∃ s es, api_store api1 = Some s ∧
  w_body (default default_response open_spoofed.2) = w_body (data_answer (lit "rates") es).
Proof.
  destruct (openRead_spoofed_mark visit no_text id no_text no_text env0 (lit "s3cret")
    (read_rates (lit "true")) api1 open_spoofed.1.2.2 (default default_response open_spoofed.2))
    as (s & es & Hs & _ & Hb).
  - vm_compute. reflexivity.
  - discriminate.
  - unfold env0, ev_now.
    assert (open_spoofed.2 = Some (default default_response open_spoofed.2)) as E
      by (apply some_default; vm_compute; reflexivity).
    assert (open_spoofed.1.1 = None ∧ open_spoofed.1.2.1 = None) as [E1 E2]
      by (split; vm_compute; reflexivity).
    fold env0. change (openRead _ _ _ _ _ _ _ _) with open_spoofed. rewrite <- E, <- E1, <- E2 at 1.
    by destruct open_spoofed as [[? []] ?].
  - vm_compute. reflexivity.
  - exists s, es. exact (conj Hs Hb).
Defined.

(** With token gating switched off and a payment gate, a token-gated topic is
    read for nothing: no credential, no payment, and the handler sees the mark. *)
Example gating_off_reads_free :
  openRead id no_text no_text env1 None (λ r n, (Datatypes.S n, Some (writeJSON StatusOK (JStr (header r authed)))))
    (MkRequest (lit "GET") (lit "node") (lit "/data") (lit "topic=premium") ∅ [] (lit "6.6.6.6:6")) (None, (Some gate, 0%nat)) =
  ((None, (Some gate, 1%nat)), Some (add_header allow_origin (lit "*") (add_header allow_methods (lit "GET, POST, DELETE, OPTIONS")
    (add_header allow_headers (lit "Content-Type, X-App-Token, X-Anvil-Auth, X402-Proof, X-Bsv-Payment, X-Topics")
       (writeJSON StatusOK (JStr (lit "true"))))))).
Proof. vm_compute. reflexivity. Qed.
