(* ===== verification/MempoolIndex.v ===== *)
(** * The mempool index ([internal/mempool/index.go])

    A set of transaction ids in 256 shards by first byte, each under its own
    lock, and a counter beside them. The change of a shard and the update of
    the counter that follows it are two steps, which other goroutines may come
    between. *)

From Stdlib Require Import Init.Byte Strings.Byte Strings.String Lia ZArith.
From stdpp Require Import base gmap sets list strings numbers sorting fin_maps.
From S2P Require Import Prelude GoStd.
Open Scope Z_scope.

Record TxMeta := MkTxMeta { FirstSeen : Z; TxSize : Z }.

Abbreviation shard := (gmap bytes TxMeta).
Record Index := MkIndex { ix_shards : list shard; ix_count : Z }.

Definition shards : nat := 256.
Definition NewIndex : Index := MkIndex (replicate shards ∅) 0.

(** [txid[0]] of a 32-byte array. *)
Definition shard_of (txid : bytes) : nat := Z.to_nat (byte_z (default x00 (head txid))).

Definition get_shard (idx : Index) (i : nat) : shard := default ∅ (ix_shards idx !! i).
Definition set_shard (i : nat) (s : shard) (idx : Index) : Index :=
  MkIndex (<[i := s]> (ix_shards idx)) (ix_count idx).
Definition count_add (d : Z) (idx : Index) : Index := MkIndex (ix_shards idx) (i64 (ix_count idx + d)).

(** ** The steps under a shard's lock, with the change they owe the counter *)

Definition add_shard (txid : bytes) (meta : TxMeta) (idx : Index) : Index * Z :=
  let s := get_shard idx (shard_of txid) in
  match s !! txid with
  | Some _ => (idx, 0)
  | None => (set_shard (shard_of txid) (<[txid := meta]> s) idx, 1)
  end.

Definition remove_shard (txid : bytes) (idx : Index) : Index * Z :=
  let s := get_shard idx (shard_of txid) in
  match s !! txid with
  | Some _ => (set_shard (shard_of txid) (delete txid s) idx, -1)
  | None => (idx, 0)
  end.

Definition live_entry (cutoff : Z) (kv : bytes * TxMeta) : Prop := cutoff ≤ FirstSeen kv.2.
#[export] Instance live_entry_dec cutoff kv : Decision (live_entry cutoff kv).
Proof. unfold live_entry. apply _. Defined.

Definition expire_shard (cutoff : Z) (i : nat) (idx : Index) : Index * Z :=
  let s := get_shard idx i in
  let s' := filter (live_entry cutoff) s in
  (set_shard i s' idx, Z.of_nat (size s) - Z.of_nat (size s')).

(** ** The operations *)

Definition Add (txid : bytes) (meta : TxMeta) (idx : Index) : Index * bool :=
  let '(idx, d) := add_shard txid meta idx in
  if d =? 0 then (idx, false) else (count_add d idx, true).

Definition Has (txid : bytes) (idx : Index) : bool :=
  bool_decide (is_Some (get_shard idx (shard_of txid) !! txid)).

Definition Remove (txid : bytes) (idx : Index) : Index :=
  let '(idx, d) := remove_shard txid idx in if d =? 0 then idx else count_add d idx.

Definition Count (idx : Index) : Z := ix_count idx.
Definition CountByShard (prefix : byte) (idx : Index) : Z :=
  Z.of_nat (size (get_shard idx (Z.to_nat (byte_z prefix)))).

(** The shards in order; what they evicted is added up and taken off at the end. *)
Fixpoint expire_shards (cutoff : Z) (ids : list nat) (idx : Index) (evicted : Z) : Index * Z :=
  match ids with
  | [] => (idx, evicted)
  | i :: ids => let '(idx, n) := expire_shard cutoff i idx in expire_shards cutoff ids idx (evicted + n)
  end.
Definition ExpireBefore (cutoff : Z) (idx : Index) : Index * Z :=
  let '(idx, evicted) := expire_shards cutoff (seq 0 shards) idx 0 in (count_add (- evicted) idx, evicted).

Record Stats := MkStats { st_Total : Z; st_Shards : Z; st_Largest : Z }.

Definition stats_step (st : Stats) (s : shard) : Stats :=
  let n := Z.of_nat (size s) in
  if 0 <? n then MkStats (st_Total st + n) (st_Shards st + 1) (Z.max (st_Largest st) n) else st.
Definition GetStats (idx : Index) : Stats := foldl stats_step (MkStats 0 0 0) (ix_shards idx).

(** ** The goroutines together

    The index, and the changes the counter is still owed. *)
Inductive op := OpAdd (txid : bytes) (meta : TxMeta) | OpRemove (txid : bytes) | OpExpire (cutoff : Z) (i : nat).

Definition run_op (o : op) (idx : Index) : Index * Z :=
  match o with
  | OpAdd txid meta => add_shard txid meta idx
  | OpRemove txid => remove_shard txid idx
  | OpExpire cutoff i => let '(idx, n) := expire_shard cutoff i idx in (idx, - n)
  end.

(** [reach ops idx owed]: after the shard steps [ops], in this order, with any
    of the counter updates done. *)
Inductive reach : list op → Index → list Z → Prop :=
  | reach_new : reach [] NewIndex []
  | reach_shard ops o idx owed idx' d :
      reach ops idx owed → match o with OpExpire _ i => (i < shards)%nat | _ => True end →
      run_op o idx = (idx', d) → reach (ops ++ [o]) idx' (d :: owed)
  | reach_count ops idx owed1 d owed2 :
      reach ops idx (owed1 ++ d :: owed2) → reach ops (count_add d idx) (owed1 ++ owed2).

(** ** The map it stands for *)

Definition flat (idx : Index) : gmap bytes TxMeta := ⋃ ix_shards idx.

Definition apply_op_flat (o : op) (m : gmap bytes TxMeta) : gmap bytes TxMeta :=
  match o with
  | OpAdd txid meta => match m !! txid with Some _ => m | None => <[txid := meta]> m end
  | OpRemove txid => delete txid m
  | OpExpire cutoff i => filter (λ kv, shard_of kv.1 ≠ i ∨ live_entry cutoff kv) m
  end.

Record index_wf (idx : Index) : Prop := {
  wf_length : length (ix_shards idx) = shards;
  wf_home i s txid : ix_shards idx !! i = Some s → is_Some (s !! txid) → i = shard_of txid
}.

Lemma shard_of_lt txid : (shard_of txid < shards)%nat.
Proof. unfold shard_of, shards. pose proof (byte_z_bound (default x00 (head txid))). lia. Qed.

Lemma union_list_lookup (l : list shard) txid i :
  (∀ j s, l !! j = Some s → is_Some (s !! txid) → j = i) → (⋃ l) !! txid = l !! i ≫= (.!! txid).
Proof.
  revert i. induction l as [|s l IH]; intros i Hi; [by rewrite lookup_nil; apply lookup_empty|].
  change (⋃ (s :: l)) with (s ∪ ⋃ l). rewrite lookup_union. destruct i as [|i].
  - cbn. assert ((⋃ l) !! txid = None) as Hn.
    { assert (∀ l', (∀ j s', l' !! j = Some s' → (s' : shard) !! txid = None) → (⋃ l') !! txid = None) as Hall.
      { intros l'. induction l' as [|s' l' IH']; intros Hl'; [done|].
        change (⋃ (s' :: l')) with (s' ∪ ⋃ l'). rewrite lookup_union, (Hl' 0%nat s') by done.
        rewrite IH'; [done|]. intros j s'' Hj. by apply (Hl' (S j)). }
      apply Hall. intros j s' Hj. apply eq_None_not_Some. intros Hs. by specialize (Hi (S j) s' Hj Hs). }
    rewrite Hn. by destruct (s !! txid).
  - assert (s !! txid = None) as ->.
    { apply eq_None_not_Some. intros Hs. by specialize (Hi 0%nat s eq_refl Hs). }
    rewrite (left_id None _). apply (IH i). intros j s' Hj Hs'.
    specialize (Hi (S j) s' Hj Hs'). by simplify_eq.
Qed.

Lemma flat_lookup idx txid : index_wf idx → flat idx !! txid = get_shard idx (shard_of txid) !! txid.
Proof.
  intros [_ Hh]. unfold flat, get_shard. rewrite (union_list_lookup _ _ (shard_of txid)) by eauto.
  by destruct (ix_shards idx !! shard_of txid); cbn; rewrite ?lookup_empty.
Qed.

(** ** The index implements the map *)

Definition shards_size (l : list shard) : Z := foldr (λ s n, Z.of_nat (size s) + n) 0 l.

Lemma shards_size_insert (l : list shard) i s s' :
  l !! i = Some s → shards_size (<[i := s']> l) = shards_size l + (Z.of_nat (size s') - Z.of_nat (size s)).
Proof.
  revert i. induction l as [|x l IH]; intros [|i] Hi; simplify_eq/=; [lia|]. rewrite (IH i) by done. lia.
Qed.

Lemma union_list_size (l : list shard) :
  (∀ i j s s' k, l !! i = Some s → l !! j = Some s' → is_Some (s !! k) → is_Some (s' !! k) → i = j) →
  Z.of_nat (size (⋃ l)) = shards_size l.
Proof.
  induction l as [|s l IH]; intros Hd; [done|].
  change (⋃ (s :: l)) with (s ∪ ⋃ l). rewrite map_size_disj_union.
  - cbn [shards_size foldr]. fold (shards_size l). rewrite <- IH; [lia|].
    intros i j s1 s2 k H1 H2 Hk1 Hk2. specialize (Hd (S i) (S j) s1 s2 k H1 H2 Hk1 Hk2). by simplify_eq.
  - apply map_disjoint_spec. intros k x y Hx Hy.
    assert (∀ l', (⋃ l') !! k = Some y → ∃ j s', l' !! j = Some s' ∧ is_Some ((s' : shard) !! k)) as Hin.
    { intros l'. induction l' as [|s' l' IH']; intros Hl; [change (⋃ []) with (∅ : shard) in Hl; by rewrite lookup_empty in Hl|].
      change (⋃ (s' :: l')) with (s' ∪ ⋃ l') in Hl. destruct (s' !! k) eqn:Es; [by exists 0%nat, s'; rewrite Es|].
      rewrite lookup_union_r in Hl by done. destruct (IH' Hl) as (j & s'' & Hj & Hs). by exists (S j), s''. }
    destruct (Hin l Hy) as (j & s' & Hj & Hs). by specialize (Hd 0%nat (S j) s s' k eq_refl Hj ltac:(eauto) Hs).
Qed.

Lemma flat_size idx : index_wf idx → Z.of_nat (size (flat idx)) = shards_size (ix_shards idx).
Proof.
  intros [_ Hh]. apply union_list_size. intros i j s s' k Hi Hj Hs Hs'.
  by rewrite (Hh _ _ _ Hi Hs), (Hh _ _ _ Hj Hs').
Qed.

Lemma get_shard_lookup idx i : index_wf idx → (i < shards)%nat → ix_shards idx !! i = Some (get_shard idx i).
Proof.
  intros [Hl _] Hi. unfold get_shard. destruct (lookup_lt_is_Some_2 (ix_shards idx) i) as [s ->]; [lia|]. done.
Qed.

(** What a shard step does: it replaces a shard, and owes the difference. *)
Lemma run_op_shard o idx idx' d :
  index_wf idx → match o with OpExpire _ i => (i < shards)%nat | _ => True end → run_op o idx = (idx', d) →
  ∃ i s', (i < shards)%nat ∧ idx' = set_shard i s' idx ∧
    d = Z.of_nat (size s') - Z.of_nat (size (get_shard idx i)) ∧
    (∀ k, s' !! k = if decide (shard_of k = i) then apply_op_flat o (flat idx) !! k else None) ∧
    (∀ k, shard_of k ≠ i → apply_op_flat o (flat idx) !! k = flat idx !! k).
Proof.
  intros Hwf Ho Hr.
  assert (∀ i k, (i < shards)%nat → get_shard idx i !! k = if decide (shard_of k = i) then flat idx !! k else None) as Hget.
  { intros i k Hi. case_decide as E; [by rewrite <- E, flat_lookup|]. apply eq_None_not_Some. intros Hs.
    by rewrite (wf_home _ Hwf _ _ _ (get_shard_lookup _ _ Hwf Hi) Hs) in E. }
  assert (∀ i, (i < shards)%nat → idx = set_shard i (get_shard idx i) idx) as Hid.
  { intros i Hi. unfold set_shard. rewrite list_insert_id by by apply get_shard_lookup. by destruct idx. }
  destruct o as [txid meta|txid|cutoff i]; cbn [run_op apply_op_flat] in *.
  - pose proof (shard_of_lt txid) as Hi. unfold add_shard in Hr. rewrite (flat_lookup _ txid Hwf).
    destruct (get_shard idx (shard_of txid) !! txid) as [m|] eqn:E; injection Hr as <- <-.
    + exists (shard_of txid), (get_shard idx (shard_of txid)). split; [done|]. split; [by apply Hid|].
      split; [lia|]. split; [|done]. intros k. by apply Hget.
    + exists (shard_of txid), (<[txid:=meta]> (get_shard idx (shard_of txid))). split; [done|]. split; [done|].
      split; [rewrite map_size_insert_None by done; lia|]. split.
      * intros k. destruct (decide (k = txid)) as [->|Hk]; [by rewrite lookup_insert_eq, decide_True, lookup_insert_eq|].
        rewrite !lookup_insert_ne by done. by apply Hget.
      * intros k Hk. rewrite lookup_insert_ne; [done|]. by intros <-.
  - pose proof (shard_of_lt txid) as Hi. unfold remove_shard in Hr.
    destruct (get_shard idx (shard_of txid) !! txid) as [m|] eqn:E; injection Hr as <- <-.
    + exists (shard_of txid), (delete txid (get_shard idx (shard_of txid))). split; [done|]. split; [done|].
      split.
      { rewrite map_size_delete_Some by done. assert (size (get_shard idx (shard_of txid)) ≠ 0%nat) as Hnz; [|lia].
        intros E0%map_size_empty_iff. by rewrite E0, lookup_empty in E. }
      split.
      * intros k. destruct (decide (k = txid)) as [->|Hk]; [by rewrite lookup_delete_eq, decide_True, lookup_delete_eq|].
        rewrite !lookup_delete_ne by done. by apply Hget.
      * intros k Hk. rewrite lookup_delete_ne; [done|]. by intros <-.
    + exists (shard_of txid), (get_shard idx (shard_of txid)). split; [done|]. split; [by apply Hid|].
      split; [lia|]. rewrite delete_id by by rewrite flat_lookup. split; [|done]. intros k. by apply Hget.
  - unfold expire_shard in Hr. injection Hr as <- <-. exists i, (filter (live_entry cutoff) (get_shard idx i)).
    split; [done|]. split; [done|]. split; [lia|]. split.
    + intros k. rewrite !map_lookup_filter, Hget by done. case_decide as Ek; [|done].
      destruct (flat idx !! k) as [m|]; [|done]. cbn. repeat case_guard; try done; naive_solver.
    + intros k Hk. rewrite map_lookup_filter. destruct (flat idx !! k) as [m|]; [|done]. cbn.
      case_guard; [done|naive_solver].
Qed.

Lemma set_shard_wf i s idx :
  index_wf idx → (∀ k, is_Some (s !! k) → shard_of k = i) → index_wf (set_shard i s idx).
Proof.
  intros [Hl Hh] Hs. split; [cbn; by rewrite length_insert|].
  cbn. intros j s' k [(<- & <- & _)|[_ Hj]]%list_lookup_insert_Some Hk; [symmetry; by apply Hs|by eapply Hh].
Qed.

Lemma set_shard_flat i s idx k :
  index_wf (set_shard i s idx) → index_wf idx → (i < shards)%nat →
  flat (set_shard i s idx) !! k = if decide (shard_of k = i) then s !! k else flat idx !! k.
Proof.
  intros Hwf' Hwf Hi. rewrite (flat_lookup _ _ Hwf'). unfold get_shard, set_shard. cbn [ix_shards].
  destruct (decide (shard_of k = i)) as [->|Hn].
  - rewrite list_lookup_insert_eq; [done|]. by rewrite (wf_length _ Hwf).
  - rewrite list_lookup_insert_ne by done. by rewrite (flat_lookup _ _ Hwf).
Qed.

Lemma run_op_flat o idx idx' d :
  index_wf idx → match o with OpExpire _ i => (i < shards)%nat | _ => True end → run_op o idx = (idx', d) →
  index_wf idx' ∧ flat idx' = apply_op_flat o (flat idx) ∧
  d = Z.of_nat (size (flat idx')) - Z.of_nat (size (flat idx)).
Proof.
  intros Hwf Ho Hr. destruct (run_op_shard o idx idx' d Hwf Ho Hr) as (i & s' & Hi & -> & -> & Hs & Hout).
  assert (index_wf (set_shard i s' idx)) as Hwf'.
  { apply set_shard_wf; [done|]. intros k [x Hk]. rewrite Hs in Hk. by case_decide. }
  split; [done|]. split.
  - apply map_eq. intros k. rewrite set_shard_flat by done. case_decide as E.
    + rewrite Hs. by rewrite decide_True.
    + by rewrite Hout.
  - rewrite !flat_size by done. unfold set_shard. cbn [ix_shards].
    rewrite (shards_size_insert _ _ (get_shard idx i)) by by apply get_shard_lookup. lia.
Qed.

Lemma new_index_wf : index_wf NewIndex.
Proof.
  split; [done|]. intros i s k Hi [x Hx]. cbn [NewIndex ix_shards] in Hi. apply lookup_replicate in Hi as [-> _].
  by rewrite lookup_empty in Hx.
Qed.

Lemma new_index_flat : flat NewIndex = ∅.
Proof.
  apply map_eq. intros k. rewrite flat_lookup by apply new_index_wf.
  assert (get_shard NewIndex (shard_of k) = ∅) as ->; [|by rewrite !lookup_empty].
  unfold get_shard, NewIndex. cbn [ix_shards]. by rewrite lookup_replicate_2 by apply shard_of_lt.
Qed.

(** In every reachable state the shards are the map, and the counter with what
    it is owed is its size. *)
Lemma reach_flat ops idx owed : reach ops idx owed →
  index_wf idx ∧ flat idx = foldl (λ m o, apply_op_flat o m) ∅ ops ∧
  i64 (ix_count idx + zsum owed) = i64 (Z.of_nat (size (flat idx))) ∧ i64 (ix_count idx) = ix_count idx.
Proof.
  induction 1 as [|ops o idx owed idx' d Hr (Hwf & Hf & Hc & Hi) Ho Hop|ops idx o1 d o2 Hr (Hwf & Hf & Hc & Hi)].
  - split; [apply new_index_wf|]. rewrite new_index_flat. by rewrite map_size_empty.
  - destruct (run_op_flat o idx idx' d Hwf Ho Hop) as (Hwf' & Hf' & Hd).
    assert (ix_count idx' = ix_count idx) as Ec.
    { destruct (run_op_shard o idx idx' d Hwf Ho Hop) as (i & s' & _ & -> & _). done. }
    split; [done|]. split; [|split; [|by rewrite Ec]].
    + by rewrite foldl_snoc, <- Hf.
    + rewrite Ec. cbn [zsum foldr]. fold (zsum owed).
      replace (ix_count idx + (d + zsum owed)) with (ix_count idx + zsum owed + d) by lia.
      rewrite <- i64_congr, Hc, i64_congr, Hd. f_equal. lia.
  - split; [by destruct Hwf; split|]. split; [done|]. change (flat (count_add d idx)) with (flat idx).
    cbn [count_add ix_count]. split.
    + rewrite i64_congr. rewrite <- Hc. f_equal. rewrite !zsum_app. cbn. fold (zsum o2). lia.
    + pose proof (i64_congr (ix_count idx + d) 0) as E0. by rewrite !Z.add_0_r in E0.
Qed.

Lemma stats_total l st : st_Total (foldl stats_step st l) = st_Total st + shards_size l.
Proof.
  revert st. induction l as [|s l IH]; intros st; [cbn; lia|].
  cbn [foldl shards_size foldr]. fold (shards_size l). rewrite IH. unfold stats_step.
  destruct (Z.ltb_spec 0 (Z.of_nat (size s))); cbn [st_Total]; lia.
Qed.

(** C28: however the goroutines interleave, the sharded index answers as one
    flat map that saw the same operations in the order the shards did: [Has]
    and [GetStats] in every state, [Count] in every state up to the updates
    still owed, so exactly when there are none. *)
Theorem index_is_flat_map ops idx owed : reach ops idx owed →
  let m := foldl (λ m o, apply_op_flat o m) ∅ ops in
  (∀ txid, Has txid idx = bool_decide (is_Some (m !! txid))) ∧
  st_Total (GetStats idx) = Z.of_nat (size m) ∧
  (∀ b, CountByShard b idx = Z.of_nat (size (filter (λ kv, shard_of kv.1 = Z.to_nat (byte_z b)) m))) ∧
  i64 (Count idx + zsum owed) = i64 (Z.of_nat (size m)) ∧
  (owed = [] → Z.of_nat (size m) < 2 ^ 63 → Count idx = Z.of_nat (size m)).
Proof.
  intros Hr m. destruct (reach_flat ops idx owed Hr) as (Hwf & Hf & Hc & Hi). fold m in Hf. rewrite <- Hf.
  split; [|split; [|split; [|split]]].
  - intros txid. unfold Has. by rewrite <- flat_lookup.
  - unfold GetStats. rewrite stats_total, flat_size by done. cbn. lia.
  - intros b. unfold CountByShard. do 2 f_equal. apply map_eq. intros k.
    assert (Z.to_nat (byte_z b) < shards)%nat as Hb by (unfold shards; pose proof (byte_z_bound b); lia).
    rewrite map_lookup_filter. destruct (decide (shard_of k = Z.to_nat (byte_z b))) as [<-|Hn].
    + rewrite <- flat_lookup by done. destruct (flat idx !! k); cbn; [by rewrite option_guard_True|done].
    + destruct (flat idx !! k); cbn; rewrite ?option_guard_False by done;
        apply eq_None_not_Some; intros Hs; apply Hn; symmetry;
        exact (wf_home _ Hwf _ _ _ (get_shard_lookup _ _ Hwf Hb) Hs).
  - done.
  - intros -> Hlt. unfold Count. cbn [zsum foldr] in Hc. rewrite Z.add_0_r, Hi in Hc. rewrite Hc.
    apply i64_small. lia.
Qed.

(** The operations without others in between are runs of such steps. *)
Lemma Add_reach ops idx txid meta : reach ops idx [] →
  reach (ops ++ [OpAdd txid meta]) (Add txid meta idx).1 [] ∧
  (Add txid meta idx).2 = negb (Has txid idx).
Proof.
  intros Hr. unfold Add, Has. destruct (add_shard txid meta idx) as [idx' d] eqn:E.
  pose proof (reach_shard ops (OpAdd txid meta) idx [] idx' d Hr I E) as H1.
  pose proof (reach_count _ _ [] _ [] H1) as H2. unfold add_shard in E.
  destruct (get_shard idx (shard_of txid) !! txid) as [x|] eqn:Es; injection E as <- <-; cbn.
  - split; [|done]. enough (count_add 0 idx = idx) as <- by done. unfold count_add. rewrite Z.add_0_r.
    destruct (reach_flat ops idx [] Hr) as (_ & _ & _ & ->). by destruct idx.
  - by split.
Qed.

(** One map, two inserts, one removal; the counter catches up at the end. *)
Definition tx_a : bytes := replicate 32 xaa.
Definition tx_b : bytes := replicate 32 xbb.
Definition index1 : Index := (add_shard tx_a (MkTxMeta 1 0) NewIndex).1.
Definition index2 : Index := (add_shard tx_b (MkTxMeta 9 0) index1).1.
Definition index3 : Index := (expire_shard 5 170 index2).1.
Definition index4 : Index := count_add 1 (count_add 1 (count_add (-1) index3)).
Definition ops4 : list op := [OpAdd tx_a (MkTxMeta 1 0); OpAdd tx_b (MkTxMeta 9 0); OpExpire 5 170].

Lemma run_first {A} (p : A * Z) d : p.2 = d → p = (p.1, d).
Proof. by destruct p; simpl; intros ->. Qed.
Lemma reach4 : reach ops4 index4 [].
Proof.
  assert (run_op (OpAdd tx_a (MkTxMeta 1 0)) NewIndex = (index1, 1)) as E1
    by (apply run_first; vm_compute; reflexivity).
  assert (run_op (OpAdd tx_b (MkTxMeta 9 0)) index1 = (index2, 1)) as E2
    by (apply run_first; vm_compute; reflexivity).
  assert (run_op (OpExpire 5 170) index2 = (index3, -1)) as E3.
  { unfold run_op. rewrite (run_first (expire_shard 5 170 index2) 1); [done|vm_compute; reflexivity]. }
  assert (170 < shards)%nat as Hi by (unfold shards; lia).
  pose proof (reach_shard [] (OpAdd tx_a (MkTxMeta 1 0)) NewIndex [] index1 1 reach_new I E1) as R1.
  pose proof (reach_shard _ (OpAdd tx_b (MkTxMeta 9 0)) index1 _ index2 1 R1 I E2) as R2.
  pose proof (reach_shard _ (OpExpire 5 170) index2 _ index3 (-1) R2 Hi E3) as R3.
  exact (reach_count _ _ [] 1 [] (reach_count _ _ [] 1 [1] (reach_count _ _ [] (-1) [1; 1] R3))).
Qed.

Lemma index_is_flat_map_witness : Has tx_a index4 = false ∧ Has tx_b index4 = true ∧ Count index4 = 1.
Proof.
  destruct (index_is_flat_map ops4 index4 [] reach4) as (Hh & _ & _ & _ & Hc).
  split; [|split].
  - exact (eq_trans (Hh tx_a) ltac:(vm_compute; reflexivity)).
  - exact (eq_trans (Hh tx_b) ltac:(vm_compute; reflexivity)).
  - exact (eq_trans (Hc eq_refl ltac:(vm_compute; reflexivity)) ltac:(vm_compute; reflexivity)).
Defined.
