(* ===== verification/NoncePool.v ===== *)
(** * The nonce pool ([internal/api/nonce_pool.go])

    Nonces minted ahead of the challenges that need them. Each critical section
    of the lock is a function on the pool; the goroutines are program counters
    that a step relation interleaves. The inner provider's answers are inputs:
    a nonce, or an error. *)

From Stdlib Require Import Init.Byte Strings.Byte Strings.String Lia ZArith.
From stdpp Require Import base gmap sets list strings numbers.
From S2P Require Import Prelude GoStd LevelDB Sha256 GoText Http Ec Envelope Tx Payment.
Open Scope Z_scope.

Record UTXONoncePool := MkPool { np_pool : list NonceUTXO; np_poolSize : Z; np_minting : bool }.

Definition NewUTXONoncePool (poolSize : Z) : UTXONoncePool :=
  MkPool [] (if poolSize <=? 0 then 100 else poolSize) false.

(** ** Critical sections *)

(** The newest nonce, and whether the pool has run low. *)
Definition pop (p : UTXONoncePool) : UTXONoncePool * option (NonceUTXO * bool) :=
  match rev (np_pool p) with
  | [] => (p, None)
  | nonce :: older =>
      let rest := rev older in
      (MkPool rest (np_poolSize p) (np_minting p),
       Some (nonce, Z.of_nat (length rest) <? np_poolSize p / 4))
  end.

(** The nonces to mint, unless another goroutine is minting. *)
Definition begin_replenish (p : UTXONoncePool) : UTXONoncePool * option Z :=
  if np_minting p then (p, None)
  else (MkPool (np_pool p) (np_poolSize p) true, Some (np_poolSize p - Z.of_nat (length (np_pool p)))).
Definition append_nonce (n : NonceUTXO) (p : UTXONoncePool) : UTXONoncePool :=
  MkPool (np_pool p ++ [n]) (np_poolSize p) (np_minting p).
Definition end_replenish (p : UTXONoncePool) : UTXONoncePool := MkPool (np_pool p) (np_poolSize p) false.

Definition PoolSize (p : UTXONoncePool) : Z := Z.of_nat (length (np_pool p)).

(** ** The operations, undisturbed

    [mint] is the inner provider over its own state. *)
Section operations.
Context {P : Type} (mint : P → P * option NonceUTXO).

Fixpoint replenish_loop (needed : nat) (p : UTXONoncePool) (st : P) : UTXONoncePool * P :=
  match needed with
  | O => (p, st)
  | S needed =>
      match mint st with
      | (st, Some n) => replenish_loop needed (append_nonce n p) st
      | (st, None) => (p, st)
      end
  end.

Definition replenish (p : UTXONoncePool) (st : P) : UTXONoncePool * P :=
  match begin_replenish p with
  | (p, None) => (p, st)
  | (p, Some needed) => let '(p, st) := replenish_loop (Z.to_nat needed) p st in (end_replenish p, st)
  end.

(** The nonce, and whether a replenishing goroutine is started. *)
Definition MintNonce (p : UTXONoncePool) (st : P) : UTXONoncePool * P * option NonceUTXO * bool :=
  match pop p with
  | (p, Some (n, low)) => (p, st, Some n, low)
  | (p, None) => match mint st with
                 | (st, Some n) => (p, st, Some n, true)
                 | (st, None) => (p, st, None, false)
                 end
  end.
End operations.

(** ** The goroutines *)

Inductive pc :=
  | RStart                              (* replenish, before the lock *)
  | RWork (left : nat)                  (* nonces still to mint *)
  | RAppend (n : NonceUTXO) (left : nat) (* minted, not yet in the pool *)
  | OnDemand.                           (* found the pool empty *)

Record system := MkSystem {
  sy_pool : UTXONoncePool; sy_threads : list pc;
  sy_minted : list NonceUTXO; sy_issued : list NonceUTXO
}.

Inductive pool_step : relation system :=
  | st_pop p ts m i p' n low :
      pop p = (p', Some (n, low)) →
      pool_step (MkSystem p ts m i) (MkSystem p' (if (low : bool) then RStart :: ts else ts) m (n :: i))
  | st_empty p ts m i :
      pop p = (p, None) → pool_step (MkSystem p ts m i) (MkSystem p (OnDemand :: ts) m i)
  | st_ondemand p t1 t2 m i n :
      pool_step (MkSystem p (t1 ++ OnDemand :: t2) m i) (MkSystem p (RStart :: t1 ++ t2) (n :: m) (n :: i))
  | st_ondemand_fails p t1 t2 m i :
      pool_step (MkSystem p (t1 ++ OnDemand :: t2) m i) (MkSystem p (t1 ++ t2) m i)
  | st_start p t1 t2 m i p' needed :
      begin_replenish p = (p', Some needed) →
      pool_step (MkSystem p (t1 ++ RStart :: t2) m i) (MkSystem p' (t1 ++ RWork (Z.to_nat needed) :: t2) m i)
  | st_busy p t1 t2 m i :
      begin_replenish p = (p, None) →
      pool_step (MkSystem p (t1 ++ RStart :: t2) m i) (MkSystem p (t1 ++ t2) m i)
  | st_mint p t1 t2 m i n k :
      pool_step (MkSystem p (t1 ++ RWork (S k) :: t2) m i) (MkSystem p (t1 ++ RAppend n k :: t2) (n :: m) i)
  | st_mint_fails p t1 t2 m i k :
      pool_step (MkSystem p (t1 ++ RWork (S k) :: t2) m i) (MkSystem p (t1 ++ RWork 0 :: t2) m i)
  | st_append p t1 t2 m i n k :
      pool_step (MkSystem p (t1 ++ RAppend n k :: t2) m i) (MkSystem (append_nonce n p) (t1 ++ RWork k :: t2) m i)
  | st_end p t1 t2 m i :
      pool_step (MkSystem p (t1 ++ RWork 0 :: t2) m i) (MkSystem (end_replenish p) (t1 ++ t2) m i).

Definition start (poolSize : Z) : system := MkSystem (NewUTXONoncePool poolSize) [RStart] [] [].

(** ** No nonce is handed out twice *)

(** What a goroutine may still add to the pool, and what it holds. *)
Definition pending (t : pc) : Z :=
  match t with RWork k => Z.of_nat k | RAppend _ k => Z.of_nat k + 1 | _ => 0 end.
Definition held (t : pc) : list NonceUTXO := match t with RAppend n _ => [n] | _ => [] end.
Definition working (t : pc) : bool := match t with RWork _ | RAppend _ _ => true | _ => false end.

Record pool_inv (s : system) : Prop := {
  pi_size : 0 < np_poolSize (sy_pool s);
  pi_one : length (filter (λ t, working t = true) (sy_threads s)) = (if np_minting (sy_pool s) then 1 else 0)%nat;
  pi_room : Forall (λ t, PoolSize (sy_pool s) + pending t ≤ np_poolSize (sy_pool s)) (sy_threads s);
  pi_bound : PoolSize (sy_pool s) ≤ np_poolSize (sy_pool s);
  pi_once : sy_minted s ≡ₚ sy_issued s ++ np_pool (sy_pool s) ++ (sy_threads s ≫= held)
}.

Lemma pop_Some p p' n low : pop p = (p', Some (n, low)) →
  np_pool p = np_pool p' ++ [n] ∧ np_poolSize p' = np_poolSize p ∧ np_minting p' = np_minting p.
Proof.
  unfold pop. destruct (rev (np_pool p)) as [|m older] eqn:E; [done|]. intros [= <- -> _].
  split; [|done]. cbn. by rewrite <- (rev_involutive (np_pool p)), E.
Qed.

Lemma room_less (ts : list pc) a b size :
  b ≤ a → Forall (λ t, a + pending t ≤ size) ts → Forall (λ t, b + pending t ≤ size) ts.
Proof. intros Hle Hf. eapply list.Forall_impl; [exact Hf|]. intros t Ht. cbn in *. lia. Qed.

Lemma working_split t1 t t2 :
  length (filter (λ t, working t = true) (t1 ++ t :: t2)) =
  ((if working t then 1 else 0) + length (filter (λ t, working t = true) (t1 ++ t2)))%nat.
Proof.
  rewrite !list.filter_app, !length_app, list.filter_cons. case_decide as E; destruct (working t); try done; cbn; lia.
Qed.

Lemma held_split t1 t t2 : (t1 ++ t :: t2) ≫= held ≡ₚ held t ++ ((t1 ++ t2) ≫= held).
Proof. rewrite !bind_app, bind_cons. by rewrite !(Permutation_app_comm (t1 ≫= held)), <- app_assoc. Qed.

(** Nobody else works while one goroutine does. *)
Lemma idle_rest t1 t t2 :
  working t = true → length (filter (λ t, working t = true) (t1 ++ t :: t2)) = 1%nat →
  Forall (λ t, pending t = 0) (t1 ++ t2).
Proof.
  intros Ht. rewrite working_split, Ht. intros Hl. apply list.Forall_forall. intros t' Hin.
  destruct (working t') eqn:E; [|by destruct t'].
  assert (t' ∈ filter (λ t, working t = true) (t1 ++ t2)) as Hf by by apply list_elem_of_filter.
  destruct (filter _ (t1 ++ t2)); [by apply elem_of_nil in Hf|]. cbn in Hl. lia.
Qed.

Lemma room_app (ts1 ts2 : list pc) t a size :
  Forall (λ t, a + pending t ≤ size) (ts1 ++ t :: ts2) ↔
  a + pending t ≤ size ∧ Forall (λ t, a + pending t ≤ size) (ts1 ++ ts2).
Proof. rewrite !list.Forall_app, list.Forall_cons. tauto. Qed.

Lemma idle_room (ts : list pc) a size :
  a ≤ size → Forall (λ t, pending t = 0) ts → Forall (λ t, a + pending t ≤ size) ts.
Proof. intros Ha Hf. eapply list.Forall_impl; [exact Hf|]. intros t Ht. cbn in *. lia. Qed.

Lemma begin_Some p p' needed : begin_replenish p = (p', Some needed) →
  np_minting p = false ∧ p' = MkPool (np_pool p) (np_poolSize p) true ∧ needed = np_poolSize p - PoolSize p.
Proof. unfold begin_replenish. destruct (np_minting p); intros [= <- <-]. done. Qed.

Lemma held_snoc (i pool : list NonceUTXO) n (h : list NonceUTXO) : i ++ (pool ++ [n]) ++ h ≡ₚ (n :: i) ++ pool ++ h.
Proof. rewrite <- app_assoc. cbn [app]. rewrite <- !Permutation_middle. done. Qed.

Lemma working_cons t ts : working t = false →
  filter (λ t, working t = true) (t :: ts) = filter (λ t, working t = true) ts.
Proof. intros Ht. rewrite list.filter_cons_False; [done|]. by rewrite Ht. Qed.

Lemma pool_step_inv s s' : pool_inv s → pool_step s s' → pool_inv s'.
Proof.
  intros [Hs H1 Hr Hb Ho] Hstep. destruct Hstep; cbn [sy_pool sy_threads sy_minted sy_issued] in *.
  - apply pop_Some in H as (Hp & Hsz & Hm). unfold PoolSize in *. rewrite Hp, length_app in *. cbn [length] in *.
    split; cbn [sy_pool sy_threads sy_minted sy_issued]; unfold PoolSize; rewrite ?Hsz, ?Hm; try done; try lia.
    + by destruct low; rewrite ?working_cons.
    + destruct low; [constructor; [cbn; lia|]|]; (eapply room_less; [|exact Hr]; lia).
    + rewrite Ho, held_snoc. by destruct low.
  - split; cbn [sy_pool sy_threads sy_minted sy_issued]; [done|by rewrite working_cons|constructor; [cbn; lia|done]|done|done].
  - rewrite working_split in H1. apply room_app in Hr as [_ Hr]. rewrite held_split in Ho.
    split; cbn [sy_pool sy_threads sy_minted sy_issued]; [done|by rewrite working_cons|constructor; [cbn; lia|done]|done|].
    rewrite Ho. done.
  - rewrite working_split in H1. apply room_app in Hr as [_ Hr]. rewrite held_split in Ho.
    by split; cbn [sy_pool sy_threads sy_minted sy_issued].
  - apply begin_Some in H as (Hm & -> & ->). rewrite working_split, Hm in H1. apply room_app in Hr as [_ Hr].
    rewrite held_split in Ho. split; cbn [sy_pool sy_threads sy_minted sy_issued np_pool np_poolSize np_minting];
      unfold PoolSize in *; cbn [np_pool np_poolSize np_minting]; try done.
    + rewrite working_split. cbn in H1 |- *. lia.
    + apply room_app. split; [cbn; lia|done].
    + by rewrite held_split.
  - rewrite working_split in H1. apply room_app in Hr as [_ Hr]. rewrite held_split in Ho.
    by split; cbn [sy_pool sy_threads sy_minted sy_issued].
  - rewrite working_split in H1. apply room_app in Hr as [Ht Hr]. rewrite held_split in Ho.
    split; cbn [sy_pool sy_threads sy_minted sy_issued]; try done.
    + by rewrite working_split.
    + apply room_app. split; [cbn in *; lia|done].
    + rewrite held_split, Ho. cbn. by rewrite <- !Permutation_middle.
  - rewrite working_split in H1. apply room_app in Hr as [Ht Hr]. rewrite held_split in Ho.
    split; cbn [sy_pool sy_threads sy_minted sy_issued]; try done.
    + by rewrite working_split.
    + apply room_app. split; [cbn in *; lia|done].
    + by rewrite held_split.
  - pose proof H1 as Hidle. rewrite working_split in H1. apply room_app in Hr as [Ht Hr].
    rewrite held_split in Ho. cbn [working] in H1. destruct (np_minting p) eqn:Em; [|cbn in H1; lia].
    apply idle_rest in Hidle; [|done].
    assert (PoolSize (append_nonce n p) = PoolSize p + 1) as Esz.
    { unfold PoolSize, append_nonce. cbn. rewrite length_app. cbn. lia. }
    split; cbn [sy_pool sy_threads sy_minted sy_issued]; try rewrite Esz; cbn [append_nonce np_poolSize np_minting np_pool];
      cbn [pending] in Ht; try done; try lia.
    + rewrite working_split, Em. exact H1.
    + apply room_app. cbn [pending]. split; [lia|]. apply idle_room; [lia|done].
    + rewrite held_split, held_snoc, Ho. cbn. by rewrite <- !Permutation_middle.
  - pose proof H1 as Hidle. rewrite working_split in H1. apply room_app in Hr as [Ht Hr]. rewrite held_split in Ho.
    cbn [working] in H1. destruct (np_minting p); [|cbn in H1; lia].
    split; cbn [sy_pool sy_threads sy_minted sy_issued end_replenish np_poolSize np_minting np_pool]; try done.
    cbn in H1. lia.
Qed.

Lemma start_inv poolSize : pool_inv (start poolSize).
Proof.
  unfold start, NewUTXONoncePool. split; cbn; try done; repeat case_match; try lia.
  all: repeat constructor; cbn; unfold PoolSize; cbn; lia.
Qed.

(** C19: however requests and replenishing goroutines interleave, the pool never
    holds more than its size, one goroutine mints at most, and every minted
    nonce is in one place: handed out, in the pool, or on its way there. So a
    provider that mints distinct nonces has none handed out twice. *)
Theorem nonces_issued_once poolSize s :
  rtc pool_step (start poolSize) s →
  PoolSize (sy_pool s) ≤ np_poolSize (sy_pool s) ∧
  (length (filter (λ t, working t = true) (sy_threads s)) ≤ 1)%nat ∧
  sy_minted s ≡ₚ sy_issued s ++ np_pool (sy_pool s) ++ (sy_threads s ≫= held) ∧
  (NoDup (sy_minted s) → NoDup (sy_issued s)).
Proof.
  intros Hr. assert (pool_inv s) as [Hs H1 Hm Hb Ho].
  { remember (start poolSize) as s0 eqn:E. assert (pool_inv s0) as Hi by (rewrite E; apply start_inv). clear E.
    induction Hr as [|x y z Hxy _ IH]; [done|]. by apply IH, (pool_step_inv x). }
  split; [done|]. split; [rewrite H1; destruct (np_minting _); lia|]. split; [done|].
  rewrite Ho. intros Hn. by apply list.NoDup_app in Hn as [Hn _].
Qed.

(** Two nonces minted into a pool of two, one handed out. *)
Definition nonce_a : NonceUTXO := MkNonce (lit "aa") 0 1 (lit "51").
Definition nonce_b : NonceUTXO := MkNonce (lit "bb") 0 1 (lit "51").
Definition full2 : UTXONoncePool := MkPool [nonce_a; nonce_b] 2 false.
Definition system2 : system := MkSystem (MkPool [nonce_a] 2 false) [] [nonce_b; nonce_a] [nonce_b].

Lemma system2_reachable : rtc pool_step (start 2) system2.
Proof.
  eapply rtc_l; [apply (st_start _ [] [] _ _ (MkPool [] 2 true) 2); vm_compute; reflexivity|].
  eapply rtc_l; [apply (st_mint _ [] [] _ _ nonce_a 1)|].
  eapply rtc_l; [apply (st_append _ [] [] _ _ nonce_a 1)|].
  eapply rtc_l; [apply (st_mint _ [] [] _ _ nonce_b 0)|].
  eapply rtc_l; [apply (st_append _ [] [] _ _ nonce_b 0)|].
  eapply rtc_l; [apply (st_end _ [] [])|].
  eapply rtc_l; [apply (st_pop full2 [] _ _ (MkPool [nonce_a] 2 false) nonce_b false); vm_compute; reflexivity|].
  apply rtc_refl.
Qed.

Lemma nonces_issued_once_witness : NoDup (sy_issued system2) ∧ PoolSize (sy_pool system2) = 1.
Proof.
  destruct (nonces_issued_once 2 system2 system2_reachable) as (_ & _ & _ & Hn).
  split; [apply Hn|reflexivity]. change (NoDup [nonce_b; nonce_a]).
  apply list.NoDup_cons. split; [|apply list.NoDup_singleton].
  intros Hin. apply list_elem_of_singleton in Hin. discriminate Hin.
Defined.
