(* ===== verification/TxRelay.v ===== *)
(** * Transaction relay ([internal/txrelay])

    The pool of broadcast transactions, the ARC client and the broadcaster.
    The HTTP client is a function of the request; JSON is the record codec. *)

From Stdlib Require Import Init.Byte Strings.Byte Strings.String Lia ZArith.
From stdpp Require Import base gmap sets list strings numbers.
From S2P Require Import Prelude GoStd Sha256 LevelDB GoText Http Tx.
Open Scope Z_scope.

(** ** The pool ([mempool.go]) *)

Abbreviation Mempool := (gmap bytes bytes).

Definition NewMempool : Mempool := ∅.
(** The answer is whether the transaction is new. *)
Definition mempool_add (txid raw : bytes) (m : Mempool) : Mempool * bool :=
  match m !! txid with Some _ => (m, false) | None => (<[txid := raw]> m, true) end.
Definition mempool_get (txid : bytes) (m : Mempool) : option bytes := m !! txid.
Definition mempool_has (txid : bytes) (m : Mempool) : bool := bool_decide (is_Some (m !! txid)).
Definition mempool_remove (txid : bytes) (m : Mempool) : Mempool := delete txid m.
Definition mempool_count (m : Mempool) : Z := Z.of_nat (size m).

(** ** The ARC client ([arc.go]) *)

Record ARCResponse := MkARCResponse {
  ar_TxID : bytes; ar_Status : bytes; ar_BlockHash : bytes; ar_BlockHeight : Z; ar_MerklePath : bytes
}.

(** A request that is sent: method, URL, headers, body; the answer is a status
    and a body, or none. *)
Definition HttpClient := bytes → bytes → gmap bytes bytes → bytes → option (Z * bytes).

Record ARCClient := MkARCClient { arc_baseURL : bytes; arc_apiKey : bytes; arc_client : HttpClient }.
Definition NewARCClient (baseURL apiKey : bytes) (c : HttpClient) : ARCClient := MkARCClient baseURL apiKey c.

Inductive arc_err := AeRequest | AeStatus (code : Z) (body : bytes) | AeParse.

Section arc.
Context `{JsonCodec ARCResponse}.

Definition StatusCreated : Z := 201.

(** The decoding of an answer whose status is one of [ok]. *)
Definition arc_answer (ok : list Z) (r : option (Z * bytes)) : res arc_err ARCResponse :=
  match r with
  | None => Err AeRequest
  | Some (code, body) =>
      let body := take mib body in
      if negb (bool_decide (code ∈ ok)) then Err (AeStatus code body)
      else res_of_option AeParse (json_unmarshal body)
  end.

Definition authorization (c : ARCClient) : gmap bytes bytes :=
  if bool_decide (arc_apiKey c = []) then ∅
  else {[ lit "Authorization" := lit "Bearer " ++ arc_apiKey c ]}.

Definition Submit (c : ARCClient) (raw : bytes) : res arc_err ARCResponse :=
  arc_answer [StatusOK; StatusCreated]
    (arc_client c (lit "POST") (arc_baseURL c ++ lit "/v1/tx")
       (<[content_type := lit "application/octet-stream"]> (authorization c)) raw).

Definition QueryStatus (c : ARCClient) (txid : bytes) : res arc_err ARCResponse :=
  arc_answer [StatusOK]
    (arc_client c (lit "GET") (arc_baseURL c ++ lit "/v1/tx/" ++ txid) (authorization c) []).

(** ** The broadcaster ([broadcast.go]) *)

Record BroadcastResult := MkBroadcastResult {
  br_TxID : bytes; br_Accepted : bool; br_ARC : bool; br_Status : bytes; br_Message : bytes
}.
Record Broadcaster := MkBroadcaster { bc_mempool : Mempool; bc_arc : option ARCClient }.

Definition NewBroadcaster (m : Mempool) (arc : option ARCClient) : Broadcaster := MkBroadcaster m arc.
Definition set_mempool (m : Mempool) (b : Broadcaster) : Broadcaster := MkBroadcaster m (bc_arc b).

Inductive bc_err := BcParse | BcNoARC.

Context `{TxLib} (arc_error_text : arc_err → bytes).

Definition BroadcastBEEF (beef : bytes) (b : Broadcaster) : Broadcaster * res bc_err BroadcastResult :=
  match NewTransactionFromBEEF beef with
  | None => (b, Err BcParse)
  | Some tx =>
      let '(m, _) := mempool_add (TxID tx) (TxBytes tx) (bc_mempool b) in
      (set_mempool m b,
       Ok (MkBroadcastResult (TxID tx) true false []
             (lit "added to local mempool (P2P peer relay not yet implemented)")))
  end.

Definition BroadcastRaw (raw : bytes) (b : Broadcaster) : Broadcaster * res bc_err BroadcastResult :=
  match NewTransactionFromBytes raw with
  | None => (b, Err BcParse)
  | Some tx =>
      let '(m, _) := mempool_add (TxID tx) raw (bc_mempool b) in
      (set_mempool m b, Ok (MkBroadcastResult (TxID tx) true false [] (lit "added to mempool")))
  end.

Definition BroadcastToARC (raw : bytes) (b : Broadcaster) : res bc_err BroadcastResult :=
  match bc_arc b with
  | None => Err BcNoARC
  | Some arc =>
      match NewTransactionFromBytes raw with
      | None => Err BcParse
      | Some tx =>
          Ok (match Submit arc raw with
              | Ok resp =>
                  MkBroadcastResult (TxID tx) (bool_decide (ar_Status resp ∈ [lit "SEEN_ON_NETWORK"; lit "MINED"]))
                    true (ar_Status resp) (lit "ARC status: " ++ ar_Status resp)
              | Err e => MkBroadcastResult (TxID tx) false true (lit "error") (lit "ARC submit failed: " ++ arc_error_text e)
              | Panic => MkBroadcastResult (TxID tx) false true (lit "error") []
              end)
      end
  end.
End arc.
