(* ===== verification/Spv.v ===== *)
(** * Simplified payment verification ([internal/spv])

    The validator of BEEF envelopes over the header chain ([validate.go]), the
    store of validated ones ([store.go]), and the fetcher that builds one from
    a raw transaction and a TSC Merkle proof ([fetcher.go]). BEEF itself is
    go-sdk's: [BeefLib] is what the package uses of it. *)

From Stdlib Require Import Init.Byte Strings.Byte Strings.String Lia ZArith.
From stdpp Require Import base gmap sets list strings numbers sorting fin_maps.
From S2P Require Import Prelude GoStd Sha256 LevelDB GoText Http Tx TxRelay.
Open Scope Z_scope.

(** An element of a BRC-74 path: the hash is [None] where the library got a
    nil pointer. *)
Record PathElement := MkElement {
  pe_Offset : Z; pe_Hash : option bytes; pe_Txid : bool; pe_Duplicate : bool
}.
Record MerklePath := MkMerklePath { mp_BlockHeight : Z; mp_Path : list (list PathElement) }.

(** [IsValidRootForHeight] of the chain tracker; [None] is an error. *)
Definition ChainTracker := bytes → Z → option bool.

Class BeefLib := {
  Beef : Type;
  NewBeefFromBytes : bytes → option Beef;
  BUMPs : Beef → Z;
  Transactions : Beef → Z;
  Verify : ChainTracker → Beef → option bool;
  MerklePathBytes : MerklePath → bytes;
  NewMerklePathFromHex : bytes → option MerklePath;
  (** [NewBeefFromTransaction] with the path set, then [AtomicBytes]. *)
  BeefFromTransaction : Transaction → MerklePath → option bytes;
  (** [chainhash.NewHashFromHex], the bytes of the hash. *)
  NewHashFromHex : bytes → option bytes
}.

(** ** The validator *)

Definition ConfidenceSPVVerified : bytes := lit "spv_verified".
Definition ConfidencePartiallyVerified : bytes := lit "partially_verified".
Definition ConfidenceUnconfirmed : bytes := lit "unconfirmed".
Definition ConfidenceInvalid : bytes := lit "invalid".

Record Result := MkResult { rs_Valid : bool; rs_TxID : bytes; rs_Confidence : bytes; rs_Message : bytes }.

Record ValidationStats := MkVStats {
  vs_Total : Z; vs_Valid : Z; vs_Invalid : Z; vs_LastValidatedAt : bytes; vs_LastError : bytes;
  vs_ByConfidence : gmap bytes Z; vs_FailureByReason : gmap bytes Z
}.
Definition NewValidator : ValidationStats := MkVStats 0 0 0 [] [] ∅ ∅.

Definition bump_count (k : bytes) (m : gmap bytes Z) : gmap bytes Z := <[k := i64 (default 0 (m !! k) + 1)]> m.

Definition recordResult (now : Z) (r : Result) (failureReason : bytes) (s : ValidationStats) : ValidationStats :=
  let total := i64 (vs_Total s + 1) in
  let conf := bump_count (rs_Confidence r) (vs_ByConfidence s) in
  if rs_Valid r then
    MkVStats total (i64 (vs_Valid s + 1)) (vs_Invalid s) (rfc3339 now) [] conf (vs_FailureByReason s)
  else
    MkVStats total (vs_Valid s) (i64 (vs_Invalid s + 1)) (rfc3339 now) (rs_Message r) conf
      (if bool_decide (failureReason = []) then vs_FailureByReason s
       else bump_count failureReason (vs_FailureByReason s)).

Definition Stats (s : ValidationStats) : ValidationStats := s.

Section validator.
Context `{TxLib} `{BeefLib} (tracker : ChainTracker).

(** The result, and the reason recorded for a failure. *)
Definition check_beef (beef : bytes) : Result * bytes :=
  let invalid txid msg reason := (MkResult false txid ConfidenceInvalid msg, reason) in
  if bool_decide (beef = []) then invalid [] (lit "empty BEEF input") (lit "empty_input")
  else match NewBeefFromBytes beef with
       | None => invalid [] (lit "parse BEEF: ") (lit "parse_beef")
       | Some b =>
           match NewTransactionFromBEEF beef with
           | None => invalid [] (lit "parse transaction from BEEF: ") (lit "parse_transaction")
           | Some tx =>
               let txid := TxID tx in
               let totalBumps := BUMPs b in
               if totalBumps =? 0 then
                 (MkResult true txid ConfidenceUnconfirmed
                    (lit "no merkle proofs in BEEF — fully unconfirmed ancestry"), [])
               else match Verify tracker b with
                    | None => invalid txid (lit "BEEF verification: ") (lit "verify_error")
                    | Some false => invalid txid (lit "merkle proofs did not verify against local header chain")
                                      (lit "root_mismatch")
                    | Some true =>
                        let totalTxs := Transactions b in
                        if totalTxs - 1 <=? totalBumps then
                          (MkResult true txid ConfidenceSPVVerified
                             (lit "all " ++ itoa totalBumps ++ lit " merkle proofs verified against local headers"), [])
                        else
                          (MkResult true txid ConfidencePartiallyVerified
                             (itoa totalBumps ++ lit " merkle proofs verified, " ++
                              itoa (totalTxs - 1 - totalBumps) ++ lit " ancestor txs unconfirmed"), [])
                    end
           end
       end.

Definition ValidateBEEF (now : Z) (beef : bytes) (s : ValidationStats) : ValidationStats * Result :=
  let '(r, reason) := check_beef beef in (recordResult now r reason s, r).

(** Used by the tests. *)
Definition classifyConfidence (totalBumps verifiedBumps : Z) : bytes :=
  if totalBumps =? 0 then ConfidenceUnconfirmed
  else if verifiedBumps =? totalBumps then ConfidenceSPVVerified
  else if 0 <? verifiedBumps then ConfidencePartiallyVerified else ConfidenceUnconfirmed.

(** Used by the tests. *)
Definition confidenceMessage (confidence : bytes) (verified total : Z) : bytes :=
  if bool_decide (confidence = ConfidenceSPVVerified) then
    lit "all " ++ itoa verified ++ lit " merkle proofs verified against local headers"
  else if bool_decide (confidence = ConfidencePartiallyVerified) then
    itoa verified ++ lit " of " ++ itoa total ++ lit " merkle proofs verified, remainder unconfirmed"
  else if bool_decide (confidence = ConfidenceUnconfirmed) then
    if total =? 0 then lit "no merkle proofs in BEEF — fully unconfirmed ancestry"
    else lit "merkle proofs present but could not be verified"
  else if bool_decide (confidence = ConfidenceInvalid) then lit "BEEF validation failed"
  else [].

(** ** The store *)

Definition prefixBeef : bytes := lit "beef:".
Definition beefKey (txid : bytes) : bytes := prefixBeef ++ txid.

Inductive proof_err := PrParse | PrStore (txid : bytes) (e : kv_err).

Context {DB : Type} `{LevelDB DB}.

Definition StoreBEEF (beef : bytes) (db : DB) : DB * res proof_err bytes :=
  match NewTransactionFromBEEF beef with
  | None => (db, Err PrParse)
  | Some tx =>
      match db_put db (beefKey (TxID tx)) beef with
      | (db, None) => (db, Ok (TxID tx))
      | (db, Some e) => (db, Err (PrStore (TxID tx) e))
      end
  end.
Definition GetBEEF (txid : bytes) (db : DB) : kv_err + bytes := db_get db (beefKey txid).
Definition HasBEEF (txid : bytes) (db : DB) : bool :=
  match db_has db (beefKey txid) with inr b => b | inl _ => false end.
Definition Count (db : DB) : Z := Z.of_nat (length (db_iter db prefixBeef).1).

(** ** The fetcher *)

Record tscProof := MkTsc { tsc_Index : Z; tsc_TxOrID : bytes; tsc_Nodes : list bytes }.

Record ProofFetcher := MkFetcher {
  pf_arcClient : option ARCClient; pf_client : HttpClient; pf_wocBaseURL : bytes
}.
Definition NewProofFetcher (arc : option ARCClient) (c : HttpClient) : ProofFetcher :=
  MkFetcher arc c (lit "https://api.whatsonchain.com/v1/bsv/main").
Definition SetBaseURL (base : bytes) (f : ProofFetcher) : ProofFetcher :=
  MkFetcher (pf_arcClient f) (pf_client f) base.

Inductive fetch_err :=
  | FeHTTP | FeNotFound | FeStatus (code : Z) | FeRawHex | FeRawTx | FeInfo | FeUnconfirmed
  | FeProof | FeNoProof | FeBEEF.

Context `{JsonCodec ARCResponse} (decode_info : bytes → option Z) (decode_proofs : bytes → option (list tscProof)).

Definition woc_get (f : ProofFetcher) (path : bytes) : option (Z * bytes) :=
  pf_client f (lit "GET") (pf_wocBaseURL f ++ path) ∅ [].

Definition fetchRawTx (f : ProofFetcher) (txid : bytes) : res fetch_err bytes :=
  match woc_get f (lit "/tx/" ++ txid ++ lit "/hex") with
  | None => Err FeHTTP
  | Some (code, body) =>
      if code =? StatusNotFound then Err FeNotFound
      else if negb (code =? StatusOK) then Err (FeStatus code)
      else Ok (take (10 * mib) body)
  end.

Definition fetchBlockHeight (f : ProofFetcher) (txid : bytes) : res fetch_err Z :=
  let from_arc := match pf_arcClient f with
                  | Some arc => match QueryStatus arc txid with
                                | Ok resp => if 0 <? ar_BlockHeight resp then Some (ar_BlockHeight resp) else None
                                | _ => None
                                end
                  | None => None
                  end in
  match from_arc with
  | Some h => Ok h
  | None =>
      match woc_get f (lit "/tx/" ++ txid) with
      | None => Err FeHTTP
      | Some (code, body) =>
          if negb (code =? StatusOK) then Err (FeStatus code)
          else match decode_info (take mib body) with
               | None => Err FeInfo
               | Some h => Ok (if h <=? 0 then 0 else u32 h)
               end
      end
  end.

Definition tscNodeToElement (node : bytes) (offset : Z) : PathElement :=
  if bool_decide (node = lit "*") then MkElement offset None false true
  else
    let nodeBytes := rev (hex_decode_string node).1 in
    MkElement offset (if bool_decide (length nodeBytes = 32%nat) then Some nodeBytes else None) false false.

(** The level of a path: the node at [offset] is on the path, its sibling in
    the proof. *)
Definition path_level (level : nat) (txid : option bytes) (node : bytes) (offset : Z) : list PathElement :=
  let sibOffset := Z.lxor offset 1 in
  match level with
  | O =>
      let self := MkElement offset txid true false in
      if offset <? sibOffset then [self; tscNodeToElement node sibOffset]
      else [tscNodeToElement node sibOffset; self]
  | S _ => [tscNodeToElement node sibOffset]
  end.

Fixpoint build_path (level : nat) (txid : option bytes) (nodes : list bytes) (offset : Z) : list (list PathElement) :=
  match nodes with
  | [] => []
  | node :: nodes => path_level level txid node offset :: build_path (S level) txid nodes (offset / 2)
  end.

Definition tsc_path (proof : tscProof) (blockHeight : Z) : MerklePath :=
  MkMerklePath blockHeight (build_path 0 (NewHashFromHex (tsc_TxOrID proof)) (tsc_Nodes proof) (tsc_Index proof)).

Definition fetchMerkleProofFromWoC (f : ProofFetcher) (txid : bytes) (blockHeight : Z) : res fetch_err bytes :=
  match woc_get f (lit "/tx/" ++ txid ++ lit "/proof/tsc") with
  | None => Err FeHTTP
  | Some (code, body) =>
      if negb (code =? StatusOK) then Err (FeStatus code)
      else match decode_proofs (take mib body) with
           | None => Err FeProof
           | Some [] => Err FeNoProof
           | Some (proof :: _) => Ok (hex_encode (MerklePathBytes (tsc_path proof blockHeight)))
           end
  end.

Definition fetchMerkleProof (f : ProofFetcher) (txid : bytes) (blockHeight : Z) : res fetch_err bytes :=
  let from_arc := match pf_arcClient f with
                  | Some arc => match QueryStatus arc txid with
                                | Ok resp => if bool_decide (ar_MerklePath resp = []) then None else Some (ar_MerklePath resp)
                                | _ => None
                                end
                  | None => None
                  end in
  match from_arc with Some p => Ok p | None => fetchMerkleProofFromWoC f txid blockHeight end.

Definition buildBEEF (tx : Transaction) (merklePathHex : bytes) : res fetch_err bytes :=
  mp ← res_of_option FeProof (NewMerklePathFromHex merklePathHex);
  res_of_option FeBEEF (BeefFromTransaction tx mp).

Definition FetchBEEF (f : ProofFetcher) (txid : bytes) : res fetch_err bytes :=
  rawHex ← fetchRawTx f txid;
  rawBytes ← res_of_option FeRawHex (hex_decode rawHex);
  tx ← res_of_option FeRawTx (NewTransactionFromBytes rawBytes);
  blockHeight ← fetchBlockHeight f txid;
  _ ← guard_err (blockHeight =? 0) FeUnconfirmed;
  merkleHex ← fetchMerkleProof f txid blockHeight;
  buildBEEF tx merkleHex.
End validator.
