(* ===== verification/SpvProps.v ===== *)
(** * What payment verification guarantees

    The counters of the validator, the soundness of a verified BEEF with
    respect to the local header chain, and the conversion of a TSC proof into
    a BRC-74 path, which keeps the Merkle root. *)

From Stdlib Require Import Init.Byte Strings.Byte Strings.String Lia ZArith.
From stdpp Require Import base gmap sets list strings numbers sorting fin_maps.
From S2P Require Import Prelude GoStd Sha256 LevelDB Pow HeaderStore HeaderChain GoText Http Tx TxRelay Spv.
Open Scope Z_scope.

(** ** The validator *)

(** What the documentation of go-sdk says of [Verify]: a BEEF is verified only
    when the tracker accepts the root of each of its BUMPs, at a height of 32
    bits. *)
Class BeefLaws `{BeefLib} := {
  beef_roots : Beef → list (bytes * Z);
  Verify_sound tracker b root h :
    Verify tracker b = Some true → (root, h) ∈ beef_roots b →
    0 ≤ h < 2 ^ 32 ∧ tracker root h = Some true
}.

(** What it says of BUMPs: each has a root, and the BEEF built from a transaction
    with its Merkle path carries that path as a BUMP. *)
Class BeefBuildLaws `{BeefLaws} := {
  beef_roots_count b : Z.of_nat (length (beef_roots b)) = BUMPs b;
  BeefFromTransaction_bumps tx mp beef b :
    BeefFromTransaction tx mp = Some beef → NewBeefFromBytes beef = Some b → BUMPs b ≠ 0
}.

(** The header store as the tracker. *)
Definition header_tracker `{!WireHeader Hdr, !LevelDB DB} (s : Store DB) : ChainTracker :=
  λ root h, match IsValidRootForHeight s root h with Ok b => Some b | _ => None end.

Definition confidence_levels : list bytes :=
  [ConfidenceSPVVerified; ConfidencePartiallyVerified; ConfidenceUnconfirmed; ConfidenceInvalid].

(** A sequence of validations, each with its time. *)
Fixpoint validate_all `{TxLib} `{BeefLib} (tracker : ChainTracker) (reqs : list (Z * bytes))
    (s : ValidationStats) : ValidationStats * list Result :=
  match reqs with
  | [] => (s, [])
  | (now, beef) :: reqs =>
      let '(s, r) := ValidateBEEF tracker now beef s in
      let '(s, rs) := validate_all tracker reqs s in (s, r :: rs)
  end.

Definition count_res (P : Result → bool) (l : list Result) : Z := Z.of_nat (length (filter P l)).
Definition has_confidence (k : bytes) (r : Result) : bool := bool_decide (rs_Confidence r = k).

Lemma count_res_cons P r l : count_res P (r :: l) = (if P r then 1 else 0) + count_res P l.
Proof. unfold count_res. rewrite filter_cons. destruct (P r); simpl; lia. Qed.

Lemma count_res_bound P l : 0 ≤ count_res P l ≤ Z.of_nat (length l).
Proof. unfold count_res. pose proof (length_filter (λ r, P r) l). lia. Qed.

Section validator.
Context `{TxLib} `{BeefLib} (tracker : ChainTracker).

Lemma check_beef_levels beef : let r := (check_beef tracker beef).1 in
  rs_Confidence r ∈ confidence_levels ∧ (rs_Valid r = false ↔ rs_Confidence r = ConfidenceInvalid).
Proof.
  unfold check_beef. repeat case_match; simpl; (split; [set_solver|]);
    by (split; [done || (intros _; done)|done || (intros [=])]).
Qed.

Lemma validate_all_length reqs s : length (validate_all tracker reqs s).2 = length reqs.
Proof.
  revert s. induction reqs as [|[now beef] reqs IH]; intros s; [done|]. simpl.
  destruct (ValidateBEEF _ _ _ _) as [s' r]. specialize (IH s').
  destruct (validate_all tracker reqs s'). simpl in *. by rewrite IH.
Qed.

Definition conf_count (k : bytes) (s : ValidationStats) : Z := default 0 (vs_ByConfidence s !! k).

(** The counters are not negative and have room for [n] more validations. *)
Record stats_room (n : Z) (s : ValidationStats) : Prop := {
  sr_total : 0 ≤ vs_Total s ∧ vs_Total s + n < 2 ^ 63;
  sr_valid : 0 ≤ vs_Valid s ∧ vs_Valid s + n < 2 ^ 63;
  sr_invalid : 0 ≤ vs_Invalid s ∧ vs_Invalid s + n < 2 ^ 63;
  sr_conf k : 0 ≤ conf_count k s ∧ conf_count k s + n < 2 ^ 63
}.

Lemma recordResult_counts n now r reason s (s' := recordResult now r reason s) :
  0 ≤ n → stats_room (1 + n) s →
  stats_room n s' ∧ vs_Total s' = vs_Total s + 1 ∧
  vs_Valid s' = vs_Valid s + (if rs_Valid r then 1 else 0) ∧
  vs_Invalid s' = vs_Invalid s + (if negb (rs_Valid r) then 1 else 0) ∧
  ∀ k, conf_count k s' = conf_count k s + (if has_confidence k r then 1 else 0).
Proof.
  intros Hn [T V I C].
  assert (vs_Total s' = vs_Total s + 1) as ET.
  { subst s'. unfold recordResult. case_match; simpl; apply i64_small; lia. }
  assert (vs_Valid s' = vs_Valid s + (if rs_Valid r then 1 else 0)) as EV.
  { subst s'. unfold recordResult. case_match; simpl; rewrite ?i64_small; lia. }
  assert (vs_Invalid s' = vs_Invalid s + (if negb (rs_Valid r) then 1 else 0)) as EI.
  { subst s'. unfold recordResult. case_match; simpl; rewrite ?i64_small; lia. }
  assert (∀ k, conf_count k s' = conf_count k s + (if has_confidence k r then 1 else 0)) as EC.
  { intros k. assert (vs_ByConfidence s' = bump_count (rs_Confidence r) (vs_ByConfidence s)) as E.
    { subst s'. unfold recordResult. by destruct (rs_Valid r). }
    unfold conf_count, has_confidence. rewrite E. unfold bump_count.
    destruct (decide (rs_Confidence r = k)) as [<-|Hk].
    - rewrite lookup_insert_eq, bool_decide_true by done. simpl. apply i64_small.
      specialize (C (rs_Confidence r)). unfold conf_count in C. lia.
    - rewrite lookup_insert_ne, bool_decide_false by done. lia. }
  split; [|done]. split.
  - lia.
  - rewrite EV. destruct (rs_Valid r); lia.
  - rewrite EI. destruct (rs_Valid r); simpl; lia.
  - intros k. rewrite EC. specialize (C k). destruct (has_confidence k r); lia.
Qed.

Lemma validate_all_counts reqs s : stats_room (Z.of_nat (length reqs)) s →
  let '(s', rs) := validate_all tracker reqs s in
  vs_Total s' = vs_Total s + Z.of_nat (length reqs) ∧
  vs_Valid s' = vs_Valid s + count_res rs_Valid rs ∧
  vs_Invalid s' = vs_Invalid s + count_res (λ r, negb (rs_Valid r)) rs ∧
  ∀ k, conf_count k s' = conf_count k s + count_res (has_confidence k) rs.
Proof.
  revert s. induction reqs as [|[now beef] reqs IH]; intros s Hr.
  - simpl. unfold count_res. simpl. split_and!; [lia..|intros; lia].
  - cbn [length] in Hr. rewrite Nat2Z.inj_succ, <- Z.add_1_l in Hr. cbn [validate_all].
    unfold ValidateBEEF. destruct (check_beef tracker beef) as [r reason].
    destruct (recordResult_counts (Z.of_nat (length reqs)) now r reason s ltac:(lia) Hr) as (R & T & V & I & C).
    specialize (IH _ R). destruct (validate_all tracker reqs _) as [s' rs].
    destruct IH as (T' & V' & I' & C'). cbn [length].
    split_and!.
    + lia.
    + rewrite count_res_cons. lia.
    + rewrite count_res_cons. lia.
    + intros k. rewrite count_res_cons, C', C. lia.
Qed.

(** C38: the results and the statistics are well formed, whatever is
    submitted: every answer carries one of the four documented confidence
    levels, "invalid" exactly when it is not valid; and after any sequence of
    validations of a fresh validator (fewer than 2^63) the counters are the numbers of
    answers of each kind: total, valid, invalid and by confidence, so that
    total is valid plus invalid. *)
Theorem validation_stats_typed reqs : Z.of_nat (length reqs) < 2 ^ 63 →
  let '(s, rs) := validate_all tracker reqs NewValidator in
  Forall (λ r, rs_Confidence r ∈ confidence_levels ∧
     (rs_Valid r = false ↔ rs_Confidence r = ConfidenceInvalid)) rs ∧
  vs_Total s = Z.of_nat (length reqs) ∧
  vs_Valid s = count_res rs_Valid rs ∧
  vs_Invalid s = count_res (has_confidence ConfidenceInvalid) rs ∧
  vs_Valid s + vs_Invalid s = vs_Total s ∧
  ∀ k, default 0 (vs_ByConfidence s !! k) = count_res (has_confidence k) rs.
Proof.
  intros Hl. pose proof (validate_all_length reqs NewValidator) as L.
  assert (Forall (λ r, rs_Confidence r ∈ confidence_levels ∧
     (rs_Valid r = false ↔ rs_Confidence r = ConfidenceInvalid)) (validate_all tracker reqs NewValidator).2) as F.
  { clear Hl L. generalize NewValidator. induction reqs as [|[now beef] reqs IH]; intros s; [constructor|].
    simpl. unfold ValidateBEEF. pose proof (check_beef_levels beef) as Hb.
    destruct (check_beef tracker beef) as [r reason]. specialize (IH (recordResult now r reason s)).
    destruct (validate_all _ _ _). by constructor. }
  pose proof (validate_all_counts reqs NewValidator) as C.
  destruct (validate_all tracker reqs NewValidator) as [s rs]. simpl in *.
  destruct C as (T & V & I & K).
  { split; [simpl; lia..|]. intros k. unfold conf_count. cbn [NewValidator vs_ByConfidence].
    rewrite lookup_empty. simpl. lia. }
  assert (count_res rs_Valid rs + count_res (λ r, negb (rs_Valid r)) rs = Z.of_nat (length rs) ∧
    count_res (λ r, negb (rs_Valid r)) rs = count_res (has_confidence ConfidenceInvalid) rs) as [Hsum Hinv].
  { clear -F. induction F as [|r rs [_ Hr] _ [I1 I2]]; [done|]. rewrite !count_res_cons. cbn [length].
    unfold has_confidence at 1. split; [destruct (rs_Valid r); simpl; lia|].
    rewrite I2. destruct (rs_Valid r) eqn:E; simpl.
    - rewrite bool_decide_false; [done|]. intros E'. by apply Hr in E'.
    - rewrite bool_decide_true; [done|]. by apply Hr. }
  split_and!; [done|lia..|]. intros k. specialize (K k). unfold conf_count in K.
  cbn [NewValidator vs_ByConfidence] in K. rewrite lookup_empty in K. simpl in K. lia.
Qed.
End validator.

(** ** A verified BEEF is on the local chain *)

Section composition.
Context `{WireHeader Hdr} `{LevelDB DB} `{!LevelDBLaws DB} `{TxLib} `{BeefLib} `{!BeefLaws}.

(** What a BEEF that is answered valid has. *)
Lemma valid_beef_proofs s g c beef :
  store_ok (Hdr:=Hdr) s g c → let r := (check_beef (header_tracker s) beef).1 in rs_Valid r = true →
  ∃ b tx, NewBeefFromBytes beef = Some b ∧ NewTransactionFromBEEF beef = Some tx ∧
    if bool_decide (rs_Confidence r = ConfidenceUnconfirmed) then BUMPs b = 0
    else BUMPs b ≠ 0 ∧ ∀ root h, (root, h) ∈ beef_roots b → hi_merkle <$> (g :: c) !! Z.to_nat h = Some root.
Proof.
  intros Hok. assert (∀ b, Verify (header_tracker s) b = Some true → ∀ root h,
    (root, h) ∈ beef_roots b → hi_merkle <$> (g :: c) !! Z.to_nat h = Some root) as Hv.
  { intros b Eb root h [Hh Ht]%(Verify_sound _ _ _ _ Eb). unfold header_tracker in Ht.
    destruct (IsValidRootForHeight s root h) eqn:E; simplify_eq. by eapply valid_root_on_chain. }
  unfold check_beef. case_bool_decide; [done|]. destruct (NewBeefFromBytes beef) as [b|]; [|done].
  destruct (NewTransactionFromBEEF beef) as [tx|]; [|done].
  destruct (Z.eqb_spec (BUMPs b) 0); simpl; [by exists b, tx|].
  destruct (Verify (header_tracker s) b) as [[]|] eqn:Eb; [|done..].
  destruct (Transactions b - 1 <=? BUMPs b); cbn [fst snd rs_Confidence rs_Valid]; intros _;
    exists b, tx; (split; [done|]); (split; [done|]); rewrite bool_decide_false by done; (split; [done|]); by apply (Hv b).
Qed.

(** C7: the validator over the header store: when the store holds the chain
    [g :: c] and a BEEF is answered valid, either it has no Merkle proof at all and the
    answer says "unconfirmed", or the root of every one of its proofs is the
    Merkle root of the header the local chain has at that height. *)
Theorem valid_beef_on_chain s g c now beef st :
  store_ok (Hdr:=Hdr) s g c →
  let r := (ValidateBEEF (header_tracker s) now beef st).2 in
  rs_Valid r = true →
  ∃ b, NewBeefFromBytes beef = Some b ∧
    if bool_decide (rs_Confidence r = ConfidenceUnconfirmed) then BUMPs b = 0
    else ∀ root h, (root, h) ∈ beef_roots b → hi_merkle <$> (g :: c) !! Z.to_nat h = Some root.
Proof.
  intros Hok. unfold ValidateBEEF. pose proof (valid_beef_proofs s g c beef Hok) as HP.
  destruct (check_beef (header_tracker s) beef) as [r reason]. cbn [fst snd] in *. intros Hr.
  destruct (HP Hr) as (b & tx & Hb & _ & HB). exists b. split; [done|]. case_bool_decide; [done|apply HB].
Qed.
End composition.

(** ** TSC proofs and BRC-74 paths *)

Definition double_hash (b : bytes) : bytes := sum256 (sum256 b).

(** The root a TSC proof stands for: node by node, from the transaction up,
    the index tells the side; [*] duplicates the left node. *)
Fixpoint tsc_root (acc : bytes) (index : Z) (nodes : list bytes) : option bytes :=
  match nodes with
  | [] => Some acc
  | node :: nodes =>
      sib ← (if bool_decide (node = lit "*") then Some acc else @rev byte <$> hex_decode node);
      tsc_root (double_hash (if Z.odd index then sib ++ acc else acc ++ sib)) (index / 2) nodes
  end.

(** The root of a BRC-74 path for the leaf at [offset]: level by level, the
    sibling is the element at the offset with the last bit flipped. *)
Fixpoint brc74_root (acc : bytes) (offset : Z) (levels : list (list PathElement)) : option bytes :=
  match levels with
  | [] => Some acc
  | level :: levels =>
      e ← list_find (λ e, pe_Offset e = Z.lxor offset 1) level;
      sib ← (if pe_Duplicate e.2 then Some acc else pe_Hash e.2);
      brc74_root (double_hash (if Z.odd offset then sib ++ acc else acc ++ sib)) (offset / 2) levels
  end.

(** A node of a TSC proof: [*], or the 64 hexadecimal digits of a hash. *)
Definition tsc_node_ok (node : bytes) : bool :=
  bool_decide (node = lit "*") ||
  match hex_decode node with Some b => bool_decide (length b = 32%nat) | None => false end.

Lemma lxor_1_ne z : Z.lxor z 1 ≠ z.
Proof. intros E. assert (Z.lxor z (Z.lxor z 1) = Z.lxor z z) as E' by congruence.
  rewrite <- Z.lxor_assoc, Z.lxor_nilpotent, Z.lxor_0_l in E'. done. Qed.

Lemma tscNodeToElement_offset node o : pe_Offset (tscNodeToElement node o) = o.
Proof. unfold tscNodeToElement. by case_bool_decide. Qed.

(** The sibling is found at every level. *)
Lemma path_level_sibling level txid node offset : ∃ i,
  list_find (λ e, pe_Offset e = Z.lxor offset 1) (path_level level txid node offset)
    = Some (i, tscNodeToElement node (Z.lxor offset 1)).
Proof.
  pose proof (lxor_1_ne offset). pose proof (tscNodeToElement_offset node (Z.lxor offset 1)) as E.
  destruct level; simpl; [destruct (offset <? _); simpl|]; repeat (case_decide; simplify_eq/=);
    by (eexists || congruence).
Qed.

Lemma element_sibling node o acc : tsc_node_ok node = true →
  (if pe_Duplicate (tscNodeToElement node o) then Some acc else pe_Hash (tscNodeToElement node o))
  = (if bool_decide (node = lit "*") then Some acc else @rev byte <$> hex_decode node).
Proof.
  unfold tsc_node_ok, tscNodeToElement. case_bool_decide; [done|]. cbn [orb pe_Duplicate pe_Hash].
  unfold hex_decode. destruct (hex_decode_string node) as [b []]; [|done]. intros Hb%bool_decide_eq_true.
  cbn [fst]. by rewrite bool_decide_true by (by rewrite length_rev).
Qed.

Lemma build_path_root level txid nodes offset acc : forallb tsc_node_ok nodes = true →
  brc74_root acc offset (build_path level txid nodes offset) = tsc_root acc offset nodes.
Proof.
  revert level offset acc. induction nodes as [|node nodes IH]; intros level offset acc; [done|].
  cbn [forallb build_path brc74_root tsc_root]. intros [Hn Hns]%andb_prop.
  destruct (path_level_sibling level txid node offset) as [i ->]. cbn [mbind option_bind snd].
  rewrite (element_sibling _ _ _ Hn). destruct (if bool_decide _ then _ else _) as [sib|]; [|done].
  by apply IH.
Qed.

(** C30: the conversion of WhatsOnChain's TSC proof into a BRC-74 path keeps
    the Merkle root: for a proof whose nodes are hashes in hexadecimal or
    [*], the path computes the same root, level by level, as the proof, has a
    level for each node, and its first level holds the transaction's id at
    the index of the proof. *)
Theorem tsc_path_keeps_root `{BeefLib} proof height id :
  forallb tsc_node_ok (tsc_Nodes proof) = true → NewHashFromHex (tsc_TxOrID proof) = Some id →
  let path := tsc_path proof height in
  brc74_root id (tsc_Index proof) (mp_Path path) = tsc_root id (tsc_Index proof) (tsc_Nodes proof) ∧
  mp_BlockHeight path = height ∧ length (mp_Path path) = length (tsc_Nodes proof) ∧
  (∀ level, head (mp_Path path) = Some level → MkElement (tsc_Index proof) (Some id) true false ∈ level).
Proof.
  intros Hn Hid. unfold tsc_path. rewrite Hid. cbn [mp_Path mp_BlockHeight].
  split_and!; [by apply build_path_root|done| |].
  - generalize 0%nat, (tsc_Index proof). induction (tsc_Nodes proof) as [|n l IH]; intros lv o; [done|].
    cbn. f_equal. apply IH. simpl in Hn. by apply andb_prop in Hn as [].
  - intros level. destruct (tsc_Nodes proof) as [|n l]; [done|]. cbn. intros [= <-].
    case_match; set_solver.
Qed.
