(* ===== verification/SpvRuns.v ===== *)
(** * Payment verification at concrete inputs

    A small BEEF format whose proofs are the inputs of a transaction, the
    properties of [SpvProps] applied to the store that holds the real block
    1, and the TSC proof of the first payment of Bitcoin, in block 170. *)

From Stdlib Require Import Init.Byte Strings.Byte Strings.String Lia ZArith.
From stdpp Require Import base gmap sets list strings numbers sorting fin_maps.
From S2P Require Import Prelude GoStd Sha256 LevelDB Pow RawHeader HeaderStore HeaderChain RawChain.
From S2P Require Import GoText Http Tx TxRelay Spv SpvProps.
Open Scope Z_scope.

Definition toy_roots (t : Transaction) : list (bytes * Z) :=
  map (λ i, (default [] (in_SourceTXID i), in_SourceTxOutIndex i)) (tx_Inputs t).
Definition root_accepted (tracker : ChainTracker) (p : bytes * Z) : bool :=
  (0 <=? p.2) && (p.2 <? 2 ^ 32) && bool_decide (tracker p.1 p.2 = Some true).

#[export] Instance toy_beef : BeefLib := {
  Beef := Transaction;
  NewBeefFromBytes b := NewTransactionFromBEEF b;
  BUMPs t := Z.of_nat (length (tx_Inputs t));
  Transactions t := 1 + Z.of_nat (length (tx_Outputs t));
  Verify tracker t := Some (forallb (root_accepted tracker) (toy_roots t));
  MerklePathBytes p := list_field (λ l, list_field (λ e, option_field id (pe_Hash e)) l) (mp_Path p);
  NewMerklePathFromHex _ := None;
  BeefFromTransaction t _ := if bool_decide (tx_Inputs t = []) then None else Some (x01 :: x00 :: toy_print t);
  NewHashFromHex s := b ← hex_decode s; if bool_decide (length b = 32%nat) then Some (rev b) else None
}.

#[export] Instance toy_beef_laws : BeefLaws.
Proof.
  refine {| beef_roots := toy_roots : Beef → _ |}. cbn [Verify toy_beef].
  intros tracker b root h [= Hf] Hin. rewrite forallb_forall in Hf.
  apply list_elem_of_In, Hf in Hin. unfold root_accepted in Hin. cbn in Hin.
  apply andb_prop in Hin as [[H1%Z.leb_le H2%Z.ltb_lt]%andb_prop H3%bool_decide_eq_true]. done.
Defined.

#[export] Instance toy_beef_build_laws : BeefBuildLaws.
Proof.
  split.
  - intros b. cbn. unfold toy_roots. by rewrite length_map.
  - intros tx mp beef b HB HN. unfold BeefFromTransaction, toy_beef in HB. case_bool_decide as Hn; [done|].
    injection HB as <-. change (toy_parse (toy_print tx) = Some b) in HN. rewrite toy_parse_print in HN. injection HN as <-.
    unfold BUMPs, toy_beef. destruct (tx_Inputs tx); [done|]. cbn [length]. lia.
Qed.

(** A BEEF that proves the Merkle root of block 1, one with another root, and
    one without proofs. *)
Definition beef_of (roots : list (bytes * Z)) (ancestors : nat) : bytes :=
  x01 :: x00 :: toy_print (MkTx (map (λ p, MkInput (Some p.1) p.2) roots) (replicate ancestors (MkOutput 1 (Some [])))).
Definition good_beef : bytes := beef_of [(hdr_merkle mainnet_block1, 1)] 1.
Definition bad_beef : bytes := beef_of [(hdr_merkle mainnet_block1, 2)] 1.
Definition bare_beef : bytes := beef_of [] 1.

Abbreviation tracker1 := (header_tracker (Hdr:=raw_header) store1).
Definition requests : list (Z * bytes) := [(0, good_beef); (1, []); (2, bad_beef); (3, bare_beef); (4, [x07])].

Example answers : (λ r, (rs_Valid r, rs_Confidence r)) <$> (validate_all tracker1 requests NewValidator).2 =
  [(true, ConfidenceSPVVerified); (false, ConfidenceInvalid); (false, ConfidenceInvalid);
   (true, ConfidenceUnconfirmed); (false, ConfidenceInvalid)].
Proof. vm_compute. reflexivity. Qed.

Lemma validation_stats_typed_witness :
  let '(s, rs) := validate_all tracker1 requests NewValidator in
  Forall (λ r, rs_Confidence r ∈ confidence_levels ∧
     (rs_Valid r = false ↔ rs_Confidence r = ConfidenceInvalid)) rs ∧
  vs_Total s = Z.of_nat (length requests) ∧ vs_Valid s = count_res rs_Valid rs ∧
  vs_Invalid s = count_res (has_confidence ConfidenceInvalid) rs ∧
  vs_Valid s + vs_Invalid s = vs_Total s ∧
  ∀ k, default 0 (vs_ByConfidence s !! k) = count_res (has_confidence k) rs.
Proof. apply (validation_stats_typed tracker1 requests). simpl. lia. Defined.

Lemma good_beef_valid : rs_Valid (ValidateBEEF tracker1 0 good_beef NewValidator).2 = true.
Proof. vm_compute. reflexivity. Qed.

Lemma valid_beef_on_chain_witness : ∃ b, NewBeefFromBytes good_beef = Some b ∧
  if bool_decide (rs_Confidence (ValidateBEEF tracker1 0 good_beef NewValidator).2 = ConfidenceUnconfirmed)
  then BUMPs b = 0
  else ∀ root h, (root, h) ∈ beef_roots b →
    hi_merkle <$> (info genesis :: [block1_info]) !! Z.to_nat h = Some root.
Proof.
  pose proof (valid_beef_on_chain (Hdr:=raw_header) store1 (info genesis) [block1_info] 0 good_beef
    NewValidator store1_ok) as W. cbv zeta in W. exact (W good_beef_valid).
Defined.

(** Block 170: the coinbase, then the payment of 10 BTC to Hal Finney. *)
Definition coinbase170 : bytes := lit "b1fea52486ce0c62bb442b530a3f0132b826c74e473d1f2c220bfa78111c5082".
Definition payment170 : bytes := lit "f4184fc596403b9d638783cf57adfe4c75c605f6356fbc91338530e9831e9e16".
Definition root170 : bytes := lit "7dac2c5666815c17a3b36427de37bb9d2e2c5ccec3f8633eb91a4205cb4c10ff".
Definition tsc170 : tscProof := MkTsc 1 payment170 [coinbase170].
Definition id170 : bytes := default [] (NewHashFromHex payment170).

Example tsc170_root : hex_encode ∘ @rev byte <$> tsc_root id170 1 [coinbase170] = Some root170.
Proof. vm_compute. reflexivity. Qed.

Lemma tsc_path_keeps_root_witness :
  brc74_root id170 1 (mp_Path (tsc_path tsc170 170)) = tsc_root id170 1 [coinbase170] ∧
  mp_BlockHeight (tsc_path tsc170 170) = 170 ∧ length (mp_Path (tsc_path tsc170 170)) = 1%nat ∧
  (∀ level, head (mp_Path (tsc_path tsc170 170)) = Some level →
     MkElement 1 (Some id170) true false ∈ level).
Proof. refine (tsc_path_keeps_root tsc170 170 id170 _ _); vm_compute; reflexivity. Defined.
