(* ===== verification/Watcher.v ===== *)
(** * The address watcher ([internal/mempool/watcher.go], [internal/api/handlers_mempool.go])

    Transactions that pay a watched address, the outputs of theirs that are
    not spent yet, in memory and in a LevelDB, the subscribers that are told,
    and the HTTP endpoints. The wire format of transactions and the addresses
    are libraries: [WireLib]. Channels are numbered, each a queue of at most
    sixteen hits. *)

From Stdlib Require Import Init.Byte Strings.Byte Strings.String Lia ZArith.
From stdpp Require Import base gmap sets list strings numbers sorting fin_maps.
From S2P Require Import Prelude GoStd LevelDB GoText Http.
Open Scope Z_scope.

Record WatchHit := MkHit {
  wh_TxID : bytes; wh_Vout : Z; wh_Address : bytes; wh_Satoshis : Z; wh_ScriptHex : bytes;
  wh_Timestamp : Z; wh_Spent : bool; wh_SpentBy : bytes
}.

(** go-p2p's [wire.MsgTx], hashes as their text, and go-sdk's addresses. *)
Record WireOut := MkWireOut { wo_Value : Z; wo_PkScript : bytes }.
Record WireIn := MkWireIn { wi_PrevTxid : bytes; wi_PrevIndex : Z }.
Record WireTx := MkWireTx { wt_TxIn : list WireIn; wt_TxOut : list WireOut }.

Class WireLib := {
  Bsvdecode : bytes → option WireTx;
  (** The [PublicKeyHash] of [NewAddressFromString]. *)
  PublicKeyHash : bytes → option bytes
}.

Definition prefixUTXO : bytes := lit "wu:".

Section watcher.
Context `{WireLib} `{JsonCodec WatchHit} {DB : Type} `{LevelDB DB}.

Record Watcher := MkWatcher {
  wa_watches : gmap bytes bytes;
  wa_utxos : gmap bytes bytes;
  wa_subs : gmap bytes (gset nat);
  wa_allCh : gset nat;
  wa_chans : gmap nat (list WatchHit);
  wa_db : option DB;
  wa_hits : Z;
  wa_spends : Z
}.

Definition set_watches (m : gmap bytes bytes) (w : Watcher) : Watcher :=
  MkWatcher m (wa_utxos w) (wa_subs w) (wa_allCh w) (wa_chans w) (wa_db w) (wa_hits w) (wa_spends w).
Definition set_utxos (m : gmap bytes bytes) (w : Watcher) : Watcher :=
  MkWatcher (wa_watches w) m (wa_subs w) (wa_allCh w) (wa_chans w) (wa_db w) (wa_hits w) (wa_spends w).
Definition set_subs (m : gmap bytes (gset nat)) (all : gset nat) (w : Watcher) : Watcher :=
  MkWatcher (wa_watches w) (wa_utxos w) m all (wa_chans w) (wa_db w) (wa_hits w) (wa_spends w).
Definition set_chans (c : gmap nat (list WatchHit)) (w : Watcher) : Watcher :=
  MkWatcher (wa_watches w) (wa_utxos w) (wa_subs w) (wa_allCh w) c (wa_db w) (wa_hits w) (wa_spends w).
Definition set_wdb (db : DB) (w : Watcher) : Watcher :=
  MkWatcher (wa_watches w) (wa_utxos w) (wa_subs w) (wa_allCh w) (wa_chans w) (Some db) (wa_hits w) (wa_spends w).
Definition add_hit (w : Watcher) : Watcher :=
  MkWatcher (wa_watches w) (wa_utxos w) (wa_subs w) (wa_allCh w) (wa_chans w) (wa_db w) (i64 (wa_hits w + 1)) (wa_spends w).
Definition add_spend (w : Watcher) : Watcher :=
  MkWatcher (wa_watches w) (wa_utxos w) (wa_subs w) (wa_allCh w) (wa_chans w) (wa_db w) (wa_hits w) (i64 (wa_spends w + 1)).

(** ** Outputs on disk *)

Definition outpoint_key (txid : bytes) (vout : Z) : bytes := txid ++ lit ":" ++ itoa vout.
Definition hit_key (addr txid : bytes) (vout : Z) : bytes := prefixUTXO ++ addr ++ lit ":" ++ outpoint_key txid vout.

(** A record that does not decode, or is spent, is passed over. *)
Definition load_entry (m : gmap bytes bytes) (kv : bytes * bytes) : gmap bytes bytes :=
  match json_unmarshal (A:=WatchHit) kv.2 with
  | None => m
  | Some hit => if wh_Spent hit then m else <[outpoint_key (wh_TxID hit) (wh_Vout hit) := wh_Address hit]> m
  end.
Definition loadUTXOs (db : DB) : gmap bytes bytes := foldl load_entry ∅ (db_iter db prefixUTXO).1.

Definition NewWatcher (db : option DB) : Watcher :=
  MkWatcher ∅ (from_option loadUTXOs ∅ db) ∅ ∅ ∅ db 0 0.

Definition persist (hit : WatchHit) (w : Watcher) : Watcher :=
  match wa_db w with
  | None => w
  | Some db =>
      match json_marshal hit with
      | None => w
      | Some data => set_wdb (db_put db (hit_key (wh_Address hit) (wh_TxID hit) (wh_Vout hit)) data).1 w
      end
  end.

Definition mark_spent (by_ : bytes) (h : WatchHit) : WatchHit :=
  MkHit (wh_TxID h) (wh_Vout h) (wh_Address h) (wh_Satoshis h) (wh_ScriptHex h) (wh_Timestamp h) true by_.

Definition persistSpend (hit : WatchHit) (w : Watcher) : Watcher :=
  match wa_db w with
  | None => w
  | Some db =>
      let key := hit_key (wh_Address hit) (wh_TxID hit) (wh_Vout hit) in
      match db_get db key with
      | inl _ => w
      | inr existing =>
          match json_unmarshal (A:=WatchHit) existing with
          | None => w
          | Some orig =>
              match json_marshal (mark_spent (wh_SpentBy hit) orig) with
              | None => w
              | Some data => set_wdb (db_put db key data).1 w
              end
          end
      end
  end.

(** ** Addresses *)

Inductive watch_err := WeAddress | WeHash (len : Z).

Definition Add (address : bytes) (w : Watcher) : Watcher * res watch_err unit :=
  match PublicKeyHash address with
  | None => (w, Err WeAddress)
  | Some pkh =>
      if negb (length pkh =? 20)%nat then (w, Err (WeHash (zlen pkh)))
      else (set_watches (<[pkh := address]> (wa_watches w)) w, Ok ())
  end.

Definition Remove (address : bytes) (w : Watcher) : Watcher :=
  match PublicKeyHash address with
  | None => w
  | Some pkh => if negb (length pkh =? 20)%nat then w else set_watches (delete pkh (wa_watches w)) w
  end.

Definition List_ `{MapOrder} (w : Watcher) : list bytes := (map_order (wa_watches w)).*2.
Definition Count (w : Watcher) : Z := Z.of_nat (size (wa_watches w)).
Definition Hits (w : Watcher) : Z := wa_hits w.
Definition Spends (w : Watcher) : Z := wa_spends w.

(** ** Subscribers *)

Definition chan_capacity : nat := 16.

Definition Subscribe (address : bytes) (ch : nat) (w : Watcher) : Watcher :=
  let w := set_chans (<[ch := []]> (wa_chans w)) w in
  if bool_decide (address = []) then set_subs (wa_subs w) ({[ch]} ∪ wa_allCh w) w
  else set_subs (<[address := {[ch]} ∪ default ∅ (wa_subs w !! address)]> (wa_subs w)) (wa_allCh w) w.

Definition unsubscribe (address : bytes) (ch : nat) (w : Watcher) : Watcher :=
  let w := set_chans (delete ch (wa_chans w)) w in
  if bool_decide (address = []) then set_subs (wa_subs w) (wa_allCh w ∖ {[ch]}) w
  else
    let chs := default ∅ (wa_subs w !! address) ∖ {[ch]} in
    set_subs (if bool_decide (chs = ∅) then delete address (wa_subs w) else <[address := chs]> (wa_subs w))
      (wa_allCh w) w.

(** A full channel is skipped. *)
Definition offer (hit : WatchHit) (queue : list WatchHit) : list WatchHit :=
  if (length queue <? chan_capacity)%nat then queue ++ [hit] else queue.
Definition offer_all (hit : WatchHit) (chs : gset nat) (c : gmap nat (list WatchHit)) : gmap nat (list WatchHit) :=
  map_imap (λ ch q, Some (if decide (ch ∈ chs) then offer hit q else q)) c.

Definition notify (hit : WatchHit) (w : Watcher) : Watcher :=
  set_chans (offer_all hit (wa_allCh w)
    (offer_all hit (default ∅ (wa_subs w !! wh_Address hit)) (wa_chans w))) w.

(** ** Transactions *)

Definition p2pkh_prefix : bytes := [x76; xa9; x14].
Definition p2pkh_suffix : bytes := [x88; xac].
Definition extractP2PKHHash160 (s : bytes) : option bytes :=
  if (length s =? 25)%nat && bool_decide (take 3 s = p2pkh_prefix) && bool_decide (drop 23 s = p2pkh_suffix)
  then Some (take 20 (drop 3 s)) else None.

Definition check_output (txid : bytes) (now vout : Z) (out : WireOut) (w : Watcher) : Watcher :=
  match extractP2PKHHash160 (wo_PkScript out) with
  | None => w
  | Some key =>
      match wa_watches w !! key with
      | None => w
      | Some addr =>
          let hit := MkHit txid vout addr (wo_Value out) (hex_encode (wo_PkScript out)) now false [] in
          let w := add_hit w in
          let w := set_utxos (<[outpoint_key txid vout := addr]> (wa_utxos w)) w in
          notify hit (persist hit w)
      end
  end.

Fixpoint check_outputs (txid : bytes) (now vout : Z) (outs : list WireOut) (w : Watcher) : Watcher :=
  match outs with
  | [] => w
  | out :: outs => check_outputs txid now (vout + 1) outs (check_output txid now vout out w)
  end.

Definition check_input (txid : bytes) (now : Z) (w : Watcher) (in_ : WireIn) : Watcher :=
  let utxoKey := outpoint_key (wi_PrevTxid in_) (wi_PrevIndex in_) in
  match wa_utxos w !! utxoKey with
  | None => w
  | Some addr =>
      let w := add_spend w in
      let w := set_utxos (delete utxoKey (wa_utxos w)) w in
      let spendHit := MkHit (wi_PrevTxid in_) (wi_PrevIndex in_) addr 0 [] now true txid in
      notify spendHit (persistSpend spendHit w)
  end.

Definition CheckTx (now : Z) (txid raw : bytes) (w : Watcher) : Watcher :=
  if bool_decide (wa_watches w = ∅) && bool_decide (wa_utxos w = ∅) then w
  else match Bsvdecode raw with
       | None => w
       | Some tx => foldl (check_input txid (unix now)) (check_outputs txid (unix now) 0 (wt_TxOut tx) w) (wt_TxIn tx)
       end.

(** ** History *)

Definition History `{SortSlice} (address : bytes) (limit : Z) (w : Watcher) : list WatchHit :=
  match wa_db w with
  | None => []
  | Some db =>
      let hits := omap (λ kv, json_unmarshal kv.2) (db_iter db (prefixUTXO ++ address ++ lit ":")).1 in
      let hits := sort_slice (λ a b, wh_Timestamp b <? wh_Timestamp a) hits in
      if (0 <? limit) && (limit <? Z.of_nat (length hits)) then take (Z.to_nat limit) hits else hits
  end.

(** ** The endpoints ([handlers_mempool.go])

    [decode_addresses] reads the [addresses] of a request; the texts are those
    of the errors. *)
Context (decode_addresses : bytes → option (list bytes)) (json_text : bytes → bytes)
        (watch_text : bytes → watch_err → bytes).

Definition watcher_unavailable : Response :=
  writeError StatusServiceUnavailable (lit "mempool watcher not enabled").
Definition kib64 : nat := Z.to_nat (2 ^ 16).

Fixpoint add_all (addrs : list bytes) (w : Watcher) (added failed : Z) (errors : list bytes)
    : Watcher * (Z * Z * list bytes) :=
  match addrs with
  | [] => (w, (added, failed, errors))
  | addr :: addrs =>
      match Add addr w with
      | (w, Ok _) => add_all addrs w (added + 1) failed errors
      | (w, Err e) => add_all addrs w added (failed + 1) (errors ++ [watch_text addr e])
      | (w, Panic) => add_all addrs w added failed errors
      end
  end.

(** The addresses of the body, or the answer that there are none to be had. *)
Definition read_addresses (r : Request) : Response + list bytes :=
  let body := read_limited kib64 r in
  match decode_addresses body with
  | None => inl (writeError StatusBadRequest (lit "invalid JSON: " ++ json_text body))
  | Some addrs => inr addrs
  end.

Definition handleAddWatch : Handler (option Watcher) := λ r st,
  match st with
  | None => answer watcher_unavailable r st
  | Some w =>
      match read_addresses r with
      | inl e => answer e r st
      | inr [] => answer (writeError StatusBadRequest (lit "addresses array required")) r st
      | inr addrs =>
          let '(w, (added, failed, errors)) := add_all addrs w 0 0 [] in
          answer (writeJSON StatusOK (JObj
            [(lit "added", JNum added); (lit "failed", JNum failed);
             (lit "errors", jslice (JStr <$> errors)); (lit "watching", JNum (Count w))])) r (Some w)
      end
  end.

Definition handleRemoveWatch : Handler (option Watcher) := λ r st,
  match st with
  | None => answer watcher_unavailable r st
  | Some w =>
      match read_addresses r with
      | inl e => answer e r st
      | inr addrs =>
          let w := foldl (λ w addr, Remove addr w) w addrs in
          answer (writeJSON StatusOK (JObj
            [(lit "removed", JNum (Z.of_nat (length addrs))); (lit "watching", JNum (Count w))])) r (Some w)
      end
  end.

Definition handleListWatch `{MapOrder} : Handler (option Watcher) := λ r st,
  match st with
  | None => answer watcher_unavailable r st
  | Some w =>
      answer (writeJSON StatusOK (JObj
        [(lit "addresses", JArr (JStr <$> List_ w)); (lit "count", JNum (Count w));
         (lit "hits", JNum (Hits w)); (lit "spends", JNum (Spends w))])) r st
  end.

(** The [limit] parameter: 50 unless it is a number from 1 to 500. *)
Definition history_limit (r : Request) : Z :=
  let limit := default 50 (sscanf_d (query_param r (lit "limit"))) in
  if (limit <=? 0) || (500 <? limit) then 50 else limit.

Definition handleWatchHistory `{SortSlice} : Handler (option Watcher) := λ r st,
  match st with
  | None => answer watcher_unavailable r st
  | Some w =>
      let address := query_param r (lit "address") in
      if bool_decide (address = []) then
        answer (writeError StatusBadRequest (lit "address query parameter required")) r st
      else
        let hits := History address (history_limit r) w in
        answer (writeJSON StatusOK (JObj
          [(lit "address", JStr address); (lit "hits", jslice ((λ h, JRaw (default [] (json_marshal h))) <$> hits));
           (lit "count", JNum (Z.of_nat (length hits)))])) r st
  end.

(** One turn of [handleWatchSubscribe]: the next hit of the stream's channel
    as an event, unless it cannot be encoded. *)
Definition watch_stream_step (ch : nat) (seq : Z) (w : Watcher) : Watcher * Z * option bytes :=
  match wa_chans w !! ch with
  | Some (hit :: queue) =>
      let w := set_chans (<[ch := queue]> (wa_chans w)) w in
      match json_marshal hit with
      | None => (w, seq, None)
      | Some data =>
          let seq := i64 (seq + 1) in
          (w, seq, Some (lit "id: " ++ itoa seq ++ [x0a] ++ lit "data: " ++ data ++ [x0a; x0a]))
      end
  | _ => (w, seq, None)
  end.
End watcher.
