(* ===== verification/WatcherProps.v ===== *)
(** * What the address watcher guarantees

    The outputs the watcher keeps in memory are those of an abstract ledger of
    watched outputs, and those its database gives back after a restart. *)

From Stdlib Require Import Init.Byte Strings.Byte Strings.String Lia ZArith.
From stdpp Require Import base gmap sets list strings numbers sorting fin_maps.
From S2P Require Import Prelude GoStd LevelDB GoText Http Watcher.
Open Scope Z_scope.

(** ** Keys *)

Lemma outpoint_key_inj t v t' v' : outpoint_key t v = outpoint_key t' v' → t = t' ∧ v = v'.
Proof. intros [-> ->%itoa_inj]%app_last_sep_inj; auto using itoa_no_colon. Qed.

Lemma hit_key_inj a t v a' t' v' : x3a ∉ a → x3a ∉ a' →
  hit_key a t v = hit_key a' t' v' → a = a' ∧ t = t' ∧ v = v'.
Proof.
  intros Ha Ha' E. unfold hit_key in E. apply (inj (prefixUTXO ++.)) in E.
  assert (split2 x3a (a ++ [x3a] ++ outpoint_key t v) = split2 x3a (a' ++ [x3a] ++ outpoint_key t' v')) as Es
    by (f_equal; exact E).
  rewrite !split2_app in Es by done. injection Es as -> [-> ->]%outpoint_key_inj. done.
Qed.

(** ** The contract of the libraries *)

(** A hit of ASCII texts, as the watcher makes them. *)
Definition hit_plain (h : WatchHit) : Prop :=
  is_ascii (wh_TxID h) = true ∧ is_ascii (wh_Address h) = true ∧ is_ascii (wh_SpentBy h) = true ∧
  ∃ b, wh_ScriptHex h = hex_encode b.

(** Hits survive JSON, and an address is text in base58. *)
Class WatchLaws `{WireLib} `{JsonCodec WatchHit} : Prop := {
  hit_codec h : hit_plain h → ∃ d, json_marshal h = Some d ∧ json_unmarshal d = Some h;
  address_text a h : PublicKeyHash a = Some h → is_ascii a = true ∧ x3a ∉ a
}.

Section watcher.
Context `{WatchLaws} {DB : Type} `{LevelDBLaws DB, !LevelDBReliable DB}.

(** The transactions there are, by id, and the network whose addresses are
    watched: an address form that one hash has at most one of. *)
Context (tx_of : bytes → option WireTx) (net : bytes → bool).
Hypothesis net_inj : ∀ a b h, net a = true → net b = true →
  PublicKeyHash a = Some h → PublicKeyHash b = Some h → a = b.

(** Output [vout] of transaction [txid] pays [addr]. *)
Definition pays (txid : bytes) (vout : Z) (addr : bytes) : Prop := ∃ tx out h,
  tx_of txid = Some tx ∧ 0 ≤ vout ∧ wt_TxOut tx !! Z.to_nat vout = Some out ∧
  extractP2PKHHash160 (wo_PkScript out) = Some h ∧ PublicKeyHash addr = Some h ∧ net addr = true.

Lemma pays_functional txid vout a b : pays txid vout a → pays txid vout b → a = b.
Proof. intros (?&?&?&?&?&?&?&?&?) (?&?&?&?&?&?&?&?&?). simplify_eq. by eapply net_inj. Qed.

Definition recorded (m : gmap bytes bytes) (key : bytes) (hit : WatchHit) : Prop :=
  prefixUTXO `prefix_of` key ∧ ∃ v, m !! key = Some v ∧ json_unmarshal v = Some hit.

Definition hit_point (h : WatchHit) : bytes := outpoint_key (wh_TxID h) (wh_Vout h).

(** The database holds outputs that pay addresses of the network, each under
    its own key; those not spent are the ones in memory. *)
Record disk_ok (m : gmap bytes bytes) : Prop := {
  dk_decode key v : m !! key = Some v → prefixUTXO `prefix_of` key → ∃ hit, json_unmarshal v = Some hit;
  dk_record key hit : recorded m key hit → hit_plain hit ∧
    key = hit_key (wh_Address hit) (wh_TxID hit) (wh_Vout hit) ∧
    pays (wh_TxID hit) (wh_Vout hit) (wh_Address hit)
}.
Definition memory_is (m : gmap bytes bytes) (utxos : gmap bytes bytes) : Prop := ∀ k a,
  utxos !! k = Some a ↔ ∃ key hit, recorded m key hit ∧ wh_Spent hit = false ∧ hit_point hit = k ∧ wh_Address hit = a.

Record watch_inv (w : Watcher (DB:=DB)) (db : DB) : Prop := {
  wi_db : wa_db w = Some db;
  wi_disk : disk_ok (db_view db);
  wi_memory : memory_is (db_view db) (wa_utxos w);
  wi_watches h a : wa_watches w !! h = Some a → PublicKeyHash a = Some h ∧ net a = true
}.

(** ** A restart *)

Lemma foldl_load l k a :
  (∀ k1 v1 k2 v2 h1 h2, (k1, v1) ∈ l → (k2, v2) ∈ l → json_unmarshal v1 = Some h1 → json_unmarshal v2 = Some h2 →
     wh_Spent h1 = false → wh_Spent h2 = false → hit_point h1 = hit_point h2 → wh_Address h1 = wh_Address h2) →
  foldl load_entry ∅ l !! k = Some a ↔
  ∃ key v hit, (key, v) ∈ l ∧ json_unmarshal v = Some hit ∧ wh_Spent hit = false ∧ hit_point hit = k ∧ wh_Address hit = a.
Proof.
  induction l as [|[key v] l IH] using rev_ind; intros Hc.
  { cbn. rewrite lookup_empty. split; [done|]. intros (?&?&?&Hin&_). by apply not_elem_of_nil in Hin. }
  assert (foldl load_entry ∅ l !! k = Some a ↔ ∃ key v hit, (key, v) ∈ l ∧ json_unmarshal v = Some hit ∧
    wh_Spent hit = false ∧ hit_point hit = k ∧ wh_Address hit = a) as IH'.
  { apply IH. intros k1 v1 k2 v2 h1 h2 I1 I2. apply (Hc k1 v1 k2 v2 h1 h2); set_solver. }
  rewrite foldl_snoc. unfold load_entry at 1. cbn [snd].
  destruct (json_unmarshal v) as [hit|] eqn:Ev.
  2: { rewrite IH'. split.
       - intros (k1&v1&h1&?&?). exists k1, v1, h1. split; [set_solver|done].
       - intros (k1&v1&h1&[?|Eq]%elem_of_app&E1&?); [by exists k1, v1, h1|].
         apply list_elem_of_singleton in Eq. by simplify_eq. }
  destruct (wh_Spent hit) eqn:Es.
  { rewrite IH'. split.
    - intros (k1&v1&h1&?&?). exists k1, v1, h1. split; [set_solver|done].
    - intros (k1&v1&h1&[?|Eq]%elem_of_app&E1&?); [by exists k1, v1, h1|].
      apply list_elem_of_singleton in Eq. destruct_and!. simplify_eq. congruence. }
  fold (hit_point hit). destruct (decide (hit_point hit = k)) as [<-|Hk].
  - rewrite lookup_insert_eq. split.
    + intros [= <-]. exists key, v, hit. split; [set_solver|done].
    + intros (k1&v1&h1&Hin&E1&S1&P1&<-). f_equal. eapply (Hc key v k1 v1); try done. set_solver.
  - rewrite lookup_insert_ne, IH' by done. split.
    + intros (k1&v1&h1&?&?). exists k1, v1, h1. split; [set_solver|done].
    + intros (k1&v1&h1&[?|Eq]%elem_of_app&E1&?); [by exists k1, v1, h1|].
      apply list_elem_of_singleton in Eq. destruct_and!. simplify_eq.
Qed.

Lemma load_memory db utxos : disk_ok (db_view db) → memory_is (db_view db) utxos → loadUTXOs db = utxos.
Proof.
  intros [Hd Hr] Hm. apply map_eq. intros k. apply option_eq. intros a. rewrite (Hm k a).
  unfold loadUTXOs. destruct (db_iter db prefixUTXO) as [l o] eqn:El. cbn [fst].
  assert (o = None) as -> by (pose proof (db_iter_total db prefixUTXO) as E; by rewrite El in E).
  assert (∀ key hit, (∃ v, (key, v) ∈ l ∧ json_unmarshal v = Some hit) ↔ recorded (db_view db) key hit) as Hl.
  { intros key hit. unfold recorded. setoid_rewrite (db_iter_elem _ _ _ _ _ El). naive_solver. }
  rewrite foldl_load.
  - split.
    + intros (key&v&hit&?&?&?&?&?). exists key, hit. split; [apply Hl; eauto|done].
    + intros (key&hit&(v&?&?)%Hl&?). exists key, v, hit. done.
  - intros k1 v1 k2 v2 h1 h2 I1 I2 E1 E2 _ _ Ep. apply outpoint_key_inj in Ep as [Et Ev].
    destruct (Hr k1 h1) as (_&_&P1); [apply Hl; eauto|]. destruct (Hr k2 h2) as (_&_&P2); [apply Hl; eauto|].
    rewrite Et, Ev in P1. by eapply pays_functional.
Qed.

(** ** One record written *)

Lemma put_recorded m key d hit key' hit' : json_unmarshal d = Some hit → prefixUTXO `prefix_of` key →
  recorded (<[key := d]> m) key' hit' ↔ (key' = key ∧ hit' = hit) ∨ (key' ≠ key ∧ recorded m key' hit').
Proof.
  intros Hd Hp. unfold recorded. destruct (decide (key' = key)) as [->|Hk].
  - rewrite lookup_insert_eq. naive_solver.
  - rewrite lookup_insert_ne by done. naive_solver.
Qed.

Lemma hit_key_prefix a t v : prefixUTXO `prefix_of` hit_key a t v.
Proof. unfold hit_key. by eexists. Qed.

Lemma put_disk m d hit : disk_ok m → json_unmarshal d = Some hit → hit_plain hit →
  pays (wh_TxID hit) (wh_Vout hit) (wh_Address hit) →
  disk_ok (<[hit_key (wh_Address hit) (wh_TxID hit) (wh_Vout hit) := d]> m).
Proof.
  intros [Hd Hr] Hj Hpl Hpay. split.
  - intros key v. destruct (decide (key = hit_key (wh_Address hit) (wh_TxID hit) (wh_Vout hit))) as [->|Hk].
    + rewrite lookup_insert_eq. naive_solver.
    + rewrite lookup_insert_ne by done. apply Hd.
  - intros key hit'. rewrite (put_recorded _ _ _ _ _ _ Hj) by apply hit_key_prefix.
    intros [[-> ->]|[_ ?]]; [done|by apply Hr].
Qed.

Lemma pays_no_colon t v a : pays t v a → x3a ∉ a.
Proof. intros (?&?&?&?&?&?&?&E&?). by apply address_text in E as []. Qed.

(** Two records of one output are one record. *)
Lemma same_point m key1 h1 h2 : disk_ok m → recorded m key1 h1 → pays (wh_TxID h2) (wh_Vout h2) (wh_Address h2) →
  hit_point h1 = hit_point h2 →
  key1 = hit_key (wh_Address h2) (wh_TxID h2) (wh_Vout h2) ∧ wh_Address h1 = wh_Address h2.
Proof.
  intros Hok R P2 [Et Ev]%outpoint_key_inj. destruct (dk_record _ Hok _ _ R) as (_ & -> & P1).
  rewrite Et, Ev in *. rewrite (pays_functional _ _ _ _ P1 P2). done.
Qed.

Lemma other_key m key1 h1 h2 : disk_ok m → recorded m key1 h1 → pays (wh_TxID h2) (wh_Vout h2) (wh_Address h2) →
  hit_point h1 ≠ hit_point h2 → key1 ≠ hit_key (wh_Address h2) (wh_TxID h2) (wh_Vout h2).
Proof.
  intros Hok R P2 Hn E. destruct (dk_record _ Hok _ _ R) as (_ & -> & P1).
  apply hit_key_inj in E as (_ & Et & Ev); [|by eapply pays_no_colon..].
  apply Hn. unfold hit_point. by rewrite Et, Ev.
Qed.

(** Writing the record of an output moves the memory with the disk. *)
Lemma put_memory m utxos d hit : disk_ok m → memory_is m utxos → json_unmarshal d = Some hit →
  pays (wh_TxID hit) (wh_Vout hit) (wh_Address hit) →
  memory_is (<[hit_key (wh_Address hit) (wh_TxID hit) (wh_Vout hit) := d]> m)
    (if wh_Spent hit then delete (hit_point hit) utxos else <[hit_point hit := wh_Address hit]> utxos).
Proof.
  intros Hok Hm Hj Hp k a. setoid_rewrite (put_recorded m _ d hit _ _ Hj (hit_key_prefix _ _ _)).
  destruct (decide (k = hit_point hit)) as [->|Hk].
  - trans (wh_Spent hit = false ∧ wh_Address hit = a).
    { destruct (wh_Spent hit); [rewrite lookup_delete_eq|rewrite lookup_insert_eq]; naive_solver. }
    split.
    + intros [Hs <-]. exists (hit_key (wh_Address hit) (wh_TxID hit) (wh_Vout hit)), hit. naive_solver.
    + intros (key' & hit' & [[-> ->]|[Hne R]] & Hs & Hpt & Ha); [done|].
      by destruct (same_point _ _ _ _ Hok R Hp Hpt) as [-> _].
  - assert ((if wh_Spent hit then delete (hit_point hit) utxos
             else <[hit_point hit := wh_Address hit]> utxos) !! k = utxos !! k) as ->.
    { destruct (wh_Spent hit); [by rewrite lookup_delete_ne|by rewrite lookup_insert_ne]. }
    rewrite (Hm k a). split.
    + intros (key' & hit' & R & Hs & Hpt & Ha). exists key', hit'. split_and!; try done. right.
      split; [|done]. eapply other_key; try done. congruence.
    + intros (key' & hit' & [[-> ->]|[Hne R]] & Hs & Hpt & Ha); [done|]. by exists key', hit'.
Qed.

(** ** One output, one input *)

Lemma notify_inv hit w db : watch_inv w db → watch_inv (notify hit w) db.
Proof. by intros []. Qed.

Lemma put_view (db db' : DB) k d o : db_put db k d = (db', o) → db_view db' = <[k := d]> (db_view db).
Proof.
  intros E. pose proof (db_put_total db k d) as T. rewrite E in T. simpl in T. subst o. by apply db_put_ok in E.
Qed.

Lemma check_output_spec txid now tx i out w db :
  watch_inv w db → tx_of txid = Some tx → is_ascii txid = true → wt_TxOut tx !! i = Some out →
  let w' := check_output txid now (Z.of_nat i) out w in
  ∃ db', watch_inv w' db' ∧ wa_watches w' = wa_watches w ∧ ∀ k a, wa_utxos w' !! k = Some a ↔
    (k = outpoint_key txid (Z.of_nat i) ∧ extractP2PKHHash160 (wo_PkScript out) ≫= (wa_watches w !!.) = Some a) ∨
    wa_utxos w !! k = Some a.
Proof.
  intros I Ht Ha Ho. unfold check_output.
  destruct (extractP2PKHHash160 (wo_PkScript out)) as [h|] eqn:Eh; [|exists db; naive_solver]. cbn [mbind option_bind].
  destruct (wa_watches w !! h) as [addr|] eqn:Ew; [|exists db; naive_solver].
  destruct I as [Hdb Hok Hm Hw]. destruct (Hw _ _ Ew) as [Hpk Hn].
  set (hit := MkHit txid (Z.of_nat i) addr (wo_Value out) (hex_encode (wo_PkScript out)) now false []).
  assert (pays (wh_TxID hit) (wh_Vout hit) (wh_Address hit)) as Hp.
  { exists tx, out, h. cbn. rewrite Nat2Z.id. split_and!; [done|lia|done..]. }
  assert (hit_plain hit) as Hpl.
  { split_and!; cbn; [done|by apply address_text in Hpk as []|done|by eexists]. }
  destruct (hit_codec hit Hpl) as (d & Hd & Hj). unfold persist. cbn [wa_db set_utxos add_hit]. rewrite Hdb, Hd.
  destruct (db_put db _ d) as [db' o] eqn:Ep. apply put_view in Ep. cbn [fst]. exists db'. split; [|split].
  - apply notify_inv. split; cbn; [done|..].
    + rewrite Ep. by apply (put_disk _ _ hit).
    + rewrite Ep. exact (put_memory _ _ d hit Hok Hm Hj Hp).
    + exact Hw.
  - done.
  - intros k a. cbn. destruct (decide (outpoint_key txid (Z.of_nat i) = k)) as [<-|Hk].
    + rewrite lookup_insert_eq. split; [naive_solver|]. intros [[_ E]|E]; [done|].
      apply Hm in E as (key & h' & R & _ & Hpt & <-).
      by destruct (same_point _ _ _ hit Hok R Hp Hpt) as [_ ->].
    + rewrite lookup_insert_ne by done. naive_solver.
Qed.

Lemma check_input_spec txid now in_ w db :
  watch_inv w db → is_ascii txid = true →
  let w' := check_input txid now w in_ in
  ∃ db', watch_inv w' db' ∧ wa_watches w' = wa_watches w ∧
    wa_utxos w' = delete (outpoint_key (wi_PrevTxid in_) (wi_PrevIndex in_)) (wa_utxos w).
Proof.
  intros I Ha. unfold check_input. set (k := outpoint_key _ _).
  destruct (wa_utxos w !! k) as [addr|] eqn:Eu; [|exists db; by rewrite delete_id].
  destruct I as [Hdb Hok Hm Hw]. apply Hm in Eu as (key & hit & R & Hs & Hpt & <-).
  destruct (dk_record _ Hok _ _ R) as (Hpl & -> & Hp). apply outpoint_key_inj in Hpt as [Et Ev].
  destruct R as (Hpre & v & Hv & Hj). unfold persistSpend. cbn [wa_db set_utxos add_spend wh_Address wh_TxID wh_Vout wh_SpentBy].
  rewrite Hdb, <- Et, <- Ev, db_get_total, Hv, Hj.
  set (hit' := mark_spent txid hit). assert (hit_plain hit') as Hpl'.
  { destruct Hpl as (?&?&?&?). split_and!; done. }
  destruct (hit_codec hit' Hpl') as (d & Hd & Hj'). rewrite Hd.
  destruct (db_put db _ d) as [db' o] eqn:Ep. apply put_view in Ep. cbn [fst]. exists db'. split; [|split; [done|]].
  - apply notify_inv. split; cbn; [done|..].
    + rewrite Ep. by apply (put_disk _ _ hit').
    + rewrite Ep. subst k. rewrite <- Et, <- Ev. exact (put_memory _ _ d hit' Hok Hm Hj' Hp).
    + exact Hw.
  - subst k. by rewrite <- Et, <- Ev.
Qed.

(** ** A transaction *)

(** Outputs of [txid] that pay a watched address, and outputs [tx] spends. *)
Definition new_output (w : Watcher (DB:=DB)) (txid : bytes) (tx : WireTx) (k a : bytes) : Prop :=
  ∃ i out h, wt_TxOut tx !! i = Some out ∧ extractP2PKHHash160 (wo_PkScript out) = Some h ∧
    wa_watches w !! h = Some a ∧ k = outpoint_key txid (Z.of_nat i).
Definition spends (tx : WireTx) (k : bytes) : Prop :=
  ∃ in_, in_ ∈ wt_TxIn tx ∧ k = outpoint_key (wi_PrevTxid in_) (wi_PrevIndex in_).

Lemma check_outputs_spec txid now tx outs i w db :
  (∀ j out, outs !! j = Some out → wt_TxOut tx !! (i + j)%nat = Some out) →
  watch_inv w db → tx_of txid = Some tx → is_ascii txid = true →
  let w' := check_outputs txid now (Z.of_nat i) outs w in
  ∃ db', watch_inv w' db' ∧ wa_watches w' = wa_watches w ∧ ∀ k a, wa_utxos w' !! k = Some a ↔
    (∃ j out, outs !! j = Some out ∧ k = outpoint_key txid (Z.of_nat (i + j)) ∧
       extractP2PKHHash160 (wo_PkScript out) ≫= (wa_watches w !!.) = Some a) ∨ wa_utxos w !! k = Some a.
Proof.
  revert i w db. induction outs as [|out outs IH]; intros i w db Hs I Ht Ha; cbn [check_outputs].
  { exists db. split_and!; [done..|]. intros k a. split; [by right|]. intros [(?&?&?&_)|]; done. }
  pose proof (Hs 0%nat out eq_refl) as Ho. rewrite Nat.add_0_r in Ho.
  destruct (check_output_spec txid now tx i out w db I Ht Ha Ho) as (db1 & I1 & Hw1 & Hu1).
  destruct (IH (S i) (check_output txid now (Z.of_nat i) out w) db1) as (db2 & I2 & Hw2 & Hu2); [|done..|].
  { intros j out' Hj. rewrite Nat.add_succ_comm. by apply Hs. }
  replace (Z.of_nat i + 1) with (Z.of_nat (S i)) by lia.
  exists db2. split; [done|]. split; [congruence|]. intros k a. rewrite Hu2, Hu1, Hw1. split.
  - intros [(j & out' & Hj & -> & Hx)|[[-> Hx]|Hk]]; [| |by right].
    + left. exists (S j), out'. by rewrite Nat.add_succ_r.
    + left. exists 0%nat, out. by rewrite Nat.add_0_r.
  - intros [([|j] & out' & Hj & -> & Hx)|Hk]; [| |by right; right].
    + right. left. simplify_eq/=. by rewrite Nat.add_0_r.
    + left. exists j, out'. by rewrite Nat.add_succ_r.
Qed.

Lemma check_inputs_spec txid now ins w db :
  watch_inv w db → is_ascii txid = true →
  let w' := foldl (check_input txid now) w ins in
  ∃ db', watch_inv w' db' ∧ wa_watches w' = wa_watches w ∧ ∀ k a, wa_utxos w' !! k = Some a ↔
    ¬ (∃ in_, in_ ∈ ins ∧ k = outpoint_key (wi_PrevTxid in_) (wi_PrevIndex in_)) ∧ wa_utxos w !! k = Some a.
Proof.
  revert w db. induction ins as [|in_ ins IH]; intros w db I Ha; cbn [foldl].
  { exists db. split_and!; [done..|]. intros k a. split; [|by intros []].
    intros Hk. split; [|done]. intros (in_ & Hin & _). by apply not_elem_of_nil in Hin. }
  destruct (check_input_spec txid now in_ w db I Ha) as (db1 & I1 & Hw1 & Hu1).
  destruct (IH _ db1 I1 Ha) as (db2 & I2 & Hw2 & Hu2).
  exists db2. split; [done|]. split; [congruence|]. intros k a. rewrite Hu2, Hu1, lookup_delete_Some.
  split.
  - intros (Hn & Hne & Hk). split; [|done]. intros (x & [->|Hx]%elem_of_cons & ->); [done|]. apply Hn. by exists x.
  - intros (Hn & Hk). split_and!; [|intros <-|done].
    + intros (x & Hx & ->). apply Hn. exists x. split; [by right|done].
    + apply Hn. exists in_. split; [by left|done].
Qed.

Lemma CheckTx_spec w db now txid raw tx :
  watch_inv w db → tx_of txid = Some tx → Bsvdecode raw = Some tx → is_ascii txid = true →
  ∃ db', watch_inv (CheckTx now txid raw w) db' ∧
    (∀ k a, wa_utxos (CheckTx now txid raw w) !! k = Some a ↔
       ¬ spends tx k ∧ (new_output w txid tx k a ∨ wa_utxos w !! k = Some a)).
Proof.
  intros I Ht Hd Ha. unfold CheckTx. destruct (_ && _) eqn:E.
  - apply andb_prop in E as [E1%bool_decide_eq_true E2%bool_decide_eq_true].
    exists db. split; [done|]. intros k a. unfold new_output. rewrite E1, E2, lookup_empty. split; [done|].
    intros [_ [(i & out & h & _ & _ & Hh & _)|]]; [by rewrite lookup_empty in Hh|done].
  - rewrite Hd. destruct (check_outputs_spec txid (unix now) tx (wt_TxOut tx) 0 w db) as (db1 & I1 & Hw1 & Hu1); [done..|].
    destruct (check_inputs_spec txid (unix now) (wt_TxIn tx) _ db1 I1 Ha) as (db2 & I2 & Hw2 & Hu2).
    exists db2. split; [done|]. intros k a. rewrite Hu2, Hu1. unfold spends, new_output. f_equiv. f_equiv.
    setoid_rewrite bind_Some. naive_solver.
Qed.

Lemma restart_utxos w db : watch_inv w db → wa_utxos (NewWatcher (Some db)) = wa_utxos w.
Proof. intros [_ Hok Hm _]. by apply load_memory. Qed.

(** C6: the outputs kept are those of an abstract ledger: a transaction
    removes the watched outputs it spends and adds its own that pay a watched
    address, and nothing else; and the database follows, so that a watcher
    started from it has exactly these outputs. *)
Theorem CheckTx_refines w db now txid raw tx :
  watch_inv w db → tx_of txid = Some tx → Bsvdecode raw = Some tx → is_ascii txid = true →
  let w' := CheckTx now txid raw w in
  ∃ db', watch_inv w' db' ∧
    (∀ k a, wa_utxos w' !! k = Some a ↔ ¬ spends tx k ∧ (new_output w txid tx k a ∨ wa_utxos w !! k = Some a)) ∧
    wa_utxos (NewWatcher (Some db')) = wa_utxos w'.
Proof.
  intros I Ht Hd Ha. destruct (CheckTx_spec w db now txid raw tx I Ht Hd Ha) as (db' & I' & Hu').
  exists db'. split_and!; [done..|by apply restart_utxos].
Qed.

(** ** Everything that happens to a watcher *)

Inductive watch_step : relation (Watcher (DB:=DB)) :=
  | ws_add a w w' r : net a = true → Add a w = (w', r) → watch_step w w'
  | ws_remove a w : watch_step w (Remove a w)
  | ws_subscribe a ch w : watch_step w (Subscribe a ch w)
  | ws_unsubscribe a ch w : watch_step w (unsubscribe a ch w)
  | ws_tx now txid raw w : Bsvdecode raw = tx_of txid → is_ascii txid = true → watch_step w (CheckTx now txid raw w)
  | ws_restart w db : wa_db w = Some db → watch_step w (NewWatcher (Some db)).

Lemma watch_step_inv w w' db : watch_inv w db → watch_step w w' → ∃ db', watch_inv w' db'.
Proof.
  intros I Hs. destruct Hs as [a w w' r Hn HA|a w|a ch w|a ch w|now txid raw w Hd Ha|w db' Hdb].
  - exists db. unfold Add in HA. destruct (PublicKeyHash a) as [pkh|] eqn:Ep; [|by simplify_eq].
    destruct (negb _); simplify_eq; [done|]. destruct I as [I1 I2 I3 I4]. split; try done. cbn.
    intros h b. rewrite lookup_insert_Some. naive_solver.
  - exists db. unfold Remove. repeat case_match; try done. destruct I as [I1 I2 I3 I4]. split; try done.
    cbn. intros h b [_ Hh]%lookup_delete_Some. by apply I4.
  - exists db. unfold Subscribe. destruct I as [I1 I2 I3 I4]. by case_match.
  - exists db. unfold unsubscribe. destruct I as [I1 I2 I3 I4]. by case_match.
  - destruct (tx_of txid) as [tx|] eqn:Et.
    + destruct (CheckTx_spec w db now txid raw tx I Et Hd Ha) as (db' & ? & _). by exists db'.
    + exists db. unfold CheckTx. rewrite Hd. by case_match.
  - rewrite (wi_db _ _ I) in Hdb. injection Hdb as <-. exists db. pose proof (restart_utxos _ _ I) as E.
    destruct I as [I1 I2 I3 I4]. split; [done..|by rewrite E|].
    intros h a Hh. cbn in Hh. by rewrite lookup_empty in Hh.
Qed.

Lemma watch_start db : db_view db = ∅ → watch_inv (NewWatcher (Some db)) db.
Proof.
  intros E. assert (disk_ok (db_view db)) as Hok.
  { rewrite E. split; [intros ?? Hk; by rewrite lookup_empty in Hk|].
    intros ?? (_ & v & Hk & _). by rewrite lookup_empty in Hk. }
  assert (memory_is (db_view db) ∅) as Hm.
  { intros k a. rewrite E, lookup_empty. split; [done|]. intros (?&?&(_&v&Hk&_)&_). by rewrite lookup_empty in Hk. }
  split; [done|done| |intros ?? Hh; cbn in Hh; by rewrite lookup_empty in Hh].
  cbn. by rewrite (load_memory _ _ Hok Hm).
Qed.

(** Whatever a watcher on a working disk is asked to do, its database
    holds what it needs: restarted at any moment it has the outputs it had,
    and every one of them is an output of a transaction that pays an address
    of the network. *)
Theorem watcher_restart db0 w : db_view db0 = ∅ → rtc watch_step (NewWatcher (Some db0)) w →
  ∃ db, wa_db w = Some db ∧ wa_utxos (NewWatcher (Some db)) = wa_utxos w ∧
    ∀ k a, wa_utxos w !! k = Some a → ∃ txid vout, k = outpoint_key txid vout ∧ pays txid vout a.
Proof.
  intros E Hr. assert (∃ db, watch_inv w db) as [db I].
  { pose proof (watch_start _ E) as I0. remember (NewWatcher (Some db0)) as w0 eqn:Ew. clear Ew E.
    revert db0 I0. induction Hr as [w|w1 w2 w3 Hs _ IH]; intros db0 I0; [by exists db0|].
    destruct (watch_step_inv _ _ _ I0 Hs) as [db1 I1]. by eapply IH. }
  exists db. split_and!; [apply I|by apply restart_utxos|].
  intros k a (key & hit & R & _ & <- & <-)%(wi_memory _ _ I).
  exists (wh_TxID hit), (wh_Vout hit). split; [done|]. by apply (dk_record _ (wi_disk _ _ I) _ _ R).
Qed.
End watcher.
