(* ===== verification/WatcherRuns.v ===== *)
(** * The address watcher at concrete transactions

    A small wire format and address form, and a watched address that is paid,
    whose output is spent, and whose funding transaction is then announced
    again. *)

From Stdlib Require Import Init.Byte Strings.Byte Strings.String Lia ZArith.
From stdpp Require Import base gmap sets list strings numbers sorting fin_maps.
From S2P Require Import Prelude GoStd LevelDB GoText Http Watcher WatcherProps.
Open Scope Z_scope.

Definition in_field (i : WireIn) : bytes := frame [wi_PrevTxid i; z_field (wi_PrevIndex i)].
Definition field_in (b : bytes) : option WireIn :=
  l ← unframe b []; match l with [t; v] => v ← field_z v; Some (MkWireIn t v) | _ => None end.
Definition out_field (o : WireOut) : bytes := frame [z_field (wo_Value o); wo_PkScript o].
Definition field_out (b : bytes) : option WireOut :=
  l ← unframe b []; match l with [v; s] => v ← field_z v; Some (MkWireOut v s) | _ => None end.
Definition wire_print (tx : WireTx) : bytes :=
  frame [list_field in_field (wt_TxIn tx); list_field out_field (wt_TxOut tx)].
Definition wire_parse (b : bytes) : option WireTx :=
  l ← unframe b [];
  match l with
  | [i; o] => i ← field_list field_in i; o ← field_list field_out o; Some (MkWireTx i o)
  | _ => None
  end.

(** An address is its hash: 20 ASCII characters without a colon. *)
#[export] Instance toy_wire : WireLib := {
  Bsvdecode := wire_parse;
  PublicKeyHash a := if (length a =? 20)%nat && is_ascii a && bool_decide (x3a ∉ a) then Some a else None
}.

Definition hit_fields (h : WatchHit) : list bytes :=
  [wh_TxID h; z_field (wh_Vout h); wh_Address h; z_field (wh_Satoshis h); wh_ScriptHex h;
   z_field (wh_Timestamp h); bool_field (wh_Spent h); wh_SpentBy h].
Definition fields_hit (l : list bytes) : option WatchHit :=
  match l with
  | [t; v; a; s; c; n; p; b] =>
      v ← field_z v; s ← field_z s; n ← field_z n; Some (MkHit t v a s c n (field_bool p) b)
  | _ => None
  end.
#[export] Instance hit_json : JsonCodec WatchHit := frame_codec hit_fields fields_hit id.

Lemma fields_hit_fields h : fields_hit (hit_fields h) = Some h.
Proof.
  destruct h. cbn -[z_field field_z bool_field field_bool].
  rewrite !field_z_field. cbn -[bool_field field_bool]. by rewrite field_bool_field.
Qed.

#[export] Instance toy_watch_laws : WatchLaws.
Proof.
  split.
  - intros h _. eexists. split; [done|]. unfold json_unmarshal, hit_json, frame_codec.
    rewrite unframe_frame. apply fields_hit_fields.
  - intros a h. cbn. destruct (_ && _) eqn:E; [|done]. intros _.
    apply andb_prop in E as [[_ E1]%andb_prop E2%bool_decide_eq_true]. done.
Qed.

Definition any_net (_ : bytes) : bool := true.
Lemma any_net_inj a b h : any_net a = true → any_net b = true →
  PublicKeyHash a = Some h → PublicKeyHash b = Some h → a = b.
Proof. cbn. intros _ _. repeat case_match; congruence. Qed.

Definition shop : bytes := lit "1ShopAddressOnMainnt".
Definition lock (h : bytes) : bytes := p2pkh_prefix ++ h ++ p2pkh_suffix.
Definition fund : WireTx := MkWireTx [MkWireIn (lit "c0") 0] [MkWireOut 7 [x6a]; MkWireOut 5000 (lock shop)].
Definition spend : WireTx := MkWireTx [MkWireIn (lit "f1") 1] [MkWireOut 4900 (lock (replicate 20 x41))].
Definition txs (txid : bytes) : option WireTx :=
  if bool_decide (txid = lit "f1") then Some fund
  else if bool_decide (txid = lit "5e") then Some spend else None.

Abbreviation memdb := (gmap bytes bytes).
Definition w0 : Watcher (DB:=memdb) := NewWatcher (Some ∅).
Definition w1 : Watcher (DB:=memdb) := (Add shop w0).1.
Definition w2 : Watcher (DB:=memdb) := CheckTx 0 (lit "f1") (wire_print fund) w1.
Definition w3 : Watcher (DB:=memdb) := CheckTx 0 (lit "5e") (wire_print spend) w2.

Lemma empty_view : db_view (∅ : memdb) = ∅.
Proof. reflexivity. Qed.

Lemma w1_inv : watch_inv txs any_net w1 ∅.
Proof.
  destruct (watch_start txs any_net any_net_inj (∅ : memdb) empty_view) as [I1 I2 I3 I4]. split; [done..|].
  intros h a. change (wa_watches w1) with (<[shop := shop]> (∅ : memdb)). rewrite lookup_insert_Some, lookup_empty.
  intros [[<- <-]|[]]; [|done]. split; vm_compute; reflexivity.
Qed.

Lemma CheckTx_refines_witness : ∃ db, watch_inv txs any_net w2 db ∧
  (∀ k a, wa_utxos w2 !! k = Some a ↔ ¬ spends fund k ∧ (new_output w1 (lit "f1") fund k a ∨ wa_utxos w1 !! k = Some a)) ∧
  wa_utxos (NewWatcher (Some db)) = wa_utxos w2.
Proof.
  exact (CheckTx_refines txs any_net any_net_inj w1 ∅ 0 (lit "f1") (wire_print fund) fund w1_inv eq_refl eq_refl eq_refl).
Defined.

Lemma steps_w3 : rtc (watch_step txs any_net) w0 w3.
Proof.
  eapply rtc_l; [exact (ws_add txs any_net shop w0 w1 (Ok ()) eq_refl eq_refl)|].
  eapply rtc_l; [exact (ws_tx txs any_net 0 (lit "f1") (wire_print fund) w1 eq_refl eq_refl)|].
  apply rtc_once. exact (ws_tx txs any_net 0 (lit "5e") (wire_print spend) w2 eq_refl eq_refl).
Qed.

Lemma watcher_restart_witness : ∃ db, wa_db w3 = Some db ∧
  wa_utxos (NewWatcher (Some db)) = wa_utxos w3 ∧
  ∀ k a, wa_utxos w3 !! k = Some a → ∃ txid vout, k = outpoint_key txid vout ∧ pays txs any_net txid vout a.
Proof. exact (watcher_restart txs any_net any_net_inj ∅ w3 empty_view steps_w3). Defined.

(** Paid, spent, and back: an announcement that is repeated after the output
    was spent makes the watcher count it as unspent again. *)
Example paid : map_to_list (wa_utxos w2) = [(lit "f1:1", shop)].
Proof. vm_compute. reflexivity. Qed.
Example spent : wa_utxos w3 = ∅ ∧ wa_hits w3 = 1 ∧ wa_spends w3 = 1.
Proof. vm_compute. auto. Qed.
Example announced_again :
  map_to_list (wa_utxos (CheckTx 0 (lit "f1") (wire_print fund) w3)) = [(lit "f1:1", shop)].
Proof. vm_compute. reflexivity. Qed.
