(* ===== verification/P2P.v ===== *)
(** * The Bitcoin peer-to-peer connections ([internal/p2p])

    The connection of [peer.go], the fetchers of single transactions
    ([txfetcher.go]) and of whole blocks ([blockfetcher.go]), and the mempool
    monitor ([mempool_monitor.go]). The wire format is go-p2p's. A connection
    is the messages its peer is going to send, after which reading fails, the
    messages sent to it, and which of the writes fail; a list of dials is what
    the coming calls of [net.DialTimeout] give. *)

From Stdlib Require Import Init.Byte Strings.Byte Strings.String Lia ZArith.
From stdpp Require Import base gmap sets list strings numbers.
From S2P Require Import Prelude GoStd LevelDB GoText.
Open Scope Z_scope.

(** go-p2p: transactions, block headers and hashes. *)
Class P2PLib := {
  MsgTx : Type;
  TxHash : MsgTx → bytes;
  Serialize : MsgTx → option bytes;
  (** [Hash.String] and [NewHashFromStr]. *)
  hash_text : bytes → bytes;
  NewHashFromStr : bytes → option bytes
}.

Inductive inv_vect := InvTx (hash : bytes) | InvBlock (hash : bytes) | InvOther (hash : bytes).
Definition inv_hash (iv : inv_vect) : bytes :=
  match iv with InvTx h | InvBlock h | InvOther h => h end.

(** The transactions of a block, in hexadecimal, by the text of their hash. *)
Abbreviation block_txs := (gmap bytes bytes).

Section p2p.
Context `{P2PLib} {Hdr : Type}.

(** The messages the code tells apart. *)
Inductive wire_msg :=
  | MVersion (relay : bool) | MVerAck | MPing (nonce : Z) | MPong (nonce : Z)
  | MInv (l : list inv_vect) | MTx (tx : MsgTx) | MNotFound (l : list inv_vect)
  | MGetData (l : list inv_vect) | MGetHeaders (locators : list bytes) | MHeaders (l : list Hdr)
  | MBlock (txs : list MsgTx) | MOther.

Record Conn := MkConn { c_in : list wire_msg; c_out : list wire_msg; c_fails : list bool }.

Definition set_in (l : list wire_msg) (c : Conn) : Conn := MkConn l (c_out c) (c_fails c).

(** ** The connection ([peer.go]) *)

Inductive p2p_err :=
  | PeDial | PeWrite | PeRead | PeExpectedVersion | PeNotFound | PeLocators | PeHash
  | PeAllFailed | PeSerialize | PeNotInBlock.

Definition writeMsg (m : wire_msg) (c : Conn) : Conn * option p2p_err :=
  match c_fails c with
  | true :: l => (MkConn (c_in c) (c_out c) l, Some PeWrite)
  | l => (MkConn (c_in c) (c_out c ++ [m]) (tail l), None)
  end.

(** Messages up to the [verack]. *)
Fixpoint await_verack (l : list wire_msg) (c : Conn) : Conn * option p2p_err :=
  match l with
  | [] => (set_in [] c, Some PeRead)
  | MVerAck :: l => (set_in l c, None)
  | _ :: l => await_verack l c
  end.

(** [relay] is the one difference between a peer's handshake and the
    monitor's. *)
Definition handshake (relay : bool) (c : Conn) : Conn * option p2p_err :=
  match writeMsg (MVersion relay) c with
  | (c, Some e) => (c, Some e)
  | (c, None) =>
      match c_in c with
      | [] => (c, Some PeRead)
      | MVersion _ :: l =>
          match writeMsg MVerAck (set_in l c) with
          | (c, Some e) => (c, Some e)
          | (c, None) => await_verack (c_in c) c
          end
      | _ :: l => (set_in l c, Some PeExpectedVersion)
      end
  end.

(** A dial and the dials left. *)
Definition Connect (dials : list (option Conn)) : list (option Conn) * res p2p_err Conn :=
  match dials with
  | Some c :: dials =>
      match handshake false c with
      | (c, None) => (dials, Ok c)
      | (_, Some e) => (dials, Err e)
      end
  | _ => (tail dials, Err PeDial)
  end.

(** The limit of [AddBlockLocatorHash]. *)
Definition maxBlockLocators : nat := 500.

Definition RequestHeaders (locators : list bytes) (c : Conn) : Conn * option p2p_err :=
  if (maxBlockLocators <? length locators)%nat then (c, Some PeLocators)
  else writeMsg (MGetHeaders locators) c.

(** The answer to a ping is sent whether or not it can be. *)
Fixpoint read_headers (l : list wire_msg) (c : Conn) : Conn * res p2p_err (list Hdr) :=
  match l with
  | [] => (set_in [] c, Err PeRead)
  | MHeaders h :: l => (set_in l c, Ok h)
  | MPing n :: l => read_headers l (writeMsg (MPong n) c).1
  | _ :: l => read_headers l c
  end.
Definition ReadHeaders (c : Conn) : Conn * res p2p_err (list Hdr) := read_headers (c_in c) c.

Definition RequestTransaction (hash : bytes) (c : Conn) : Conn * option p2p_err :=
  writeMsg (MGetData [InvTx hash]) c.

Fixpoint read_transaction (target : bytes) (l : list wire_msg) (c : Conn) : Conn * res p2p_err MsgTx :=
  match l with
  | [] => (set_in [] c, Err PeRead)
  | MTx tx :: l => if bool_decide (TxHash tx = target) then (set_in l c, Ok tx) else read_transaction target l c
  | MPing n :: l => read_transaction target l (writeMsg (MPong n) c).1
  | MNotFound _ :: l => (set_in l c, Err PeNotFound)
  | _ :: l => read_transaction target l c
  end.
Definition ReadTransaction (target : bytes) (c : Conn) : Conn * res p2p_err MsgTx :=
  read_transaction target (c_in c) c.

(** ** Single transactions ([txfetcher.go]) *)

Record TxFetcher := MkTxFetcher { tf_addresses : list bytes; tf_peer : option Conn }.
Definition NewTxFetcher (addresses : list bytes) : TxFetcher := MkTxFetcher addresses None.

Definition fetchFromPeer (hash : bytes) (c : Conn) : Conn * res p2p_err bytes :=
  match RequestTransaction hash c with
  | (c, Some e) => (c, Err e)
  | (c, None) =>
      let '(c, r) := ReadTransaction hash c in
      (c, tx ← r; raw ← res_of_option PeSerialize (Serialize tx); Ok (hex_encode raw))
  end.

(** Each address once; the connection that worked is kept. *)
Fixpoint try_addresses (hash : bytes) (addresses : list bytes) (dials : list (option Conn))
    : list (option Conn) * option Conn * res p2p_err bytes :=
  match addresses with
  | [] => (dials, None, Err PeAllFailed)
  | _ :: addresses =>
      match Connect dials with
      | (dials, Ok c) =>
          match fetchFromPeer hash c with
          | (c, Ok raw) => (dials, Some c, Ok raw)
          | _ => try_addresses hash addresses dials
          end
      | (dials, _) => try_addresses hash addresses dials
      end
  end.

Definition FetchRawTx (txid : bytes) (f : TxFetcher) (dials : list (option Conn))
    : TxFetcher * list (option Conn) * res p2p_err bytes :=
  match NewHashFromStr txid with
  | None => (f, dials, Err PeHash)
  | Some hash =>
      let retry :=
        let '(dials, peer, r) := try_addresses hash (tf_addresses f) dials in
        (MkTxFetcher (tf_addresses f) peer, dials, r) in
      match tf_peer f with
      | None => retry
      | Some c =>
          match fetchFromPeer hash c with
          | (c, Ok raw) => (MkTxFetcher (tf_addresses f) (Some c), dials, Ok raw)
          | _ => retry
          end
      end
  end.

Definition Close (f : TxFetcher) : TxFetcher := MkTxFetcher (tf_addresses f) None.

(** ** Whole blocks ([blockfetcher.go]) *)

Record BlockTxFetcher := MkBlockTxFetcher { bf_addresses : list bytes; bf_blockCache : gmap bytes block_txs }.
Definition NewBlockTxFetcher (addresses : list bytes) : BlockTxFetcher := MkBlockTxFetcher addresses ∅.

Fixpoint swap_pairs (h : bytes) (acc : bytes) : bytes :=
  match h with a :: b :: h => swap_pairs h (a :: b :: acc) | _ => acc end.
Definition reverseHashHex (h : bytes) : bytes :=
  if Nat.odd (length h) then h else swap_pairs h [].
Definition reverseHex (h : bytes) : bytes := reverseHashHex h.

(** Every transaction under both byte orders of its hash. *)
Definition add_block_tx (m : block_txs) (tx : MsgTx) : block_txs :=
  match Serialize tx with
  | None => m
  | Some raw =>
      let natural := hash_text (TxHash tx) in
      <[reverseHashHex natural := hex_encode raw]> (<[natural := hex_encode raw]> m)
  end.

Fixpoint read_block (l : list wire_msg) (c : Conn) : res p2p_err block_txs :=
  match l with
  | [] => Err PeRead
  | MBlock txs :: _ => Ok (foldl add_block_tx ∅ txs)
  | MPing n :: l => read_block l (writeMsg (MPong n) c).1
  | MNotFound _ :: _ => Err PeNotFound
  | _ :: l => read_block l c
  end.
Definition fetchBlock (blockHash : bytes) (c : Conn) : res p2p_err block_txs :=
  match writeMsg (MGetData [InvBlock blockHash]) c with
  | (_, Some e) => Err e
  | (c, None) => read_block (c_in c) c
  end.

(** [s[:16]] of a string that is logged. *)
Definition first16 (s : bytes) : res p2p_err bytes := if (length s <? 16)%nat then Panic else Ok (take 16 s).

Definition block_limit : Z := 50.

(** A new block, and another one given up when there are more than fifty. *)
Definition cache_block `{MapOrder} (key : bytes) (txs : block_txs) (cache : gmap bytes block_txs)
    : gmap bytes block_txs :=
  let cache := <[key := txs]> cache in
  if block_limit <? Z.of_nat (size cache) then
    match filter (λ k, k ≠ key) (map_order cache).*1 with k :: _ => delete k cache | [] => cache end
  else cache.

Fixpoint try_blocks `{MapOrder} (txid blockHashHex blockHash : bytes) (addresses : list bytes)
    (cache : gmap bytes block_txs) (dials : list (option Conn))
    : gmap bytes block_txs * list (option Conn) * res p2p_err bytes :=
  match addresses with
  | [] => (cache, dials, _ ← first16 blockHashHex; Err PeAllFailed)
  | _ :: addresses =>
      match first16 txid, first16 blockHashHex with
      | Ok _, Ok _ =>
          match Connect dials with
          | (dials, Ok c) =>
              match fetchBlock blockHash c with
              | Ok txs =>
                  (cache_block blockHashHex txs cache, dials,
                   match txs !! txid with Some raw => Ok raw | None => Err PeNotInBlock end)
              | _ => try_blocks txid blockHashHex blockHash addresses cache dials
              end
          | (dials, _) => try_blocks txid blockHashHex blockHash addresses cache dials
          end
      | _, _ => (cache, dials, Panic)
      end
  end.

Definition FetchTxFromBlock `{MapOrder} (txid blockHashHex : bytes) (f : BlockTxFetcher) (dials : list (option Conn))
    : BlockTxFetcher * list (option Conn) * res p2p_err bytes :=
  match bf_blockCache f !! blockHashHex with
  | Some txs =>
      (f, dials, match txs !! txid with Some raw => Ok raw | None => _ ← first16 blockHashHex; Err PeNotInBlock end)
  | None =>
      match NewHashFromStr blockHashHex with
      | None => (f, dials, Err PeHash)
      | Some blockHash =>
          let '(cache, dials, r) := try_blocks txid blockHashHex blockHash (bf_addresses f) (bf_blockCache f) dials in
          (MkBlockTxFetcher (bf_addresses f) cache, dials, r)
      end
  end.

(** The blocks in the order the map is visited. *)
Fixpoint lookup_blocks (txid : bytes) (blocks : list (bytes * block_txs)) : res p2p_err (option bytes) :=
  match blocks with
  | [] => Ok None
  | (blockHash, txs) :: blocks =>
      match txs !! txid with
      | Some raw => Ok (Some raw)
      | None =>
          match txs !! reverseHex txid with
          | Some raw => _ ← first16 txid; _ ← first16 blockHash; Ok (Some raw)
          | None => lookup_blocks txid blocks
          end
      end
  end.
Definition LookupCachedTx `{MapOrder} (txid : bytes) (f : BlockTxFetcher) : res p2p_err (option bytes) :=
  lookup_blocks txid (map_order (bf_blockCache f)).

(** ** The mempool monitor ([mempool_monitor.go]) *)

Record MempoolMonitor := MkMonitor {
  mm_coverage : gset byte; mm_maxTxSize : Z; mm_conn : Conn;
  mm_batch : list bytes; mm_pending : gmap bytes Z;
  mm_invSeen : Z; mm_invFiltered : Z; mm_txReceived : Z; mm_connected : bool
}.

Definition NewMempoolMonitor (coverage : gset byte) (maxTxSize : Z) (c : Conn) : MempoolMonitor :=
  MkMonitor coverage maxTxSize c [] ∅ 0 0 0 false.

Definition set_conn (c : Conn) (m : MempoolMonitor) : MempoolMonitor :=
  MkMonitor (mm_coverage m) (mm_maxTxSize m) c (mm_batch m) (mm_pending m)
    (mm_invSeen m) (mm_invFiltered m) (mm_txReceived m) (mm_connected m).
Definition set_batch (b : list bytes) (p : gmap bytes Z) (m : MempoolMonitor) : MempoolMonitor :=
  MkMonitor (mm_coverage m) (mm_maxTxSize m) (mm_conn m) b p
    (mm_invSeen m) (mm_invFiltered m) (mm_txReceived m) (mm_connected m).
Definition set_counts (seen filtered received : Z) (connected : bool) (m : MempoolMonitor) : MempoolMonitor :=
  MkMonitor (mm_coverage m) (mm_maxTxSize m) (mm_conn m) (mm_batch m) (mm_pending m) seen filtered received connected.

Record MonitorStats := MkMonitorStats {
  ms_InvSeen : Z; ms_InvFiltered : Z; ms_TxReceived : Z; ms_Connected : bool
}.
Definition Stats (m : MempoolMonitor) : MonitorStats :=
  MkMonitorStats (mm_invSeen m) (mm_invFiltered m) (mm_txReceived m) (mm_connected m).

Definition set_connected (b : bool) (m : MempoolMonitor) : MempoolMonitor :=
  set_counts (mm_invSeen m) (mm_invFiltered m) (mm_txReceived m) b m.

(** The [handshake] asks for announcements. *)
Definition Start (m : MempoolMonitor) (dial : option Conn) : MempoolMonitor * option p2p_err :=
  match dial with
  | None => (m, Some PeDial)
  | Some c =>
      match handshake true c with
      | (c, Some e) => (set_conn c m, Some e)
      | (c, None) => (set_connected true (set_conn c m), None)
      end
  end.

Definition handle_inv1 (now : Z) (m : MempoolMonitor) (iv : inv_vect) : MempoolMonitor :=
  match iv with
  | InvTx h =>
      let m := set_counts (i64 (mm_invSeen m + 1)) (mm_invFiltered m) (mm_txReceived m) (mm_connected m) m in
      if negb (bool_decide (default x00 (head h) ∈ mm_coverage m)) then
        set_counts (mm_invSeen m) (i64 (mm_invFiltered m + 1)) (mm_txReceived m) (mm_connected m) m
      else match mm_pending m !! h with
           | Some _ => m
           | None => set_batch (mm_batch m ++ [h]) (<[h := now]> (mm_pending m)) m
           end
  | _ => m
  end.
Definition handleInv (now : Z) (l : list inv_vect) (m : MempoolMonitor) : MempoolMonitor :=
  foldl (handle_inv1 now) m l.

(** The transaction for [onTx], unless it is too large. *)
Definition handleTx (tx : MsgTx) (m : MempoolMonitor) : MempoolMonitor * option (bytes * bytes) :=
  let m := set_counts (mm_invSeen m) (mm_invFiltered m) (i64 (mm_txReceived m + 1)) (mm_connected m) m in
  let m := set_batch (mm_batch m) (delete (TxHash tx) (mm_pending m)) m in
  let buf := default [] (Serialize tx) in
  (m, if (0 <? mm_maxTxSize m) && (mm_maxTxSize m <? zlen buf) then None else Some (TxHash tx, buf)).

Definition handleNotFound (l : list inv_vect) (m : MempoolMonitor) : MempoolMonitor :=
  set_batch (mm_batch m) (foldl (λ p iv, delete (inv_hash iv) p) (mm_pending m) l) m.

Definition maxGetDataPerMsg : nat := Z.to_nat 50000.

(** The chunks of [n] of a list; [fuel] is its length. *)
Fixpoint chunks_of {A} (fuel n : nat) (l : list A) : list (list A) :=
  match fuel, l with
  | S fuel, _ :: _ => take n l :: chunks_of fuel n (drop n l)
  | _, _ => []
  end.

(** Write errors are not looked at. *)
Definition flushBatch (m : MempoolMonitor) : MempoolMonitor :=
  let hashes := mm_batch m in
  let m := set_batch [] (mm_pending m) m in
  set_conn (foldl (λ c l, (writeMsg (MGetData (InvTx <$> l)) c).1) (mm_conn m)
              (chunks_of (length hashes) maxGetDataPerMsg hashes)) m.

(** One turn of [readLoop] on a message that was read. *)
Definition read_turn (now : Z) (msg : wire_msg) (m : MempoolMonitor) : MempoolMonitor * option (bytes * bytes) :=
  match msg with
  | MInv l => (handleInv now l m, None)
  | MTx tx => handleTx tx m
  | MPing n => (set_conn (writeMsg (MPong n) (mm_conn m)).1 m, None)
  | MNotFound l => (handleNotFound l m, None)
  | _ => (m, None)
  end.

(** The goroutines of a monitor: a turn of [readLoop] at a time, a tick of
    [batchLoop], the last line of [Start], which runs beside them, and the
    cancellation by [Stop], which then waits for [readLoop]. *)
Inductive monitor_event := EvRead (now : Z) | EvTick | EvStarted | EvCancel.

Record Monitoring := MkMonitoring {
  mo_monitor : MempoolMonitor; mo_reading : bool; mo_cancelled : bool;
  mo_delivered : list (bytes * bytes)
}.

Definition monitoring (m : MempoolMonitor) : Monitoring := MkMonitoring m true false [].

(** A read fails once there is nothing left; the loop ends then, or when it is
    cancelled. *)
Definition readLoop (now : Z) (s : Monitoring) : Monitoring :=
  let m := mo_monitor s in
  if negb (mo_reading s) then s
  else match mo_cancelled s, c_in (mm_conn m) with
       | true, _ | _, [] => MkMonitoring (set_connected false m) false (mo_cancelled s) (mo_delivered s)
       | false, msg :: l =>
           let '(m, tx) := read_turn now msg (set_conn (set_in l (mm_conn m)) m) in
           MkMonitoring m true false (mo_delivered s ++ option_list tx)
       end.

Definition batchLoop (s : Monitoring) : Monitoring :=
  if mo_cancelled s then s
  else MkMonitoring (flushBatch (mo_monitor s)) (mo_reading s) (mo_cancelled s) (mo_delivered s).

Definition monitor_step (s : Monitoring) (ev : monitor_event) : Monitoring :=
  match ev with
  | EvRead now => readLoop now s
  | EvTick => batchLoop s
  | EvStarted => MkMonitoring (set_connected true (mo_monitor s)) (mo_reading s) (mo_cancelled s) (mo_delivered s)
  | EvCancel => MkMonitoring (mo_monitor s) (mo_reading s) true (mo_delivered s)
  end.

(** [Stop] returns when the read loop has closed [done]. *)
Definition Stop_returns (s : Monitoring) : bool := negb (mo_reading s).
End p2p.
