(* ===== verification/P2PProps.v ===== *)
(** * What the peer-to-peer connections guarantee

    The fetchers hand out transactions under their own hashes whatever the
    peers send, and the monitor asks for what its coverage names, in messages
    the protocol allows. *)

From Stdlib Require Import Init.Byte Strings.Byte Strings.String Lia ZArith.
From stdpp Require Import base gmap sets list strings numbers.
From S2P Require Import Prelude GoStd LevelDB GoText P2P.
Open Scope Z_scope.

(** ** Byte order *)

Lemma pair_ind {A} (P : list A → Prop) : P [] → (∀ a, P [a]) → (∀ a b l, P l → P (a :: b :: l)) → ∀ l, P l.
Proof.
  intros H0 H1 H2. assert (∀ l, P l ∧ ∀ a, P (a :: l)) as HH; [|intros l; apply HH].
  induction l as [|a l [IH1 IH2]]; [done|]. split; [apply IH2|]. intros b. by apply H2.
Qed.

Lemma swap_pairs_app h acc : swap_pairs h acc = swap_pairs h [] ++ acc.
Proof.
  revert acc. induction h as [|a|a b l IH] using pair_ind; intros acc; [done|done|].
  cbn [swap_pairs]. rewrite IH, (IH [a; b]), <- app_assoc. done.
Qed.

Lemma swap_pairs_snoc h a b : Nat.Even (length h) → swap_pairs (h ++ [a; b]) [] = a :: b :: swap_pairs h [].
Proof.
  induction h as [|x|x y l IH] using pair_ind; intros He; [done| |].
  - destruct He as [k Hk]. cbn in Hk. lia.
  - cbn [app swap_pairs]. rewrite (swap_pairs_app (l ++ _)), (swap_pairs_app l [x; y]), IH; [done|].
    destruct He as [k Hk]. exists (k - 1)%nat. cbn in Hk. lia.
Qed.

Lemma length_swap_pairs h acc : Nat.Even (length h) → length (swap_pairs h acc) = (length h + length acc)%nat.
Proof.
  revert acc. induction h as [|x|x y l IH] using pair_ind; intros acc He; [done| |].
  - destruct He as [k Hk]. cbn in Hk. lia.
  - cbn [swap_pairs]. rewrite IH; [cbn; lia|]. destruct He as [k Hk]. exists (k - 1)%nat. cbn in Hk. lia.
Qed.

Lemma reverseHashHex_involutive h : reverseHashHex (reverseHashHex h) = h.
Proof.
  unfold reverseHashHex. destruct (Nat.odd (length h)) eqn:Eo; [by rewrite Eo|].
  assert (Nat.Even (length h)) as He by (apply Nat.even_spec; by rewrite <- Nat.negb_odd, Eo).
  rewrite length_swap_pairs, Nat.add_0_r, Eo by done. clear Eo.
  induction h as [|x|x y l IH] using pair_ind; [done| |].
  - destruct He as [k Hk]. cbn in Hk. lia.
  - assert (Nat.Even (length l)) as Hl by (destruct He as [k Hk]; exists (k - 1)%nat; cbn in Hk; lia).
    cbn [swap_pairs]. rewrite (swap_pairs_app l [x; y]), swap_pairs_snoc, IH; [done..|].
    by rewrite length_swap_pairs, Nat.add_0_r.
Qed.

Section p2p.
Context `{P2PLib} {Hdr : Type}.
Abbreviation conn := (Conn (Hdr:=Hdr)).
Implicit Types (c : conn) (dials : list (option conn)).

(** ** Authenticity *)

(** The hexadecimal form of a transaction with this hash. *)
Definition raw_of_hash (hash rawHex : bytes) : Prop :=
  ∃ tx raw, TxHash tx = hash ∧ Serialize tx = Some raw ∧ rawHex = hex_encode raw.

Lemma read_transaction_hash target l c c' tx :
  read_transaction target l c = (c', Ok tx) → TxHash tx = target.
Proof.
  revert c. induction l as [|m l IH]; intros c; [done|].
  destruct m; cbn [read_transaction]; try done; try apply IH.
  case_bool_decide; [by intros [= _ <-]|apply IH].
Qed.

Lemma fetchFromPeer_authentic hash c c' raw : fetchFromPeer hash c = (c', Ok raw) → raw_of_hash hash raw.
Proof.
  unfold fetchFromPeer. destruct (RequestTransaction hash c) as [c1 [e|]]; [done|].
  destruct (ReadTransaction hash c1) as [c2 r] eqn:Er. intros [= _ E]. res_inv. subst.
  exists a, a0. split_and!; [by eapply read_transaction_hash|done|done].
Qed.

Lemma try_addresses_authentic hash addresses dials dials' o raw :
  try_addresses hash addresses dials = (dials', o, Ok raw) → raw_of_hash hash raw.
Proof.
  revert dials. induction addresses as [|a l IH]; intros dials; [done|]. cbn [try_addresses].
  destruct (Connect dials) as [d [c|e|]]; [|apply IH..].
  destruct (fetchFromPeer hash c) as [c' [r|e|]] eqn:Ef; [|apply IH..].
  intros [= _ _ <-]. by eapply fetchFromPeer_authentic.
Qed.

Lemma FetchRawTx_authentic txid (f f' : TxFetcher (Hdr:=Hdr)) dials dials' raw :
  FetchRawTx txid f dials = (f', dials', Ok raw) → ∃ hash, NewHashFromStr txid = Some hash ∧ raw_of_hash hash raw.
Proof.
  unfold FetchRawTx. destruct (NewHashFromStr txid) as [hash|]; [|done].
  destruct (try_addresses hash (tf_addresses f) dials) as [[d o] r] eqn:Et.
  intros HF. exists hash. split; [done|].
  destruct (tf_peer f) as [c|]; [|injection HF as _ _ ->; by eapply try_addresses_authentic].
  destruct (fetchFromPeer hash c) as [c' [r'|e|]] eqn:Ef.
  - injection HF as _ _ <-. by eapply fetchFromPeer_authentic.
  - injection HF as _ _ ->. by eapply try_addresses_authentic.
  - injection HF as _ _ ->. by eapply try_addresses_authentic.
Qed.

(** A transaction of the block cache is filed under its own hash, in either
    byte order. *)
Definition filed (k raw : bytes) : Prop := ∃ hash, raw_of_hash hash raw ∧
  (k = hash_text hash ∨ k = reverseHashHex (hash_text hash)).
Definition block_ok (txs : block_txs) : Prop := map_Forall filed txs.
Definition cache_ok (cache : gmap bytes block_txs) : Prop :=
  map_Forall (λ _ txs, block_ok txs) cache ∧ Z.of_nat (size cache) ≤ block_limit.

Lemma add_block_tx_ok m tx : block_ok m → block_ok (add_block_tx m tx).
Proof.
  intros Hm. unfold add_block_tx. destruct (Serialize tx) as [raw|] eqn:Es; [|done].
  apply map_Forall_insert_2; [|apply map_Forall_insert_2; [|done]];
    exists (TxHash tx); (split; [by exists tx, raw|auto]).
Qed.

Lemma add_block_txs_ok l m : block_ok m → block_ok (foldl add_block_tx m l).
Proof. revert m. induction l as [|tx l IH]; intros m Hm; [done|]. by apply IH, add_block_tx_ok. Qed.

Lemma read_block_ok l c txs : read_block l c = Ok txs → block_ok txs.
Proof.
  revert c. induction l as [|m l IH]; intros c; [done|]. destruct m; cbn [read_block]; try done; try apply IH.
  intros [= <-]. apply add_block_txs_ok. intros ?? E. by rewrite lookup_empty in E.
Qed.

Lemma fetchBlock_ok hash c txs : fetchBlock hash c = Ok txs → block_ok txs.
Proof. unfold fetchBlock. destruct (writeMsg _ c) as [c' [e|]]; [done|]. apply read_block_ok. Qed.

Lemma cache_block_ok `{MapOrderLaws} key txs cache : block_ok txs → cache_ok cache → cache_ok (cache_block key txs cache).
Proof.
  intros Ht [Hc Hn]. unfold cache_block.
  assert (map_Forall (λ _ txs, block_ok txs) (<[key:=txs]> cache)) as Hc' by by apply map_Forall_insert_2.
  assert (Z.of_nat (size (<[key:=txs]> cache)) ≤ block_limit + 1) as Hs.
  { rewrite map_size_insert. destruct (cache !! key); simpl; lia. }
  destruct (Z.ltb_spec block_limit (Z.of_nat (size (<[key:=txs]> cache)))) as [Hl|Hl]; [|done].
  destruct (filter _ _) as [|k l] eqn:Ef.
  - exfalso. assert (∀ k, k ∈ dom (<[key:=txs]> cache) → k = key) as Hall.
    { intros k [x Hx]%elem_of_dom. apply dec_stable. intros Hk.
      assert (k ∈ filter (λ k, k ≠ key) (map_order (<[key:=txs]> cache)).*1) as Hin.
      { apply list_elem_of_filter. split; [done|]. apply list_elem_of_fmap. exists (k, x).
        split; [done|]. by apply elem_of_map_order. }
      rewrite Ef in Hin. by apply not_elem_of_nil in Hin. }
    assert (size (<[key:=txs]> cache) ≤ 1)%nat as Hle.
    { rewrite <- size_dom. transitivity (size ({[key]} : gset bytes)); [|by rewrite size_singleton].
      apply subseteq_size. intros k Hk%Hall. set_solver. }
    unfold block_limit in Hl. lia.
  - assert (k ∈ filter (λ k, k ≠ key) (map_order (<[key:=txs]> cache)).*1) as Hin by (rewrite Ef; left).
    apply list_elem_of_filter in Hin as [_ ([k' x] & -> & Hx)%list_elem_of_fmap]. apply elem_of_map_order in Hx.
    split; [by apply map_Forall_delete|]. cbn. rewrite map_size_delete, Hx. simpl. lia.
Qed.

Lemma lookup_filed txs txid raw : block_ok txs → txs !! txid = Some raw ∨ txs !! reverseHex txid = Some raw → filed txid raw.
Proof.
  intros Ht [E|E]; apply Ht in E as (hash & Hr & Hk); exists hash; (split; [done|]); [done|].
  unfold reverseHex in Hk. destruct Hk as [Hk|Hk].
  - right. by rewrite <- Hk, reverseHashHex_involutive.
  - left. rewrite <- (reverseHashHex_involutive txid), Hk. apply reverseHashHex_involutive.
Qed.

Lemma try_blocks_ok `{MapOrderLaws} txid blockHex hash addresses cache dials cache' dials' r :
  cache_ok cache → try_blocks txid blockHex hash addresses cache dials = (cache', dials', r) →
  cache_ok cache' ∧ ∀ raw, r = Ok raw → filed txid raw.
Proof.
  revert dials. induction addresses as [|a l IH]; intros dials Hc; cbn [try_blocks].
  { intros [= <- _ <-]. split; [done|]. by destruct (first16 blockHex). }
  destruct (first16 txid); [|by intros [= <- _ <-]..]. destruct (first16 blockHex); [|by intros [= <- _ <-]..].
  destruct (Connect dials) as [d [c|e|]]; [|by apply IH..].
  destruct (fetchBlock hash c) as [txs|e|] eqn:Ef; [|by apply IH..].
  apply fetchBlock_ok in Ef. intros [= <- _ <-]. split; [by apply cache_block_ok|].
  intros raw E. destruct (txs !! txid) as [raw'|] eqn:Ex; [|done]. injection E as <-.
  eapply lookup_filed; [exact Ef|by left].
Qed.

Definition block_step `{MapOrder} (f f' : BlockTxFetcher) : Prop := ∃ txid blockHex dials dials' r,
  FetchTxFromBlock txid blockHex f dials = (f', dials', r).

Lemma FetchTxFromBlock_ok `{MapOrderLaws} txid blockHex f f' dials dials' r :
  cache_ok (bf_blockCache f) → FetchTxFromBlock txid blockHex f dials = (f', dials', r) →
  cache_ok (bf_blockCache f') ∧ ∀ raw, r = Ok raw → filed txid raw.
Proof.
  intros Hc. unfold FetchTxFromBlock. destruct (bf_blockCache f !! blockHex) as [txs|] eqn:Eb.
  - intros [= <- _ <-]. split; [done|]. intros raw Er. pose proof (proj1 Hc _ _ Eb) as Ht.
    destruct (txs !! txid) eqn:Ex; [|by destruct (first16 blockHex)].
    injection Er as <-. eapply lookup_filed; [exact Ht|by left].
  - destruct (NewHashFromStr blockHex) as [hash|]; [|by intros [= <- _ <-]].
    destruct (try_blocks _ _ _ _ _ _) as [[cache d] r'] eqn:Et. intros [= <- _ <-].
    eapply try_blocks_ok; [exact Hc|exact Et].
Qed.

Lemma lookup_blocks_ok txid blocks raw :
  (∀ b txs, (b, txs) ∈ blocks → block_ok txs) → lookup_blocks txid blocks = Ok (Some raw) → filed txid raw.
Proof.
  induction blocks as [|[b txs] blocks IH]; intros Hb; [done|]. cbn [lookup_blocks].
  pose proof (Hb b txs ltac:(left)) as Ht.
  destruct (txs !! txid) as [r|] eqn:E1; [intros [= <-]; eapply lookup_filed; [exact Ht|by left]|].
  destruct (txs !! reverseHex txid) as [r|] eqn:E2.
  - destruct (first16 txid); [|done..]. destruct (first16 b); [|done..]. intros [= <-].
    eapply lookup_filed; [exact Ht|by right].
  - apply IH. intros b' txs' Hin. apply (Hb b'). by right.
Qed.

(** C17: whatever the peers send, a raw transaction that a fetcher hands out is
    the transaction of the hash it was asked for: [FetchRawTx] of exactly that
    hash, the block fetcher and its cache of that hash in one of the two byte
    orders. The cache never holds more than fifty blocks. *)
Theorem fetchers_authentic `{MapOrderLaws} addresses f :
  rtc block_step (NewBlockTxFetcher addresses) f →
  Z.of_nat (size (bf_blockCache f)) ≤ 50 ∧
  (∀ txid blockHex dials f' dials' raw,
     FetchTxFromBlock txid blockHex f dials = (f', dials', Ok raw) → filed txid raw) ∧
  (∀ txid raw, LookupCachedTx txid f = Ok (Some raw) → filed txid raw) ∧
  (∀ txid (g g' : TxFetcher (Hdr:=Hdr)) dials dials' raw, FetchRawTx txid g dials = (g', dials', Ok raw) →
     ∃ hash, NewHashFromStr txid = Some hash ∧ raw_of_hash hash raw).
Proof.
  intros Hr. assert (cache_ok (bf_blockCache f)) as Hc.
  { assert (cache_ok (bf_blockCache (NewBlockTxFetcher addresses))) as Hc0.
    { split; [intros ?? E; cbn in E; by rewrite lookup_empty in E|]. cbn. by rewrite map_size_empty. }
    induction Hr as [|f1 f2 f3 (txid & b & d & d' & r & E) _ IH]; [done|]. apply IH.
    by eapply (FetchTxFromBlock_ok txid b f1 f2). }
  split_and!.
  - apply Hc.
  - intros. by eapply FetchTxFromBlock_ok.
  - intros txid raw. apply lookup_blocks_ok. intros b txs Hin%elem_of_map_order. by apply (proj1 Hc _ _ Hin).
  - intros. by eapply FetchRawTx_authentic.
Qed.

(** ** The monitor *)

Lemma chunks_of_concat {A} fuel n (l : list A) : (length l ≤ fuel)%nat → (0 < n)%nat → concat (chunks_of fuel n l) = l.
Proof.
  revert l. induction fuel as [|fuel IH]; intros [|x l] Hl Hn; try done; [cbn in Hl; lia|].
  cbn [chunks_of concat]. rewrite IH; [apply take_drop| |done]. rewrite length_drop. cbn in *. lia.
Qed.

Lemma chunks_of_bound {A} fuel n (l c : list A) : c ∈ chunks_of fuel n l → (length c ≤ n)%nat ∧ c ⊆ l.
Proof.
  revert l. induction fuel as [|fuel IH]; intros [|x l] Hc; try by apply not_elem_of_nil in Hc.
  cbn [chunks_of] in Hc. apply elem_of_cons in Hc as [->|Hc].
  - split; [rewrite length_take; lia|]. apply subseteq_take.
  - apply IH in Hc as [Hc Hs]. split; [done|]. intros y Hy%Hs. eapply subseteq_drop; exact Hy.
Qed.

Definition get_data (l : list bytes) : wire_msg (Hdr:=Hdr) := MGetData (InvTx <$> l).

Lemma writes_out ls c msg : msg ∈ c_out (foldl (λ c l, (writeMsg (get_data l) c).1) c ls) →
  msg ∈ c_out c ∨ ∃ l, l ∈ ls ∧ msg = get_data l.
Proof.
  revert c. induction ls as [|l ls IH]; intros c Hm; [by left|]. cbn [foldl] in Hm.
  apply IH in Hm as [Hm|(l' & Hl' & ->)]; [|right; exists l'; split; [by right|done]].
  unfold writeMsg in Hm. destruct (c_fails c) as [|[] fs]; cbn in Hm; [|by left|];
    apply elem_of_app in Hm as [Hm| ->%list_elem_of_singleton];
    [by left|right; exists l; split; [left|done]|by left|right; exists l; split; [left|done]].
Qed.

Lemma writes_all ls c : c_fails c = [] →
  c_fails (foldl (λ c l, (writeMsg (get_data l) c).1) c ls) = [] ∧
  c_out (foldl (λ c l, (writeMsg (get_data l) c).1) c ls) = c_out c ++ (get_data <$> ls).
Proof.
  revert c. induction ls as [|l ls IH]; intros c Hf; [by rewrite app_nil_r|]. cbn [foldl].
  destruct (IH (writeMsg (get_data l) c).1) as [H1 H2]; [unfold writeMsg; by rewrite Hf|].
  split; [done|]. rewrite H2. unfold writeMsg. rewrite Hf. cbn. by rewrite <- app_assoc.
Qed.

Definition covered (cov : gset byte) (h : bytes) : Prop := default x00 (head h) ∈ cov.
Definition requested (c : conn) (h : bytes) : Prop := ∃ l, get_data l ∈ c_out c ∧ h ∈ l.

(** What the monitor sends on its connection. *)
Definition out_ok (cov : gset byte) (c : conn) : Prop := ∀ l, MGetData l ∈ c_out c →
  (length l ≤ maxGetDataPerMsg)%nat ∧ ∀ iv, iv ∈ l → ∃ h, iv = InvTx h ∧ covered cov h.

Inductive mon_step : relation (MempoolMonitor (Hdr:=Hdr)) :=
  | mon_read now msg m : mon_step m (read_turn now msg m).1
  | mon_flush m : mon_step m (flushBatch m).

Record mon_inv (cov : gset byte) (reliable : bool) (m : MempoolMonitor) : Prop := {
  mi_coverage : mm_coverage m = cov;
  mi_out : out_ok cov (mm_conn m);
  mi_batch h : h ∈ mm_batch m → covered cov h;
  mi_fails : reliable = true → c_fails (mm_conn m) = [];
  mi_pending h : reliable = true → is_Some (mm_pending m !! h) → h ∈ mm_batch m ∨ requested (mm_conn m) h
}.

Lemma inv1_inv cov b now m iv : mon_inv cov b m → mon_inv cov b (handle_inv1 now m iv).
Proof.
  intros [I1 I2 I3 I4 I5]. destruct iv as [h|h|h]; [|done..]. unfold handle_inv1.
  destruct (bool_decide _) eqn:Ec; cbn [negb]; [|done]. apply bool_decide_eq_true in Ec. cbn in Ec.
  cbn [mm_pending set_counts]. destruct (mm_pending m !! h) eqn:Ep; [done|].
  split; cbn; [done..| | |].
  - intros h' [Hh| ->%list_elem_of_singleton]%elem_of_app; [by apply I3|]. by rewrite I1 in Ec.
  - done.
  - intros h' Hb [x [[<- _]|[_ Hx]]%lookup_insert_Some]; [left; set_solver|].
    destruct (I5 h' Hb) as [?|?]; [by exists x|left; set_solver|by right].
Qed.

Lemma pending_subset cov b m p : mon_inv cov b m → (∀ h, is_Some (p !! h) → is_Some (mm_pending m !! h)) →
  mon_inv cov b (set_batch (mm_batch m) p m).
Proof. intros [I1 I2 I3 I4 I5] Hp. split; cbn; [done..|]. intros h Hb Hh. apply I5; auto. Qed.

Lemma read_turn_inv cov b now msg m : mon_inv cov b m → mon_inv cov b (read_turn now msg m).1.
Proof.
  intros I. destruct msg; cbn [read_turn fst]; try done.
  - (* ping *) destruct I as [I1 I2 I3 I4 I5]. unfold writeMsg.
    destruct (c_fails (mm_conn m)) as [|[] fs] eqn:Ef; split; cbn; try done;
      try (intros l [Hl|Hl%list_elem_of_singleton]%elem_of_app; [by apply I2|done]);
      try (intros Hb; specialize (I4 Hb); congruence);
      intros h Hb Hh; (destruct (I5 h Hb Hh) as [?|(l & Hl & ?)]; [by left|right; exists l; split; [|done]]);
      cbn; set_solver.
  - (* inv *) unfold handleInv. revert m I. induction l as [|iv l IH]; intros m I; [done|]. by apply IH, inv1_inv.
  - (* tx *) unfold handleTx. cbn [fst].
    apply (pending_subset cov b (set_counts _ _ _ _ m)); [by destruct I|].
    cbn. intros h [x [_ Hx]%lookup_delete_Some]. by exists x.
  - (* notfound *) unfold handleNotFound. apply pending_subset; [done|]. clear. revert m.
    assert (∀ (l : list inv_vect) (p : gmap bytes Z) h, is_Some (foldl (λ p iv, delete (inv_hash iv) p) p l !! h) → is_Some (p !! h)) as HH.
    { intros l'. induction l' as [|iv l' IH]; intros p h Hp; [exact Hp|]. apply IH in Hp as [x [_ Hx]%lookup_delete_Some]. by exists x. }
    intros m h. apply HH.
Qed.

Lemma flush_inv cov b m : mon_inv cov b m → mon_inv cov b (flushBatch m).
Proof.
  intros [I1 I2 I3 I4 I5]. unfold flushBatch. split; cbn; [done| | | |].
  - intros l Hl. apply writes_out in Hl as [Hl|(l' & Hl' & E)]; [by apply I2|]. injection E as ->.
    apply chunks_of_bound in Hl' as [Hn Hs]. rewrite length_fmap. split; [done|].
    intros iv (h & -> & Hh)%list_elem_of_fmap. exists h. split; [done|]. by apply I3, Hs.
  - intros h Hh. by apply not_elem_of_nil in Hh.
  - intros Hb. by apply (writes_all _ _ (I4 Hb)).
  - intros h Hb Hh. right. destruct (writes_all (chunks_of (length (mm_batch m)) maxGetDataPerMsg (mm_batch m)) _ (I4 Hb)) as [_ E].
    unfold requested. setoid_rewrite E. destruct (I5 h Hb Hh) as [Hin|(l & Hl & ?)].
    + rewrite <- (chunks_of_concat (length (mm_batch m)) maxGetDataPerMsg (mm_batch m)) in Hin
        by (unfold maxGetDataPerMsg; lia).
      apply list_elem_of_In, in_concat in Hin as (l & Hl%list_elem_of_In & Hhl%list_elem_of_In). exists l. split; [|done].
      apply elem_of_app. right. by apply list_elem_of_fmap_2.
    + exists l. split; [|done]. apply elem_of_app. by left.
Qed.

Lemma await_verack_conn l c c' o : await_verack l c = (c', o) → c_out c' = c_out c ∧ c_fails c' = c_fails c.
Proof. induction l as [|m l IH]; cbn [await_verack]; [by intros [= <- _]|]. destruct m; try apply IH; by intros [= <- _]. Qed.

Lemma writeMsg_conn msg c c' o : writeMsg msg c = (c', o) →
  (∀ m, m ∈ c_out c' → m ∈ c_out c ∨ m = msg) ∧ (c_fails c = [] → c_fails c' = []).
Proof.
  unfold writeMsg. destruct (c_fails c) as [|[] fs]; intros [= <- _]; cbn; (split; [|done]); set_solver.
Qed.

Lemma handshake_conn relay c c' o : handshake relay c = (c', o) →
  (∀ l, MGetData l ∈ c_out c' → MGetData l ∈ c_out c) ∧ (c_fails c = [] → c_fails c' = []).
Proof.
  unfold handshake. destruct (writeMsg (MVersion relay) c) as [c1 o1] eqn:E1.
  apply writeMsg_conn in E1 as [W1 F1].
  assert ((∀ l, MGetData l ∈ c_out c1 → MGetData l ∈ c_out c) ∧ (c_fails c = [] → c_fails c1 = [])) as [G1 _].
  { split; [intros l [?|[=]]%W1|]; done. }
  destruct o1 as [e|]; [by intros [= <- _]|].
  destruct (c_in c1) as [|[] l]; try (by intros [= <- _]).
  destruct (writeMsg MVerAck (set_in l c1)) as [c2 o2] eqn:E2. apply writeMsg_conn in E2 as [W2 F2].
  assert (∀ l, MGetData l ∈ c_out c2 → MGetData l ∈ c_out c) as G2.
  { intros l' [?|[=]]%W2. by apply G1. }
  destruct o2 as [e|]; [by intros [= <- _]; auto|].
  intros [E3 E4]%await_verack_conn. rewrite E3, E4. auto.
Qed.

Lemma monitor_start_inv cov size c c0 m0 :
  c_out c = [] → Start (NewMempoolMonitor cov size c0) (Some c) = (m0, None) →
  mon_inv cov (bool_decide (c_fails c = [])) m0.
Proof.
  intros Ho Hs. unfold Start in Hs. destruct (handshake true c) as [c' [e|]] eqn:Eh; [done|]. injection Hs as <-.
  apply handshake_conn in Eh as [E1 E2]. rewrite Ho in E1. split; cbn; [done| | | |].
  - intros l Hl%E1. by apply not_elem_of_nil in Hl.
  - intros h Hh. by apply not_elem_of_nil in Hh.
  - intros Hb%bool_decide_eq_true. by apply E2.
  - intros h _ [x Hx]. by rewrite lookup_empty in Hx.
Qed.

(** The monitor asks for transactions its coverage names and no others, in
    messages of at most fifty thousand; and while its writes succeed it
    forgets none: each transaction announced and not yet answered is in the
    batch or has been asked for, and sending the batch leaves none that has
    not. *)
Theorem monitor_requests cov size c c0 m0 m :
  c_out c = [] → Start (NewMempoolMonitor cov size c0) (Some c) = (m0, None) → rtc mon_step m0 m →
  out_ok cov (mm_conn m) ∧
  (c_fails c = [] →
     (∀ h, is_Some (mm_pending m !! h) → h ∈ mm_batch m ∨ requested (mm_conn m) h) ∧
     (∀ h, is_Some (mm_pending m !! h) → requested (mm_conn (flushBatch m)) h)).
Proof.
  intros Ho Hs Hr. set (b := bool_decide (c_fails c = [])).
  pose proof (monitor_start_inv cov size c c0 m0 Ho Hs) as I0. fold b in I0.
  assert (mon_inv cov b m) as I.
  { clear Hs. induction Hr as [|m1 m2 m3 Hst _ IH]; [done|]. apply IH. destruct Hst; [by apply read_turn_inv|by apply flush_inv]. }
  split; [apply I|]. intros Hf. assert (b = true) as Hb by by apply bool_decide_eq_true.
  split; [intros h; by apply I|]. intros h Hh.
  destruct (mi_pending _ _ _ (flush_inv _ _ _ I) h Hb Hh) as [Hn|]; [|done]. by apply not_elem_of_nil in Hn.
Qed.

(** *** The goroutines of the monitor *)

Lemma monitor_step_inv cov b s ev :
  mon_inv cov b (mo_monitor s) → mon_inv cov b (mo_monitor (monitor_step s ev)).
Proof.
  assert (∀ c (m : MempoolMonitor (Hdr:=Hdr)) x, c = mm_conn m ∨ c = set_in (tail (c_in (mm_conn m))) (mm_conn m) →
    mon_inv cov b m → mon_inv cov b (set_connected x (set_conn c m)) ∧ mon_inv cov b (set_conn c m)) as Hset.
  { intros c m x Hc [I1 I2 I3 I4 I5]. split; destruct Hc as [->| ->]; by split. }
  intros I. destruct ev as [now| | |]; cbn [monitor_step]; [| |by apply (Hset _ (mo_monitor s) true (or_introl eq_refl))|done].
  - unfold readLoop. destruct (mo_reading s); [cbn [negb]|done].
    destruct (mo_cancelled s); [by apply (Hset _ (mo_monitor s) false (or_introl eq_refl))|].
    destruct (c_in _) as [|msg l] eqn:El; [by apply (Hset _ (mo_monitor s) false (or_introl eq_refl))|].
    pose proof (read_turn_inv cov b now msg (set_conn (set_in l (mm_conn (mo_monitor s))) (mo_monitor s))) as Hr.
    destruct (read_turn _ _ _) as [m tx]. apply Hr, (Hset _ (mo_monitor s) true); [|done]. right. by rewrite El.
  - unfold batchLoop. destruct (mo_cancelled s); [done|]. by apply flush_inv.
Qed.

(** However the goroutines interleave, only transactions of the
    coverage are asked for, in messages of at most 50000. *)
Theorem monitor_asks_covered cov size c c0 m0 evs :
  c_out c = [] → Start (NewMempoolMonitor cov size c0) (Some c) = (m0, None) →
  out_ok cov (mm_conn (mo_monitor (foldl monitor_step (monitoring m0) evs))).
Proof.
  intros Ho Hs. pose proof (monitor_start_inv cov size c c0 m0 Ho Hs) as I.
  change m0 with (mo_monitor (monitoring m0)) in I. revert I. generalize (monitoring m0) as s.
  induction evs as [|ev evs IH]; intros s I; [apply I|]. by apply IH, monitor_step_inv.
Qed.

(** [Stop] gets its answer: after the cancellation the next turn of the read
    loop is its last, and the monitor shows that it is not connected. *)
Lemma monitor_stops (s : Monitoring (Hdr:=Hdr)) now :
  mo_reading s = true →
  let s' := foldl monitor_step s [EvCancel; EvRead now] in
  Stop_returns s' = true ∧ mm_connected (mo_monitor s') = false ∧ mo_delivered s' = mo_delivered s.
Proof. intros Hr. cbn. unfold readLoop. cbn. by rewrite Hr. Qed.

(** A read loop that has ended stays ended, and delivers nothing more. *)
Lemma monitor_ended (s : Monitoring (Hdr:=Hdr)) evs :
  mo_reading s = false →
  let s' := foldl monitor_step s evs in mo_reading s' = false ∧ mo_delivered s' = mo_delivered s.
Proof.
  revert s. induction evs as [|ev evs IH]; intros s Hr; [done|]. cbn [foldl].
  assert (mo_reading (monitor_step s ev) = false ∧ mo_delivered (monitor_step s ev) = mo_delivered s) as [Hr' <-].
  { destruct ev; cbn [monitor_step]; unfold readLoop, batchLoop; [by rewrite Hr|by case_match|done|done]. }
  by apply IH.
Qed.

(** A transaction that is pending is not asked for again, whenever it was
    asked for and whether or not the request could be sent. *)
Lemma pending_ignored now (m : MempoolMonitor (Hdr:=Hdr)) h t : mm_pending m !! h = Some t →
  mm_batch (handle_inv1 now m (InvTx h)) = mm_batch m ∧ mm_pending (handle_inv1 now m (InvTx h)) = mm_pending m.
Proof. intros Hp. unfold handle_inv1. case_match; [done|]. cbn. by rewrite Hp. Qed.

Lemma failed_write_lost h t (m : MempoolMonitor (Hdr:=Hdr)) c' : mm_pending m !! h = Some t → mm_batch m = [h] → c_fails (mm_conn m) = [true] →
  c' = mm_conn (flushBatch m) →
  mm_batch (flushBatch m) = [] ∧ c_out c' = c_out (mm_conn m) ∧ mm_pending (flushBatch m) !! h = Some t.
Proof. intros Hp Hb Hf ->. unfold flushBatch. rewrite Hb. cbn. unfold writeMsg. rewrite Hf. by split_and!. Qed.
End p2p.

(** * The peer-to-peer connections at concrete messages *)

From S2P Require Import Sha256.

(** A transaction is its bytes; a hash in text may leave out leading zeros. *)
#[export] Instance bytes_p2p : P2PLib := {
  MsgTx := bytes;
  TxHash b := sum256 (sum256 b);
  Serialize b := Some b;
  hash_text h := hex_encode (rev h);
  NewHashFromStr s := b ← hex_decode s;
    if (length b <=? 32)%nat then Some (rev b ++ replicate (32 - length b) x00) else None
}.

Abbreviation conn := (Conn (Hdr:=unit)).
Definition tx_a : bytes := lit "transaction a".
Definition tx_b : bytes := lit "transaction b".
Definition id_of (b : bytes) : bytes := hex_encode (rev (sum256 (sum256 b))).
Definition block_hash : bytes := id_of (lit "block").

Definition hello : list (wire_msg (Hdr:=unit)) := [MVersion true; MOther; MVerAck].
Definition block_conn : conn := MkConn (hello ++ [MPing 7; MBlock [tx_a : MsgTx; tx_b]]) [] [].
Definition tx_conn : conn := MkConn (hello ++ [MTx (tx_a : MsgTx); MTx (tx_b : MsgTx)]) [] [].

Definition fetcher0 : BlockTxFetcher := NewBlockTxFetcher [lit "node"].
Definition fetched : BlockTxFetcher * list (option conn) * res p2p_err bytes :=
  FetchTxFromBlock (id_of tx_a) block_hash fetcher0 [Some block_conn].
Definition fetcher1 : BlockTxFetcher := fetched.1.1.

Example fetched_tx : fetched.2 = Ok (hex_encode tx_a).
Proof. vm_compute. reflexivity. Qed.
Example cached_tx : LookupCachedTx (hex_encode (sum256 (sum256 tx_b))) fetcher1 = Ok (Some (hex_encode tx_b)).
Proof. vm_compute. reflexivity. Qed.
Example wrong_tx_skipped :
  (FetchRawTx (id_of tx_b) (NewTxFetcher [lit "node"]) [Some tx_conn]).2 = Ok (hex_encode tx_b).
Proof. vm_compute. reflexivity. Qed.

(** A block hash of less than sixteen characters is cut for a log line. *)
Example short_hash_panics :
  (FetchTxFromBlock (id_of tx_a) (lit "ab") fetcher0 ([] : list (option conn))).2 = Panic.
Proof. vm_compute. reflexivity. Qed.

Lemma fetchers_authentic_witness :
  Z.of_nat (size (bf_blockCache fetcher1)) ≤ 50 ∧ filed (id_of tx_a) (hex_encode tx_a).
Proof.
  destruct (fetchers_authentic (Hdr:=unit) [lit "node"] fetcher1) as (Hs & _ & Hl & _).
  { apply rtc_once. exists (id_of tx_a), block_hash, [Some block_conn], fetched.1.2, fetched.2.
    unfold fetcher1. destruct fetched as [[f d] r] eqn:E. exact E. }
  split; [exact Hs|]. apply Hl. vm_compute. reflexivity.
Defined.

(** The monitor, of the transactions that begin with [a]. *)
Definition coverage : gset byte := {[x61]}.
Definition quiet : conn := MkConn hello [] [].
Definition monitor0 : MempoolMonitor (Hdr:=unit) :=
  (Start (NewMempoolMonitor coverage 1000 quiet) (Some quiet)).1.
Definition monitor1 : MempoolMonitor (Hdr:=unit) :=
  (read_turn 0 (MInv [InvTx (lit "abc"); InvTx (lit "xyz"); InvBlock (lit "a"); InvTx (lit "abd")]) monitor0).1.

Example monitor1_stats : Stats monitor1 = MkMonitorStats 3 1 0 true.
Proof. vm_compute. reflexivity. Qed.
(** When the connection fails at once, the read loop ends before the last line
    of [Start], which then shows a connection that is not read any more. *)
Example monitor_stays_connected :
  let s := foldl monitor_step (monitoring (set_connected false monitor0)) [EvRead 0; EvStarted] in
  mm_connected (mo_monitor s) = true ∧ mo_reading s = false.
Proof. vm_compute. done. Qed.
Definition asked (m : wire_msg (Hdr:=unit)) : option (list bytes) :=
  match m with MGetData l => Some (inv_hash <$> l) | _ => None end.
Example monitor1_flushed : omap asked (c_out (mm_conn (flushBatch monitor1))) = [[lit "abc"; lit "abd"]].
Proof. vm_compute. reflexivity. Qed.

Lemma monitor_requests_witness :
  out_ok coverage (mm_conn (flushBatch monitor1)) ∧
  (∀ h, is_Some (mm_pending monitor1 !! h) → requested (mm_conn (flushBatch monitor1)) h).
Proof.
  assert (Start (NewMempoolMonitor coverage 1000 quiet) (Some quiet) = (monitor0, None)) as E
    by (refine (run_ok _ None _); vm_compute; reflexivity).
  assert (mon_step monitor0 monitor1) as S1 by exact (mon_read 0 _ monitor0).
  split.
  - apply (monitor_requests coverage 1000 quiet quiet monitor0); [done|exact E|].
    exact (rtc_l _ _ _ _ S1 (rtc_once _ _ (mon_flush monitor1))).
  - apply (monitor_requests coverage 1000 quiet quiet monitor0 monitor1); [done|exact E|exact (rtc_once _ _ S1)|done].
Defined.
