(* ===== verification/ProofApi.v ===== *)
(** * The proof and broadcast endpoints ([internal/api/handlers.go])

    [GET /tx/{txid}/beef], which fetches, validates and caches what the proof
    store does not have, and [POST /broadcast]. The validator, the stores and
    the relay are those of [Spv] and [TxRelay]; the clients of the fetcher are
    part of it. *)

From Stdlib Require Import Init.Byte Strings.Byte Strings.String Lia ZArith.
From stdpp Require Import base gmap sets list strings numbers.
From S2P Require Import Prelude GoStd Sha256 LevelDB GoText Http Tx TxRelay Spv.
Open Scope Z_scope.

(** A string field that is left out when empty. *)
Definition omitempty (name v : bytes) : list (bytes * json) :=
  if bool_decide (v = []) then [] else [(name, JStr v)].

Record ARCStatus := MkARCStatus { as_Submitted : bool; as_TxStatus : bytes; as_Error : bytes }.
Record BroadcastResponse := MkBroadcastResponse {
  bp_TxID : bytes; bp_Confidence : bytes; bp_Stored : bool; bp_Mempool : bool;
  bp_ARC : option ARCStatus; bp_Message : bytes
}.

Definition json_of_arc (a : ARCStatus) : json :=
  JObj ([(lit "submitted", JBool (as_Submitted a))] ++ omitempty (lit "tx_status") (as_TxStatus a) ++
        omitempty (lit "error") (as_Error a)).
Definition json_of_broadcast (b : BroadcastResponse) : json :=
  JObj ([(lit "txid", JStr (bp_TxID b)); (lit "confidence", JStr (bp_Confidence b));
         (lit "stored", JBool (bp_Stored b)); (lit "mempool", JBool (bp_Mempool b))] ++
        match bp_ARC b with Some a => [(lit "arc", json_of_arc a)] | None => [] end ++
        omitempty (lit "message") (bp_Message b)).

Section proof_api.
Context `{TxLib} `{BeefLib} {DB : Type} `{LevelDB DB} `{JsonCodec ARCResponse}.
Context (decode_info : bytes → option Z) (decode_proofs : bytes → option (list tscProof)).
(** [decode_beef] reads the [beef] of a JSON body. *)
Context (decode_beef : bytes → option bytes).
Context (fetch_text : fetch_err → bytes) (arc_text : arc_err → bytes) (bc_text : bc_err → bytes).

(** The parts of the server these handlers use; the tracker is the header
    chain as it is when the request is served. *)
Record Node := MkNode {
  nd_proofs : DB;
  nd_validator : option ValidationStats;
  nd_broadcaster : option Broadcaster
}.

(** ** GET /tx/{txid}/beef *)

(** A fetched BEEF is validated when there is a validator; the flag is whether
    it may be used. *)
Definition validate_fetched (tracker : ChainTracker) (now : Z) (beef : bytes) (v : option ValidationStats)
    : option ValidationStats * bool :=
  match v with
  | None => (None, true)
  | Some s =>
      let '(s, r) := ValidateBEEF tracker now beef s in
      (Some s, negb (bool_decide (rs_Confidence r = ConfidenceInvalid)))
  end.

(** The answer for a BEEF that is served. *)
Definition serve_beef (tracker : ChainTracker) (now : Z) (txid beef : bytes) : Handler Node := λ r st,
  if contains (header r (lit "Accept")) (lit "application/octet-stream") then
    (st, Some (MkResponse StatusOK {[ content_type := lit "application/octet-stream" ]} (Text beef)))
  else
    let '(v, confidence) :=
      match nd_validator st with
      | None => (None, [])
      | Some s => let '(s, r) := ValidateBEEF tracker now beef s in (Some s, rs_Confidence r)
      end in
    (MkNode (nd_proofs st) v (nd_broadcaster st),
     Some (writeJSON StatusOK (JObj
       ([(lit "txid", JStr txid); (lit "beef", JStr (hex_encode beef))] ++ omitempty (lit "confidence") confidence)))).

Definition handleGetBEEF (tracker : ChainTracker) (now : Z) (fetcher : option ProofFetcher) (txid : bytes)
    : Handler Node := λ r st,
  if negb (length txid =? 64)%nat then answer (writeError StatusBadRequest (lit "txid must be 64 hex characters")) r st
  else match GetBEEF txid (nd_proofs st) with
       | inr beef => serve_beef tracker now txid beef r st
       | inl _ =>
           match fetcher with
           | None => answer (writeError StatusNotFound (lit "no BEEF envelope found for this txid")) r st
           | Some f =>
               match FetchBEEF decode_info decode_proofs f txid with
               | Err e => answer (writeError StatusNotFound (lit "no BEEF available: " ++ fetch_text e)) r st
               | Panic => (st, None)
               | Ok fetched =>
                   let '(v, ok) := validate_fetched tracker now fetched (nd_validator st) in
                   let st := MkNode (nd_proofs st) v (nd_broadcaster st) in
                   if negb ok then
                     answer (writeError StatusNotFound (lit "fetched proof failed local header verification")) r st
                   else
                     let '(db, _) := StoreBEEF fetched (nd_proofs st) in
                     serve_beef tracker now txid fetched r (MkNode db (nd_validator st) (nd_broadcaster st))
               end
           end
       end.

(** ** POST /broadcast *)

Inductive read_err := RdEmpty | RdJSON | RdHex.
Definition read_text (e : read_err) : bytes :=
  match e with
  | RdEmpty => lit "empty request body"
  | RdJSON => lit "invalid JSON"
  | RdHex => lit "invalid hex in beef field"
  end.

Definition readBEEF (r : Request) : res read_err bytes :=
  let body := read_limited (10 * mib) r in
  if bool_decide (body = []) then Err RdEmpty
  else if contains (header r content_type) (lit "application/json") then
    hex ← res_of_option RdJSON (decode_beef body);
    res_of_option RdHex (hex_decode hex)
  else Ok body.

(** [?arc=true]: what the pool has under the id goes to ARC. *)
Definition submit_arc (txid : bytes) (b : Broadcaster) : ARCStatus :=
  match mempool_get txid (bc_mempool b) with
  | None => MkARCStatus false [] (lit "tx not in mempool")
  | Some raw =>
      match BroadcastToARC arc_text raw b with
      | Ok r => MkARCStatus true (br_Status r) []
      | Err e => MkARCStatus false [] (bc_text e)
      | Panic => MkARCStatus false [] []
      end
  end.

Definition store_confidence (c : bytes) : bool :=
  bool_decide (c = ConfidenceSPVVerified) || bool_decide (c = ConfidencePartiallyVerified).

(** A validator that is missing is a nil pointer that is dereferenced. *)
Definition handleBroadcast (tracker : ChainTracker) (now : Z) : Handler Node := λ r st,
  match readBEEF r with
  | Err e => answer (writeError StatusBadRequest (read_text e)) r st
  | Panic => (st, None)
  | Ok beef =>
      match nd_validator st with
      | None => (st, None)
      | Some s =>
          let '(s, result) := ValidateBEEF tracker now beef s in
          if bool_decide (rs_Confidence result = ConfidenceInvalid) then
            answer (writeJSON StatusUnprocessableEntity (json_of_broadcast
              (MkBroadcastResponse (rs_TxID result) (rs_Confidence result) false false None (rs_Message result))))
              r (MkNode (nd_proofs st) (Some s) (nd_broadcaster st))
          else
            let '(db, stored) :=
              if store_confidence (rs_Confidence result) then
                match StoreBEEF beef (nd_proofs st) with
                | (db, Ok _) => (db, true)
                | (db, _) => (db, false)
                end
              else (nd_proofs st, false) in
            let '(b, inpool) :=
              match nd_broadcaster st with
              | None => (None, false)
              | Some b => match BroadcastBEEF beef b with
                          | (b, Ok _) => (Some b, true)
                          | (b, _) => (Some b, false)
                          end
              end in
            let arc := match b with
                       | Some b => if bool_decide (query_param r (lit "arc") = lit "true")
                                   then Some (submit_arc (rs_TxID result) b) else None
                       | None => None
                       end in
            answer (writeJSON StatusOK (json_of_broadcast
              (MkBroadcastResponse (rs_TxID result) (rs_Confidence result) stored inpool arc (rs_Message result))))
              r (MkNode db (Some s) b)
      end
  end.
End proof_api.
