(* ===== verification/ProofApiProps.v ===== *)
(** * What the proof endpoints guarantee

    Whatever is requested and whatever the remote services answer, each BEEF in
    the proof store is under the id of its own transaction and carries Merkle
    proofs, all of which a header chain of the node confirmed. *)

From Stdlib Require Import Init.Byte Strings.Byte Strings.String Lia ZArith.
From stdpp Require Import base gmap sets list strings numbers.
From S2P Require Import Prelude GoStd Sha256 LevelDB Pow RawHeader HeaderStore HeaderChain RawChain.
From S2P Require Import GoText Http Tx TxRelay Spv SpvProps SpvRuns ProofApi.
Open Scope Z_scope.

Section proof_api.
Context `{TxLib} `{BeefLib} `{!BeefLaws} `{!BeefBuildLaws} {DB : Type} `{LevelDBLaws DB} `{JsonCodec ARCResponse}.
Context `{WireHeader Hdr} {HDB : Type} `{!LevelDB HDB} `{!LevelDBLaws HDB}.
Context (decode_info : bytes → option Z) (decode_proofs : bytes → option (list tscProof)).
Context (decode_beef : bytes → option bytes).
Context (fetch_text : fetch_err → bytes) (arc_text : arc_err → bytes) (bc_text : bc_err → bytes).
Abbreviation node := (Node (DB:=DB)).
Abbreviation chain := (list hdr_info).

(** The BEEF of the transaction [txid], with at least one Merkle proof, and the
    root of each of its proofs is that of the block of this chain at its
    height. *)
Definition proved_on (c : chain) (txid beef : bytes) : Prop := ∃ b tx,
  NewBeefFromBytes beef = Some b ∧ NewTransactionFromBEEF beef = Some tx ∧ TxID tx = txid ∧
  beef_roots b ≠ [] ∧ ∀ root h, (root, h) ∈ beef_roots b → hi_merkle <$> c !! Z.to_nat h = Some root.
Definition proofs_ok (chains : list chain) (db : DB) : Prop := ∀ txid beef,
  db_view db !! beefKey txid = Some beef → ∃ c, c ∈ chains ∧ proved_on c txid beef.

Lemma proofs_ok_cons c chains db : proofs_ok chains db → proofs_ok (c :: chains) db.
Proof. intros Hok txid beef (c' & ? & ?)%Hok. exists c'. split; [by right|done]. Qed.

(** A BEEF that the header store [s] answers valid, and not for want of proofs. *)
Definition accepted_proofs (s : HeaderStore.Store HDB) (beef : bytes) : Prop :=
  rs_Valid (check_beef (header_tracker (Hdr:=Hdr) s) beef).1 = true ∧ ∀ b, NewBeefFromBytes beef = Some b → BUMPs b ≠ 0.

Lemma accepted_proved s g c beef tx : store_ok (Hdr:=Hdr) s g c → accepted_proofs s beef →
  NewTransactionFromBEEF beef = Some tx → proved_on (g :: c) (TxID tx) beef.
Proof.
  intros Hok [Hv Hn] Ht. destruct (valid_beef_proofs s g c beef Hok Hv) as (b & tx' & Hb & Ht' & HB).
  exists b, tx. split; [done|]. split; [done|]. split; [done|]. pose proof (Hn b Hb) as Hne.
  split. { intros E. pose proof (beef_roots_count b) as Hc. by rewrite E in Hc. }
  case_bool_decide; [done|apply HB].
Qed.

Lemma not_invalid tr beef : rs_Confidence (check_beef tr beef).1 ≠ ConfidenceInvalid →
  rs_Valid (check_beef tr beef).1 = true.
Proof. intros Hn. destruct (rs_Valid _) eqn:E; [done|]. by apply check_beef_levels in E. Qed.

(** The two ways to the store: a broadcast that is confirmed, at least in part,
    and a fetch whose BEEF was built with its Merkle path. *)
Lemma confirmed_accepted s beef c :
  c = rs_Confidence (check_beef (header_tracker (Hdr:=Hdr) s) beef).1 → store_confidence c = true → accepted_proofs s beef.
Proof.
  intros -> Hc. unfold store_confidence in Hc.
  assert (Hne : rs_Confidence (check_beef (header_tracker (Hdr:=Hdr) s) beef).1 ≠ ConfidenceInvalid ∧
    rs_Confidence (check_beef (header_tracker (Hdr:=Hdr) s) beef).1 ≠ ConfidenceUnconfirmed).
  { apply orb_true_iff in Hc as [->%bool_decide_eq_true| ->%bool_decide_eq_true]; split; discriminate. }
  destruct Hne as [Hi Hu]. split; [by apply not_invalid|]. intros b Hb E. apply Hu. revert Hi. unfold check_beef. rewrite Hb.
  clear Hc. case_bool_decide; [by intros []|]. destruct (NewTransactionFromBEEF beef); [|by intros []]. by rewrite E.
Qed.
Lemma fetched_accepted s f txid beef : FetchBEEF decode_info decode_proofs f txid = Ok beef →
  rs_Valid (check_beef (header_tracker (Hdr:=Hdr) s) beef).1 = true → accepted_proofs s beef.
Proof.
  intros HF Hv. split; [done|]. intros b. unfold FetchBEEF, buildBEEF in HF. res_inv. by eapply BeefFromTransaction_bumps.
Qed.

Lemma StoreBEEF_ok chains s g c beef (db db' : DB) r : proofs_ok chains db → store_ok (Hdr:=Hdr) s g c → (g :: c) ∈ chains →
  accepted_proofs s beef → StoreBEEF beef db = (db', r) → proofs_ok chains db'.
Proof.
  intros Hok Hs Hc Ha. unfold StoreBEEF. destruct (NewTransactionFromBEEF beef) as [tx|] eqn:Et; [|by intros [= <- _]].
  destruct (db_put db (beefKey (TxID tx)) beef) as [db1 [e|]] eqn:Ep; intros [= <- _].
  - intros txid b. rewrite (db_put_err _ _ _ _ _ Ep). apply Hok.
  - intros txid b. rewrite (db_put_ok _ _ _ _ Ep), lookup_insert_Some.
    intros [[E <-]|[_ Hb]]; [|by apply Hok]. exists (g :: c). split; [done|].
    unfold beefKey in E. apply (inj (prefixBeef ++.)) in E. subst txid. by eapply accepted_proved.
Qed.

Lemma serve_beef_proofs tr now txid beef r (st st' : node) w : serve_beef tr now txid beef r st = (st', w) →
  nd_proofs st' = nd_proofs st ∧ (is_Some (nd_validator st) → is_Some (nd_validator st')).
Proof.
  unfold serve_beef. destruct (contains _ _); [by intros [= <- _]|].
  destruct (nd_validator st) as [s|].
  - destruct (ValidateBEEF tr now beef s). intros [= <- _]. split; [done|]. by eexists.
  - intros [= <- _]. split; [done|]. by intros [? [=]].
Qed.

(** A request served with the header store of the moment, which holds this
    chain. *)
Inductive node_step (c : chain) : node → node → Prop :=
  | get_beef s g c' now fetcher txid r st st' w :
      store_ok (Hdr:=Hdr) s g c' → c = g :: c' →
      handleGetBEEF decode_info decode_proofs fetch_text (header_tracker s) now fetcher txid r st = (st', w) → node_step c st st'
  | broadcast s g c' now r st st' w :
      store_ok (Hdr:=Hdr) s g c' → c = g :: c' →
      handleBroadcast decode_beef arc_text bc_text (header_tracker s) now r st = (st', w) → node_step c st st'.

(** Requests one after the other, the chains they saw last first. *)
Inductive served (st0 : node) : list chain → node → Prop :=
  | served_nil : served st0 [] st0
  | served_step chains st c st' : served st0 chains st → node_step c st st' → served st0 (c :: chains) st'.

Definition sound (chains : list chain) (st : node) : Prop :=
  is_Some (nd_validator st) ∧ proofs_ok chains (nd_proofs st).

Lemma get_beef_ok chains s g c now fetcher txid r st st' w : store_ok (Hdr:=Hdr) s g c → (g :: c) ∈ chains → sound chains st →
  handleGetBEEF decode_info decode_proofs fetch_text (header_tracker s) now fetcher txid r st = (st', w) → sound chains st'.
Proof.
  intros Hso Hc [[v Hv] Hok]. unfold handleGetBEEF, answer.
  assert (sound chains st) as Hst by (split; [by exists v|done]).
  destruct (negb _); [by intros [= <- _]|].
  destruct (GetBEEF txid (nd_proofs st)) as [e|beef].
  2: { intros [E HV]%serve_beef_proofs. split; [apply HV; by exists v|by rewrite E]. }
  destruct fetcher as [f|]; [|by intros [= <- _]].
  destruct (FetchBEEF _ _ f txid) as [fetched|e'|] eqn:Ef; [|by intros [= <- _]..].
  rewrite Hv. cbn [validate_fetched]. unfold ValidateBEEF.
  destruct (check_beef (header_tracker s) fetched) as [res reason] eqn:Ec. cbn [nd_proofs nd_validator nd_broadcaster].
  case_bool_decide as Ei; cbn [negb]; [intros [= <- _]; split; [by eexists|done]|].
  destruct (StoreBEEF fetched (nd_proofs st)) as [db o] eqn:Eb.
  intros [E HV]%serve_beef_proofs. split; [apply HV; by eexists|]. rewrite E. cbn [nd_proofs].
  eapply (StoreBEEF_ok _ s); [exact Hok|exact Hso|exact Hc| |exact Eb].
  eapply fetched_accepted; [exact Ef|]. apply not_invalid. by rewrite Ec.
Qed.

Lemma stored_ok chains s g c conf beef (db db' : DB) b : proofs_ok chains db → store_ok (Hdr:=Hdr) s g c → (g :: c) ∈ chains →
  conf = rs_Confidence (check_beef (header_tracker (Hdr:=Hdr) s) beef).1 →
  (if store_confidence conf
   then match StoreBEEF beef db with (db, Ok _) => (db, true) | (db, _) => (db, false) end
   else (db, false)) = (db', b) → proofs_ok chains db'.
Proof.
  intros Hok Hso Hc Hconf. destruct (store_confidence conf) eqn:Es; [|by intros [= <- _]].
  destruct (StoreBEEF beef db) as [db1 o] eqn:Eb. intros HD.
  assert (db' = db1) as -> by (by destruct o; simplify_eq).
  eapply (StoreBEEF_ok _ s); [exact Hok|exact Hso|exact Hc| |exact Eb]. by eapply confirmed_accepted.
Qed.

Lemma broadcast_ok chains s g c now r st st' w : store_ok (Hdr:=Hdr) s g c → (g :: c) ∈ chains → sound chains st →
  handleBroadcast decode_beef arc_text bc_text (header_tracker s) now r st = (st', w) → sound chains st'.
Proof.
  intros Hso Hc [[v Hv] Hok]. unfold handleBroadcast, answer.
  assert (sound chains st) as Hst by (split; [by exists v|done]).
  destruct (readBEEF decode_beef r) as [beef|e|]; [|by intros [= <- _]..].
  rewrite Hv. unfold ValidateBEEF. destruct (check_beef (header_tracker s) beef) as [res reason] eqn:Ec.
  case_bool_decide as Ei; [intros [= <- _]; split; [by eexists|done]|].
  destruct (if store_confidence _ then _ else _) as [db stored] eqn:Ed.
  apply (stored_ok chains s g c) in Ed; [|done|done|done|by rewrite Ec].
  destruct (match nd_broadcaster st with Some _ => _ | None => _ end) as [b inpool].
  intros [= <- _]. split; [by eexists|done].
Qed.

(** C11: starting from a proof store without entries and a node with a
    validator, after any requests to fetch and to broadcast, with any answers of
    the remote services and failures of the disk, every BEEF in the store is that
    of the transaction whose id it is under, carries at least one Merkle proof,
    and the root of each of its proofs is the Merkle root of the block at its
    height on the chain that the node's header store held at one of those
    requests. *)
Theorem proof_store_validated st0 chains st :
  is_Some (nd_validator st0) → (∀ txid, db_view (nd_proofs st0) !! beefKey txid = None) →
  served st0 chains st →
  ∀ txid beef, GetBEEF txid (nd_proofs st) = inr beef → ∃ c, c ∈ chains ∧ proved_on c txid beef.
Proof.
  intros Hv He Hs. assert (sound chains st) as [_ Hok].
  { induction Hs as [|chains st c st' _ [IH1 IH2] Hst].
    - split; [done|]. intros txid beef Hb. by rewrite He in Hb.
    - assert (sound (c :: chains) st) as I by (split; [done|by apply proofs_ok_cons]).
      destruct Hst as [s g c' ? ? ? ? ? ? ? Hso Ec HG|s g c' ? ? ? ? ? Hso Ec HB]; subst c.
      + eapply get_beef_ok; [exact Hso|left|exact I|exact HG].
      + eapply broadcast_ok; [exact Hso|left|exact I|exact HB]. }
  intros txid beef Hg. apply Hok. by apply db_get_ok.
Qed.

(** The answer to a fetch is not compared with the request: a valid BEEF of
    any transaction is served under the id that was asked for. *)
Lemma fetched_beef_unchecked tr now f txid r (st : node) beef s e :
  length txid = 64%nat → GetBEEF txid (nd_proofs st) = inl e → nd_validator st = Some s →
  FetchBEEF decode_info decode_proofs f txid = Ok beef → rs_Valid (check_beef tr beef).1 = true →
  contains (header r (lit "Accept")) (lit "application/octet-stream") = true →
  ∃ st', handleGetBEEF decode_info decode_proofs fetch_text tr now (Some f) txid r st =
    (st', Some (MkResponse StatusOK {[ content_type := lit "application/octet-stream" ]} (Text beef))).
Proof.
  intros Hl Hg Hs Hf Hv Ha. unfold handleGetBEEF. rewrite Hl, Hg, Hf, Hs. cbn [Nat.eqb negb validate_fetched].
  unfold ValidateBEEF. pose proof (check_beef_levels tr beef) as [_ Hi]. destruct (check_beef tr beef) as [res reason].
  cbn [fst] in *. rewrite bool_decide_false by (intros E; apply Hi in E; congruence). cbn [negb].
  destruct (StoreBEEF beef _) as [db o]. unfold serve_beef. rewrite Ha. by eexists.
Qed.
End proof_api.
