(* ===== verification/ProofApiRuns.v ===== *)
(** * The proof endpoints at a concrete payment

    A BEEF that proves the Merkle root of block 1 is broadcast to a node that
    has block 1, and is then in its proof store. *)

From Stdlib Require Import Init.Byte Strings.Byte Strings.String Lia ZArith.
From stdpp Require Import base gmap sets list strings numbers.
From S2P Require Import Prelude GoStd Sha256 LevelDB Pow RawHeader HeaderStore HeaderChain RawChain.
From S2P Require Import GoText Http Tx TxRelay Spv SpvProps SpvRuns ProofApi ProofApiProps.
Open Scope Z_scope.

#[export] Instance arc_json : JsonCodec ARCResponse :=
  frame_codec (λ a, [ar_TxID a; ar_Status a; ar_BlockHash a; ar_MerklePath a]) (λ _, None) id.
Definition no_text {A} (_ : A) : bytes := [].

Definition node0 : Node (DB:=gmap bytes bytes) :=
  MkNode ∅ (Some NewValidator) (Some (NewBroadcaster NewMempool None)).
Definition post_beef : Request := MkRequest (lit "POST") [] (lit "/broadcast") [] ∅ good_beef [].
Definition good_tx : Transaction := default (MkTx [] []) (NewTransactionFromBEEF good_beef).

Lemma post_body : readBEEF Some post_beef = Ok good_beef.
Proof.
  unfold readBEEF, read_limited. rewrite take_ge.
  - vm_compute. reflexivity.
  - assert ((length (r_body post_beef) <=? mib)%nat = true) as Hl%Nat.leb_le by (vm_compute; reflexivity). lia.
Qed.

Definition posted : Node (DB:=gmap bytes bytes) * option Response :=
  handleBroadcast Some no_text no_text tracker1 0 post_beef node0.
Definition node1 : Node (DB:=gmap bytes bytes) := posted.1.

Lemma posted_ok : match posted with
  | (node, Some w) => bool_decide (GetBEEF (TxID good_tx) (nd_proofs node) = inr good_beef) && (w_status w =? StatusOK)
  | _ => false
  end = true.
Proof. unfold posted, handleBroadcast. rewrite post_body. vm_compute. reflexivity. Qed.
Lemma node1_stored : GetBEEF (TxID good_tx) (nd_proofs node1) = inr good_beef ∧
  w_status <$> posted.2 = Some StatusOK.
Proof.
  pose proof posted_ok as Hp. unfold node1. destruct posted as [node [w|]]; [|discriminate Hp].
  apply andb_prop in Hp as [Hg%bool_decide_eq_true Hw%Z.eqb_eq]. split; [exact Hg|cbn; by rewrite Hw].
Qed.

Abbreviation served0 := (served (Hdr:=raw_header) (HDB:=gmap bytes bytes) (λ _, None) (λ _, None) Some no_text no_text no_text node0).
Lemma served1 : served0 [[info genesis; block1_info]] node1.
Proof.
  eapply served_step; [apply served_nil|].
  eapply (broadcast _ _ _ _ _ _ _ store1 (info genesis) [block1_info] 0 post_beef node0 node1); [exact store1_ok|reflexivity|].
  apply surjective_pairing.
Qed.

Lemma proof_store_validated_witness : ∃ c, c ∈ [[info genesis; block1_info]] ∧ proved_on c (TxID good_tx) good_beef.
Proof.
  eapply (proof_store_validated (λ _, None) (λ _, None) Some no_text no_text no_text node0 [[info genesis; block1_info]] node1).
  - by eexists.
  - intros txid. exact (lookup_empty (beefKey txid)).
  - exact served1.
  - exact (proj1 node1_stored).
Defined.
