(* ===== verification/NodeApi.v ===== *)
(** * The overlay and app endpoints ([internal/api/handlers.go], [internal/overlay/handlers.go])

    Registration and lookup of SHIP peers over the directory, submission and
    queries over the overlay engine, and the redirect to an app of the
    catalogue. *)

From Stdlib Require Import Init.Byte Strings.Byte Strings.String Lia ZArith.
From stdpp Require Import base gmap sets list strings numbers sorting.
From S2P Require Import Prelude GoStd Sha256 LevelDB GoText Http Ec Envelope EnvelopeStore Tx Brc Directory Engine.
Open Scope Z_scope.

(** ** The directory *)

Record RegisterRequest := MkRegisterRequest { rq_Script : bytes; rq_TxID : bytes; rq_OutputIndex : Z }.

Section directory_api.
Context {DB : Type} `{LevelDB DB} `{SdkTokens} `{JsonCodec PeerEntry} `{JsonCodec ProviderEntry}.
Context (decode_register : bytes → option RegisterRequest) (decode_deregister : bytes → option (bytes * bytes)).
Context (json_text : bytes → bytes) (kv_text : kv_err → bytes) (dir_text : dir_err → bytes).
Abbreviation dirstate := (option (Directory DB)).

Definition overlay_unavailable : Response := writeError StatusServiceUnavailable (lit "overlay not configured").

Definition handleOverlayLookup : Handler dirstate := λ r st,
  match st with
  | None => answer overlay_unavailable r st
  | Some d =>
      let topic := query_param r (lit "topic") in
      if bool_decide (topic = []) then
        answer (writeError StatusBadRequest (lit "topic query parameter required")) r st
      else match LookupSHIPByTopic topic d with
           | (_, Some e) => answer (writeError StatusInternalServerError (lit "lookup error: " ++ kv_text e)) r st
           | (peers, None) =>
               answer (writeJSON StatusOK (JObj
                 [(lit "topic", JStr topic); (lit "count", JNum (Z.of_nat (length peers)));
                  (lit "peers", jslice ((λ p, JRaw (default [] (json_marshal p))) <$> peers))])) r st
           end
  end.

Definition handleOverlayRegister (now : Z) : Handler dirstate := λ r st,
  match st with
  | None => answer overlay_unavailable r st
  | Some d =>
      let body := read_limited mib r in
      match decode_register body with
      | None => answer (writeError StatusBadRequest (lit "invalid JSON: " ++ json_text body)) r st
      | Some req =>
          match hex_decode (rq_Script req) with
          | None => answer (writeError StatusBadRequest (lit "invalid script hex")) r st
          | Some script =>
              match ProcessSHIPScript now script (rq_TxID req) (rq_OutputIndex req) d with
              | (d, Ok _) => answer (writeJSON StatusOK (JObj
                  [(lit "registered", JBool true); (lit "txid", JStr (rq_TxID req))])) r (Some d)
              | (d, Err e) => answer (writeError StatusUnprocessableEntity (lit "rejected: " ++ dir_text e)) r (Some d)
              | (d, Panic) => (Some d, None)
              end
          end
      end
  end.

Definition handleOverlayDeregister : Handler dirstate := λ r st,
  match st with
  | None => answer overlay_unavailable r st
  | Some d =>
      let body := read_limited mib r in
      match decode_deregister body with
      | None => answer (writeError StatusBadRequest (lit "invalid JSON: " ++ json_text body)) r st
      | Some (topic, ident) =>
          if bool_decide (topic = []) || bool_decide (ident = []) then
            answer (writeError StatusBadRequest (lit "topic and identity_pub required")) r st
          else match RemoveSHIPPeer topic ident d with
               | (d, Some e) => answer (writeError StatusInternalServerError (lit "deregister error: " ++ kv_text e)) r (Some d)
               | (d, None) => answer (writeJSON StatusOK (JObj
                   [(lit "deregistered", JBool true); (lit "topic", JStr topic)])) r (Some d)
               end
      end
  end.
End directory_api.

(** ** The engine *)

Section engine_api.
Context {DB : Type} `{LevelDB DB} `{TxLib} `{JsonCodec AdmittedOutput} `{MapOrder}.
(** The JSON of [X-Topics], of a tagged BEEF and of a question; the iteration
    order of the spent outputs; what the services say of themselves. *)
Context (decode_topics : bytes → option (list bytes)) (decode_tagged : bytes → option (bytes * list bytes)).
Context (decode_question : bytes → option (bytes * bytes)).
Context (visit : list (Z * AdmittedOutput) → list (Z * AdmittedOutput)).
Context (json_text : bytes → bytes) (engine_text : engine_err → bytes).
Context (topic_metadata : bytes → json) (service_about : bytes → json * json).

Definition json_of_instructions (i : AdmittanceInstructions) : json :=
  JObj ([(lit "outputsToAdmit", jslice (JNum <$> ai_OutputsToAdmit i));
         (lit "coinsToRetain", JArr (JNum <$> ai_CoinsToRetain i))] ++
        match ai_CoinsRemoved i with [] => [] | l => [(lit "coinsRemoved", JArr (JNum <$> l))] end).

Definition octet_stream : bytes := lit "application/octet-stream".

(** The transaction and the topics of a submission, or the answer. *)
Definition read_submission (r : Request) : Response + bytes * list bytes :=
  let body := read_limited (10 * mib) r in
  if bool_decide (header r content_type = octet_stream) then
    let topicsHeader := header r (lit "X-Topics") in
    if bool_decide (topicsHeader = []) then inr (body, [])
    else match decode_topics topicsHeader with
         | None => inl (writeError StatusBadRequest (lit "invalid X-Topics header"))
         | Some topics => inr (body, topics)
         end
  else match decode_tagged body with
       | None => inl (writeError StatusBadRequest (lit "invalid JSON: " ++ json_text body))
       | Some p => inr p
       end.

Definition handleSubmit : Handler (Engine DB) := λ r e,
  match read_submission r with
  | inl w => answer w r e
  | inr (txData, topics) =>
      if bool_decide (txData = []) then answer (writeError StatusBadRequest (lit "empty transaction data")) r e
      else if bool_decide (topics = []) then answer (writeError StatusBadRequest (lit "no topics specified")) r e
      else match Submit visit txData topics e with
           | (e, Err err) => answer (writeError StatusInternalServerError (engine_text err)) r e
           | (e, Panic) => (e, None)
           | (e, Ok steak) =>
               answer (writeJSON StatusOK
                 (JObj ((λ kv, (kv.1, json_of_instructions kv.2)) <$> map_order steak))) r e
           end
  end.

Definition json_of_answer (a : LookupResult) : json :=
  match a with
  | OutputList l => JObj ([(lit "type", JStr (lit "output-list"))] ++
      match l with [] => [] | _ => [(lit "outputs", JArr ((λ o, JRaw (default [] (json_marshal o))) <$> l))] end)
  | Freeform counts => JObj [(lit "type", JStr (lit "freeform"));
      (lit "result", JObj ((λ kv, (kv.1, JNum kv.2)) <$> map_order counts))]
  end.

Definition handleLookup : Handler (Engine DB) := λ r e,
  let body := read_limited mib r in
  match decode_question body with
  | None => answer (writeError StatusBadRequest (lit "invalid query: " ++ json_text body)) r e
  | Some (service, query) =>
      match Lookup service query e with
      | Ok a => answer (writeJSON StatusOK (json_of_answer a)) r e
      | Err err => answer (writeError StatusBadRequest (engine_text err)) r e
      | Panic => (e, None)
      end
  end.

Definition handleListTopics : Handler (Engine DB) := λ r e,
  answer (writeJSON StatusOK (JObj ((λ kv, (kv.1, JObj
    [(lit "documentation", JStr (tm_Documentation kv.2)); (lit "metadata", topic_metadata kv.1)])) <$>
    map_order (en_topics e)))) r e.

Definition handleListServices : Handler (Engine DB) := λ r e,
  answer (writeJSON StatusOK (JObj ((λ kv, (kv.1, JObj
    [(lit "documentation", (service_about kv.1).1); (lit "metadata", (service_about kv.1).2);
     (lit "topics", jslice (JStr <$> default [] (en_lookupTopics e !! kv.1)))])) <$>
    map_order (en_lookups e)))) r e.
End engine_api.

(** ** Apps *)

Section apps.
Context {DB : Type} `{LevelDB DB} `{EC} `{JsonCodec Envelope} `{SortSlice}.
(** A listing's name and content origin; the folding of [strings.EqualFold];
    what [http.Redirect] makes of a target; [%q]. *)
Context (decode_listing : bytes → option (bytes * bytes)) (fold_case : bytes → bytes) (clean_url quote : bytes → bytes).
Context (visit : Store DB → list (bytes * Envelope)).

Definition catalog_topic : bytes := lit "anvil:catalog".

Definition lists_app (appName : bytes) (env : Envelope) : option bytes :=
  p ← decode_listing (Payload env);
  let '(name, origin) := p in
  if bool_decide (fold_case name = fold_case appName) && negb (bool_decide (origin = [])) then Some origin else None.

(** The first listing of the app, newest first. *)
Definition find_app (appName : bytes) (envs : list Envelope) : option bytes := head (omap (lists_app appName) envs).

Definition redirect (publicURL origin : bytes) : Response :=
  let target := lit "/content/" ++ origin in
  MkResponse StatusFound
    {[ lit "Location" := clean_url (if bool_decide (publicURL = []) then target else publicURL ++ target) ]} NoBody.

Definition handleAppRedirect (now : Z) (publicURL appName : bytes) : Handler (option (Store DB)) := λ r st,
  if bool_decide (appName = []) then answer (writeError StatusBadRequest (lit "app name required")) r st
  else match st with
       | None => answer (writeError StatusServiceUnavailable (lit "no envelope store")) r st
       | Some s =>
           match QueryByTopic now (visit s) s catalog_topic 100 with
           | Ok envs =>
               match find_app appName envs with
               | Some origin => answer (redirect publicURL origin) r st
               | None => answer (writeError StatusNotFound
                   (lit "app " ++ quote appName ++ lit " not found in catalog or has no content_origin")) r st
               end
           | Err _ => answer (writeError StatusInternalServerError (lit "catalog query failed")) r st
           | Panic => (st, None)
           end
       end.

Definition handleAppRedirectWithFallback (now : Z) (publicURL fallbackOrigin appName : bytes)
    : Handler (option (Store DB)) := λ r st,
  let found :=
    match st with
    | None => None
    | Some s => match QueryByTopic now (visit s) s catalog_topic 100 with
                | Ok envs => find_app appName envs
                | _ => None
                end
    end in
  match found with
  | Some origin => answer (redirect publicURL origin) r st
  | None =>
      if negb (bool_decide (fallbackOrigin = [])) then answer (redirect publicURL fallbackOrigin) r st
      else answer (writeError StatusNotFound (lit "explorer not configured")) r st
  end.
End apps.
