(* ===== verification/Bond.v ===== *)
(** * The bond checker ([internal/bond/checker.go])

    A peer's confirmed outputs at the address of its identity, asked of
    WhatsOnChain and remembered for an hour when they are enough. *)

From Stdlib Require Import Init.Byte Strings.Byte Strings.String Lia ZArith.
From stdpp Require Import base gmap sets list strings numbers.
From S2P Require Import Prelude GoStd Sha256 LevelDB GoText Http Ec.
Open Scope Z_scope.

Definition bondCacheTTL : Z := hour.
Definition defaultWoCURL : bytes := lit "https://api.whatsonchain.com/v1/bsv/main".

(** The cache holds successes only, so an entry needs no error. *)
Record cacheEntry := MkCacheEntry { ce_balance : Z; ce_expiresAt : Z }.
Record Checker := MkChecker { bc_minSats : Z; bc_apiURL : bytes; bc_cache : gmap bytes cacheEntry }.

Definition NewChecker (minSats : Z) (apiURL : bytes) : Checker :=
  MkChecker minSats (if bool_decide (apiURL = []) then defaultWoCURL else apiURL) ∅.
Definition Required (c : Checker) : bool := 0 <? bc_minSats c.
Definition MinSats (c : Checker) : Z := bc_minSats c.

Record wocUTXO := MkWocUTXO { wu_TxHash : bytes; wu_TxPos : Z; wu_Value : Z; wu_Height : Z }.

Inductive bond_err :=
  | BeAddress | BeFetch | BeStatus (code : Z) (address : bytes) | BeDecode
  | BeInsufficient (total need : Z) (address : bytes).

(** Only confirmed outputs count; the sum is an [int]. *)
Definition add_confirmed (total : Z) (u : wocUTXO) : Z := if 0 <? wu_Height u then i64 (total + wu_Value u) else total.
Definition confirmed_total (l : list wocUTXO) : Z := foldl add_confirmed 0 l.

Section bond.
Context `{EC}.
(** go-sdk's P2PKH address of a key; the two JSON forms of an answer. *)
Context (pubKeyToAddress : PublicKey → option bytes).
Context (decode_response decode_array : bytes → option (list wocUTXO)).

(** [first] and [second] are the answers to the two requests that may be made:
    status and body. *)
Definition verifyBondHTTP (first second : bytes → option (Z * bytes)) (pub : PublicKey) (c : Checker)
    : res bond_err Z :=
  address ← res_of_option BeAddress (pubKeyToAddress pub);
  let url := bc_apiURL c ++ lit "/address/" ++ address ++ lit "/unspent/all" in
  p ← res_of_option BeFetch (first url);
  _ ← guard_err (negb (p.1 =? StatusOK)) (BeStatus p.1 address);
  utxos ← (match decode_response p.2 with
           | Some l => Ok l
           | None => p2 ← res_of_option BeDecode (second url); res_of_option BeDecode (decode_array p2.2)
           end);
  let total := confirmed_total utxos in
  _ ← guard_err (total <? bc_minSats c) (BeInsufficient total (bc_minSats c) address);
  Ok total.

Definition cached (now : Z) (key : bytes) (c : Checker) : option Z :=
  match bc_cache c !! key with
  | Some e => if now <? ce_expiresAt e then Some (ce_balance e) else None
  | None => None
  end.

(** [now] is the time of the lookup, [later] that of the answer. *)
Definition VerifyBond (now later : Z) (first second : bytes → option (Z * bytes)) (pub : PublicKey) (c : Checker)
    : Checker * res bond_err Z :=
  if bc_minSats c <=? 0 then (c, Ok 0)
  else
    let key := hex_encode (Compressed pub) in
    match cached now key c with
    | Some balance => (c, Ok balance)
    | None =>
        match verifyBondHTTP first second pub c with
        | Ok balance =>
            (MkChecker (bc_minSats c) (bc_apiURL c)
               (<[key := MkCacheEntry balance (later + bondCacheTTL)]> (bc_cache c)), Ok balance)
        | r => (c, r)
        end
    end.

(** ** What an accepted bond means *)

(** The running sum of [int]s is the sum of the confirmed values, wrapped. *)
Lemma confirmed_total_sum l : confirmed_total l = i64 (zsum (wu_Value <$> filter (λ u, 0 < wu_Height u) l)).
Proof.
  unfold confirmed_total. induction l as [|u l IH] using rev_ind; [done|].
  rewrite foldl_snoc, IH, list.filter_app, fmap_app, zsum_app. unfold add_confirmed.
  rewrite list.filter_cons, list.filter_nil. destruct (Z.ltb_spec 0 (wu_Height u)) as [Hu|Hu].
  - rewrite decide_True by done. rewrite i64_congr. cbn. do 2 f_equal. lia.
  - rewrite decide_False by lia. cbn. f_equal. lia.
Qed.

(** At time [t] WhatsOnChain answered, for the key, confirmed outputs worth
    [balance]. *)
Record answered (c : Checker) (first second : bytes → option (Z * bytes)) (pub : PublicKey) (balance : Z) : Prop := {
  an_enough : bc_minSats c ≤ balance;
  an_outputs : ∃ address code body utxos,
    pubKeyToAddress pub = Some address ∧
    first (bc_apiURL c ++ lit "/address/" ++ address ++ lit "/unspent/all") = Some (code, body) ∧ code = StatusOK ∧
    (decode_response body = Some utxos ∨
     decode_response body = None ∧ ∃ code' body',
       second (bc_apiURL c ++ lit "/address/" ++ address ++ lit "/unspent/all") = Some (code', body') ∧
       decode_array body' = Some utxos) ∧
    balance = i64 (zsum (wu_Value <$> filter (λ u, 0 < wu_Height u) utxos))
}.

Lemma verifyBondHTTP_sound first second pub c balance :
  verifyBondHTTP first second pub c = Ok balance → answered c first second pub balance.
Proof.
  unfold verifyBondHTTP. intros HH. destruct (pubKeyToAddress pub) as [address|] eqn:Ea; [|discriminate HH].
  cbn [res_of_option mbind res_mbind] in HH.
  destruct (first _) as [[code body]|] eqn:Ef; [|discriminate HH]. cbn [res_of_option mbind res_mbind fst snd] in HH.
  destruct (Z.eqb_spec code StatusOK) as [->|]; [|discriminate HH]. cbn [negb guard_err mbind res_mbind] in HH.
  destruct (match decode_response body with Some l => _ | None => _ end) as [utxos|e|] eqn:Eu; [|discriminate HH..].
  cbn [mbind res_mbind] in HH. destruct (Z.ltb_spec (confirmed_total utxos) (bc_minSats c)); [discriminate HH|].
  cbn [guard_err mbind res_mbind] in HH. injection HH as <-. split; [done|].
  exists address, StatusOK, body, utxos. split_and!; [done..| |apply confirmed_total_sum].
  destruct (decode_response body) as [l|]; [left; by injection Eu as ->|]. right. split; [done|].
  destruct (second _) as [[code' body']|]; [|discriminate Eu]. cbn in Eu.
  destruct (decode_array body') as [l|] eqn:Ed; [|discriminate Eu]. injection Eu as ->. by exists code', body'.
Qed.

(** A check: when it looked, when its answer came, the answers it would get,
    and the key. *)
Record check := MkCheck {
  k_now : Z; k_later : Z; k_first : bytes → option (Z * bytes); k_second : bytes → option (Z * bytes);
  k_pub : PublicKey
}.
Definition run_check (k : check) (c : Checker) : Checker * res bond_err Z :=
  VerifyBond (k_now k) (k_later k) (k_first k) (k_second k) (k_pub k) c.
Definition run_checks (ks : list check) (c : Checker) : Checker := foldl (λ c k, (run_check k c).1) c ks.

(** Every entry of the cache is an answer to one of the checks. *)
Definition cache_sound (ks : list check) (c : Checker) : Prop := ∀ key e, bc_cache c !! key = Some e →
  ∃ k, k ∈ ks ∧ key = hex_encode (Compressed (k_pub k)) ∧
    answered c (k_first k) (k_second k) (k_pub k) (ce_balance e) ∧ ce_expiresAt e = k_later k + bondCacheTTL.

Lemma run_check_config k c : bc_minSats (run_check k c).1 = bc_minSats c ∧ bc_apiURL (run_check k c).1 = bc_apiURL c.
Proof. unfold run_check, VerifyBond. repeat case_match; done. Qed.

Lemma answered_config c c' f s p b : bc_minSats c' = bc_minSats c → bc_apiURL c' = bc_apiURL c →
  answered c f s p b → answered c' f s p b.
Proof. intros E1 E2 [A1 A2]. split; rewrite ?E1, ?E2; done. Qed.

Lemma run_check_sound ks k c : cache_sound ks c → cache_sound (ks ++ [k]) (run_check k c).1.
Proof.
  intros Hc key e. destruct (run_check_config k c) as [E1 E2].
  assert (∀ e, bc_cache c !! key = Some e → ∃ k', k' ∈ ks ++ [k] ∧ key = hex_encode (Compressed (k_pub k')) ∧
    answered (run_check k c).1 (k_first k') (k_second k') (k_pub k') (ce_balance e) ∧
    ce_expiresAt e = k_later k' + bondCacheTTL) as Hold.
  { intros e' (k' & Hin & -> & Ha & He)%Hc. exists k'. split_and!; [set_solver|done| |done].
    by apply (answered_config c). }
  revert Hold E1 E2. unfold run_check, VerifyBond.
  destruct (_ <=? 0); [auto|]. destruct (cached _ _ c); [auto|].
  destruct (verifyBondHTTP _ _ _ c) as [b| |] eqn:Eb; [|auto..]. cbn. intros Hold E1 E2.
  rewrite lookup_insert_Some. intros [[<- <-]|[_ He]]; [|by apply Hold].
  exists k. split_and!; [set_solver|done| |done]. apply verifyBondHTTP_sound in Eb. by apply (answered_config c).
Qed.

(** A peer passes only on a bond it had: whenever a check accepts a key,
    after any checks before it, some check of the same key was answered with
    confirmed outputs worth the minimum, by the check itself or by one whose
    answer came less than an hour before. *)
Theorem VerifyBond_backed minSats apiURL ks k balance c' :
  0 < minSats → let c := run_checks ks (NewChecker minSats apiURL) in
  run_check k c = (c', Ok balance) →
  ∃ k', k' ∈ ks ++ [k] ∧ hex_encode (Compressed (k_pub k')) = hex_encode (Compressed (k_pub k)) ∧
    minSats ≤ balance ∧ answered c (k_first k') (k_second k') (k_pub k') balance ∧
    (k' = k ∨ k_now k < k_later k' + bondCacheTTL).
Proof.
  intros Hm c Hk. assert (cache_sound ks c ∧ bc_minSats c = minSats) as [Hc Hms].
  { unfold c. clear. induction ks as [|k ks [IH1 IH2]] using rev_ind; [split; [|done]|].
    - intros key e E. cbn in E. by rewrite lookup_empty in E.
    - unfold run_checks. rewrite foldl_snoc. split; [by apply run_check_sound|].
      by rewrite (proj1 (run_check_config _ _)). }
  unfold run_check, VerifyBond in Hk. rewrite (proj2 (Z.leb_gt _ _)) in Hk by lia.
  destruct (cached _ _ c) as [b|] eqn:Ec.
  - injection Hk as _ ->. unfold cached in Ec. destruct (bc_cache c !! _) as [e|] eqn:Ee; [|done].
    destruct (Z.ltb_spec (k_now k) (ce_expiresAt e)); [|done]. injection Ec as <-.
    apply Hc in Ee as (k' & Hin & Hkey & Ha & He). exists k'. split_and!; [set_solver|done| |done|right; lia].
    rewrite <- Hms. apply Ha.
  - destruct (verifyBondHTTP _ _ _ c) as [b| |] eqn:Eb; [|by simplify_eq..]. injection Hk as _ ->.
    apply verifyBondHTTP_sound in Eb. exists k. split_and!; [set_solver|done| |done|by left].
    rewrite <- Hms. apply Eb.
Qed.
End bond.

(** ** A peer that pays its bond, and is asked again while the service is down *)

Definition bond_outputs (b : bytes) : option (list wocUTXO) :=
  if bool_decide (b = lit "two") then Some [MkWocUTXO [] 0 700 800000; MkWocUTXO [] 1 500 0; MkWocUTXO [] 2 400 800001]
  else None.
Definition one_address (_ : PublicKey) : option bytes := Some (lit "1Bond").
Definition online (_ : bytes) : option (Z * bytes) := Some (StatusOK, lit "two").
Definition offline (_ : bytes) : option (Z * bytes) := None.
Definition bond_check1 : check := MkCheck 0 second online offline (x07 : @PublicKey toy_ec).
Definition bond_check2 : check := MkCheck (10 * minute) (10 * minute) offline offline (x07 : @PublicKey toy_ec).
Definition bond_check3 : check := MkCheck (2 * hour) (2 * hour) offline offline (x07 : @PublicKey toy_ec).
Abbreviation run_bond := (run_check one_address bond_outputs bond_outputs).
Definition bonded : Checker := run_checks one_address bond_outputs bond_outputs [bond_check1] (NewChecker 1000 []).

Example bond_expired : (run_bond bond_check3 bonded).2 = Err BeFetch.
Proof. vm_compute. reflexivity. Qed.

Lemma VerifyBond_backed_witness : ∃ k', k' ∈ [bond_check1; bond_check2] ∧ 1000 ≤ 1100 ∧
  answered one_address bond_outputs bond_outputs bonded (k_first k') (k_second k') (k_pub k') 1100.
Proof.
  destruct (VerifyBond_backed one_address bond_outputs bond_outputs 1000 [] [bond_check1] bond_check2 1100
    (run_bond bond_check2 bonded).1 ltac:(lia)) as (k' & Hin & _ & Hm & Ha & _).
  - refine (run_ok (run_bond bond_check2 bonded) (Ok 1100) _). vm_compute. reflexivity.
  - exists k'. split_and!; [exact Hin|exact Hm|exact Ha].
Defined.
