(* ===== verification/MeshNodes.v ===== *)
(** * The list of mesh nodes ([internal/api/mesh_nodes.go], [mesh_status.go])

    The read model of [GET /mesh/nodes]: the node itself, its direct peers, the
    heartbeats of the envelope store and the registrations of the overlay
    directory merged by identity, each node with the evidence for it; and the
    cache of topic counts of [GET /mesh/status]. *)

From Stdlib Require Import Init.Byte Strings.Byte Strings.String Lia ZArith.
From stdpp Require Import base gmap sets list strings numbers sorting fin_maps.
From S2P Require Import Prelude GoStd Sha256 LevelDB GoText Http Ec Float Envelope EnvelopeStore Slash Gossip Brc Directory.
Open Scope Z_scope.

Record MeshEvidence := MkEvidence {
  ev_Self : bool; ev_DirectPeer : bool; ev_Heartbeat : bool; ev_Overlay : bool;
  ev_HeartbeatAgeSec : option Z; ev_ConnectedSec : option Z
}.
Record MeshNode := MkMeshNode {
  mn_Identity : bytes; mn_Name : bytes; mn_Version : bytes; mn_URL : bytes; mn_Height : Z; mn_Peers : Z;
  mn_Topics : list bytes; mn_LastSeen : bytes; mn_Evidence : MeshEvidence
}.
Record Heartbeat := MkHeartbeat {
  hb_Node : bytes; hb_Version : bytes; hb_Height : Z; hb_Peers : Z; hb_Topics : list bytes
}.

Definition no_evidence : MeshEvidence := MkEvidence false false false false None None.
Definition blank_node (identity_ : bytes) : MeshNode := MkMeshNode identity_ [] [] [] 0 0 [] [] no_evidence.

Abbreviation builders := (gmap bytes MeshNode).

(** The node of an identity, made when there is none, changed by [f]. *)
Definition upsert (id_ : bytes) (f : MeshNode → MeshNode) (nodes : builders) : builders :=
  <[id_ := f (default (blank_node id_) (nodes !! id_))]> nodes.

(** The first of two strings that is not empty. *)
Definition prefer (a b : bytes) : bytes := if bool_decide (a = []) then b else a.

(** The zero [time.Time]. *)
Definition zero_time : Z := - 62135596800 * second.

(** What the node knows of itself. *)
Record Self := MkSelf {
  sf_identityPub : bytes; sf_nodeName : bytes; sf_version : bytes; sf_publicURL : bytes; sf_tip : Z
}.

Section mesh_nodes.
Context (parse_time : bytes → option Z) (decode_heartbeat : bytes → option Heartbeat).

Definition age_secs (now t : Z) : Z := f64_to_int (seconds (since now t)).

Definition self_node (now : Z) (sf : Self) (topics : list bytes) (peers : Z) : MeshNode :=
  MkMeshNode (sf_identityPub sf) (sf_nodeName sf) (sf_version sf) (sf_publicURL sf) (sf_tip sf) peers topics
    (rfc3339 now) (MkEvidence true false false false None None).

(** A direct peer, when its identity is known and not the node's own. *)
Definition peer_node (now : Z) (p : PeerInfo) (n : MeshNode) : MeshNode :=
  let ct := if bool_decide (pi_ConnectedAt p = []) then None else parse_time (pi_ConnectedAt p) in
  let ev := mn_Evidence n in
  MkMeshNode (mn_Identity n) (mn_Name n) (prefer (pi_Version p) (mn_Version n)) (mn_URL n) (mn_Height n)
    (mn_Peers n) (mn_Topics n)
    (match ct with Some _ => prefer (mn_LastSeen n) (pi_ConnectedAt p) | None => mn_LastSeen n end)
    (MkEvidence (ev_Self ev) true (ev_Heartbeat ev) (ev_Overlay ev) (ev_HeartbeatAgeSec ev)
       (match ct with Some t => Some (age_secs now t) | None => ev_ConnectedSec ev end)).
Definition merge_peer (now : Z) (self : bytes) (nodes : builders) (p : PeerInfo) : builders :=
  if bool_decide (pi_Identity p = []) || bool_decide (pi_Identity p = self) then nodes
  else upsert (pi_Identity p) (peer_node now p) nodes.

(** The newest heartbeat of each key. *)
Definition heartbeat_node (now : Z) (env : Envelope) (hb : Heartbeat) (n : MeshNode) : MeshNode :=
  let received := default zero_time (ReceivedAt env) in
  let ev := mn_Evidence n in
  MkMeshNode (mn_Identity n) (prefer (hb_Node hb) (mn_Name n)) (prefer (hb_Version hb) (mn_Version n)) (mn_URL n)
    (hb_Height hb) (hb_Peers hb) (if hb_Topics hb is [] then mn_Topics n else hb_Topics hb) (rfc3339 received)
    (MkEvidence (ev_Self ev) (ev_DirectPeer ev) true (ev_Overlay ev) (Some (age_secs now received)) (ev_ConnectedSec ev)).
Definition merge_heartbeat (now : Z) (self : bytes) (st : builders * gset bytes) (env : Envelope)
    : builders * gset bytes :=
  let '(nodes, seen) := st in
  if bool_decide (Pubkey env ∈ seen) then (nodes, seen)
  else
    let seen := {[Pubkey env]} ∪ seen in
    if bool_decide (Pubkey env = self) then (nodes, seen)
    else match decode_heartbeat (Payload env) with
         | None => (nodes, seen)
         | Some hb => (upsert (Pubkey env) (heartbeat_node now env hb) nodes, seen)
         end.

Definition overlay_node (e : PeerEntry) (n : MeshNode) : MeshNode :=
  let ev := mn_Evidence n in
  MkMeshNode (mn_Identity n) (prefer (mn_Name n) (pe_NodeName e)) (prefer (mn_Version n) (pe_Version e))
    (prefer (pe_Domain e) (mn_URL n)) (mn_Height n) (mn_Peers n) (mn_Topics n) (mn_LastSeen n)
    (MkEvidence (ev_Self ev) (ev_DirectPeer ev) (ev_Heartbeat ev) true (ev_HeartbeatAgeSec ev) (ev_ConnectedSec ev)).
(** The callback of [ForEachSHIP], which goes on. *)
Definition merge_overlay (self : bytes) (e : PeerEntry) (nodes : builders) : builders * bool :=
  (if bool_decide (pe_IdentityPub e = self) then nodes else upsert (pe_IdentityPub e) (overlay_node e) nodes, true).

(** The four sources: topics and peer count of the node itself, the peers, the
    heartbeats newest first, the registrations. *)
Definition merge_nodes (now : Z) (sf : Self) (topics : list bytes) (count : Z) (peers : list PeerInfo)
    (heartbeats : list Envelope) (ships : list PeerEntry) : builders :=
  let self := sf_identityPub sf in
  let nodes := {[ self := self_node now sf topics count ]} in
  let nodes := foldl (merge_peer now self) nodes peers in
  let nodes := (foldl (merge_heartbeat now self) (nodes, ∅) heartbeats).1 in
  call_each (merge_overlay self) ships nodes.

Definition sortRank (e : MeshEvidence) : Z :=
  if ev_Self e then 0 else if ev_DirectPeer e then 1 else if ev_Heartbeat e then 2 else 3.

Definition name_node (n : MeshNode) : MeshNode :=
  if bool_decide (mn_Name n = []) && (16 <? zlen (mn_Identity n)) then
    MkMeshNode (mn_Identity n) (take 16 (mn_Identity n) ++ lit "...") (mn_Version n) (mn_URL n) (mn_Height n)
      (mn_Peers n) (mn_Topics n) (mn_LastSeen n) (mn_Evidence n)
  else n.

(** [<] of strings. *)
Definition bytes_lt (a b : bytes) : bool := negb (bytes_le b a).
Definition node_less (a b : MeshNode) : bool :=
  let ra := sortRank (mn_Evidence a) in
  let rb := sortRank (mn_Evidence b) in
  if negb (ra =? rb) then ra <? rb else bytes_lt (mn_Name a) (mn_Name b).

Definition list_nodes `{MapOrder} `{SortSlice} (nodes : builders) : list MeshNode :=
  sort_slice node_less (name_node <$> (map_order nodes).*2).

Definition opt_num (name : bytes) (v : option Z) : list (bytes * json) :=
  match v with Some z => [(name, JNum z)] | None => [] end.
Definition num_omitempty (name : bytes) (z : Z) : list (bytes * json) := if z =? 0 then [] else [(name, JNum z)].
Definition json_of_evidence (e : MeshEvidence) : json :=
  JObj ([(lit "self", JBool (ev_Self e)); (lit "direct_peer", JBool (ev_DirectPeer e));
         (lit "heartbeat", JBool (ev_Heartbeat e)); (lit "overlay", JBool (ev_Overlay e))] ++
        opt_num (lit "heartbeat_age_secs") (ev_HeartbeatAgeSec e) ++ opt_num (lit "connected_secs") (ev_ConnectedSec e)).
Definition json_of_node (n : MeshNode) : json :=
  JObj ([(lit "identity", JStr (mn_Identity n)); (lit "name", JStr (mn_Name n)); (lit "version", JStr (mn_Version n));
         (lit "url", JStr (mn_URL n))] ++ num_omitempty (lit "height") (mn_Height n) ++
        num_omitempty (lit "peers") (mn_Peers n) ++
        (if mn_Topics n is [] then [] else [(lit "topics", JArr (JStr <$> mn_Topics n))]) ++
        [(lit "last_seen", JStr (mn_LastSeen n)); (lit "evidence", json_of_evidence (mn_Evidence n))]).

(** The parts of the server that are there. *)
Definition handleMeshNodes {DB} `{LevelDB DB} `{EC} `{JsonCodec Envelope} `{JsonCodec PeerEntry} `{MapOrder} `{SortSlice}
    (visit : Store DB → list (bytes * Envelope)) (now : Z) (sf : Self)
    (store : option (Store DB)) (peers : option (list PeerInfo)) (dir : option (Directory DB)) : Response :=
  let topics := match store with Some s => (map_order (Topics now (visit s) s)).*1 | None => [] end in
  let count := from_option (λ l, Z.of_nat (length l)) 0 peers in
  let heartbeats :=
    match store with
    | Some s => match QueryByTopic now (visit s) s (lit "mesh:heartbeat") 100 with Ok l => l | _ => [] end
    | None => []
    end in
  let self := sf_identityPub sf in
  let nodes := merge_nodes now sf topics count (default [] peers) heartbeats [] in
  let nodes := match dir with Some d => ForEachSHIP (merge_overlay self) d nodes | None => nodes end in
  let result := list_nodes nodes in
  writeJSON StatusOK (JObj [(lit "nodes", JArr (json_of_node <$> result)); (lit "count", JNum (Z.of_nat (length result)))]).
End mesh_nodes.

(** ** The topic cache ([mesh_status.go]) *)

Record topicCache := MkTopicCache {
  tc_counts : gmap bytes Z; tc_latest : gmap bytes Z; tc_updated : Z; tc_ttl : Z
}.
Definition newTopicCache (ttl : Z) : topicCache := MkTopicCache ∅ ∅ zero_time ttl.

(** [now] and [later] are the times before and after the two aggregations. *)
Definition get (now later : Z) (counts latest : gmap bytes Z) (tc : topicCache)
    : topicCache * (gmap bytes Z * gmap bytes Z) :=
  if since now (tc_updated tc) <? tc_ttl tc then (tc, (tc_counts tc, tc_latest tc))
  else (MkTopicCache counts latest later (tc_ttl tc), (counts, latest)).

(** * What the list of mesh nodes says

    Each identity is listed once, with exactly the evidence the sources have
    for it, the node itself first. *)

(** ** Evidence, source by source *)

Definition evidence : Type := bool * bool * bool * bool.
Definition flags (n : MeshNode) : evidence :=
  let e := mn_Evidence n in (ev_Self e, ev_DirectPeer e, ev_Heartbeat e, ev_Overlay e).
Definition some_evidence (e : evidence) : bool := let '(s, d, h, o) := e in s || d || h || o.
Definition no_flags : evidence := (false, false, false, false).

(** The builders hold a node for each identity there is evidence for. *)
Definition stage (E : bytes → evidence) (nodes : builders) : Prop := ∀ k,
  match nodes !! k with
  | Some n => mn_Identity n = k ∧ flags n = E k ∧ some_evidence (E k) = true
  | None => E k = no_flags
  end.

Lemma stage_ext E E' nodes : (∀ k, E k = E' k) → stage E nodes → stage E' nodes.
Proof. intros HE Hs k. specialize (Hs k). by rewrite <- HE. Qed.

Lemma upsert_stage E E' id_ f nodes : stage E nodes → (∀ k, k ≠ id_ → E' k = E k) →
  (∀ n, mn_Identity (f n) = mn_Identity n) → (∀ n, flags n = E id_ → flags (f n) = E' id_) →
  some_evidence (E' id_) = true → stage E' (upsert id_ f nodes).
Proof.
  intros Hs Hk Hi Hf Ht k. unfold upsert. destruct (decide (k = id_)) as [->|Hne].
  - rewrite lookup_insert_eq, Hi. specialize (Hs id_). destruct (nodes !! id_) as [n|]; cbn.
    + destruct Hs as (? & ? & _). split_and!; [done|by apply Hf|done].
    + split_and!; [done|by apply Hf|done].
  - rewrite lookup_insert_ne by done. specialize (Hs k). by rewrite Hk.
Qed.

Definition is_peer (self k : bytes) (p : PeerInfo) : bool :=
  bool_decide (pi_Identity p = k) && negb (bool_decide (k = [])) && negb (bool_decide (k = self)).
Definition with_peers (self : bytes) (peers : list PeerInfo) (E : bytes → evidence) (k : bytes) : evidence :=
  let '(s, d, h, o) := E k in (s, d || existsb (is_peer self k) peers, h, o).

Lemma merge_peers_stage now parse self peers E nodes : stage E nodes →
  stage (with_peers self peers E) (foldl (merge_peer parse now self) nodes peers).
Proof.
  revert E nodes. induction peers as [|p peers IH]; intros E nodes Hs; cbn [foldl].
  - eapply stage_ext; [|exact Hs]. intros k. unfold with_peers. destruct (E k) as [[[s d] h] o]. cbn. by rewrite orb_false_r.
  - eapply stage_ext; [|apply (IH (with_peers self [p] E))].
    + intros k. unfold with_peers. destruct (E k) as [[[s d] h] o]. cbn. by rewrite orb_false_r, orb_assoc.
    + unfold merge_peer. destruct (bool_decide _ || bool_decide _) eqn:Eb.
      * eapply stage_ext; [|exact Hs]. intros k. unfold with_peers. destruct (E k) as [[[s d] h] o]. cbn.
        assert (is_peer self k p = false) as ->; [|by rewrite !orb_false_r]. unfold is_peer.
        destruct (bool_decide (pi_Identity p = k)) eqn:Ek; [|done]. apply bool_decide_eq_true in Ek as <-.
        apply orb_true_iff in Eb as [->| ->]; cbn; by rewrite ?andb_false_r.
      * apply orb_false_iff in Eb as [E1%bool_decide_eq_false E2%bool_decide_eq_false].
        assert (is_peer self (pi_Identity p) p = true) as Hp.
        { unfold is_peer. by rewrite bool_decide_true, !bool_decide_false by done. }
        eapply upsert_stage; [exact Hs| |done| |].
        -- intros k Hk. unfold with_peers. destruct (E k) as [[[s d] h] o]. cbn.
           unfold is_peer. by rewrite bool_decide_false, !orb_false_r by done.
        -- intros n Hn. unfold with_peers. rewrite <- Hn. cbn. by rewrite Hp, orb_true_r.
        -- unfold with_peers. destruct (E _) as [[[s d] h] o]. cbn. by rewrite Hp, !orb_true_r.
Qed.

(** The newest heartbeat of a key, when it decodes. *)
Section heartbeats.
Context (decode_heartbeat : bytes → option Heartbeat) (self : bytes).

Definition newest (k : bytes) (l : list Envelope) : option Envelope := head (filter (λ e, Pubkey e = k) l).
Definition beats (seen : gset bytes) (l : list Envelope) (k : bytes) : bool :=
  negb (bool_decide (k = self)) && negb (bool_decide (k ∈ seen)) &&
  bool_decide (is_Some (newest k l ≫= λ e, decode_heartbeat (Payload e))).
Definition with_beats (seen : gset bytes) (l : list Envelope) (E : bytes → evidence) (k : bytes) : evidence :=
  let '(s, d, h, o) := E k in (s, d, h || beats seen l k, o).

Lemma newest_cons k e l : newest k (e :: l) = if bool_decide (Pubkey e = k) then Some e else newest k l.
Proof. unfold newest. rewrite filter_cons. repeat case_decide; case_bool_decide; done. Qed.

Lemma beats_skip seen e l k : Pubkey e ∈ seen → beats seen (e :: l) k = beats seen l k.
Proof.
  intros He. unfold beats. rewrite newest_cons. destruct (decide (Pubkey e = k)) as [<-|Hk].
  - rewrite (bool_decide_true (_ ∈ seen)) by done. by rewrite andb_false_r.
  - by rewrite (bool_decide_false (Pubkey e = k)) by done.
Qed.

Lemma beats_cons seen e l k : Pubkey e ∉ seen → beats seen (e :: l) k =
  (bool_decide (k = Pubkey e) && negb (bool_decide (k = self)) && bool_decide (is_Some (decode_heartbeat (Payload e)))) ||
  beats ({[Pubkey e]} ∪ seen) l k.
Proof.
  intros He. unfold beats. rewrite newest_cons. destruct (decide (k = Pubkey e)) as [->|Hk].
  - rewrite !(bool_decide_true (Pubkey e = Pubkey e)) by done.
    rewrite (bool_decide_true (Pubkey e ∈ {[Pubkey e]} ∪ seen)) by set_solver.
    rewrite (bool_decide_false (Pubkey e ∈ seen)) by exact He. cbn.
    by rewrite !andb_true_r, !andb_false_r, orb_false_r.
  - rewrite (bool_decide_false (k = Pubkey e)) by done. rewrite (bool_decide_false (Pubkey e = k)) by congruence. cbn [andb orb].
    by rewrite (bool_decide_ext (k ∈ {[Pubkey e]} ∪ seen) (k ∈ seen)) by set_solver.
Qed.

Lemma merge_beats_stage now l seen E nodes : stage E nodes →
  stage (with_beats seen l E) (foldl (merge_heartbeat decode_heartbeat now self) (nodes, seen) l).1.
Proof.
  revert seen E nodes. induction l as [|e l IH]; intros seen E nodes Hs; cbn [foldl].
  - eapply stage_ext; [|exact Hs]. intros k. unfold with_beats, beats. destruct (E k) as [[[s d] h] o]. cbn.
    by rewrite andb_false_r, orb_false_r.
  - unfold merge_heartbeat at 2. case_bool_decide as Es.
    { eapply stage_ext; [|by apply (IH seen)]. intros k. unfold with_beats. by rewrite beats_skip. }
    set (new := λ k, bool_decide (k = Pubkey e) && negb (bool_decide (k = self)) &&
                     bool_decide (is_Some (decode_heartbeat (Payload e)))).
    set (E1 := λ k, let '(s, d, h, o) := E k in (s, d, h || new k, o)).
    assert (∀ nodes', stage E1 nodes' → stage (with_beats seen (e :: l) E)
      (foldl (merge_heartbeat decode_heartbeat now self) (nodes', {[Pubkey e]} ∪ seen) l).1) as Hnext.
    { intros nodes' Hs'. eapply stage_ext; [|by apply (IH _ E1)]. intros k. unfold with_beats, E1.
      rewrite (beats_cons seen e l k Es). fold (new k). destruct (E k) as [[[s d] h] o]. by rewrite orb_assoc. }
    assert ((∀ k, new k = false) → stage E1 nodes) as Hsame.
    { intros Hn. eapply stage_ext; [|exact Hs]. intros k. unfold E1. destruct (E k) as [[[s d] h] o].
      by rewrite Hn, orb_false_r. }
    case_bool_decide as Eself.
    { apply Hnext, Hsame. intros k. unfold new. case_bool_decide as Ek; [|done].
      rewrite Ek, Eself, (bool_decide_true (self = self)) by done. done. }
    destruct (decode_heartbeat (Payload e)) as [hb|] eqn:Ed; apply Hnext.
    + assert (new (Pubkey e) = true) as Hnew.
      { unfold new. by rewrite bool_decide_true, bool_decide_false, bool_decide_true by (done || by rewrite Ed). }
      eapply upsert_stage; [exact Hs| |done| |]; unfold E1.
      * intros k Hk. destruct (E k) as [[[s d] h] o]. unfold new. by rewrite bool_decide_false, orb_false_r by done.
      * intros n Hn. rewrite <- Hn. cbn. by rewrite Hnew, orb_true_r.
      * destruct (E _) as [[[s d] h] o]. cbn. by rewrite Hnew, !orb_true_r.
    + apply Hsame. intros k. unfold new. rewrite (bool_decide_false (is_Some None)) by (by intros []).
      by rewrite andb_false_r.
Qed.
End heartbeats.

Definition is_registered (self k : bytes) (e : PeerEntry) : bool :=
  bool_decide (pe_IdentityPub e = k) && negb (bool_decide (k = self)).
Definition with_ships (self : bytes) (ships : list PeerEntry) (E : bytes → evidence) (k : bytes) : evidence :=
  let '(s, d, h, o) := E k in (s, d, h, o || existsb (is_registered self k) ships).

Lemma merge_ships_stage self ships E nodes : stage E nodes →
  stage (with_ships self ships E) (call_each (merge_overlay self) ships nodes).
Proof.
  revert E nodes. induction ships as [|e ships IH]; intros E nodes Hs; cbn [call_each].
  - eapply stage_ext; [|exact Hs]. intros k. unfold with_ships. destruct (E k) as [[[s d] h] o]. cbn. by rewrite orb_false_r.
  - unfold merge_overlay. eapply stage_ext; [|apply (IH (with_ships self [e] E))].
    + intros k. unfold with_ships. destruct (E k) as [[[s d] h] o]. cbn. by rewrite orb_false_r, orb_assoc.
    + case_bool_decide as Es.
      * eapply stage_ext; [|exact Hs]. intros k. unfold with_ships. destruct (E k) as [[[s d] h] o]. cbn.
        unfold is_registered. rewrite Es. case_bool_decide as Ek; [|by rewrite !orb_false_r].
        rewrite (bool_decide_true (k = self)) by done. by rewrite !orb_false_r.
      * assert (is_registered self (pe_IdentityPub e) e = true) as Hr.
        { unfold is_registered. by rewrite bool_decide_true, bool_decide_false by done. }
        eapply upsert_stage; [exact Hs| |done| |]; unfold with_ships.
        -- intros k Hk. destruct (E k) as [[[s d] h] o]. cbn. unfold is_registered.
           by rewrite bool_decide_false, !orb_false_r by done.
        -- intros n Hn. rewrite <- Hn. cbn. by rewrite Hr, orb_true_r.
        -- destruct (E _) as [[[s d] h] o]. cbn. by rewrite Hr, !orb_true_r.
Qed.

(** ** The order of the list *)

Lemma bytes_le_trans a b c : bytes_le a b = true → bytes_le b c = true → bytes_le a c = true.
Proof.
  revert b c. induction a as [|x a IH]; intros [|y b] [|z c]; cbn; try done.
  destruct (Z.ltb_spec (byte_z x) (byte_z y)), (Z.ltb_spec (byte_z y) (byte_z x)),
    (Z.ltb_spec (byte_z y) (byte_z z)), (Z.ltb_spec (byte_z z) (byte_z y)),
    (Z.ltb_spec (byte_z x) (byte_z z)), (Z.ltb_spec (byte_z z) (byte_z x)); try done; try lia. apply IH.
Qed.

Lemma not_less_node x y : not_less node_less x y ↔
  sortRank (mn_Evidence x) < sortRank (mn_Evidence y) ∨
  sortRank (mn_Evidence x) = sortRank (mn_Evidence y) ∧ bytes_le (mn_Name x) (mn_Name y) = true.
Proof.
  unfold not_less, node_less, bytes_lt. case_match eqn:E.
  - apply negb_true_iff, Z.eqb_neq in E. rewrite Z.ltb_ge. lia.
  - apply negb_false_iff, Z.eqb_eq in E. rewrite E, negb_false_iff. intuition lia.
Qed.
#[export] Instance not_less_node_trans : Transitive (not_less node_less).
Proof.
  intros x y z. rewrite !not_less_node. intros [H1|[H1 L1]] [H2|[H2 L2]]; try (left; lia).
  right. split; [lia|]. by eapply bytes_le_trans.
Qed.
#[export] Instance not_less_node_total : Total (not_less node_less).
Proof.
  intros x y. rewrite !not_less_node. destruct (bytes_le_total (mn_Name x) (mn_Name y)), 
    (Z.lt_trichotomy (sortRank (mn_Evidence x)) (sortRank (mn_Evidence y))) as [?|[?|?]]; eauto.
Qed.

(** ** The list *)

Section list.
Context `{MapOrderLaws} `{SortSliceLaws}.
Context (parse_time : bytes → option Z) (decode_heartbeat : bytes → option Heartbeat).

(** What the sources say of an identity. *)
Definition evidence_of (self : bytes) (peers : list PeerInfo) (heartbeats : list Envelope) (ships : list PeerEntry)
    (k : bytes) : evidence :=
  (bool_decide (k = self), existsb (is_peer self k) peers, beats decode_heartbeat self ∅ heartbeats k,
   existsb (is_registered self k) ships).

Lemma merge_nodes_stage now sf topics count peers heartbeats ships :
  stage (evidence_of (sf_identityPub sf) peers heartbeats ships)
    (merge_nodes parse_time decode_heartbeat now sf topics count peers heartbeats ships).
Proof.
  set (self := sf_identityPub sf). set (E0 := λ k, (bool_decide (k = self), false, false, false)).
  eapply stage_ext; [|apply merge_ships_stage, merge_beats_stage, merge_peers_stage with (E := E0)].
  - intros k. done.
  - intros k. unfold E0. destruct (decide (k = self)) as [->|Hk].
    + rewrite lookup_singleton_eq, bool_decide_true by done. done.
    + rewrite lookup_singleton_ne, bool_decide_false by done. done.
Qed.

Lemma name_node_identity n : mn_Identity (name_node n) = mn_Identity n.
Proof. unfold name_node. by case_match. Qed.
Lemma name_node_evidence n : mn_Evidence (name_node n) = mn_Evidence n.
Proof. unfold name_node. by case_match. Qed.

Lemma elem_of_list_nodes E nodes n : stage E nodes → n ∈ list_nodes nodes →
  flags n = E (mn_Identity n) ∧ some_evidence (E (mn_Identity n)) = true.
Proof.
  intros Hs Hn. unfold list_nodes in Hn. rewrite sort_slice_perm in Hn.
  apply list_elem_of_fmap in Hn as (m & -> & ([k m'] & -> & Hk)%list_elem_of_fmap). cbn.
  rewrite elem_of_map_order in Hk. specialize (Hs k). rewrite Hk in Hs. destruct Hs as (Hi & Hf & Ht).
  unfold flags in *. rewrite name_node_identity, name_node_evidence, Hi. done.
Qed.

Lemma list_nodes_identities E nodes : stage E nodes →
  mn_Identity <$> list_nodes nodes ≡ₚ (map_order nodes).*1.
Proof.
  intros Hs. unfold list_nodes. rewrite sort_slice_perm, <- !list_fmap_compose.
  assert (∀ kn, kn ∈ map_order nodes → (mn_Identity ∘ name_node ∘ snd) kn = kn.1) as Hall.
  { intros [k n] Hk. rewrite elem_of_map_order in Hk. specialize (Hs k). rewrite Hk in Hs. cbn.
    rewrite name_node_identity. by apply Hs. }
  replace (_ <$> _) with ((map_order nodes).*1); [done|]. symmetry. apply list_fmap_ext.
  intros i x Hx. apply Hall. by eapply list_elem_of_lookup_2.
Qed.

(** The node list of [GET /mesh/nodes] has each identity once, the node
    itself first and the others in the order of their rank and name; it lists
    exactly the identities the sources have evidence for, and the evidence
    shown for a node is what the sources say of it: itself, a direct peer with
    that identity, a newest heartbeat that decodes, a registration. *)
Theorem mesh_nodes_merge now sf topics count peers heartbeats ships
    (self := sf_identityPub sf) (E := evidence_of self peers heartbeats ships)
    (nodes := list_nodes (merge_nodes parse_time decode_heartbeat now sf topics count peers heartbeats ships)) :
  NoDup (mn_Identity <$> nodes) ∧
  (∀ n, n ∈ nodes → flags n = E (mn_Identity n)) ∧
  (∀ k, k ∈ mn_Identity <$> nodes ↔ some_evidence (E k) = true) ∧
  StronglySorted (not_less node_less) nodes ∧
  head (mn_Identity <$> nodes) = Some self.
Proof.
  pose proof (merge_nodes_stage now sf topics count peers heartbeats ships) as Hs. fold self E in Hs.
  pose proof (list_nodes_identities _ _ Hs) as Hp. fold nodes in Hp.
  assert (∀ k, k ∈ mn_Identity <$> nodes ↔ some_evidence (E k) = true) as Hin.
  { intros k. rewrite Hp, list_elem_of_fmap. split.
    - intros ([k' n] & -> & Hk). rewrite elem_of_map_order in Hk. specialize (Hs k'). rewrite Hk in Hs. apply Hs.
    - intros Ht. specialize (Hs k). destruct (_ !! k) as [n|] eqn:Hk; [|by rewrite Hs in Ht].
      exists (k, n). by rewrite elem_of_map_order. }
  assert (StronglySorted (not_less node_less) nodes) as Hsort.
  { unfold nodes, list_nodes. apply sort_slice_weak; apply _. }
  assert (∀ n, n ∈ nodes → flags n = E (mn_Identity n)) as Hf by (intros n Hn; by eapply elem_of_list_nodes).
  assert (NoDup (mn_Identity <$> nodes)) as Hnd by (rewrite Hp, map_order_perm; apply NoDup_fst_map_to_list).
  split_and!; [done..|].
  assert (∀ n, n ∈ nodes → ev_Self (mn_Evidence n) = bool_decide (mn_Identity n = self)) as Hself.
  { intros n Hn. by apply Hf, (f_equal (λ e : evidence, e.1.1.1)) in Hn. }
  assert (self ∈ mn_Identity <$> nodes) as (n & Hn & Hin')%list_elem_of_fmap.
  { apply Hin. unfold E, evidence_of. by rewrite (bool_decide_true (self = self)) by done. }
  clear Hp Hf Hin Hnd. clearbody nodes. pose proof (Hself n Hin') as Hsn.
  rewrite bool_decide_true in Hsn by done.
  destruct Hsort as [|m l _ Hall]; [by apply elem_of_nil in Hin'|]. cbn. f_equal.
  apply elem_of_cons in Hin' as [->|Hin']; [done|]. rewrite Forall_forall in Hall.
  apply Hall, not_less_node in Hin' as Hle.
  pose proof (Hself m (list_elem_of_here _ _)) as Hm.
  unfold sortRank in Hle. rewrite Hsn in Hle. destruct (ev_Self (mn_Evidence m)) eqn:Em.
  - symmetry in Hm. by apply bool_decide_eq_true in Hm.
  - exfalso. repeat case_match; lia.
Qed.
End list.

(** ** Four sources that overlap *)

Definition beat (key payload : string) : Envelope :=
  MkEnvelope (lit "data") (lit "mesh:heartbeat") (lit payload) [] (lit key) 60 false 0 false None (Some 0).
Definition no_beat_is_bad (b : bytes) : option Heartbeat :=
  if bool_decide (b = lit "bad") then None else Some (MkHeartbeat b [] 7 2 []).
Definition registered (key : string) : PeerEntry :=
  MkPeerEntry (lit key) (lit "https://x") (lit "n") [] (lit "t") [] 0 None None.
Definition mesh_example : list MeshNode :=
  list_nodes (merge_nodes (λ _, None) no_beat_is_bad 100 (MkSelf (lit "me") (lit "node") (lit "1") [] 9) [] 2
    [MkPeerInfo (lit "pa") [] 0 [] [] 0; MkPeerInfo [] [] 0 [] [] 0]
    [beat "pb" "bad"; beat "pb" "good"; beat "pa" "good"; beat "me" "good"] [registered "pb"; registered "me"]).

(** The older heartbeat of a key whose newest does not decode is not used. *)
Example mesh_example_flags : (λ n, (mn_Identity n, flags n)) <$> mesh_example =
  [(lit "me", (true, false, false, false)); (lit "pa", (false, true, true, false)); (lit "pb", (false, false, false, true))].
Proof. vm_compute. done. Qed.

Lemma mesh_nodes_merge_witness : head (mn_Identity <$> mesh_example) = Some (lit "me").
Proof. apply mesh_nodes_merge. Defined.
