(* ===== verification/Config.v ===== *)
(** * The configuration ([internal/config/config.go]) and the commands that read it

    The defaults, the file, the deprecated section, the overrides from the
    environment and the API token that is derived from the identity; and
    [anvil token] and [anvil info] ([cmd/anvil/token.go], [info.go]), which read
    the same configuration after the [.env] file beside it. *)

From Stdlib Require Import Init.Byte Strings.Byte Strings.String Lia ZArith.
From stdpp Require Import base gmap sets list strings numbers.
From S2P Require Import Prelude GoStd Sha256 LevelDB GoText Http Ec RateLimit.
Open Scope Z_scope.

(** ** crypto/hmac with SHA-256 *)

Definition hmac_key (key : bytes) : bytes :=
  let key := if 64 <? zlen key then sum256 key else key in
  key ++ replicate (64 - length key) x00.
Definition xor_bytes (z : Z) (b : bytes) : bytes := (λ c, z_byte (Z.lxor (byte_z c) z)) <$> b.
Definition hmac_sha256 (key msg : bytes) : bytes :=
  let key := hmac_key key in
  sum256 (xor_bytes 0x5c key ++ sum256 (xor_bytes 0x36 key ++ msg)).

(** The second test case of RFC 4231. *)
Example hmac_rfc4231 : hex_encode (hmac_sha256 (lit "Jefe") (lit "what do ya want for nothing?")) =
  lit "5bdcc146bf60754e6a042426089575c75a003f089d2739839dec58b964ec3843".
Proof. vm_compute. reflexivity. Qed.

(** ** The configuration *)

Record NodeConfig := MkNodeConfig {
  nc_Name : bytes; nc_DataDir : bytes; nc_Listen : bytes; nc_APIListen : bytes; nc_PublicURL : bytes
}.
Record MeshConfig := MkMeshConfig {
  mc_Seeds : list bytes; mc_MinBondSats : Z; mc_BondCheckURL : bytes; mc_LocalPubkeys : list bytes
}.
Record ARCConfig := MkARCConfig {
  ac_Enabled : bool; ac_URL : bytes; ac_APIKey : bytes; ac_TAALEnabled : bool; ac_TAALURL : bytes; ac_TAALAPIKey : bytes
}.
Record JungleBusSubscription := MkSubscription { sb_ID : bytes; sb_Name : bytes; sb_FromBlock : Z }.
Record JungleBusConfig := MkJungleBus {
  jb_Enabled : bool; jb_URL : bytes; jb_Subscriptions : list JungleBusSubscription
}.
Record OverlayConfig := MkOverlay { ov_Enabled : bool; ov_Topics : list bytes }.
Record MempoolConfig := MkMempool {
  mp_Enabled : bool; mp_Prefixes : list Z; mp_MaxTxSize : Z; mp_TTLSeconds : Z
}.
Record EnvelopeConfig := MkEnvelopes {
  ec_MaxEphemeralTTL : Z; ec_MaxDurableSize : Z; ec_MaxDurableStoreMB : Z; ec_WarnAtPercent : Z
}.
Record AppPaymentConfig := MkAppPayments {
  ap_AllowPassthrough : bool; ap_AllowSplit : bool; ap_AllowTokenGating : bool; ap_MaxAppPriceSats : Z
}.
Record APIConfig := MkAPI {
  api_AuthToken : bytes; api_TLSCert : bytes; api_TLSKey : bytes; api_RateLimit : Z; api_TrustProxy : bool;
  api_PaymentSatoshis : Z; api_RequireMempool : bool; api_EndpointPrices : gmap bytes Z;
  api_AppPayments : AppPaymentConfig; api_ExplorerOrigin : bytes
}.
(** The sections [identity], [peers] and [bsv] have one field each. *)
Record Config := MkConfig {
  cf_Node : NodeConfig; cf_WIF : bytes; cf_PeerSeeds : list bytes; cf_Mesh : MeshConfig; cf_Foundry : MeshConfig;
  cf_Nodes : list bytes; cf_ARC : ARCConfig; cf_JungleBus : JungleBusConfig; cf_Overlay : OverlayConfig;
  cf_Envelopes : EnvelopeConfig; cf_Mempool : MempoolConfig; cf_API : APIConfig
}.

Definition defaults : Config := {|
  cf_Node := MkNodeConfig (lit "anvil") (lit "/var/lib/anvil") (lit "0.0.0.0:8333") (lit "0.0.0.0:9333") [];
  cf_WIF := []; cf_PeerSeeds := [];
  cf_Mesh := MkMeshConfig [] 0 [] []; cf_Foundry := MkMeshConfig [] 0 [] [];
  cf_Nodes := [lit "seed.bitcoinsv.io:8333"; lit "seed.cascharia.com:8333"; lit "seed.satoshisvision.network:8333"];
  cf_ARC := MkARCConfig true (lit "https://arc.gorillapool.io") [] false (lit "https://arc.taal.com") [];
  cf_JungleBus := MkJungleBus true (lit "junglebus.gorillapool.io") [];
  cf_Overlay := MkOverlay true [lit "anvil:mainnet"];
  cf_Envelopes := MkEnvelopes 3600 65536 10240 80;
  cf_Mempool := MkMempool false [] (2 ^ 20) 3600;
  cf_API := MkAPI [] [] [] 100 false 0 false ∅ (MkAppPayments true true true 10000) []
|}.

Definition set_wif (wif : bytes) (c : Config) : Config :=
  MkConfig (cf_Node c) wif (cf_PeerSeeds c) (cf_Mesh c) (cf_Foundry c) (cf_Nodes c) (cf_ARC c) (cf_JungleBus c)
    (cf_Overlay c) (cf_Envelopes c) (cf_Mempool c) (cf_API c).
Definition set_mesh (m : MeshConfig) (c : Config) : Config :=
  MkConfig (cf_Node c) (cf_WIF c) (cf_PeerSeeds c) m (cf_Foundry c) (cf_Nodes c) (cf_ARC c) (cf_JungleBus c)
    (cf_Overlay c) (cf_Envelopes c) (cf_Mempool c) (cf_API c).
Definition set_arc (a : ARCConfig) (c : Config) : Config :=
  MkConfig (cf_Node c) (cf_WIF c) (cf_PeerSeeds c) (cf_Mesh c) (cf_Foundry c) (cf_Nodes c) a (cf_JungleBus c)
    (cf_Overlay c) (cf_Envelopes c) (cf_Mempool c) (cf_API c).
Definition set_token (t : bytes) (c : Config) : Config :=
  let a := cf_API c in
  MkConfig (cf_Node c) (cf_WIF c) (cf_PeerSeeds c) (cf_Mesh c) (cf_Foundry c) (cf_Nodes c) (cf_ARC c) (cf_JungleBus c)
    (cf_Overlay c) (cf_Envelopes c) (cf_Mempool c)
    (MkAPI t (api_TLSCert a) (api_TLSKey a) (api_RateLimit a) (api_TrustProxy a) (api_PaymentSatoshis a)
       (api_RequireMempool a) (api_EndpointPrices a) (api_AppPayments a) (api_ExplorerOrigin a)).

Definition deriveAuthToken (wif : bytes) : bytes := hex_encode (hmac_sha256 wif (lit "anvil-api-auth")).

(** ** The environment *)

Abbreviation environ := (gmap bytes bytes).
Definition getenv (key : bytes) (env : environ) : bytes := default [] (env !! key).
(** [os.Setenv], which refuses an empty key, one with [=] and zero bytes. *)
Definition setenv (key val : bytes) (env : environ) : environ :=
  if bool_decide (key = []) || bool_decide (x3d ∈ key) || bool_decide (x00 ∈ key) || bool_decide (x00 ∈ val)
  then env else <[key := val]> env.

Definition wif_var : bytes := lit "ANVIL_IDENTITY_WIF".
Definition taal_var : bytes := lit "ANVIL_TAAL_API_KEY".

Inductive config_err := CeRead | CeParse.

Section config.
(** The TOML library decodes a text over a configuration: fields that the text
    does not name keep their values. *)
Context (toml_unmarshal : bytes → Config → option Config).

(** The section [foundry] stands in for an empty list of seeds. *)
Definition merge_foundry (c : Config) : Config :=
  match mc_Seeds (cf_Foundry c), mc_Seeds (cf_Mesh c) with
  | (_ :: _) as seeds, [] =>
      let m := cf_Mesh c in set_mesh (MkMeshConfig seeds (mc_MinBondSats m) (mc_BondCheckURL m) (mc_LocalPubkeys m)) c
  | _, _ => c
  end.

Definition env_overrides (env : environ) (c : Config) : Config :=
  let v := getenv wif_var env in
  let c := if bool_decide (v = []) then c else set_wif v c in
  let v := getenv taal_var env in
  if bool_decide (v = []) then c
  else let a := cf_ARC c in set_arc (MkARCConfig (ac_Enabled a) (ac_URL a) (ac_APIKey a) true (ac_TAALURL a) v) c.

Definition derive_token (c : Config) : Config :=
  if bool_decide (api_AuthToken (cf_API c) = []) && negb (bool_decide (cf_WIF c = []))
  then set_token (deriveAuthToken (cf_WIF c)) c else c.

Definition Load (files env : environ) (path : bytes) : res config_err Config :=
  data ← res_of_option CeRead (files !! path);
  cfg ← res_of_option CeParse (toml_unmarshal data defaults);
  Ok (derive_token (env_overrides env (merge_foundry cfg))).

(** ** The [.env] file *)

Context (uni : bytes → bytes).

(** [filepath.Ext]: from the last dot of the last element of the path. *)
Fixpoint ext_rev (r : bytes) (acc : bytes) : bytes :=
  match r with
  | [] => []
  | c :: r => if decide (c = x2f) then [] else if decide (c = x2e) then c :: acc else ext_rev r (c :: acc)
  end.
Definition filepath_Ext (path : bytes) : bytes := ext_rev (rev path) [].
Definition trim_suffix (s suffix : bytes) : bytes :=
  if bool_decide (suffix `suffix_of` s) then take (length s - length suffix) s else s.

(** [bufio.Scanner] by lines: a line of 64 KiB or more stops it. *)
Definition max_line : nat := Z.to_nat 65535.
Fixpoint scan_lines (lines : list bytes) : list bytes :=
  match lines with
  | [] => []
  | l :: lines =>
      if (max_line <? length l)%nat then []
      else (if bool_decide (list.last l = Some x0d) then take (length l - 1) l else l) :: scan_lines lines
  end.
(** The lines of a text; nothing follows a last line break. *)
Definition text_lines (text : bytes) : list bytes :=
  match rev (split_on x0a text) with
  | [] :: r => rev r
  | r => rev r
  end.

(** A line [KEY=VALUE] that is not a comment. *)
Definition env_line (line : bytes) : option (bytes * bytes) :=
  let line := trim_space uni line in
  if bool_decide (line = []) || has_prefix line (lit "#") then None
  else match split2 x3d line with
       | (_, None) => None
       | (k, Some v) => Some (trim_space uni k, trim_space uni v)
       end.

Definition set_default (env : environ) (kv : bytes * bytes) : environ :=
  if bool_decide (getenv kv.1 env = []) then setenv kv.1 kv.2 env else env.

Definition env_path (configPath : bytes) : bytes := trim_suffix configPath (filepath_Ext configPath) ++ lit ".env".

Definition loadEnvFile (files : environ) (configPath : bytes) (env : environ) : environ :=
  match files !! env_path configPath with
  | None => env
  | Some text => foldl set_default env (omap env_line (scan_lines (text_lines text)))
  end.

(** ** anvil token, anvil info *)

Definition defaultConfigPath (files : environ) : bytes :=
  if bool_decide (is_Some (files !! lit "/etc/anvil/node-a.toml")) then lit "/etc/anvil/node-a.toml" else lit "anvil.toml".

Inductive cmd_err := CmdConfig (e : config_err) | CmdNoIdentity | CmdWIF | CmdAddress.

(** What is printed, or why the command exits with 1. *)
Definition cmdToken (files env : environ) (configPath : bytes) : res cmd_err bytes :=
  let env := loadEnvFile files configPath env in
  cfg ← res_map_err CmdConfig (Load files env configPath);
  let token := api_AuthToken (cf_API cfg) in
  _ ← guard_err (bool_decide (token = [])) CmdNoIdentity;
  Ok token.

Context `{EC} (PrivateKeyFromWif : bytes → option PrivateKey) (address_of : PublicKey → option bytes).

(** Identity, address and token. *)
Definition cmdInfo (files env : environ) (configPath : bytes) : res cmd_err (bytes * bytes * bytes) :=
  let env := loadEnvFile files configPath env in
  cfg ← res_map_err CmdConfig (Load files env configPath);
  _ ← guard_err (bool_decide (cf_WIF cfg = [])) CmdNoIdentity;
  key ← res_of_option CmdWIF (PrivateKeyFromWif (cf_WIF cfg));
  let pub := PubKey key in
  addr ← res_of_option CmdAddress (address_of pub);
  Ok (hex_encode (Compressed pub), addr, api_AuthToken (cf_API cfg)).
End config.

(** * What the configuration promises

    The token that [anvil token] prints is the one that the node it configures
    asks for, and the [.env] file fills in what the environment leaves open. *)

(** ** The environment *)

Definition env_key (k : bytes) : bool := negb (bool_decide (k = []) || bool_decide (x3d ∈ k) || bool_decide (x00 ∈ k)).

Lemma getenv_setenv k k' v env : getenv k (setenv k' v env) =
  if bool_decide (k = k') && env_key k && negb (bool_decide (x00 ∈ v)) then v else getenv k env.
Proof.
  unfold setenv, env_key. destruct (decide (k = k')) as [->|Hk].
  - rewrite (bool_decide_true (k' = k')) by done.
    destruct (bool_decide (k' = [])), (bool_decide (x3d ∈ k')), (bool_decide (x00 ∈ k')), (bool_decide (x00 ∈ v));
      cbn; try done. unfold getenv. by rewrite lookup_insert_eq.
  - rewrite (bool_decide_false (k = k')) by done. cbn [andb]. case_match; [done|].
    unfold getenv. by rewrite lookup_insert_ne.
Qed.

(** The first value for [k] that can be set and is not empty. *)
Fixpoint first_value (k : bytes) (l : list (bytes * bytes)) : bytes :=
  match l with
  | [] => []
  | (k', v) :: l =>
      if bool_decide (k = k') && env_key k && negb (bool_decide (x00 ∈ v)) && negb (bool_decide (v = [])) then v
      else first_value k l
  end.

Lemma getenv_set_defaults k l env : getenv k (foldl set_default env l) =
  if bool_decide (getenv k env = []) then first_value k l else getenv k env.
Proof.
  revert env. induction l as [|[k' v] l IH]; intros env; cbn [foldl first_value].
  { case_bool_decide as E; [by rewrite E|done]. }
  rewrite IH. unfold set_default. cbn [fst snd]. destruct (decide (k = k')) as [->|Hk].
  - rewrite (bool_decide_true (k' = k')) by done. cbn [andb].
    destruct (decide (getenv k' env = [])) as [E|E].
    + rewrite (bool_decide_true (getenv k' env = [])) by done. rewrite getenv_setenv, (bool_decide_true (k' = k')) by done.
      cbn [andb]. destruct (env_key k' && negb (bool_decide (x00 ∈ v))) eqn:Ek; cbn [andb].
      * destruct (decide (v = [])) as [->|Hv].
        -- by rewrite (bool_decide_true ([] = [])) by done.
        -- by rewrite !(bool_decide_false (v = [])) by done.
      * by rewrite (bool_decide_true (getenv k' env = [])).
    + rewrite !(bool_decide_false (getenv k' env = [])) by done. done.
  - rewrite (bool_decide_false (k = k')) by done. cbn [andb].
    assert (getenv k (if bool_decide (getenv k' env = []) then setenv k' v env else env) = getenv k env) as ->; [|done].
    case_match; [|done]. rewrite getenv_setenv. by rewrite bool_decide_false.
Qed.

Section config.
Context (toml_unmarshal : bytes → Config → option Config) (uni : bytes → bytes).

(** A variable that the environment sets is kept; one that it does not set is
    that of the first line of the [.env] file with a value for it. *)
Lemma loadEnvFile_spec files path env k : getenv k (loadEnvFile uni files path env) =
  if bool_decide (getenv k env = [])
  then first_value k (omap (env_line uni) (scan_lines (text_lines (default [] (files !! env_path path)))))
  else getenv k env.
Proof.
  unfold loadEnvFile. destruct (files !! env_path path) as [text|]; cbn [default].
  - apply getenv_set_defaults.
  - cbn. case_bool_decide as E; [by rewrite E|done].
Qed.

(** ** The token *)

(** The token of a configuration: that of the file, else one derived from the
    identity, which the environment overrides. *)
Definition token_of (env : environ) (c : Config) : bytes :=
  let explicit := api_AuthToken (cf_API c) in
  let wif := if bool_decide (getenv wif_var env = []) then cf_WIF c else getenv wif_var env in
  if bool_decide (explicit = []) then if bool_decide (wif = []) then [] else deriveAuthToken wif else explicit.

Lemma Load_token files env path cfg : Load toml_unmarshal files env path = Ok cfg →
  ∃ data c, files !! path = Some data ∧ toml_unmarshal data defaults = Some c ∧
    api_AuthToken (cf_API cfg) = token_of env c.
Proof.
  unfold Load. intros HH. destruct (files !! path) as [data|]; [|done]. cbn [res_of_option mbind res_mbind] in HH.
  destruct (toml_unmarshal data defaults) as [c|] eqn:Ed; [|done]. injection HH as <-.
  exists data, c. split_and!; [done..|].
  unfold derive_token, token_of.
  assert (api_AuthToken (cf_API (env_overrides env (merge_foundry c))) = api_AuthToken (cf_API c)) as E1.
  { unfold env_overrides, merge_foundry. repeat case_match; done. }
  assert (cf_WIF (env_overrides env (merge_foundry c)) =
    if bool_decide (getenv wif_var env = []) then cf_WIF c else getenv wif_var env) as E2.
  { unfold env_overrides, merge_foundry. repeat case_match; done. }
  rewrite E2, E1. set (wif := if bool_decide (getenv wif_var env = []) then cf_WIF c else getenv wif_var env).
  destruct (decide (api_AuthToken (cf_API c) = [])) as [Ea|Ea].
  - rewrite (bool_decide_true (api_AuthToken (cf_API c) = [])) by done.
    destruct (bool_decide (wif = [])); cbn [andb negb]; [by rewrite E1|done].
  - rewrite (bool_decide_false (api_AuthToken (cf_API c) = [])) by done. cbn [andb]. by rewrite E1.
Qed.

(** C35: the token that [anvil token] prints opens the protected endpoints of
    the node it was printed for: when the node runs on the same file, with the
    identity in its environment that the command found (there or in the
    [.env] file), a request reaches a protected handler exactly when it carries
    the printed token. *)
Theorem printed_token_authenticates files env env' path token cfg {S} (next : Handler S) r s :
  cmdToken toml_unmarshal uni files env path = Ok token →
  Load toml_unmarshal files env' path = Ok cfg →
  getenv wif_var env' = getenv wif_var (loadEnvFile uni files path env) →
  r_method r ≠ MethodOptions →
  requireAuth (api_AuthToken (cf_API cfg)) next r s =
    if bool_decide (request_token r = token)
    then with_header (lit "Access-Control-Allow-Origin") (lit "*") next r s
    else (s, Some (writeError StatusUnauthorized (lit "unauthorized"))).
Proof.
  unfold cmdToken. intros HH HL He Hm. res_inv.
  destruct (Load _ _ _ _) as [cfg'| |] eqn:HL' in H; [|discriminate..]. injection H as ->.
  destruct (Load_token _ _ _ _ HL) as (d1 & c1 & F1 & D1 & T1).
  destruct (Load_token _ _ _ _ HL') as (d2 & c2 & F2 & D2 & T2). simplify_eq.
  assert (api_AuthToken (cf_API cfg) = api_AuthToken (cf_API a)) as -> by (rewrite T1, T2; unfold token_of; by rewrite He).
  apply bool_decide_eq_false in H0. rewrite requireAuth_iff by done.
  destruct (decide (request_token r = api_AuthToken (cf_API a))) as [E|E].
  - by rewrite !bool_decide_true by done.
  - rewrite !(bool_decide_false (request_token r = _)), !bool_decide_false by (done || naive_solver). done.
Qed.
End config.

(** ** A node with its identity in the [.env] file *)

Definition toml0 (data : bytes) (c : Config) : option Config := if bool_decide (data = lit "bad") then None else Some c.
Definition files0 : environ :=
  {[ lit "/etc/anvil/node-a.toml" := lit "# defaults";
     lit "/etc/anvil/node-a.env" := lit "# identity" ++ [x0a] ++ lit " ANVIL_IDENTITY_WIF = wif1 " ++ [x0a] ]}.
Definition path0 : bytes := lit "/etc/anvil/node-a.toml".
Definition env0 : environ := {[ wif_var := lit "wif1" ]}.
Definition token0 : bytes := Eval vm_compute in deriveAuthToken (lit "wif1").
Definition config0 : Config := set_token token0 (set_wif (lit "wif1") defaults).
Definition request0 : Request :=
  MkRequest (lit "POST") [] (lit "/broadcast") [] {[ lit "X-Anvil-Auth" := token0 ]} [] [].

Example env_path0 : env_path path0 = lit "/etc/anvil/node-a.env" ∧ env_path (lit "dir.d/anvil") = lit "dir.d/anvil.env".
Proof. vm_compute. done. Qed.

Lemma token0_printed : cmdToken toml0 id files0 ∅ path0 = Ok token0.
Proof. vm_compute. reflexivity. Qed.

Lemma printed_token_authenticates_witness :
  (requireAuth (api_AuthToken (cf_API config0)) (λ _ s, (Datatypes.S s, Some (writeJSON StatusOK JNull))) request0 0%nat).1 = 1%nat.
Proof.
  rewrite (printed_token_authenticates toml0 id files0 ∅ env0 path0 token0 config0).
  - vm_compute. reflexivity.
  - exact token0_printed.
  - vm_compute. reflexivity.
  - vm_compute. reflexivity.
  - discriminate.
Defined.
