(* ===== verification/Host.v ===== *)
(** * The host of the commands ([cmd/anvil])

    What [anvil deploy], [upgrade] and [doctor] act on: a file system, the
    services of systemd and the lines they print, as the state of a script that
    can exit; and the parts of [path/filepath] and [fmt.Sscanf] they use. *)

From Stdlib Require Import Init.Byte Strings.Byte Strings.String Lia ZArith.
From stdpp Require Import base gmap sets list strings numbers.
From S2P Require Import Prelude GoStd LevelDB GoText.
Open Scope Z_scope.

(** ** path/filepath *)

(** One element of a path against the cleaned ones before it, last first. *)
Definition clean_step (rooted : bool) (stack : list bytes) (e : bytes) : list bytes :=
  if bool_decide (e = []) || bool_decide (e = lit ".") then stack
  else if bool_decide (e = lit "..") then
    match stack with
    | [] => if rooted then [] else [e]
    | top :: rest => if bool_decide (top = lit "..") then e :: stack else rest
    end
  else e :: stack.
Definition filepath_Clean (path : bytes) : bytes :=
  if bool_decide (path = []) then lit "."
  else
    let rooted := has_prefix path (lit "/") in
    let text := join (lit "/") (rev (foldl (clean_step rooted) [] (split_on x2f path))) in
    if rooted then lit "/" ++ text else if bool_decide (text = []) then lit "." else text.
(** [filepath.Join] of two elements, the second not empty. *)
Definition filepath_Join (a b : bytes) : bytes :=
  filepath_Clean (if bool_decide (a = []) then b else a ++ lit "/" ++ b).

Example clean_examples :
  filepath_Clean (lit "/opt//anvil/./x/../") = lit "/opt/anvil" ∧ filepath_Clean (lit "../a/../../b") = lit "../../b" ∧
  filepath_Join (lit "/var/lib/") (lit "anvil-b") = lit "/var/lib/anvil-b" ∧ filepath_Join [] (lit "a") = lit "a".
Proof. vm_compute. done. Qed.

Definition trim_prefix (s p : bytes) : bytes := if has_prefix s p then drop (length p) s else s.

(** ** The file system *)

Inductive node := File (b : bytes) | Dir | Symlink (target : bytes).
#[export] Instance node_eq_dec : EqDecision node.
Proof. solve_decision. Defined.

Abbreviation fs := (gmap bytes node).

(** Opening follows a symbolic link (links to links are not followed). *)
Definition follow (m : fs) (p : bytes) : bytes := match m !! p with Some (Symlink t) => t | _ => p end.
Definition read_file (m : fs) (p : bytes) : option bytes :=
  match m !! follow m p with Some (File b) => Some b | _ => None end.
Lemma follow_put m q b : follow (<[follow m q := File b]> m) q = follow m q.
Proof.
  destruct (decide (follow m q = q)) as [E|E]; unfold follow at 1.
  - by rewrite E, lookup_insert_eq.
  - rewrite lookup_insert_ne by done. unfold follow in *. by destruct (m !! q) as [[]|].
Qed.
(** [os.Stat] finds it. *)
Definition exists_at (m : fs) (p : bytes) : bool := bool_decide (is_Some (m !! follow m p)).

(** ** Scripts

    [h_log] has every state of the file system the script went through, newest
    first, [h_cmds] the commands it ran and [h_out] what it printed. *)

Record Host := MkHost {
  h_fs : fs; h_log : list fs; h_cmds : list (list bytes); h_out : list bytes
}.

(** A script ends early when it exits. *)
Definition script (E A : Type) : Type := Host → Host * (E + A).
#[export] Instance script_ret {E} : MRet (script E) := λ A a h, (h, inr a).
#[export] Instance script_bind {E} : MBind (script E) := λ A B f m h,
  match m h with (h, inl e) => (h, inl e) | (h, inr a) => f a h end.

Section scripts.
Context {E : Type}.

Definition exit_with {A} (e : E) : script E A := λ h, (h, inl e).
Definition get_fs : script E fs := λ h, (h, inr (h_fs h)).
Definition set_fs (m : fs) : script E () := λ h, (MkHost m (m :: h_log h) (h_cmds h) (h_out h), inr ()).
Definition modify_fs (f : fs → fs) : script E () := λ h, set_fs (f (h_fs h)) h.
Definition exec (cmd : list bytes) : script E () := λ h, (MkHost (h_fs h) (h_log h) (h_cmds h ++ [cmd]) (h_out h), inr ()).
Definition say (line : bytes) : script E () := λ h, (MkHost (h_fs h) (h_log h) (h_cmds h) (h_out h ++ [line]), inr ()).
Definition when (c : bool) (s : script E ()) : script E () := if c then s else mret ().
Definition exit_when (c : bool) (e : E) : script E () := if c then exit_with e else mret ().
Fixpoint for_each {A} (f : A → script E ()) (l : list A) : script E () :=
  match l with [] => mret () | a :: l => f a ≫= λ _, for_each f l end.

(** What a call does to the file system when it succeeds; opening a file to
    write to it follows links. *)
Definition remove (p : bytes) : script E () := modify_fs (delete p).
Definition rename (src dst : bytes) : script E () :=
  modify_fs (λ m, match m !! src with Some n => <[dst := n]> (delete src m) | None => m end).
Definition symlink (target p : bytes) : script E () := modify_fs <[p := Symlink target]>.
Definition put_file (p b : bytes) : script E () := modify_fs (λ m, <[follow m p := File b]> m).
Definition mkdir (p : bytes) : script E () :=
  modify_fs (λ m, match m !! p with None => <[p := Dir]> m | Some _ => m end).

(** The calls, which can fail; each says whether it succeeded. [fate] and [ok]
    are what the machine does: a file that is written is not opened, is emptied
    and cut off after some bytes, or is written whole. *)
Inductive write_fate := Written | NotOpened | Cut (n : nat).
Definition os_WriteFile (fate : write_fate) (p b : bytes) : script E bool :=
  match fate with
  | NotOpened => mret false
  | Cut n => put_file p [] ≫= λ _, put_file p (take n b) ≫= λ _, mret false
  | Written => put_file p [] ≫= λ _, put_file p b ≫= λ _, mret true
  end.
Definition os_Remove (ok : bool) (p : bytes) : script E bool :=
  if ok then remove p ≫= λ _, mret true else mret false.
(** The directories above the one that is asked for are not recorded. *)
Definition os_MkdirAll (ok : bool) (p : bytes) : script E bool :=
  if ok then mkdir p ≫= λ _, mret true else mret false.
(** Nothing may be at the new name. *)
Definition os_Symlink (ok : bool) (target p : bytes) : script E bool :=
  m ← get_fs;
  if ok && bool_decide (m !! p = None) then symlink target p ≫= λ _, mret true else mret false.
(** The old name must be there. *)
Definition os_Rename (ok : bool) (src dst : bytes) : script E bool :=
  m ← get_fs;
  if ok && bool_decide (is_Some (m !! src)) then rename src dst ≫= λ _, mret true else mret false.
End scripts.

(** ** Splitting and joining *)

Lemma split_on_cons c s : ∃ a l, split_on c s = a :: l.
Proof. destruct s; cbn; [by eexists _, _|]. case_decide; [by eexists _, _|]. destruct (split_on c s); by eexists _, _. Qed.

Lemma join_split_on c s : join [c] (split_on c s) = s.
Proof.
  induction s as [|x s IH]; [done|]. cbn [split_on]. destruct (split_on_cons c s) as (a & l & E). rewrite E in IH |- *.
  case_decide as Hx.
  - cbn [join]. rewrite Hx. cbn [app]. f_equal. exact IH.
  - destruct l as [|b l]; cbn [join] in IH |- *; [by rewrite IH|]. cbn. f_equal. exact IH.
Qed.

Lemma split_on_free c s a : a ∈ split_on c s → c ∉ a.
Proof.
  revert a. induction s as [|x s IH]; intros a; cbn [split_on].
  { intros ->%list_elem_of_singleton. apply not_elem_of_nil. }
  destruct (split_on_cons c s) as (b & l & E). rewrite E in IH |- *. case_decide as Hx.
  - intros [->|Ha]%elem_of_cons; [apply not_elem_of_nil|]. by apply IH.
  - intros [->|Ha]%elem_of_cons; [|by apply IH; right].
    apply not_elem_of_cons. split; [by intros ->|]. apply IH. by left.
Qed.

Lemma split_on_nil c a : c ∉ a → split_on c a = [a].
Proof.
  induction a as [|x a IH]; [done|]. intros [Hx Ha]%not_elem_of_cons. cbn [split_on].
  rewrite decide_False by done. by rewrite IH.
Qed.

Lemma split_on_app c a s : c ∉ a → split_on c (a ++ [c] ++ s) = a :: split_on c s.
Proof.
  induction a as [|x a IH]; cbn [split_on app]; [by rewrite decide_True|].
  intros [Hx Ha]%not_elem_of_cons. rewrite decide_False by done. cbn [app] in IH. by rewrite IH.
Qed.

(** ** Joined paths *)

(** An element of a path that cleaning keeps. *)
Definition plain_element (e : bytes) : Prop := (x2f ∉ e) ∧ e ≠ [] ∧ e ≠ lit "." ∧ e ≠ lit "..".

Lemma split_on_snoc c a e : c ∉ e → split_on c (a ++ [c] ++ e) = split_on c a ++ [e].
Proof.
  intros He. induction a as [|x a IH].
  - cbn [app split_on]. rewrite decide_True by done. by rewrite split_on_nil.
  - cbn [app split_on] in IH |- *. rewrite IH. destruct (split_on_cons c a) as (b & l & ->). by case_decide.
Qed.

Lemma clean_step_plain rooted stack e : plain_element e → clean_step rooted stack e = e :: stack.
Proof. intros (_ & H1 & H2 & H3). unfold clean_step. by rewrite !bool_decide_false. Qed.

Lemma join_snoc sep l e : join sep (l ++ [e]) = match l with [] => [] | _ => join sep l ++ sep end ++ e.
Proof.
  induction l as [|a l IH]; [done|]. destruct l as [|b l]; cbn [app join] in IH |- *; [by rewrite (assoc_L (++))|].
  by rewrite IH, <- !(assoc_L (++)).
Qed.

(** Joining an element to a directory puts the same text before it, whatever
    the element. *)
Lemma filepath_Join_pre a : ∃ pre, ∀ e, plain_element e → filepath_Join a e = pre ++ e.
Proof.
  unfold filepath_Join, filepath_Clean. destruct a as [|c a].
  - exists []. intros e He. rewrite (bool_decide_true ([] = [])) by done; cbv iota. pose proof He as (Hs & Hn & _).
    rewrite bool_decide_false by done.
    assert (has_prefix e (lit "/") = false) as ->.
    { apply bool_decide_eq_false. intros [k ->]. apply Hs. by left. }
    rewrite split_on_nil by done. cbn [foldl]. rewrite clean_step_plain by done. cbn [rev app join].
    by rewrite bool_decide_false.
  - set (rooted := has_prefix (c :: a) (lit "/")).
    set (l := rev (foldl (clean_step rooted) [] (split_on x2f (c :: a)))).
    exists ((if rooted then lit "/" else []) ++ match l with [] => [] | _ => join (lit "/") l ++ lit "/" end).
    intros e He. pose proof He as (Hs & Hn & _). rewrite (bool_decide_false (c :: a = [])) by done.
    rewrite (bool_decide_false (_ ++ _ ++ _ = [])) by done.
    assert (has_prefix ((c :: a) ++ lit "/" ++ e) (lit "/") = rooted) as ->.
    { unfold rooted, has_prefix. apply bool_decide_ext. change (lit "/") with [x2f]. split; intros [k Hk]; injection Hk as ->; by eexists. }
    change (lit "/" ++ e) with ([x2f] ++ e). rewrite split_on_snoc, foldl_app by done. cbn [foldl]. rewrite clean_step_plain by done.
    cbn [rev]. fold l. rewrite join_snoc. change (lit "/") with [x2f].
    destruct rooted; [by rewrite (assoc_L (++))|]. cbn [app]. rewrite bool_decide_false; [done|].
    intros [_ ?]%app_nil. done.
Qed.

(** ** fmt.Sscanf with [%d.%d.%d] *)

Definition scan_part (s : bytes) : option (Z * bytes) := s ← skip_spaces 0 s; scan_int s.
Definition scan_dot (s : bytes) : option bytes := match s with c :: s => if decide (c = x2e) then Some s else None | [] => None end.
(** What is not reached keeps its value, zero. *)
Definition sscanf_3 (s : bytes) : Z * Z * Z :=
  match scan_part s with
  | None => (0, 0, 0)
  | Some (a, s) =>
      match scan_dot s ≫= scan_part with
      | None => (a, 0, 0)
      | Some (b, s) =>
          match scan_dot s ≫= scan_part with
          | None => (a, b, 0)
          | Some (c, _) => (a, b, c)
          end
      end
  end.

Example sscanf_examples :
  sscanf_3 (lit "1.2.3-rc1") = (1, 2, 3) ∧ sscanf_3 (lit "0.5") = (0, 5, 0) ∧ sscanf_3 (lit "dev") = (0, 0, 0).
Proof. vm_compute. done. Qed.

(** * Reasoning about scripts

    [runs I P s Q X]: from a file system with [P], the script [s] goes through
    file systems with [I] only; it ends with a value and a file system related
    by [Q], or exits with an error and a file system related by [X]. *)

Section runs.
Context {E : Type} (I : fs → Prop).

Definition runs {A : Type} (P : fs → Prop) (s : script E A) (Q : A → fs → Prop) (X : E → fs → Prop) : Prop :=
  ∀ h h' r, s h = (h', r) → P (h_fs h) →
    (∃ l, h_log h' = l ++ h_log h ∧ Forall I l) ∧ match r with inr a => Q a (h_fs h') | inl e => X e (h_fs h') end.

Lemma runs_log {A : Type} (P : fs → Prop) (s : script E A) (Q : A → fs → Prop) (X : E → fs → Prop) h h' r :
  runs P s Q X → s h = (h', r) → P (h_fs h) → h_log h = [] →
  Forall I (h_log h') ∧ match r with inr a => Q a (h_fs h') | inl e => X e (h_fs h') end.
Proof. intros Hs Hr HP Hl. destruct (Hs _ _ _ Hr HP) as [(l & -> & HI) HQ]. by rewrite Hl, app_nil_r. Qed.

Lemma runs_ret {A : Type} (a : A) (P : fs → Prop) (Q : A → fs → Prop) (X : E → fs → Prop) : (∀ m, P m → Q a m) → runs P (mret a) Q X.
Proof. intros HQ h h' r [= <- <-] HP. split; [by exists []|auto]. Qed.

Lemma runs_bind {A B : Type} (P : fs → Prop) (s : script E A) (R : A → fs → Prop) (f : A → script E B) (Q : B → fs → Prop) (X : E → fs → Prop) :
  runs P s R X → (∀ a, runs (R a) (f a) Q X) → runs P (s ≫= f) Q X.
Proof.
  intros Hs Hf h h' r Hr HP. unfold mbind, script_bind in Hr. destruct (s h) as [h1 [e|a]] eqn:Es.
  - injection Hr as <- <-. by apply (Hs _ _ _ Es).
  - destruct (Hs _ _ _ Es HP) as [(l1 & E1 & HI1) HR]. destruct (Hf a _ _ _ Hr HR) as [(l2 & -> & HI2) HQ]. split; [|done].
    exists (l2 ++ l1). rewrite E1, (assoc_L (++)). split; [done|by apply Forall_app].
Qed.

Lemma runs_seq {A B : Type} (P R : fs → Prop) (s : script E A) (t : script E B) (Q : B → fs → Prop) (X : E → fs → Prop) :
  runs P s (λ _, R) X → runs R t Q X → runs P (s ≫= λ _, t) Q X.
Proof. intros Hs Ht. by eapply runs_bind; [|intros; exact Ht]. Qed.

Lemma runs_weaken {A : Type} (P P' : fs → Prop) (s : script E A) (Q Q' : A → fs → Prop) (X : E → fs → Prop) :
  (∀ m, P' m → P m) → (∀ a m, Q a m → Q' a m) → runs P s Q X → runs P' s Q' X.
Proof.
  intros HP HQ Hs h h' r Hr Hp. destruct (Hs _ _ _ Hr (HP _ Hp)) as [? Hr']. split; [done|].
  destruct r; [done|]. by apply HQ.
Qed.

Lemma runs_pre {A : Type} (P P' : fs → Prop) (s : script E A) (Q : A → fs → Prop) (X : E → fs → Prop) :
  (∀ m, P' m → P m) → runs P s Q X → runs P' s Q X.
Proof. intros HP. by apply runs_weaken. Qed.

(** A fact the precondition implies. *)
Lemma runs_assume {A : Type} (φ : Prop) (P : fs → Prop) (s : script E A) (Q : A → fs → Prop) (X : E → fs → Prop) :
  (∀ m, P m → φ) → (φ → runs P s Q X) → runs P s Q X.
Proof. intros HP Hs h h' r Hr Hp. by apply (Hs (HP _ Hp)). Qed.

Lemma runs_exit {A : Type} (e : E) (P : fs → Prop) (Q : A → fs → Prop) (X : E → fs → Prop) :
  (∀ m, P m → X e m) → runs P (exit_with e) Q X.
Proof. intros HX h h' r [= <- <-] HP. split; [by exists []|auto]. Qed.

Lemma runs_exit_when (c : bool) (e : E) (P : fs → Prop) (X : E → fs → Prop) :
  (∀ m, c = true → P m → X e m) → runs P (exit_when c e) (λ _ m, P m ∧ c = false) X.
Proof. intros HX. destruct c; [apply runs_exit; auto|by apply runs_ret]. Qed.

Lemma runs_get_fs (P : fs → Prop) (X : E → fs → Prop) : runs P get_fs (λ m' m, P m ∧ m' = m) X.
Proof. intros h h' r [= <- <-] HP. split; [by exists []|auto]. Qed.

Lemma runs_modify (f : fs → fs) (P : fs → Prop) (Q : fs → Prop) (X : E → fs → Prop) :
  (∀ m, P m → I (f m) ∧ Q (f m)) → runs P (modify_fs f) (λ _, Q) X.
Proof.
  intros Hf h h' r [= <- <-] HP. destruct (Hf _ HP). split; [|done]. exists [f (h_fs h)]. by split; [|constructor].
Qed.

Lemma runs_exec (cmd : list bytes) (P : fs → Prop) (X : E → fs → Prop) : runs P (exec cmd) (λ _, P) X.
Proof. intros h h' r [= <- <-] HP. split; [by exists []|done]. Qed.
Lemma runs_say (line : bytes) (P : fs → Prop) (X : E → fs → Prop) : runs P (say line) (λ _, P) X.
Proof. intros h h' r [= <- <-] HP. split; [by exists []|done]. Qed.

Lemma runs_when (c : bool) (s : script E ()) (P : fs → Prop) (Q : () → fs → Prop) (X : E → fs → Prop) :
  (c = true → runs P s Q X) → (c = false → ∀ m, P m → Q () m) → runs P (when c s) Q X.
Proof. intros Hs Hn. destruct c; [by apply Hs|by apply runs_ret, Hn]. Qed.

Lemma runs_for_each {A : Type} (f : A → script E ()) (l : list A) (P : fs → Prop) (X : E → fs → Prop) :
  (∀ a, a ∈ l → runs P (f a) (λ _, P) X) → runs P (for_each f l) (λ _, P) X.
Proof.
  induction l as [|a l IH]; intros Hf; cbn [for_each]; [by apply runs_ret|].
  eapply runs_bind; [apply Hf; by left|]. intros ?. apply IH. intros b Hb. apply Hf. by right.
Qed.

(** The calls that can fail: what holds after either way. *)
Lemma runs_put (p b : bytes) (P Q : fs → Prop) (X : E → fs → Prop) :
  (∀ m, P m → I (<[follow m p := File b]> m) ∧ Q (<[follow m p := File b]> m)) → runs P (put_file p b) (λ _, Q) X.
Proof. intros HQ. by apply runs_modify. Qed.

Lemma runs_WriteFile (fate : write_fate) (p b : bytes) (P : fs → Prop) (X : E → fs → Prop) :
  (∀ (m : fs) (b' : bytes), P m → I (<[follow m p := File b']> m) ∧ P (<[follow m p := File b']> m)) →
  runs P (os_WriteFile fate p b) (λ _, P) X.
Proof.
  intros HP. assert (Hw : ∀ b', runs P (put_file p b') (λ _, P) X) by (intros; apply runs_put; auto).
  destruct fate; cbn [os_WriteFile]; [| by apply runs_ret |];
    (eapply runs_seq; [apply Hw|]; eapply runs_seq; [apply Hw|by apply runs_ret]).
Qed.

Lemma runs_Remove (ok : bool) (p : bytes) (P Q : fs → Prop) (X : E → fs → Prop) :
  (∀ m, P m → Q m) → (∀ m, P m → I (delete p m) ∧ Q (delete p m)) → runs P (os_Remove ok p) (λ _, Q) X.
Proof.
  intros HP HQ. destruct ok; cbn [os_Remove]; [|by apply runs_ret].
  eapply (runs_seq _ Q); [by apply runs_modify|by apply runs_ret].
Qed.

Lemma runs_MkdirAll (ok : bool) (p : bytes) (P : fs → Prop) (X : E → fs → Prop) :
  (∀ m, P m → I m) → (∀ m, P m → m !! p = None → P (<[p := Dir]> m)) → runs P (os_MkdirAll ok p) (λ _, P) X.
Proof.
  intros HI HP. destruct ok; cbn [os_MkdirAll]; [|by apply runs_ret].
  eapply (runs_seq _ P); [|by apply runs_ret]. apply runs_modify. intros m Hm. destruct (m !! p) eqn:En; auto.
Qed.

Lemma runs_Symlink (ok : bool) (target p : bytes) (P : fs → Prop) (X : E → fs → Prop) :
  (∀ m, P m → I (<[p := Symlink target]> m) ∧ P (<[p := Symlink target]> m)) → runs P (os_Symlink ok target p) (λ _, P) X.
Proof.
  intros HP. eapply runs_bind; [apply runs_get_fs|]. intros m'. apply (runs_pre P); [by intros m [? _]|].
  destruct (ok && _); [|by apply runs_ret]. eapply (runs_seq _ P); [by apply runs_modify|by apply runs_ret].
Qed.

Lemma runs_Rename (ok : bool) (src dst : bytes) (P Q : fs → Prop) (X : E → fs → Prop) :
  (∀ m n, P m → m !! src = Some n → I (<[dst := n]> (delete src m)) ∧ Q (<[dst := n]> (delete src m))) →
  runs P (os_Rename ok src dst) (λ ok m, if ok then Q m else P m) X.
Proof.
  intros HQ. eapply runs_bind; [apply runs_get_fs|]. intros m'.
  destruct ok, (bool_decide_reflect (is_Some (m' !! src))) as [[n Hn]|]; cbn [andb];
    try (apply runs_ret; by intros m [? _]).
  eapply (runs_seq _ Q); [|by apply runs_ret].
  apply runs_modify. intros m [Hm ->]. rewrite Hn. by apply HQ.
Qed.

(** A script that goes over a list reaches [B] at one of its elements. *)
Lemma runs_for_each_reach {A : Type} `{EqDecision A} (f : A → script E ()) (l : list A) (n : A) (P B : fs → Prop) (X : E → fs → Prop) :
  n ∈ l → (∀ a, a ∈ l → a ≠ n → runs P (f a) (λ _, P) X) → runs P (f n) (λ _, B) X → (∀ a, a ∈ l → runs B (f a) (λ _, B) X) →
  runs P (for_each f l) (λ _, B) X.
Proof.
  intros Hn Hf Hfn Hb. induction l as [|a l IH]; [by apply elem_of_nil in Hn|]. cbn [for_each].
  destruct (decide (a = n)) as [->|Ha].
  - eapply runs_seq; [exact Hfn|]. apply runs_for_each. intros b Hl. apply Hb. by right.
  - eapply runs_seq; [apply Hf; [by left|done]|]. apply IH.
    + by apply elem_of_cons in Hn as [->|].
    + intros b Hl. apply Hf. by right.
    + intros b Hl. apply Hb. by right.
Qed.
End runs.

Lemma runs_mono {E A : Type} (I J : fs → Prop) (P : fs → Prop) (s : script E A) (Q : A → fs → Prop) (X Y : E → fs → Prop) :
  (∀ m, I m → J m) → (∀ e m, X e m → Y e m) → runs I P s Q X → runs J P s Q Y.
Proof.
  intros HIJ HXY Hs h h' r Hr HP. destruct (Hs _ _ _ Hr HP) as [(l & Hl & HI) HQ]. split.
  - exists l. split; [done|]. eapply Forall_impl; eauto.
  - destruct r; auto.
Qed.

(** The commands a script runs, each with a property. *)
Definition commands_ok {E A : Type} (C : list bytes → Prop) (s : script E A) : Prop :=
  ∀ h, Forall C (h_cmds h) → Forall C (h_cmds (s h).1).

Section commands.
Context {E : Type} (C : list bytes → Prop).

Lemma commands_ret {A : Type} (a : A) : commands_ok (E:=E) C (mret a).
Proof. by intros h. Qed.
Lemma commands_bind {A B : Type} (s : script E A) (f : A → script E B) :
  commands_ok C s → (∀ a, commands_ok C (f a)) → commands_ok C (s ≫= f).
Proof.
  intros Hs Hf h Hh. specialize (Hs h Hh). unfold mbind, script_bind. destruct (s h) as [h1 [e|a]]; [done|].
  by apply Hf.
Qed.
Lemma commands_exit {A : Type} (e : E) : commands_ok (A:=A) (E:=E) C (exit_with e).
Proof. by intros h. Qed.
Lemma commands_exit_when (c : bool) (e : E) : commands_ok C (exit_when c e).
Proof. destruct c; by intros h. Qed.
Lemma commands_get_fs : commands_ok (E:=E) C get_fs.
Proof. by intros h. Qed.
Lemma commands_modify (f : fs → fs) : commands_ok (E:=E) C (modify_fs f).
Proof. by intros h. Qed.
Lemma commands_exec (cmd : list bytes) : C cmd → commands_ok (E:=E) C (exec cmd).
Proof. intros Hc h Hh. cbn. apply Forall_app. by split; [|constructor]. Qed.
Lemma commands_when (c : bool) (s : script E ()) : (c = true → commands_ok C s) → commands_ok C (when c s).
Proof. destruct c; intros Hs; [by apply Hs|apply commands_ret]. Qed.
Lemma commands_for_each {A : Type} (f : A → script E ()) (l : list A) : (∀ a, a ∈ l → commands_ok C (f a)) → commands_ok C (for_each f l).
Proof.
  induction l as [|a l IH]; intros Hf; cbn [for_each]; [apply commands_ret|].
  apply commands_bind; [apply Hf; by left|]. intros ?. apply IH. intros b Hb. apply Hf. by right.
Qed.
End commands.

#[export] Hint Resolve commands_ret commands_exit commands_exit_when commands_get_fs commands_modify : anvil.

Section commands_calls.
Context {E : Type} (C : list bytes → Prop).

Lemma commands_put (p b : bytes) : commands_ok (E:=E) C (put_file p b).
Proof. apply commands_modify. Qed.
Lemma commands_WriteFile (fate : write_fate) (p b : bytes) : commands_ok (E:=E) C (os_WriteFile fate p b).
Proof. destruct fate; repeat first [apply commands_put|apply commands_ret|apply commands_bind; [|intros ?]]. Qed.
Lemma commands_Remove (ok : bool) (p : bytes) : commands_ok (E:=E) C (os_Remove ok p).
Proof. destruct ok; [apply commands_bind; [apply commands_modify|intros ?]|]; apply commands_ret. Qed.
Lemma commands_MkdirAll (ok : bool) (p : bytes) : commands_ok (E:=E) C (os_MkdirAll ok p).
Proof. destruct ok; [apply commands_bind; [apply commands_modify|intros ?]|]; apply commands_ret. Qed.
Lemma commands_Symlink (ok : bool) (t p : bytes) : commands_ok (E:=E) C (os_Symlink ok t p).
Proof.
  apply commands_bind; [apply commands_get_fs|]. intros m.
  destruct (_ && _); [apply commands_bind; [apply commands_modify|intros ?]|]; apply commands_ret.
Qed.
Lemma commands_Rename (ok : bool) (src dst : bytes) : commands_ok (E:=E) C (os_Rename ok src dst).
Proof.
  apply commands_bind; [apply commands_get_fs|]. intros m.
  destruct (_ && _); [apply commands_bind; [apply commands_modify|intros ?]|]; apply commands_ret.
Qed.
End commands_calls.

#[export] Hint Resolve commands_put commands_WriteFile commands_Remove commands_MkdirAll commands_Symlink commands_Rename : anvil.

(** A script all of whose commands are settled by the hints. *)
Ltac commands_all :=
  repeat first
    [ solve [eauto with anvil] | apply commands_bind; [|intros ?] | apply commands_when; intros ?
    | apply commands_for_each; intros ? ? | case_match ].
