(* ===== verification/Release.v ===== *)
(** * Versions and upgrades ([cmd/anvil/upgrade.go])

    The comparison of versions, the release that is chosen, and [anvil upgrade]:
    download, trial run, backup, replacement by rename, restart and rollback. *)

From Stdlib Require Import Init.Byte Strings.Byte Strings.String Lia ZArith.
From stdpp Require Import base gmap sets list strings numbers.
From S2P Require Import Prelude GoStd LevelDB GoText Host.
Open Scope Z_scope.

Definition Version : bytes := lit "0.7.3".

(** ** Versions *)

Definition parseVersion (v : bytes) : Z * Z * Z := sscanf_3 (trim_prefix v (lit "v")).

(** The loop over the three parts. *)
Fixpoint parts_newer_or_equal (l : list (Z * Z)) : bool :=
  match l with
  | [] => true
  | (a, b) :: l => if b <? a then true else if a <? b then false else parts_newer_or_equal l
  end.
Definition versionNewerOrEqual (a b : bytes) : bool :=
  let '(a0, a1, a2) := parseVersion a in
  let '(b0, b1, b2) := parseVersion b in
  parts_newer_or_equal [(a0, b0); (a1, b1); (a2, b2)].

Inductive verdict := UpToDate | AheadOfLatest | UpgradeAvailable.
Definition printVersionCheck (current latest : bytes) : verdict :=
  let latestClean := trim_prefix latest (lit "v") in
  if bool_decide (current = latestClean) || bool_decide (current = latest) then UpToDate
  else if versionNewerOrEqual current latestClean then AheadOfLatest
  else UpgradeAvailable.

(** ** Releases *)

Definition githubRepo : bytes := lit "BSVanon/Anvil".
Definition githubDL : bytes := lit "https://github.com/" ++ githubRepo ++ lit "/releases/download".
Definition githubLatest : bytes := lit "https://github.com/" ++ githubRepo ++ lit "/releases/latest/download".

Inductive up_err :=
  | UpArch | UpGitHub | UpRoot | UpTemp | UpDownload | UpStatus (code : Z) | UpWrite | UpTrial | UpStaging | UpRename
  | UpRolledBack | UpRollbackFailed.

Definition binaryName (arch : bytes) : up_err + bytes :=
  if bool_decide (arch = lit "amd64") then inr (lit "anvil-linux-amd64")
  else if bool_decide (arch = lit "arm64") then inr (lit "anvil-linux-arm64")
  else inl UpArch.

(** The answer of the GitHub API: its status and the tag that it decodes to. *)
Definition fetchLatestTag (answer : option (Z * option bytes)) : up_err + bytes :=
  match answer with
  | Some (200, Some tag) => if bool_decide (tag = []) then inl UpGitHub else inr tag
  | _ => inl UpGitHub
  end.

(** The startup check: the tag to warn about. *)
Definition checkForUpdate (answer : option (Z * option bytes)) : option bytes :=
  match answer with
  | Some (200, Some tag) =>
      if bool_decide (tag = []) || versionNewerOrEqual Version (trim_prefix tag (lit "v")) then None else Some tag
  | _ => None
  end.

Definition resolveRelease (arch : bytes) (github : option (Z * option bytes)) (version : bytes) : up_err + bytes * bytes :=
  match binaryName arch with
  | inl e => inl e
  | inr binary =>
      if bool_decide (version = lit "latest") then
        match fetchLatestTag github with
        | inl e => inl e
        | inr tag => inr (tag, githubLatest ++ lit "/" ++ binary)
        end
      else
        let version := if has_prefix version (lit "v") then version else lit "v" ++ version in
        inr (version, githubDL ++ lit "/" ++ version ++ lit "/" ++ binary)
  end.

(** ** The upgrade *)

(** How a copy goes: complete, refused at either end, or cut off after some
    bytes; a failing [Close] comes after all bytes are written. *)
Inductive copy_fate := CopyDone | CopyNoSource | CopyNoTarget | CopyCut (n : nat) | CopyClose.

(** What the run meets: the machine, the answers of GitHub, the temporary file,
    the bytes of the download and whether all came, whether a binary runs,
    which services are active, and which operations fail. *)
Record World := MkWorld {
  wd_arch : bytes; wd_github : option (Z * option bytes); wd_root : bool; wd_temp : option bytes;
  wd_get : bytes → option Z; wd_body : bytes * bool; wd_runs : bytes → bool; wd_active : bytes → bool;
  wd_copy : bytes → bytes → copy_fate; wd_rename : bytes → bytes → bool; wd_symlink : bool; wd_start : bytes → bool;
  wd_mkdir : bytes → bool; wd_remove : bytes → bool
}.

Section upgrade.
Context (w : World).
Abbreviation run := (script up_err).

Definition try_remove (p : bytes) : run bool := os_Remove (wd_remove w p) p.
Definition try_rename (src dst : bytes) : run bool := os_Rename (wd_rename w src dst) src dst.

(** Whether the copy succeeded. *)
Definition copyFileE (src dst : bytes) : run bool :=
  m ← get_fs;
  match read_file m src with
  | None => mret false
  | Some b =>
      match wd_copy w src dst with
      | CopyNoSource | CopyNoTarget => mret false
      | CopyCut n => put_file dst [] ≫= λ _, put_file dst (take n b) ≫= λ _, try_remove dst ≫= λ _, mret false
      | CopyClose => put_file dst [] ≫= λ _, put_file dst b ≫= λ _, mret false
      | CopyDone => put_file dst [] ≫= λ _, put_file dst b ≫= λ _, mret true
      end
  end.

Definition services : list bytes := [lit "anvil-a"; lit "anvil-b"].
Definition runningAnvilServices : list bytes := filter (λ svc, wd_active w svc = true) services.

Definition systemctl (verb svc : bytes) : run () := exec [lit "systemctl"; verb; svc].

Definition symlink_path : bytes := lit "/usr/local/bin/anvil".

(** The binary in a temporary file. *)
Definition download (downloadURL : bytes) : run (bytes * bytes) :=
  match wd_temp w with
  | None => exit_with UpTemp
  | Some tmp =>
      put_file tmp [] ≫= λ _,
      match wd_get w downloadURL with
      | None => exit_with UpDownload
      | Some code =>
          exit_when (negb (code =? 200)) (UpStatus code) ≫= λ _,
          let '(body, complete) := wd_body w in
          put_file tmp body ≫= λ _,
          exit_when (negb complete) UpWrite ≫= λ _,
          exit_when (negb (wd_runs w body)) UpTrial ≫= λ _, mret (tmp, body)
      end
  end.

(** Backup, staging file and rename; whether there is a backup. *)
Definition install (tmp destBin : bytes) : run bool :=
  let backupBin := destBin ++ lit ".bak" in
  let stagingBin := destBin ++ lit ".new" in
  m ← get_fs;
  backedUp ← (if exists_at m destBin then copyFileE destBin backupBin else mret false);
  staged ← copyFileE tmp stagingBin;
  exit_when (negb staged) UpStaging ≫= λ _,
  renamed ← try_rename stagingBin destBin;
  when (negb renamed) (try_remove stagingBin ≫= λ _, exit_with UpRename) ≫= λ _, mret backedUp.

Definition update_symlink (destBin : bytes) : run () :=
  let symlinkTmp := symlink_path ++ lit ".new" in
  try_remove symlinkTmp ≫= λ _,
  linked ← os_Symlink (wd_symlink w) destBin symlinkTmp;
  when linked
    (renamed ← try_rename symlinkTmp symlink_path;
     when (negb renamed) (try_remove symlinkTmp ≫= λ _, mret ())).

(** The services that do not start, counted. *)
Definition start_failures (svcs : list bytes) : nat := length (filter (λ svc, wd_start w svc = false) svcs).

Definition restart (svcs : list bytes) (backedUp : bool) (destBin : bytes) : run () :=
  let backupBin := destBin ++ lit ".bak" in
  for_each (systemctl (lit "start")) svcs ≫= λ _,
  when (bool_decide (start_failures svcs = length svcs) && backedUp)
    (restored ← try_rename backupBin destBin;
     when restored (for_each (systemctl (lit "start")) svcs) ≫= λ _,
     exit_with (if (restored : bool) then UpRolledBack else UpRollbackFailed)).

Inductive upgrade_end := Checked (v : verdict) | AlreadyOn | Ahead | Upgraded (tag : bytes).

Definition perform (tag downloadURL installDir : bytes) : run upgrade_end :=
  exit_when (negb (wd_root w)) UpRoot ≫= λ _,
  p ← download downloadURL;
  let '(tmp, _) := p in
  let svcs := runningAnvilServices in
  let destBin := filepath_Join installDir (lit "anvil") in
  os_MkdirAll (wd_mkdir w installDir) installDir ≫= λ _,
  backedUp ← install tmp destBin;
  update_symlink destBin ≫= λ _,
  for_each (systemctl (lit "stop")) svcs ≫= λ _,
  when (negb (bool_decide (svcs = []))) (restart svcs backedUp destBin) ≫= λ _,
  when backedUp (try_remove (destBin ++ lit ".bak") ≫= λ _, mret ()) ≫= λ _,
  (* the deferred removal, which an exit skips *)
  try_remove tmp ≫= λ _, mret (Upgraded tag).

Definition cmdUpgrade (installDir version : bytes) (check force : bool) : run upgrade_end :=
  match resolveRelease (wd_arch w) (wd_github w) version with
  | inl e => exit_with e
  | inr (latest, downloadURL) =>
      if check then mret (Checked (printVersionCheck Version latest))
      else
        let latestClean := trim_prefix latest (lit "v") in
        if versionNewerOrEqual Version latestClean && negb force then
          mret (if bool_decide (Version = latestClean) then AlreadyOn else Ahead)
        else perform latest downloadURL installDir
  end.
End upgrade.
