(* ===== verification/ReleaseProps.v ===== *)
(** * What an upgrade keeps

    Versions are ordered by their numbers; an upgrade never leaves anything but
    a whole binary in its place, and never goes back a version unasked. *)

From Stdlib Require Import Init.Byte Strings.Byte Strings.String Lia ZArith.
From stdpp Require Import base gmap sets list strings numbers.
From S2P Require Import Prelude GoStd LevelDB GoText Host Release.
Open Scope Z_scope.

(** ** Versions *)

Definition lex_le (a b : Z * Z * Z) : Prop :=
  let '(a0, a1, a2) := a in let '(b0, b1, b2) := b in
  a0 < b0 ∨ a0 = b0 ∧ (a1 < b1 ∨ a1 = b1 ∧ a2 ≤ b2).

Lemma newer_lex a b : versionNewerOrEqual a b = true ↔ lex_le (parseVersion b) (parseVersion a).
Proof.
  unfold versionNewerOrEqual, lex_le.
  destruct (parseVersion a) as [[a0 a1] a2], (parseVersion b) as [[b0 b1] b2]. cbn.
  destruct (Z.ltb_spec b0 a0), (Z.ltb_spec a0 b0), (Z.ltb_spec b1 a1), (Z.ltb_spec a1 b1),
    (Z.ltb_spec b2 a2), (Z.ltb_spec a2 b2); intuition (try discriminate; try lia).
Qed.

(** The comparison of versions is the lexicographic order of their three
    numbers, so it is total and transitive, and two versions are each at least
    the other exactly when the numbers agree (whatever follows them). *)
Theorem versions_ordered a b c :
  (versionNewerOrEqual a b = true ↔ lex_le (parseVersion b) (parseVersion a)) ∧
  (versionNewerOrEqual a b = true ∨ versionNewerOrEqual b a = true) ∧
  (versionNewerOrEqual a b = true → versionNewerOrEqual b c = true → versionNewerOrEqual a c = true) ∧
  (versionNewerOrEqual a b = true ∧ versionNewerOrEqual b a = true ↔ parseVersion a = parseVersion b).
Proof.
  rewrite !newer_lex. unfold lex_le.
  destruct (parseVersion a) as [[a0 a1] a2], (parseVersion b) as [[b0 b1] b2], (parseVersion c) as [[c0 c1] c2].
  split_and!; [done|lia|lia|]. split; [intros; f_equal; [f_equal|]; lia|intros [= -> -> ->]; lia].
Qed.

(** ** The upgrade *)

Section upgrade.
Context (w : World) (m0 : fs) (tmp installDir : bytes).

Definition dest : bytes := filepath_Join installDir (lit "anvil").
Definition bak : bytes := dest ++ lit ".bak".
Definition staging : bytes := dest ++ lit ".new".
Definition link_tmp : bytes := symlink_path ++ lit ".new".
Definition touched : list bytes := [dest; bak; staging; tmp; symlink_path; link_tmp; installDir].

Definition plain (n : option node) : Prop := match n with Some (File _) | None => True | _ => False end.

(** Before the run: the binary is not installed under the name of the link to
    it (which [--install-dir /usr/local/bin] would do, see
    [upgrade_into_link_dir]); the temporary file and the directory are none of
    the other paths; and those that are written to are files or free. *)
Record setting : Prop := {
  st_temp : wd_temp w = Some tmp;
  st_dir : dest ≠ symlink_path;
  st_tmp : tmp ∉ [dest; bak; staging; symlink_path; link_tmp; installDir];
  st_parent : installDir ∉ [dest; bak; staging; symlink_path; link_tmp];
  st_plain : ∀ p, p ∈ [dest; bak; staging; tmp] → plain (m0 !! p)
}.
Context (Hset : setting).

Definition old : option node := m0 !! dest.
Definition new : node := File (wd_body w).1.
(** The download is complete and the binary runs. *)
Definition good : Prop := (wd_body w).2 = true ∧ wd_runs w (wd_body w).1 = true.

Definition frame (m : fs) : Prop := ∀ p, p ∉ touched → m !! p = m0 !! p.
(** What holds of every file system the run goes through. *)
Definition whole (m : fs) : Prop := (m !! dest = old ∨ m !! dest = Some new ∧ good) ∧ frame m.
(** What holds when it exits: the old binary is there, but after a rollback that
    failed, which leaves the new one. *)
Definition exited (e : up_err) (m : fs) : Prop :=
  frame m ∧ match e with UpRollbackFailed => m !! dest = Some new ∧ good | _ => m !! dest = old end.

Definition before (m : fs) : Prop :=
  m !! dest = old ∧ frame m ∧ ∀ p, p ∈ [dest; bak; staging; tmp] → plain (m !! p).
Definition downloaded (m : fs) : Prop := before m ∧ m !! tmp = Some new ∧ good.
Definition backed (backedUp : bool) (m : fs) : Prop := backedUp = true → is_Some old ∧ m !! bak = old.
Definition installed (backedUp : bool) (m : fs) : Prop := m !! dest = Some new ∧ good ∧ frame m ∧ backed backedUp m.

Lemma dest_last : list.last dest = Some x6c.
Proof.
  unfold dest. destruct (filepath_Join_pre installDir) as [pre Hpre]. rewrite Hpre; [by rewrite last_app|].
  split; [by apply (bool_decide_unpack _); vm_compute|by split_and!].
Qed.
Lemma last_ne (a b : bytes) x y : list.last a = Some x → list.last b = Some y → x ≠ y → a ≠ b.
Proof. congruence. Qed.

(** The other paths differ by how they end. *)
Lemma paths_distinct :
  (dest ≠ bak ∧ dest ≠ staging ∧ dest ≠ tmp ∧ dest ≠ symlink_path ∧ dest ≠ link_tmp ∧ dest ≠ installDir) ∧
  (bak ≠ staging ∧ bak ≠ tmp ∧ bak ≠ symlink_path ∧ bak ≠ link_tmp ∧ bak ≠ installDir) ∧
  (staging ≠ tmp ∧ staging ≠ symlink_path ∧ staging ≠ link_tmp ∧ staging ≠ installDir) ∧
  (tmp ≠ symlink_path ∧ tmp ≠ link_tmp ∧ tmp ≠ installDir).
Proof.
  pose proof (st_tmp Hset) as Ht. pose proof (st_parent Hset) as Hi. pose proof (st_dir Hset) as Hd.
  rewrite !not_elem_of_cons in Ht, Hi. destruct Ht as (?&?&?&?&?&Ht), Hi as (?&?&?&?&?&_). apply not_elem_of_cons in Ht as [? _].
  pose proof dest_last as Hl. assert (list.last symlink_path = Some x6c) as Hs by done. assert (list.last link_tmp = Some x77) as Hlt by done.
  assert (Hbak : list.last bak = Some x6b) by (unfold bak; by rewrite last_app).
  assert (Hnew : list.last staging = Some x77) by (unfold staging; by rewrite last_app).
  assert (staging ≠ link_tmp) by (by intros ?%app_inv_tail).
  split_and!; solve [assumption | apply not_eq_sym; assumption | eapply last_ne; [eassumption..|discriminate]].
Qed.

Lemma frame_insert p n m : p ∈ touched → frame m → frame (<[p := n]> m).
Proof. intros Hp Hf q Hq. rewrite lookup_insert_ne; [by apply Hf|]. by intros ->. Qed.
Lemma frame_delete p m : p ∈ touched → frame m → frame (delete p m).
Proof. intros Hp Hf q Hq. rewrite lookup_delete_ne; [by apply Hf|]. by intros ->. Qed.

Lemma plain_follow m p : plain (m !! p) → follow m p = p.
Proof. unfold follow. destruct (m !! p) as [[]|]; done. Qed.

Lemma before_insert p b m : p ∈ [bak; staging; tmp] → before m → before (<[p := File b]> m).
Proof.
  destruct paths_distinct as ((?&?&?&_) & _ & _ & _). intros Hp (Hd & Hf & Hpl). split_and!.
  - rewrite lookup_insert_ne; [done|]. intros ->. set_solver.
  - apply frame_insert; [|done]. unfold touched. set_solver.
  - intros q Hq. destruct (decide (p = q)) as [<-|]; [by rewrite lookup_insert_eq|].
    rewrite lookup_insert_ne by done. by apply Hpl.
Qed.
Lemma before_delete p m : p ∈ [bak; staging; tmp] → before m → before (delete p m).
Proof.
  destruct paths_distinct as ((?&?&?&_) & _ & _ & _). intros Hp (Hd & Hf & Hpl). split_and!.
  - rewrite lookup_delete_ne; [done|]. intros ->. set_solver.
  - apply frame_delete; [|done]. unfold touched. set_solver.
  - intros q Hq. destruct (decide (p = q)) as [<-|]; [by rewrite lookup_delete_eq|].
    rewrite lookup_delete_ne by done. by apply Hpl.
Qed.
Lemma before_whole m : before m → whole m.
Proof. intros (? & ? & _). split; [by left|done]. Qed.

(** *** The operations *)


Lemma write_runs (P Q : fs → Prop) (X : up_err → fs → Prop) p b :
  (∀ m, P m → plain (m !! p)) → (∀ m, P m → whole (<[p := File b]> m) ∧ Q (<[p := File b]> m)) →
  runs whole P (put_file p b) (λ _, Q) X.
Proof. intros Hp HQ. apply runs_put. intros m Hm. rewrite (plain_follow m p) by auto. by apply HQ. Qed.

(** A copy changes nothing but its target; when it succeeds the two are equal. *)
Lemma copy_runs (P : fs → Prop) (X : up_err → fs → Prop) src dst n :
  (∀ m, P m → whole m ∧ plain (m !! dst) ∧ m !! src = n) → plain n →
  (∀ m b, P m → P (<[dst := File b]> m)) → (∀ m, P m → P (delete dst m)) →
  runs whole P (copyFileE w src dst) (λ ok m, P m ∧ (ok = true → is_Some n ∧ m !! dst = n)) X.
Proof.
  intros HP Hn Hins Hdel. eapply runs_bind; [apply runs_get_fs|]. intros m'.
  destruct (read_file m' src) as [b|] eqn:Er; [|by apply runs_ret; intros m [? _]; split].
  apply (runs_assume _ (n = Some (File b))).
  { intros m [Hm ->]. destruct (HP _ Hm) as (_ & _ & <-). unfold read_file in Er.
    rewrite plain_follow in Er by done. destruct (m !! src) as [[]|]; by simplify_eq. }
  intros ->. apply (runs_pre _ P _ _ _ _ (λ m H, proj1 H)).
  assert (Hw : ∀ b' (K : script up_err bool) Q, runs whole (λ m, P m ∧ m !! dst = Some (File b')) K Q X →
      runs whole P (put_file dst b' ≫= λ _, K) Q X).
  { intros b' K Q Hk. eapply runs_seq; [|exact Hk]. apply write_runs; [intros m Hm; by apply HP|].
    intros m Hm. rewrite lookup_insert_eq. split; [by apply HP, Hins|split; [by apply Hins|done]]. }
  assert (Hw2 : ∀ b' (K : script up_err bool) Q, runs whole (λ m, P m ∧ m !! dst = Some (File b')) K Q X →
      runs whole P (put_file dst [] ≫= λ _, put_file dst b' ≫= λ _, K) Q X).
  { intros b' K Q Hk. apply Hw, (runs_pre _ P _ _ _ _ (λ m H, proj1 H)). by apply Hw. }
  assert (Hno : runs whole P (mret false) (λ ok m, P m ∧ (ok = true → is_Some (Some (File b)) ∧ m !! dst = Some (File b))) X).
  { apply runs_ret. intros m Hm. by split. }
  destruct (wd_copy w src dst); [| done | done | |].
  - apply Hw2. apply runs_ret. intros m [Hm ?]. eauto.
  - apply Hw2. eapply runs_seq; [|exact Hno].
    apply runs_Remove; intros m [Hm _]; [done|]. split; [by apply HP, Hdel|by apply Hdel].
  - apply Hw2, (runs_pre _ P _ _ _ _ (λ m H, proj1 H)). done.
Qed.

Lemma rename_runs (P Q : fs → Prop) (X : up_err → fs → Prop) src dst :
  (∀ m n, P m → m !! src = Some n → whole (<[dst := n]> (delete src m)) ∧ Q (<[dst := n]> (delete src m))) →
  runs whole P (try_rename w src dst) (λ ok m, if ok then Q m else P m) X.
Proof. apply runs_Rename. Qed.

Lemma downloaded_insert p b m : p ∈ [bak; staging] → downloaded m → downloaded (<[p := File b]> m).
Proof.
  destruct paths_distinct as (_ & (?&?&_) & (?&_) & _). intros Hp (Hb & Ht & Hg). split_and!; [|rewrite lookup_insert_ne; [done|]|done].
  - apply before_insert; [set_solver|done].
  - intros ->. set_solver.
Qed.
Lemma downloaded_delete p m : p ∈ [bak; staging] → downloaded m → downloaded (delete p m).
Proof.
  destruct paths_distinct as (_ & (?&?&_) & (?&_) & _). intros Hp (Hb & Ht & Hg). split_and!; [|rewrite lookup_delete_ne; [done|]|done].
  - apply before_delete; [set_solver|done].
  - intros ->. set_solver.
Qed.

Lemma before_exited e m : e ≠ UpRollbackFailed → before m → exited e m.
Proof. intros He (? & ? & _). split; [done|]. by destruct e. Qed.
Lemma installed_whole r m : installed r m → whole m.
Proof. intros (? & ? & ? & _). split; [by right|done]. Qed.

Ltac exiting := intros; apply before_exited; [discriminate|naive_solver].

Lemma download_runs url :
  runs whole before (download w url) (λ p m, p.1 = tmp ∧ downloaded m) exited.
Proof.
  unfold download. rewrite (st_temp Hset).
  assert (Hw : ∀ m b, before m → whole (<[tmp := File b]> m) ∧ before (<[tmp := File b]> m) ∧ (<[tmp := File b]> m) !! tmp = Some (File b)).
  { intros m b Hm. rewrite lookup_insert_eq. assert (before (<[tmp := File b]> m)) by (apply before_insert; [set_solver|done]).
    split_and!; auto using before_whole. }
  assert (Hp : ∀ m, before m → plain (m !! tmp)) by (intros m (_ & _ & Hp); apply Hp; set_solver).
  eapply (runs_seq _ _ before); [apply write_runs; [done|]; intros m Hm; by destruct (Hw m [] Hm) as (?&?&?)|].
  destruct (wd_get w url) as [code|]; [|apply runs_exit; exiting].
  eapply runs_bind; [apply runs_exit_when; exiting|]. intros []. cbv beta.
  destruct (wd_body w) as [body complete] eqn:Eb.
  eapply (runs_seq _ _ (λ m, before m ∧ m !! tmp = Some (File body))).
  { apply write_runs; [intros m [? _]; auto|]. intros m [Hm _]. by apply Hw. }
  eapply runs_bind; [apply runs_exit_when; exiting|]. intros []. cbv beta.
  eapply runs_bind; [apply runs_exit_when; exiting|]. intros []. cbv beta.
  apply runs_ret. intros m [[[Hm Ht] Hc] Hr]. apply negb_false_iff in Hc, Hr. split; [done|].
  split_and!; [done|by rewrite Ht; unfold new; rewrite Eb|]. unfold good. by rewrite Eb.
Qed.

Lemma plain_new : plain (Some new).
Proof. done. Qed.

Lemma install_runs : runs whole downloaded (install w tmp dest) installed exited.
Proof.
  destruct paths_distinct as ((?&?&?&_) & (?&?&_) & (?&_) & _).
  unfold install. change (dest ++ lit ".new") with staging. change (dest ++ lit ".bak") with bak. eapply runs_bind; [apply runs_get_fs|]. intros m'.
  apply (runs_pre _ downloaded _ _ _ _ (λ m H, proj1 H)).
  eapply (runs_bind _ _ _ (λ r m, downloaded m ∧ backed r m)).
  { destruct (exists_at m' dest); [|by apply runs_ret].
    apply copy_runs.
    - intros m (Hb & _). split_and!; [by apply before_whole|apply Hb; set_solver|exact (proj1 Hb)].
    - apply (st_plain Hset). set_solver.
    - intros. apply downloaded_insert; [set_solver|done].
    - intros. apply downloaded_delete; [set_solver|done]. }
  intros r. set (P := λ m, downloaded m ∧ backed r m).
  assert (Hb : ∀ p m n, p ≠ bak → backed r m → backed r (<[p := n]> m)).
  { intros p m n Hp Hr Hrr. rewrite lookup_insert_ne by done. by apply Hr. }
  assert (Hd : ∀ p m, p ≠ bak → backed r m → backed r (delete p m)).
  { intros p m Hp Hr Hrr. rewrite lookup_delete_ne by done. by apply Hr. }
  eapply (runs_bind _ _ _ (λ s m, P m ∧ (s = true → is_Some (Some new) ∧ m !! staging = Some new))).
  { apply copy_runs; [|done| |].
    - intros m [Hm _]. split_and!; [by apply before_whole, Hm| |apply Hm]. apply (proj1 Hm). set_solver.
    - intros m b [Hm Hr]. split; [apply downloaded_insert; [set_solver|done]|by apply Hb].
    - intros m [Hm Hr]. split; [apply downloaded_delete; [set_solver|done]|by apply Hd]. }
  intros staged. eapply runs_bind; [apply runs_exit_when; intros m _ [[Hm _] _]; by apply before_exited, Hm|].
  intros []. apply (runs_pre _ (λ m, P m ∧ m !! staging = Some new)).
  { intros m [[Hm Hs] Hst]. apply negb_false_iff in Hst. by destruct (Hs Hst). }
  eapply runs_bind; [apply (rename_runs _ (installed r))|].
  { intros m n [[Hm Hr] Hs] ?. simplify_eq. assert (Hi : installed r (<[dest := new]> (delete staging m))).
    - split_and!; [by rewrite lookup_insert_eq|apply Hm|apply frame_insert, frame_delete, Hm; set_solver|by apply Hb, Hd].
    - split; [by eapply installed_whole|done]. }
  intros [].
  - eapply (runs_seq _ _ (installed r)); by apply runs_ret.
  - eapply (runs_seq _ _ (λ _, False)); [|by apply runs_ret]. cbn [negb when].
    eapply (runs_seq _ _ before); [|apply runs_exit; exiting].
    apply runs_Remove; intros m [[[Hm _] _] _]; [done|]. assert (before (delete staging m)) by (apply before_delete; [set_solver|done]).
    auto using before_whole.
Qed.

Lemma installed_insert r p n m : p ∈ [symlink_path; link_tmp; tmp] → installed r m → installed r (<[p := n]> m).
Proof.
  destruct paths_distinct as ((?&?&?&?&?&_) & (?&?&?&?&_) & _). intros Hp (Hd & Hg & Hf & Hb).
  assert (p ≠ dest ∧ p ≠ bak) as [? ?] by set_solver. split_and!.
  - by rewrite lookup_insert_ne.
  - done.
  - apply frame_insert; [set_solver|done].
  - intros Hr. rewrite lookup_insert_ne by done. by apply Hb.
Qed.
Lemma installed_delete r p m : p ∈ [symlink_path; link_tmp; tmp] → installed r m → installed r (delete p m).
Proof.
  destruct paths_distinct as ((?&?&?&?&?&_) & (?&?&?&?&_) & _). intros Hp (Hd & Hg & Hf & Hb).
  assert (p ≠ dest ∧ p ≠ bak) as [? ?] by set_solver. split_and!.
  - by rewrite lookup_delete_ne.
  - done.
  - apply frame_delete; [set_solver|done].
  - intros Hr. rewrite lookup_delete_ne by done. by apply Hb.
Qed.
(** The backup is of no use once the services run. *)
Lemma installed_drop r m : installed r m → installed false (delete bak m).
Proof.
  destruct paths_distinct as ((?&_) & _). intros (Hd & Hg & Hf & Hb). split_and!; [by rewrite lookup_delete_ne|done| |done].
  apply frame_delete; [set_solver|done].
Qed.

Lemma installed_kept r m : installed r m → installed false m.
Proof. intros (? & ? & ? & _). by split_and!. Qed.
Lemma installed_step r m : installed r m → whole m ∧ installed r m.
Proof. intros Hm. split; [by eapply installed_whole|done]. Qed.

Lemma update_symlink_runs r : runs whole (installed r) (update_symlink w dest) (λ _, installed r) exited.
Proof.
  unfold update_symlink. change (symlink_path ++ lit ".new") with link_tmp.
  assert (Hrm : runs whole (installed r) (try_remove w link_tmp) (λ _, installed r) exited).
  { apply runs_Remove; [done|]. intros m Hm. apply installed_step, installed_delete; [set_solver|done]. }
  eapply (runs_seq _ _ (installed r)); [done|]. eapply (runs_bind _ _ _ (λ _, installed r)).
  { apply runs_Symlink. intros m Hm. apply installed_step, installed_insert; [set_solver|done]. }
  intros linked. apply runs_when; [intros _|done]. eapply (runs_bind _ _ _ (λ _, installed r)).
  - eapply runs_weaken; [| |apply (rename_runs (installed r) (installed r))]; [done|by intros []|].
    intros m n Hm _. apply installed_step, installed_insert; [set_solver|]. apply installed_delete; [set_solver|done].
  - intros renamed. apply runs_when; [intros _|done]. eapply runs_seq; [exact Hrm|by apply runs_ret].
Qed.

Lemma starts_runs I P verb svcs : runs I P (for_each (systemctl verb) svcs) (λ _, P) exited.
Proof. apply runs_for_each. intros. apply runs_exec. Qed.

Lemma restart_runs svcs r : runs whole (installed r) (restart w svcs r dest) (λ _, installed r) exited.
Proof.
  destruct paths_distinct as ((?&_) & _).
  unfold restart. change (dest ++ lit ".bak") with bak.
  eapply (runs_seq _ _ (installed r)); [apply starts_runs|].
  apply runs_when; [|done]. intros [_ Hr]%andb_true_iff.
  eapply runs_bind; [apply (rename_runs _ (λ m, m !! dest = old ∧ frame m))|].
  { intros m n (Hd & Hg & Hf & Hb) Hn. destruct (Hb Hr) as [_ Ho]. rewrite Hn in Ho.
    assert (Hi : <[dest := n]> (delete bak m) !! dest = old ∧ frame (<[dest := n]> (delete bak m))).
    - rewrite lookup_insert_eq. split; [done|]. apply frame_insert, frame_delete, Hf; set_solver.
    - split; [split; [by left; apply (proj1 Hi)|apply (proj2 Hi)]|exact Hi]. }
  intros [].
  - eapply runs_seq; [apply starts_runs|]. apply runs_exit. intros m [? ?]. by split.
  - eapply (runs_seq _ _ (installed r)); [by apply runs_ret|]. apply runs_exit. intros m (? & ? & Hf & _). by split.
Qed.

(** The end of a run that replaced the binary. *)
Definition done_with (e : upgrade_end) (m : fs) : Prop :=
  match e with Upgraded _ => m !! dest = Some new ∧ good ∧ frame m | _ => m = m0 end.

Lemma perform_runs tag url : runs whole before (perform w tag url installDir) (λ e m, (∃ t, e = Upgraded t) ∧ done_with e m) exited.
Proof.
  destruct paths_distinct as ((?&?&?&?&?&Hd) & (?&?&?&?&Hb) & (?&?&?&Hs) & (_&_&Ht)).
  unfold perform. fold dest. change (dest ++ lit ".bak") with bak.
  eapply runs_bind; [apply runs_exit_when; exiting|]. intros [].
  eapply runs_bind; [eapply runs_pre, download_runs; by intros m [? _]|]. intros [tmp' body]. cbn [fst].
  apply (runs_assume _ (tmp' = tmp)); [by intros m [? _]|]. intros ->.
  apply (runs_pre _ downloaded); [by intros m [_ ?]|].
  eapply (runs_seq _ _ downloaded).
  { apply runs_MkdirAll; [intros m Hm; apply before_whole, Hm|]. intros m ((Ho & Hf & Hp) & Hn & Hg) _.
    split; [split_and!|split; [by rewrite lookup_insert_ne|done]]; [by rewrite lookup_insert_ne|apply frame_insert; [set_solver|done]|].
    intros q Hq. rewrite lookup_insert_ne; [by apply Hp|]. intros ->. set_solver. }
  eapply runs_bind; [apply install_runs|]. intros r.
  eapply (runs_seq _ _ (installed r)); [apply update_symlink_runs|].
  eapply (runs_seq _ _ (installed r)); [apply starts_runs|].
  eapply (runs_seq _ _ (installed r)); [apply runs_when; [intros _; apply restart_runs|done]|].
  eapply (runs_seq _ _ (installed false)).
  { apply runs_when; [|by intros -> m ?]. intros _. eapply (runs_seq _ _ (installed false)); [|by apply runs_ret].
    apply runs_Remove; intros m Hm; [by apply installed_kept in Hm|by eapply installed_step, installed_drop]. }
  eapply (runs_seq _ _ (installed false)).
  { apply runs_Remove; [done|]. intros m Hm. apply installed_step, installed_delete; [set_solver|done]. }
  apply runs_ret. intros m (Ho & Hg & Hf & _). by split; [eexists|].
Qed.

(** A command on one of the services that were running. *)
Definition on_running (cmd : list bytes) : Prop :=
  ∃ verb svc, cmd = [lit "systemctl"; verb; svc] ∧ svc ∈ services ∧ wd_active w svc = true.

Lemma systemctl_running verb : ∀ svc, svc ∈ runningAnvilServices w → commands_ok on_running (systemctl verb svc).
Proof. intros svc [? ?]%list_elem_of_filter. apply commands_exec. by exists verb, svc. Qed.

Lemma each_running verb : commands_ok on_running (for_each (systemctl verb) (runningAnvilServices w)).
Proof. apply commands_for_each. intros svc. apply systemctl_running. Qed.
End upgrade.

#[export] Hint Resolve each_running : anvil.

Lemma cmdUpgrade_commands w installDir version check force : commands_ok (on_running w) (cmdUpgrade w installDir version check force).
Proof.
  unfold cmdUpgrade, perform, download, install, update_symlink, restart, copyFileE, try_rename, try_remove.
  commands_all.
Qed.

Lemma bind_inr {E A B : Type} (s : script E A) (f : A → script E B) h h' (b : B) :
  (s ≫= f) h = (h', inr b) → ∃ h1 a, s h = (h1, inr a) ∧ f a h1 = (h', inr b).
Proof. unfold mbind, script_bind. destruct (s h) as [h1 [|]]; [done|]. by exists h1, a. Qed.

Lemma perform_tag w tag url installDir h h' tag' : perform w tag url installDir h = (h', inr (Upgraded tag')) → tag' = tag.
Proof.
  unfold perform. intros (? & ? & _ & H)%bind_inr. apply bind_inr in H as (? & [] & _ & H).
  do 7 (apply bind_inr in H as (? & ? & _ & H)). by injection H.
Qed.

Lemma resolve_error arch github version e : resolveRelease arch github version = inl e → e ≠ UpRollbackFailed.
Proof.
  unfold resolveRelease, binaryName, fetchLatestTag. repeat case_match; intros ?; by simplify_eq.
Qed.

(** C8: an upgrade, wherever it is cut off and whichever of its calls fail, leaves
    a whole binary in place, when the binary is not installed under the name of
    the link in [/usr/local/bin] and the paths it writes to are plain files or
    free ([setting]). In every state the file system goes through, the installed
    binary is the old one or the complete download, which was run before; no
    other path than the ones of the upgrade changes. An exit with an error
    leaves the old binary, but for the exit that reports a failed rollback, which
    leaves the new one; a run that ends well leaves the new one, and without
    [--force] only if its tag is a later version; a run that only checks or has
    nothing to do changes nothing; and only services that were active are
    stopped or started. *)
Theorem upgrade_safe w m0 tmp installDir version check force h h' r :
  setting w m0 tmp installDir → h_fs h = m0 → h_log h = [] → h_cmds h = [] →
  cmdUpgrade w installDir version check force h = (h', r) →
  Forall (whole w m0 tmp installDir) (h_log h') ∧
  Forall (on_running w) (h_cmds h') ∧
  match r with
  | inl e => exited w m0 tmp installDir e (h_fs h')
  | inr e => done_with w m0 tmp installDir e (h_fs h') ∧
      (∀ tag, e = Upgraded tag → force = true ∨ versionNewerOrEqual Version (trim_prefix tag (lit "v")) = false)
  end.
Proof.
  intros Hset <- Hl Hc Hr.
  assert (Hb : before (h_fs h) tmp installDir (h_fs h)) by (split_and!; [done|done|apply (st_plain _ _ _ _ Hset)]).
  assert (runs (whole w (h_fs h) tmp installDir) (λ m, m = h_fs h) (cmdUpgrade w installDir version check force)
    (λ e m, done_with w (h_fs h) tmp installDir e m ∧
      (∀ tag, e = Upgraded tag → force = true ∨ versionNewerOrEqual Version (trim_prefix tag (lit "v")) = false))
    (exited w (h_fs h) tmp installDir)) as Hruns.
  { unfold cmdUpgrade. destruct (resolveRelease _ _ _) as [e|[tag url]] eqn:Er; [apply runs_exit; intros ? ->; by apply before_exited; [eapply resolve_error|]|].
    destruct check; [by apply runs_ret|]. cbv zeta.
    destruct (versionNewerOrEqual Version _ && negb force) eqn:Ev.
    { apply runs_ret. intros ? ->. by case_bool_decide. }
    intros h1 h1' r1 H1 HP.
    destruct (perform_runs _ _ _ _ Hset tag url _ _ _ H1 ltac:(by rewrite HP)) as [Hi Hq]. split; [done|].
    destruct r1 as [e|e]; [done|]. split; [apply Hq|]. intros tag' ->.
    apply perform_tag in H1 as ->. apply andb_false_iff in Ev as [|?%negb_false_iff]; auto. }
  destruct (runs_log _ _ _ _ _ _ _ _ Hruns Hr eq_refl Hl) as [Hi Hq]. split_and!; [done| |done].
  pose proof (cmdUpgrade_commands w installDir version check force h ltac:(by rewrite Hc)) as Hh. by rewrite Hr in Hh.
Qed.

(** Two nodes run, and neither starts with the new binary. *)
Definition sample_world (starts : bool) : World :=
  MkWorld (lit "amd64") (Some (200, Some (lit "v0.8.0"))) true (Some (lit "/tmp/anvil-upgrade-1"))
    (λ _, Some 200) (lit "new", true) (λ b, bool_decide (b = lit "new")) (λ _, true)
    (λ _ _, CopyDone) (λ _ _, true) true (λ _, starts) (λ _, true) (λ _, true).
Definition sample_fs : fs := <[lit "/opt/anvil/anvil" := File (lit "old")]> (<[lit "/opt/anvil" := Dir]> ∅).

Example upgrade_runs :
  let run starts := cmdUpgrade (sample_world starts) (lit "/opt/anvil") (lit "latest") false false (MkHost sample_fs [] [] []) in
  (run true).2 = inr (Upgraded (lit "v0.8.0")) ∧ (run false).2 = inl UpRolledBack ∧
  h_fs (run true).1 !! lit "/opt/anvil/anvil" = Some (File (lit "new")) ∧ length (h_cmds (run false).1) = 6%nat.
Proof. vm_compute. done. Qed.

(** With [--install-dir /usr/local/bin] the link is made over the binary: the run
    ends well, and what it leaves is a link to itself, without a backup. *)
Example upgrade_into_link_dir :
  let h := MkHost (<[symlink_path := File (lit "old")]> ∅) [] [] [] in
  let '(h', r) := cmdUpgrade (sample_world true) (lit "/usr/local/bin") (lit "latest") false false h in
  r = inr (Upgraded (lit "v0.8.0")) ∧ h_fs h' !! symlink_path = Some (Symlink symlink_path) ∧
  read_file (h_fs h') symlink_path = None ∧ h_fs h' !! (symlink_path ++ lit ".bak") = None.
Proof. vm_compute. by split_and!. Qed.

(** A rollback that fails leaves the new binary. *)
Example rollback_fails :
  let w := sample_world false in
  let w := MkWorld (wd_arch w) (wd_github w) true (wd_temp w) (wd_get w) (wd_body w) (wd_runs w) (wd_active w) (wd_copy w)
    (λ src _, negb (bool_decide (src = lit "/opt/anvil/anvil.bak"))) true (wd_start w) (wd_mkdir w) (wd_remove w) in
  let '(h', r) := cmdUpgrade w (lit "/opt/anvil") (lit "latest") false false (MkHost sample_fs [] [] []) in
  r = inl UpRollbackFailed ∧ h_fs h' !! lit "/opt/anvil/anvil" = Some (File (lit "new")) ∧
  h_fs h' !! lit "/opt/anvil/anvil.bak" = Some (File (lit "old")).
Proof. vm_compute. by split_and!. Qed.

Lemma upgrade_safe_witness :
  setting (sample_world false) sample_fs (lit "/tmp/anvil-upgrade-1") (lit "/opt/anvil") ∧
  let h' := (cmdUpgrade (sample_world false) (lit "/opt/anvil") (lit "latest") false false (MkHost sample_fs [] [] [])).1 in
  Forall (whole (sample_world false) sample_fs (lit "/tmp/anvil-upgrade-1") (lit "/opt/anvil")) (h_log h') ∧
  exited (sample_world false) sample_fs (lit "/tmp/anvil-upgrade-1") (lit "/opt/anvil") UpRolledBack (h_fs h').
Proof.
  assert (Hs : setting (sample_world false) sample_fs (lit "/tmp/anvil-upgrade-1") (lit "/opt/anvil")).
  { constructor; [done|vm_compute; discriminate|by apply (bool_decide_unpack _); vm_compute..|].
    intros p Hp. repeat (apply elem_of_cons in Hp as [->|Hp]; [vm_compute; done|]). by apply elem_of_nil in Hp. }
  split; [exact Hs|].
  pose proof (upgrade_safe (sample_world false) sample_fs (lit "/tmp/anvil-upgrade-1") (lit "/opt/anvil") (lit "latest") false false
    (MkHost sample_fs [] [] []) _ _ Hs eq_refl eq_refl eq_refl (surjective_pairing _)) as (Hw & _ & He).
  split; [exact Hw|].
  assert (Hr : (cmdUpgrade (sample_world false) (lit "/opt/anvil") (lit "latest") false false (MkHost sample_fs [] [] [])).2 = inl UpRolledBack)
    by (vm_compute; reflexivity).
  rewrite Hr in He. exact He.
Defined.

Lemma versions_ordered_witness :
  versionNewerOrEqual (lit "v0.8.0-rc1") (lit "0.7.3") = true ∧ versionNewerOrEqual (lit "0.7.3") (lit "0.7.2") = true ∧
  versionNewerOrEqual (lit "v0.8.0-rc1") (lit "0.7.2") = true.
Proof.
  destruct (versions_ordered (lit "v0.8.0-rc1") (lit "0.7.3") (lit "0.7.2")) as (_ & _ & Ht & _).
  split; [vm_compute; reflexivity|split; [vm_compute; reflexivity|]]. apply Ht; vm_compute; reflexivity.
Defined.
