(* ===== verification/Deploy.v ===== *)
(** * Deployment ([cmd/anvil/deploy.go])

    [anvil deploy] as a script: the preparation of the directories and of the
    identity of each node, the binary, the systemd units and configurations, and
    the start of the services. *)

From Stdlib Require Import Init.Byte Strings.Byte Strings.String Lia ZArith.
From stdpp Require Import base gmap sets list strings numbers.
From S2P Require Import Prelude GoStd LevelDB GoText Host Release.
Open Scope Z_scope.

Definition unlines (l : list bytes) : bytes := concat ((λ s, s ++ [x0a]) <$> l).
Definition quoted (s : bytes) : bytes := [x22] ++ s ++ [x22].

(** ** Public addresses *)

(** One number of an address of [net.ParseIP]: no sign, no leading zero. *)
Definition ip_octet (s : bytes) : option Z :=
  match s with
  | [] => None
  | c :: rest =>
      if bool_decide (c = x30) && negb (bool_decide (rest = [])) then None
      else match scan_digits 0 s with
           | (v, _, []) => if v <=? 255 then Some v else None
           | _ => None
           end
  end.
(** The dotted addresses. *)
Definition parse_ipv4 (s : bytes) : option (Z * Z * Z * Z) :=
  match split_on x2e s with
  | [a; b; c; d] => a ← ip_octet a; b ← ip_octet b; c ← ip_octet c; d ← ip_octet d; Some (a, b, c, d)
  | _ => None
  end.
Definition is_loopback (ip : Z * Z * Z * Z) : bool := let '(a, _, _, _) := ip in a =? 127.
Definition is_private (ip : Z * Z * Z * Z) : bool :=
  let '(a, b, _, _) := ip in (a =? 10) || (a =? 172) && (Z.land b 0xf0 =? 16) || (a =? 192) && (b =? 168).
Definition is_link_local (ip : Z * Z * Z * Z) : bool :=
  let '(a, b, c, _) := ip in (a =? 169) && (b =? 254) || (a =? 224) && (b =? 0) && (c =? 0).
Definition is_unspecified (ip : Z * Z * Z * Z) : bool := bool_decide (ip = (0, 0, 0, 0)).

Definition isValidPublicIPv4 (ip : bytes) : bool :=
  if bool_decide (ip = []) || bool_decide (x3a ∈ ip) || bool_decide (x3c ∈ ip) then false
  else match parse_ipv4 ip with
       | None => false
       | Some p => negb (is_loopback p || is_private p || is_link_local p || is_unspecified p)
       end.

(** ** Names and places *)

Section names.
Context (uni : bytes → bytes).

Definition parseNodeList (s : bytes) : list bytes :=
  let s := to_lower uni (trim_space uni s) in
  if bool_decide (s = lit "a") then [lit "a"]
  else if bool_decide (s = lit "b") then [lit "b"]
  else if bool_decide (s = lit "ab") || bool_decide (s = lit "both") then [lit "a"; lit "b"]
  else [].
End names.

Definition nodeDataDir (base node : bytes) : bytes :=
  if bool_decide (node = lit "a") then filepath_Join base (lit "anvil") else filepath_Join base (lit "anvil-b").
Definition serviceName (node : bytes) : bytes := lit "anvil-" ++ node.
Definition apiPort (node : bytes) : bytes := if bool_decide (node = lit "b") then lit "9334" else lit "9333".
Definition node_file (configDir node ext : bytes) : bytes := filepath_Join configDir (lit "node-" ++ node ++ ext).
Definition unit_path (node : bytes) : bytes := lit "/etc/systemd/system/" ++ serviceName node ++ lit ".service".
Definition upper_node (node : bytes) : bytes := (λ c, if (97 <=? byte_z c) && (byte_z c <=? 122) then z_byte (byte_z c - 32) else c) <$> node.

(** ** Templates *)

Definition renderUnit (node configDir dataDir installDir : bytes) : bytes :=
  let displayName := if bool_decide (node = lit "b") then lit "One (peer node)" else lit "Prime (seed node)" in
  unlines ([lit "[Unit]"; lit "Description=Anvil " ++ displayName; lit "After=network-online.target"] ++
    (if bool_decide (node = lit "b") then [lit "After=anvil-a.service"] else []) ++
    [lit "Wants=network-online.target"; []; lit "[Service]"; lit "Type=simple"; lit "User=anvil"; lit "Group=anvil";
     lit "WorkingDirectory=" ++ installDir;
     lit "ExecStart=" ++ installDir ++ lit "/anvil -config " ++ configDir ++ lit "/node-" ++ node ++ lit ".toml";
     lit "EnvironmentFile=" ++ configDir ++ lit "/node-" ++ node ++ lit ".env";
     lit "Restart=on-failure"; lit "RestartSec=5"; lit "KillMode=control-group"; lit "KillSignal=SIGTERM";
     lit "TimeoutStopSec=30"; lit "FinalKillSignal=SIGKILL"; lit "LimitNOFILE=65536"; [];
     lit "# Security hardening"; lit "ProtectSystem=strict"; lit "ProtectHome=true"; lit "ReadWritePaths=" ++ dataDir;
     lit "NoNewPrivileges=true"; []; lit "[Install]"; lit "WantedBy=multi-user.target"]).

(** ** The run

    The results of [os.MkdirAll], [os.WriteFile], [os.Remove] and [os.Symlink]
    are not looked at: what they return is dropped by [λ _]. *)

Inductive dp_err := DpNodes | DpRoot | DpKey | DpOpen | DpCreate.

(** The machine: whether the run is root's and the user [anvil] exists, the
    running binary, how its copy goes, the keys that are drawn (WIF and public
    key), the name of the host, what the three address services answer, how the
    nodes answer the attempts to reach them, and which of the calls on the file
    system fail. *)
Record Site := MkSite {
  si_root : bool; si_user : bool; si_self : bytes; si_copy : bytes → bytes → copy_fate;
  si_key : bytes → option (bytes * bytes); si_hostname : option bytes; si_ips : list (option bytes);
  si_health : bytes → nat → option Z;
  si_write : bytes → write_fate; si_mkdir : bytes → bool; si_remove : bytes → bool; si_symlink : bool
}.
Record Options := MkOptions {
  op_configDir : bytes; op_dataBase : bytes; op_installDir : bytes; op_nodes : bytes; op_seed : bytes;
  op_name : bytes; op_publicURL : bytes; op_dryRun : bool; op_skipHealth : bool
}.

Section deploy.
Context (uni : bytes → bytes) (identity_of : bytes → option bytes) (w : Site).
Abbreviation run := (script dp_err).

Definition detectPublicIP : bytes :=
  match filter (λ ip, isValidPublicIPv4 ip = true) (omap (λ o, trim_space uni <$> o) (si_ips w)) with
  | ip :: _ => ip
  | [] => []
  end.

(** The first line of an identity that decodes gives the name. *)
Definition identity_line (line : bytes) : option bytes :=
  let line := trim_space uni line in
  if has_prefix line (lit "ANVIL_IDENTITY_WIF=") then
    pub ← identity_of (trim_prefix line (lit "ANVIL_IDENTITY_WIF="));
    if (8 <=? length pub)%nat then Some (lit "anvil-" ++ take 8 pub) else None
  else None.
Definition autoNodeName (m : fs) (node configDir : bytes) : bytes :=
  let lines := match read_file m (node_file configDir node (lit ".env")) with Some data => split_on x0a data | None => [] end in
  match omap identity_line lines with
  | name :: _ => name
  | [] => match si_hostname w with Some (_ :: _ as h) => h | _ => lit "anvil-node" end
  end.

Definition renderConfig (m : fs) (node dataDir seedPeer nodeName publicURL configDir : bytes) : bytes :=
  let isB := bool_decide (node = lit "b") in
  let meshPort := if isB then lit "8334" else lit "8333" in
  let port := if isB then lit "9334" else lit "9333" in
  let seeds := if isB then lit "seeds = [" ++ quoted (lit "ws://127.0.0.1:8333") ++ lit "]" else lit "seeds = []" in
  let name := if bool_decide (nodeName = []) then autoNodeName m node configDir else nodeName in
  let seeds := if bool_decide (seedPeer = []) then seeds else lit "seeds = [" ++ quoted seedPeer ++ lit "]" in
  let ip := detectPublicIP in
  let publicURLLine :=
    if bool_decide (publicURL = []) then
      if bool_decide (ip = []) then [] else lit "public_url = " ++ quoted (lit "http://" ++ ip ++ lit ":" ++ port) ++ [x0a]
    else lit "public_url = " ++ quoted publicURL ++ [x0a] in
  unlines [
    lit "# Anvil Node " ++ upper_node node; lit "[node]"; lit "name = " ++ quoted name; lit "data_dir = " ++ quoted dataDir;
    lit "listen = " ++ quoted (lit "0.0.0.0:" ++ meshPort); lit "api_listen = " ++ quoted (lit "0.0.0.0:" ++ port);
    publicURLLine; lit "[mesh]"; seeds; [];
    lit "[bsv]"; lit "nodes = [" ++ quoted (lit "seed.bitcoinsv.io:8333") ++ lit "]"; [];
    lit "[arc]"; lit "enabled = true"; lit "url = " ++ quoted (lit "https://arc.gorillapool.io"); [];
    lit "[junglebus]"; lit "enabled = true"; lit "url = " ++ quoted (lit "junglebus.gorillapool.io"); [];
    lit "[overlay]"; lit "enabled = true"; lit "topics = [" ++ quoted (lit "anvil:mainnet") ++ lit "]"; [];
    lit "[envelopes]"; lit "max_ephemeral_ttl = 3600"; lit "max_durable_size = 65536"; [];
    lit "[api]"; lit "explorer_origin = " ++ quoted (lit "ce15872085966376ffe4479ecf32d88fc6be026aed0246054bf7bfaab2ea756a_0");
    lit "rate_limit = 100"; lit "payment_satoshis = 0"; lit "trust_proxy = false"; [];
    lit "[api.app_payments]"; lit "allow_passthrough = true"; lit "allow_split = true"; lit "allow_token_gating = true";
    lit "max_app_price_sats = 10000"].

Definition dry (line : bytes) : run () := say (lit "[dry-run] would " ++ line).
Definition owner : bytes := lit "anvil:anvil".
Definition chownRecursive (path : bytes) : run () := exec [lit "chown"; lit "-R"; owner; path].
Definition chown (path : bytes) : run () := exec [lit "chown"; owner; path].

Definition ensureUser (dryRun : bool) : run () :=
  if si_user w then mret ()
  else if dryRun then dry (lit "create user anvil")
  else exec [lit "useradd"; lit "--system"; lit "--no-create-home"; lit "--shell"; lit "/usr/sbin/nologin"; lit "anvil"].

Definition subdirs : list bytes :=
  [lit "headers"; lit "envelopes"; lit "overlay"; lit "wallet"; lit "invoices"; lit "proofs"; lit "mesh"].
Definition identity_file (node wif : bytes) : bytes :=
  unlines [lit "# Anvil Node " ++ upper_node node ++ lit " identity " ++ [xe2; x80; x94] ++ lit " generated by anvil deploy";
           lit "ANVIL_IDENTITY_WIF=" ++ wif].
Definition preflight_dir (dataDir : bytes) (dryRun : bool) (sub : bytes) : run () :=
  let dir := filepath_Join dataDir sub in
  if dryRun then m ← get_fs; when (negb (exists_at m dir)) (dry (lit "create " ++ dir))
  else os_MkdirAll (si_mkdir w dir) dir ≫= λ _, chownRecursive dir.
Definition preflight (node configDir dataDir : bytes) (dryRun : bool) : run () :=
  for_each (preflight_dir dataDir dryRun) subdirs ≫= λ _,
  let envFile := node_file configDir node (lit ".env") in
  m ← get_fs;
  when (negb (exists_at m envFile))
    (if dryRun then dry (lit "create " ++ envFile)
     else
       os_MkdirAll (si_mkdir w configDir) configDir ≫= λ _,
       match si_key w node with
       | None => exit_with DpKey
       | Some (wif, pubkey) => os_WriteFile (si_write w envFile) envFile (identity_file node wif) ≫= λ _, chown envFile
       end).

(** Opening either end can fail; what the copy itself returns is not looked at. *)
Definition copyFile (src dst : bytes) : run () :=
  m ← get_fs;
  match read_file m src with
  | None => exit_with DpOpen
  | Some b =>
      match si_copy w src dst with
      | CopyNoSource => exit_with DpOpen
      | CopyNoTarget => exit_with DpCreate
      | CopyCut n => put_file dst [] ≫= λ _, put_file dst (take n b)
      | CopyDone | CopyClose => put_file dst [] ≫= λ _, put_file dst b
      end
  end.

Definition stopServices (nodes : list bytes) : run () :=
  for_each (λ n, exec [lit "systemctl"; lit "stop"; serviceName n]) nodes.

Definition install_binary (o : Options) (nodeList : list bytes) : run () :=
  let destBin := filepath_Join (op_installDir o) (lit "anvil") in
  if op_dryRun o then dry (lit "copy " ++ si_self w ++ lit " to " ++ destBin)
  else
    os_MkdirAll (si_mkdir w (op_installDir o)) (op_installDir o) ≫= λ _,
    stopServices nodeList ≫= λ _,
    copyFile (si_self w) destBin ≫= λ _,
    os_Remove (si_remove w symlink_path) symlink_path ≫= λ _,
    os_Symlink (si_symlink w) destBin symlink_path ≫= λ _, mret ().

Definition deployNode (o : Options) (node : bytes) : run () :=
  let dataDir := nodeDataDir (op_dataBase o) node in
  let unitContent := renderUnit node (op_configDir o) dataDir (op_installDir o) in
  (if op_dryRun o then dry (lit "write " ++ unit_path node) else os_WriteFile (si_write w (unit_path node)) (unit_path node) unitContent ≫= λ _, mret ()) ≫= λ _,
  let tomlPath := node_file (op_configDir o) node (lit ".toml") in
  m ← get_fs;
  (if exists_at m tomlPath then say (tomlPath ++ lit " exists")
   else if op_dryRun o then dry (lit "write " ++ tomlPath)
   else os_WriteFile (si_write w tomlPath) tomlPath
     (renderConfig m node dataDir (op_seed o) (op_name o) (op_publicURL o) (op_configDir o)) ≫= λ _, mret ()) ≫= λ _,
  chownRecursive dataDir.

Definition start_node (node : bytes) : run () :=
  exec [lit "systemctl"; lit "daemon-reload"] ≫= λ _,
  exec [lit "systemctl"; lit "enable"; serviceName node] ≫= λ _,
  exec [lit "systemctl"; lit "start"; serviceName node].

(** Six attempts. *)
Definition healthCheck (port : bytes) : bool := existsb (λ i, bool_decide (si_health w port i = Some 200)) (seq 0 6).

Inductive deploy_end := DryRun | NotChecked | Checked (healthy : bool).

Definition cmdDeploy (o : Options) : run deploy_end :=
  let nodeList := parseNodeList uni (op_nodes o) in
  exit_when (bool_decide (nodeList = [])) DpNodes ≫= λ _,
  exit_when (negb (op_dryRun o) && negb (si_root w)) DpRoot ≫= λ _,
  ensureUser (op_dryRun o) ≫= λ _,
  for_each (λ n, preflight n (op_configDir o) (nodeDataDir (op_dataBase o) n) (op_dryRun o)) nodeList ≫= λ _,
  install_binary o nodeList ≫= λ _,
  for_each (deployNode o) nodeList ≫= λ _,
  if op_dryRun o then mret DryRun
  else
    for_each start_node nodeList ≫= λ _,
    if op_skipHealth o then mret NotChecked
    else mret (Checked (forallb (λ n, healthCheck (apiPort n)) nodeList)).
End deploy.
