(* ===== verification/DeployProps.v ===== *)
(** * What a deployment keeps

    Which addresses count as public; that a deployment overwrites no file but
    the binary, its link and the units; that a dry run writes nothing; and that
    the identity it generates, once written, is the one that is loaded. *)

From Stdlib Require Import Init.Byte Strings.Byte Strings.String Lia ZArith.
From stdpp Require Import base gmap sets list strings numbers.
From S2P Require Import Prelude GoStd Sha256 LevelDB GoText Config Host Release Deploy.
Open Scope Z_scope.

(** ** Public addresses *)

Definition digit_chars : bytes := [x30; x31; x32; x33; x34; x35; x36; x37; x38; x39].
(** The texts of up to three digits. *)
Definition short_numbers : list bytes :=
  ((λ a, [a]) <$> digit_chars) ++ (a ← digit_chars; b ← digit_chars; [[a; b]]) ++
  (a ← digit_chars; b ← digit_chars; c ← digit_chars; [[a; b; c]]).

Lemma digit_value_char c d : digit_value c = Some d → c ∈ digit_chars ∧ 0 ≤ d ≤ 9 ∧ (c ≠ x30 → 1 ≤ d).
Proof. unfold digit_value, digit_chars. destruct c; cbn; intros H; simplify_eq; (split; [set_solver|split; [lia|intros; done || lia]]). Qed.

Lemma scan_digits_all s : ∀ acc v n, 0 ≤ acc → scan_digits acc s = (v, n, []) →
  Forall (.∈ digit_chars) s ∧ acc * 10 ^ zlen s ≤ v.
Proof.
  induction s as [|c s IH]; intros acc v n Ha; cbn [scan_digits].
  { intros [= <- _]. split; [done|]. unfold zlen. cbn. lia. }
  destruct (digit_value c) as [d|] eqn:Ed; [|done]. destruct (scan_digits (10 * acc + d) s) as [[v' n'] r] eqn:Es.
  intros [= <- _ ->]. destruct (digit_value_char _ _ Ed) as (Hc & Hd & _).
  destruct (IH (10 * acc + d) v' n' ltac:(lia) Es) as [Hs Hv]. split; [by constructor|].
  pose proof (zlen_nonneg s). rewrite zlen_cons, Z.pow_add_r by lia. change (10 ^ 1) with 10.
  assert (0 < 10 ^ zlen s) by (apply Z.pow_pos_nonneg; lia). nia.
Qed.

Lemma ip_octet_short s a : ip_octet s = Some a → s ∈ short_numbers.
Proof.
  destruct s as [|c s]; [done|]. unfold ip_octet. case_match eqn:Ez; [done|].
  destruct (scan_digits 0 (c :: s)) as [[v n] [|]] eqn:Es; [|done].
  case_match eqn:Ev; [|done]. intros _. apply Z.leb_le in Ev.
  assert (Hd : Forall (.∈ digit_chars) (c :: s)) by (by eapply (scan_digits_all (c :: s) 0)).
  assert (Hl : (length s ≤ 2)%nat).
  { cbn [scan_digits] in Es. destruct (digit_value c) as [d|] eqn:Ed; [|done].
    destruct (scan_digits (10 * 0 + d) s) as [[v' n'] r] eqn:Es'. simplify_eq.
    destruct (digit_value_char _ _ Ed) as (_ & H0 & H1).
    destruct (scan_digits_all s (10 * 0 + d) _ _ ltac:(lia) Es') as [_ Hv].
    destruct (decide (c = x30)) as [->|Hc].
    - rewrite bool_decide_true in Ez by done. case_bool_decide; [|done]. subst. cbn. lia.
    - specialize (H1 Hc). apply Nat.nlt_ge. intros Hs. assert (10 ^ 3 ≤ 10 ^ zlen s) by (apply Z.pow_le_mono_r; unfold zlen; lia).
      change (10 ^ 3) with 1000 in H. nia. }
  unfold short_numbers. rewrite !list.Forall_cons in Hd. destruct Hd as [Hc Hd].
  destruct s as [|c2 [|c3 [|]]]; [..|cbn in Hl; lia]; rewrite ?list.Forall_cons in Hd.
  - apply elem_of_app. left. apply list_elem_of_fmap. by exists c.
  - apply elem_of_app. right. apply elem_of_app. left. apply list_elem_of_bind. exists c. split; [|done].
    apply list_elem_of_bind. exists c2. split; [by left|apply Hd].
  - apply elem_of_app. right. apply elem_of_app. right. apply list_elem_of_bind. exists c. split; [|done].
    apply list_elem_of_bind. exists c2. split; [|apply Hd]. apply list_elem_of_bind. exists c3. split; [by left|apply Hd].
Qed.

(** An octet is read from its decimal notation and from nothing else. *)
Lemma ip_octet_itoa s a : ip_octet s = Some a ↔ 0 ≤ a ≤ 255 ∧ s = itoa a.
Proof.
  split.
  - intros H. pose proof (ip_octet_short _ _ H) as Hs.
    assert (Hall : forallb (λ s, match ip_octet s with Some a => (0 <=? a) && (a <=? 255) && bool_decide (s = itoa a) | None => true end) short_numbers = true)
      by (vm_compute; reflexivity).
    rewrite forallb_forall in Hall. specialize (Hall s (proj1 (list_elem_of_In _ _) Hs)). rewrite H in Hall.
    apply andb_true_iff in Hall as [Hb ?%bool_decide_eq_true]. split; [lia|done].
  - intros [Ha ->].
    assert (Hall : forallb (λ n, bool_decide (ip_octet (itoa (Z.of_nat n)) = Some (Z.of_nat n))) (seq 0 256) = true)
      by (vm_compute; reflexivity).
    rewrite forallb_forall in Hall. specialize (Hall (Z.to_nat a)). rewrite in_seq, bool_decide_eq_true, Z2Nat.id in Hall by lia.
    apply Hall. lia.
Qed.

Lemma itoa_no_dot z : 0 ≤ z ≤ 255 → (x2e ∉ itoa z) ∧ (x3a ∉ itoa z) ∧ (x3c ∉ itoa z).
Proof.
  intros Hz.
  assert (Hall : forallb (λ n, bool_decide ((x2e ∉ itoa (Z.of_nat n)) ∧ (x3a ∉ itoa (Z.of_nat n)) ∧ (x3c ∉ itoa (Z.of_nat n)))) (seq 0 256) = true)
    by (vm_compute; reflexivity).
  rewrite forallb_forall in Hall. specialize (Hall (Z.to_nat z)). rewrite in_seq, bool_decide_eq_true, Z2Nat.id in Hall by lia.
  apply Hall. lia.
Qed.

Definition octet (a : Z) : Prop := 0 ≤ a ≤ 255.
Definition dotted (ip : Z * Z * Z * Z) : bytes := let '(a, b, c, d) := ip in join [x2e] [itoa a; itoa b; itoa c; itoa d].
Definition octets (ip : Z * Z * Z * Z) : Prop := let '(a, b, c, d) := ip in octet a ∧ octet b ∧ octet c ∧ octet d.

Lemma parse_ipv4_iff s ip : parse_ipv4 s = Some ip ↔ octets ip ∧ s = dotted ip.
Proof.
  unfold parse_ipv4, octets, dotted. split.
  - pose proof (join_split_on x2e s) as Hj. destruct (split_on x2e s) as [|p [|q [|r [|t [|]]]]]; try done.
    intros H. apply bind_Some in H as (a & Ha & H). apply bind_Some in H as (b & Hb & H).
    apply bind_Some in H as (c & Hc & H). apply bind_Some in H as (d & Hd & [= <-]).
    apply ip_octet_itoa in Ha as [? ->], Hb as [? ->], Hc as [? ->], Hd as [? ->]. done.
  - destruct ip as [[[a b] c] d]. intros [(Ha & Hb & Hc & Hd) ->]. cbn [join].
    rewrite !split_on_app, split_on_nil by (by apply itoa_no_dot).
    assert (Hi : ∀ z, octet z → ip_octet (itoa z) = Some z) by (intros z Hz; by apply ip_octet_itoa).
    by rewrite !Hi.
Qed.

(** Outside the loopback, private, link-local and unspecified ranges. *)
Definition public_range (ip : Z * Z * Z * Z) : Prop :=
  let '(a, b, c, d) := ip in
  a ≠ 127 ∧ a ≠ 10 ∧ ¬ (a = 172 ∧ 16 ≤ b ≤ 31) ∧ ¬ (a = 192 ∧ b = 168) ∧ ¬ (a = 169 ∧ b = 254) ∧
  ¬ (a = 224 ∧ b = 0 ∧ c = 0) ∧ (a, b, c, d) ≠ (0, 0, 0, 0).

Lemma private_172 b : octet b → (Z.land b 0xf0 =? 16) = (16 <=? b) && (b <=? 31).
Proof.
  unfold octet. intros Hb.
  assert (Hall : forallb (λ n, Bool.eqb (Z.land (Z.of_nat n) 0xf0 =? 16) ((16 <=? Z.of_nat n) && (Z.of_nat n <=? 31))) (seq 0 256) = true)
    by (vm_compute; reflexivity).
  rewrite forallb_forall in Hall. specialize (Hall (Z.to_nat b)). rewrite in_seq, Bool.eqb_true_iff, Z2Nat.id in Hall by lia.
  apply Hall. lia.
Qed.

(** C37: the addresses that a node may announce are exactly the dotted notations
    of four numbers up to 255, each in its shortest form, outside the loopback,
    private, link-local and unspecified ranges. *)
Theorem isValidPublicIPv4_iff s : isValidPublicIPv4 s = true ↔ ∃ ip, octets ip ∧ public_range ip ∧ s = dotted ip.
Proof.
  unfold isValidPublicIPv4. split.
  - case_match; [done|]. destruct (parse_ipv4 s) as [ip|] eqn:Ep; [|done]. intros Hn. exists ip.
    apply parse_ipv4_iff in Ep as [Ho ->]. split; [done|]. split; [|done].
    destruct ip as [[[a b] c] d]. destruct Ho as (_ & Hb & _ & _). cbn in Hn |- *. rewrite private_172 in Hn by done.
    unfold is_unspecified in Hn. case_bool_decide; [by rewrite !orb_true_r in Hn|]. split_and!; try done; lia.
  - intros ([[[a b] c] d] & Ho & Hr & Es). pose proof (proj2 (parse_ipv4_iff s (a, b, c, d)) (conj Ho Es)) as ->.
    destruct Ho as (Ha & Hb & Hc & Hd).
    assert (Hfree : ∀ z, z = x3a ∨ z = x3c → z ∉ s).
    { intros z Hz. subst s. unfold dotted. cbn [join]. rewrite !not_elem_of_app, !list_elem_of_singleton.
      destruct (itoa_no_dot a Ha) as (_ & ? & ?), (itoa_no_dot b Hb) as (_ & ? & ?), (itoa_no_dot c Hc) as (_ & ? & ?),
        (itoa_no_dot d Hd) as (_ & ? & ?). destruct Hz as [-> | ->]; split_and!; done. }
    rewrite (bool_decide_false (x3a ∈ s)), (bool_decide_false (x3c ∈ s)) by (apply Hfree; auto).
    rewrite bool_decide_false by (intros Hs; rewrite Hs in Es; unfold dotted in Es; cbn [join] in Es; by destruct (itoa a)). cbn in Hr |- *. rewrite private_172 by done.
    unfold is_unspecified. rewrite bool_decide_false by apply Hr. lia.
Qed.

(** The ranges that the list leaves out. *)
Example public_shared : isValidPublicIPv4 (lit "100.64.0.1") = true ∧ isValidPublicIPv4 (lit "255.255.255.255") = true ∧
  isValidPublicIPv4 (lit "239.1.2.3") = true ∧ isValidPublicIPv4 (lit "0.1.2.3") = true ∧
  isValidPublicIPv4 (lit "192.168.1.1") = false ∧ isValidPublicIPv4 (lit "8.8.8.08") = false ∧ isValidPublicIPv4 (lit "8.8.8.8") = true.
Proof. vm_compute. done. Qed.

(** ** What is kept *)

Lemma parse_nodes uni s n : n ∈ parseNodeList uni s → n = lit "a" ∨ n = lit "b".
Proof. unfold parseNodeList. repeat case_match; intros Hn; set_solver. Qed.

Section keeps.
Context (uni : bytes → bytes) (identity_of : bytes → option bytes) (w : Site) (o : Options).
Context (p : bytes) (b : bytes).

Definition dest_bin : bytes := filepath_Join (op_installDir o) (lit "anvil").
(** What a deployment writes over. *)
Definition overwritten : list bytes := [dest_bin; symlink_path; unit_path (lit "a"); unit_path (lit "b")].
(** The file is there, and no link leads to it. *)
Definition kept (m : fs) : Prop := m !! p = Some (File b) ∧ ∀ q, m !! q ≠ Some (Symlink p).
Definition kept_exit (e : dp_err) (m : fs) : Prop := kept m.
Context (Hp : p ∉ overwritten).

Lemma kept_insert q n m : q ≠ p → n ≠ Symlink p → kept m → kept (<[q := n]> m).
Proof.
  intros Hq Hn [Hm Hl]. split; [by rewrite lookup_insert_ne|]. intros q'.
  destruct (decide (q = q')) as [<-|]; [rewrite lookup_insert_eq; congruence|]. by rewrite lookup_insert_ne.
Qed.
Lemma kept_delete q m : q ≠ p → kept m → kept (delete q m).
Proof.
  intros Hq [Hm Hl]. split; [by rewrite lookup_delete_ne|]. intros q'.
  destruct (decide (q = q')) as [<-|]; [by rewrite lookup_delete_eq|]. by rewrite lookup_delete_ne.
Qed.
Lemma follow_kept q m : q ≠ p → kept m → follow m q ≠ p.
Proof. intros Hq [_ Hl]. specialize (Hl q). unfold follow. destruct (m !! q) as [[]|]; congruence. Qed.

(** Writing to [q] does not reach the file. *)
Definition aside (q : bytes) (m : fs) : Prop := kept m ∧ follow m q ≠ p.

Lemma aside_absent q m : kept m → exists_at m q = false → aside q m.
Proof.
  intros Hm He%bool_decide_eq_false. split; [done|]. intros Hq. apply He. rewrite Hq. destruct Hm as [-> _]. by eexists.
Qed.
Lemma aside_put q c m : aside q m → aside q (<[follow m q := File c]> m).
Proof. intros [Hm Hq]. split; [by apply kept_insert|by rewrite follow_put]. Qed.
Lemma aside_mkdir q d m : aside q m → m !! d = None → aside q (<[d := Dir]> m).
Proof.
  intros [Hm Hq] Hd. assert (d ≠ p) by (intros ->; destruct Hm; congruence). split; [by apply kept_insert|].
  unfold follow in *. destruct (decide (d = q)) as [<-|]; [by rewrite lookup_insert_eq|by rewrite lookup_insert_ne].
Qed.

Lemma put_kept q c : q ≠ p → runs kept kept (put_file q c) (λ _, kept) kept_exit.
Proof. intros Hq. apply runs_put. intros m Hm. split; apply kept_insert; by auto using follow_kept. Qed.
Lemma write_aside fate q c : runs kept (aside q) (os_WriteFile fate q c) (λ _, aside q) kept_exit.
Proof. apply runs_WriteFile. intros m b' Hm%(aside_put q b'). split; [apply Hm|done]. Qed.
Lemma write_kept fate q c : q ≠ p → runs kept kept (os_WriteFile fate q c) (λ _, kept) kept_exit.
Proof.
  intros Hq. eapply runs_weaken; [| |apply write_aside]; [|by intros a m []].
  intros m Hm. split; [done|by apply follow_kept].
Qed.
Lemma mkdir_kept ok q : runs kept kept (os_MkdirAll ok q) (λ _, kept) kept_exit.
Proof. apply runs_MkdirAll; [done|]. intros m Hm Hq. apply kept_insert; [|done..]. intros ->. destruct Hm; congruence. Qed.

Lemma not_overwritten q : q ∈ overwritten → q ≠ p.
Proof. by intros ? ->. Qed.

Lemma preflight_kept node configDir dataDir dryRun :
  runs kept kept (preflight w node configDir dataDir dryRun) (λ _, kept) kept_exit.
Proof.
  eapply (runs_seq _ _ kept).
  { apply runs_for_each. intros sub _. unfold preflight_dir. destruct dryRun.
    - eapply runs_bind; [apply runs_get_fs|]. intros m'. apply (runs_pre _ kept); [by intros m [? _]|].
      apply runs_when; [intros _; apply runs_say|done].
    - eapply runs_seq; [apply mkdir_kept|apply runs_exec]. }
  eapply runs_bind; [apply runs_get_fs|]. intros m'. apply runs_when; [|by intros _ m [? _]].
  intros Hne%negb_true_iff. destruct dryRun; [apply (runs_pre _ kept); [by intros m [? _]|apply runs_say]|].
  set (env := node_file configDir node (lit ".env")) in *.
  apply (runs_pre _ (aside env)); [intros m [Hm ->]; by apply aside_absent|].
  eapply (runs_seq _ _ (aside env)).
  { apply runs_MkdirAll; [by intros m []|]. intros. by apply aside_mkdir. }
  destruct (si_key w node) as [[wif pub]|]; [|apply runs_exit; by intros m [? _]].
  eapply runs_seq; [apply write_aside|]. eapply runs_pre; [|apply runs_exec]. by intros m [].
Qed.

Lemma copyFile_kept src dst : dst ≠ p → runs kept kept (copyFile w src dst) (λ _, kept) kept_exit.
Proof.
  intros Hd. eapply runs_bind; [apply runs_get_fs|]. intros m'. apply (runs_pre _ kept); [by intros m [? _]|].
  assert (Hw : ∀ c, runs kept kept (put_file dst [] ≫= λ _, put_file dst c) (λ _, kept) kept_exit).
  { intros c. eapply runs_seq; by apply put_kept. }
  destruct (read_file m' src); [|by apply runs_exit]. destruct (si_copy w src dst); try by apply runs_exit. all: apply Hw.
Qed.

Lemma install_kept nodes : runs kept kept (install_binary w o nodes) (λ _, kept) kept_exit.
Proof.
  unfold install_binary. destruct (op_dryRun o); [apply runs_say|]. fold dest_bin.
  assert (dest_bin ≠ p ∧ symlink_path ≠ p) as [Hd Hs] by (split; apply not_overwritten; unfold overwritten; set_solver).
  eapply runs_seq; [apply mkdir_kept|].
  eapply runs_seq; [apply runs_for_each; intros; apply runs_exec|].
  eapply runs_seq; [by apply copyFile_kept|].
  eapply (runs_seq _ _ kept).
  { apply runs_Remove; [done|]. intros m Hm. by split; apply kept_delete. }
  eapply (runs_seq _ _ kept); [|by apply runs_ret].
  apply runs_Symlink. intros m Hm. split; apply kept_insert; congruence.
Qed.

Lemma deployNode_kept node : node = lit "a" ∨ node = lit "b" →
  runs kept kept (deployNode uni identity_of w o node) (λ _, kept) kept_exit.
Proof.
  intros Hn. assert (Hu : unit_path node ≠ p).
  { apply not_overwritten. unfold overwritten. destruct Hn as [-> | ->]; set_solver. }
  unfold deployNode. eapply (runs_seq _ _ kept); [destruct (op_dryRun o); [apply runs_say|eapply runs_seq; [by apply write_kept|by apply runs_ret]]|].
  eapply runs_bind; [apply runs_get_fs|]. intros m'. eapply (runs_seq _ _ kept); [|apply runs_exec].
  destruct (exists_at m' _) eqn:He; [apply (runs_pre _ kept); [by intros m [? _]|apply runs_say]|].
  destruct (op_dryRun o); [apply (runs_pre _ kept); [by intros m [? _]|apply runs_say]|].
  eapply runs_seq; [|by apply runs_ret]. eapply runs_weaken; [| |apply write_aside]; [|by intros a m []].
  intros m [Hm ->]. by apply aside_absent.
Qed.

Lemma deploy_runs : runs kept kept (cmdDeploy uni identity_of w o) (λ _, kept) kept_exit.
Proof.
  unfold cmdDeploy.
  eapply runs_bind; [by apply runs_exit_when|]. intros []. apply (runs_pre _ kept); [by intros m [? _]|].
  eapply runs_bind; [by apply runs_exit_when|]. intros []. apply (runs_pre _ kept); [by intros m [? _]|].
  eapply (runs_seq _ _ kept); [unfold ensureUser; repeat case_match; [by apply runs_ret|apply runs_say|apply runs_exec]|].
  eapply (runs_seq _ _ kept); [apply runs_for_each; intros; apply preflight_kept|].
  eapply (runs_seq _ _ kept); [apply install_kept|].
  eapply (runs_seq _ _ kept); [apply runs_for_each; intros n Hn; by eapply deployNode_kept, parse_nodes|].
  destruct (op_dryRun o); [by apply runs_ret|].
  eapply (runs_seq _ _ kept).
  - apply runs_for_each. intros n _. eapply runs_seq; [apply runs_exec|]. eapply runs_seq; apply runs_exec.
  - case_match; by apply runs_ret.
Qed.
End keeps.

(** C21: a deployment never changes a file that was there, a configuration or an
    identity among them: but for the binary, the link to it and the unit files,
    every file keeps its content in every state that the file system goes
    through, whether the run ends or exits. *)
Theorem deploy_keeps uni identity_of w o p b h h' r :
  p ∉ overwritten o → h_fs h !! p = Some (File b) → (∀ q, h_fs h !! q ≠ Some (Symlink p)) → h_log h = [] →
  cmdDeploy uni identity_of w o h = (h', r) →
  Forall (λ m, m !! p = Some (File b)) (h_log h') ∧ h_fs h' !! p = Some (File b).
Proof.
  intros Hp Hb Hl Hlog Hr.
  destruct (runs_log _ _ _ _ _ _ _ _ (deploy_runs uni identity_of w o p b Hp) Hr (conj Hb Hl) Hlog) as [HI HQ].
  split; [by eapply Forall_impl; [|exact HI]; intros m []|]. destruct r; apply HQ.
Qed.

(** ** Dry runs *)

Section dry.
Context (uni : bytes → bytes) (identity_of : bytes → option bytes) (w : Site) (o : Options) (m0 : fs).
Context (Hdry : op_dryRun o = true).

Abbreviation quiet := (runs (E:=dp_err) (λ _, False) (λ m, m = m0)).
Abbreviation same := (λ _ m, m = m0).
Abbreviation never := (λ _ _, False).

Lemma preflight_dry node configDir dataDir : quiet (preflight w node configDir dataDir true) same never.
Proof.
  eapply (runs_seq _ _ (λ m, m = m0)).
  - apply runs_for_each. intros sub _. eapply runs_bind; [apply runs_get_fs|]. intros m'.
    apply (runs_pre _ (λ m, m = m0)); [by intros m [? _]|]. apply runs_when; [intros _; apply runs_say|done].
  - eapply runs_bind; [apply runs_get_fs|]. intros m'. apply (runs_pre _ (λ m, m = m0)); [by intros m [? _]|].
    apply runs_when; [intros _; apply runs_say|done].
Qed.

Lemma deployNode_dry node : quiet (deployNode uni identity_of w o node) same never.
Proof.
  unfold deployNode. rewrite Hdry. eapply (runs_seq _ _ (λ m, m = m0)); [apply runs_say|].
  eapply runs_bind; [apply runs_get_fs|]. intros m'. apply (runs_pre _ (λ m, m = m0)); [by intros m [? _]|].
  eapply (runs_seq _ _ (λ m, m = m0)); [case_match; apply runs_say|apply runs_exec].
Qed.

Lemma deploy_dry : parseNodeList uni (op_nodes o) ≠ [] →
  quiet (cmdDeploy uni identity_of w o) (λ e m, m = m0 ∧ e = DryRun) never.
Proof.
  intros Hn. unfold cmdDeploy. rewrite Hdry. cbn [negb andb].
  eapply runs_bind; [by apply runs_exit_when; intros m ?%bool_decide_eq_true|]. intros []. apply (runs_pre _ (λ m, m = m0)); [by intros m [? _]|].
  eapply (runs_seq _ _ (λ m, m = m0)); [by apply runs_ret|].
  eapply (runs_seq _ _ (λ m, m = m0)); [unfold ensureUser; case_match; [by apply runs_ret|apply runs_say]|].
  eapply (runs_seq _ _ (λ m, m = m0)); [apply runs_for_each; intros; apply preflight_dry|].
  eapply (runs_seq _ _ (λ m, m = m0)); [unfold install_binary; rewrite Hdry; apply runs_say|].
  eapply (runs_seq _ _ (λ m, m = m0)); [apply runs_for_each; intros; apply deployNode_dry|].
  apply runs_ret. by intros m ->.
Qed.

(** The one kind of command a dry run gives. *)
Definition only_chown (cmd : list bytes) : Prop :=
  ∃ node, node ∈ parseNodeList uni (op_nodes o) ∧ cmd = [lit "chown"; lit "-R"; owner; nodeDataDir (op_dataBase o) node].

Lemma deploy_dry_commands : commands_ok only_chown (cmdDeploy uni identity_of w o).
Proof.
  unfold cmdDeploy, ensureUser, preflight, preflight_dir, install_binary, deployNode, dry, say, chownRecursive. rewrite Hdry.
  repeat first
    [ solve [eauto with anvil] | apply commands_bind; [|intros ?] | apply commands_when; intros ?
    | apply commands_for_each; intros ? ? | by intros h | apply commands_exec; by eexists | case_match ].
Qed.
End dry.

(** A dry run of a deployment changes no file and needs no root; what it
    does to the machine is to hand the data directories to the user [anvil]. *)
Theorem dry_run_writes_nothing uni identity_of w o h h' r :
  op_dryRun o = true → h_log h = [] → h_cmds h = [] → parseNodeList uni (op_nodes o) ≠ [] →
  cmdDeploy uni identity_of w o h = (h', r) →
  r = inr DryRun ∧ h_fs h' = h_fs h ∧ h_log h' = [] ∧ Forall (only_chown uni o) (h_cmds h').
Proof.
  intros Hd Hl Hc Hn Hr.
  destruct (runs_log _ _ _ _ _ _ _ _ (deploy_dry uni identity_of w o (h_fs h) Hd Hn) Hr eq_refl Hl) as [HI HQ].
  pose proof (deploy_dry_commands uni identity_of w o Hd h ltac:(by rewrite Hc)) as Hcmd. rewrite Hr in Hcmd.
  destruct r as [|e]; [done|]. destruct HQ as [-> ->]. split_and!; [done|done| |done].
  destruct (h_log h'); [done|]. by inversion HI.
Qed.

(** ** The identity that is generated *)

(** The [.env] file beside the configuration of a node is its identity file. *)
Lemma env_path_node configDir node : x2f ∉ node →
  env_path (node_file configDir node (lit ".toml")) = node_file configDir node (lit ".env").
Proof.
  intros Hn. unfold node_file. destruct (filepath_Join_pre configDir) as [pre Hpre].
  assert (He : ∀ ext, x2f ∉ ext → plain_element (lit "node-" ++ node ++ ext)).
  { intros ext Hx. split; [|by split_and!]. rewrite !not_elem_of_app. split_and!; [|done..].
    by apply (bool_decide_unpack _); vm_compute. }
  rewrite !Hpre by (apply He; by apply (bool_decide_unpack _); vm_compute).
  unfold env_path. assert (filepath_Ext (pre ++ lit "node-" ++ node ++ lit ".toml") = lit ".toml") as ->.
  { unfold filepath_Ext. rewrite !rev_app_distr. done. }
  unfold trim_suffix. rewrite bool_decide_true by (by exists (pre ++ lit "node-" ++ node); rewrite !(assoc_L (++))).
  rewrite !(assoc_L (++)). rewrite length_app, Nat.add_sub, take_app_length. done.
Qed.

(** The letters of a WIF. *)
Definition alnum (c : byte) : bool :=
  let z := byte_z c in ((48 <=? z) && (z <=? 57)) || ((65 <=? z) && (z <=? 90)) || ((97 <=? z) && (z <=? 122)).
Definition wif_text (wif : bytes) : Prop := wif ≠ [] ∧ Forall (λ c, alnum c = true) wif ∧ (length wif ≤ 1000)%nat.

Lemma alnum_facts c : alnum c = true → is_space c = false ∧ (byte_z c <? 128) = true ∧ c ≠ x0a ∧ c ≠ x0d ∧ c ≠ x00 ∧ c ≠ x3d.
Proof. destruct c; cbn; intros ?; try discriminate; done. Qed.

Lemma trim_space_plain uni a s z : is_ascii (a :: s) = true → is_space a = false → list.last (a :: s) = Some z → is_space z = false →
  trim_space uni (a :: s) = a :: s.
Proof.
  intros Ha Hs Hl Hz. unfold trim_space. rewrite Ha. cbn [trim_left]. rewrite Hs.
  apply last_Some in Hl as [l' ->]. rewrite rev_app_distr. cbn [rev app trim_left]. rewrite Hz.
  change (z :: rev l') with (rev [z] ++ rev l'). by rewrite <- rev_app_distr, rev_involutive.
Qed.

Lemma wif_facts wif : wif_text wif → is_ascii wif = true ∧ (x0a ∉ wif) ∧ (x00 ∉ wif) ∧
  ∃ z, list.last wif = Some z ∧ is_space z = false ∧ z ≠ x0d.
Proof.
  intros (Hn & Hw & _). split_and!.
  - apply forallb_forall. intros c Hc%list_elem_of_In. rewrite list.Forall_forall in Hw. by apply alnum_facts, Hw.
  - intros Hc. rewrite list.Forall_forall in Hw. by apply Hw, alnum_facts in Hc as (_ & _ & ? & _).
  - intros Hc. rewrite list.Forall_forall in Hw. by apply Hw, alnum_facts in Hc as (_ & _ & _ & _ & ? & _).
  - destruct (list.last wif) as [z|] eqn:El; [|by apply last_None in El]. exists z.
    apply last_Some in El as [l' ->]. apply Forall_app in Hw as [_ Hz]. rewrite list.Forall_singleton in Hz.
    by apply alnum_facts in Hz as (? & _ & _ & ? & _).
Qed.

Definition comment_line (node : bytes) : bytes :=
  lit "# Anvil Node " ++ upper_node node ++ lit " identity " ++ [xe2; x80; x94] ++ lit " generated by anvil deploy".

Lemma trim_wif uni wif : wif_text wif → trim_space uni wif = wif.
Proof.
  intros Hw. destruct (wif_facts _ Hw) as (Ha & _ & _ & z & Hl & Hz & _). destruct Hw as (Hn & Hw & _).
  destruct wif as [|a s]; [done|]. apply trim_space_plain with z; try done.
  by inversion Hw as [|? ? ?%alnum_facts]; naive_solver.
Qed.

Lemma identity_env_line uni wif : wif_text wif → env_line uni (lit "ANVIL_IDENTITY_WIF=" ++ wif) = Some (wif_var, wif).
Proof.
  intros Hw. pose proof (trim_wif uni _ Hw) as Ht. destruct (wif_facts _ Hw) as (Ha & _ & _ & z & Hl & Hz & _). destruct Hw as (Hn & Hw & _).
  unfold env_line. assert (trim_space uni (lit "ANVIL_IDENTITY_WIF=" ++ wif) = lit "ANVIL_IDENTITY_WIF=" ++ wif) as ->.
  { change (lit "ANVIL_IDENTITY_WIF=") with (x41 :: lit "NVIL_IDENTITY_WIF="). apply trim_space_plain with z; [|done| |done].
    - unfold is_ascii in *. cbn [app forallb]. rewrite forallb_app, Ha. done.
    - change (x41 :: lit "NVIL_IDENTITY_WIF=") with (lit "ANVIL_IDENTITY_WIF="). change (list.last (lit "ANVIL_IDENTITY_WIF=" ++ wif) = Some z). by rewrite last_app, Hl. }
  rewrite bool_decide_false by done. cbn [has_prefix orb].
  assert (has_prefix (lit "ANVIL_IDENTITY_WIF=" ++ wif) (lit "#") = false) as ->.
  { apply bool_decide_eq_false. intros [k Hk]. discriminate. }
  change (lit "ANVIL_IDENTITY_WIF=" ++ wif) with (wif_var ++ [x3d] ++ wif).
  rewrite split2_app by (by apply (bool_decide_unpack _); vm_compute). rewrite Ht. done.
Qed.

(** The generated file sets the identity and nothing else. *)
Lemma identity_file_lines uni node wif : node = lit "a" ∨ node = lit "b" → wif_text wif → uni (comment_line node) = comment_line node →
  omap (env_line uni) (scan_lines (text_lines (identity_file node wif))) = [(wif_var, wif)].
Proof.
  intros Hnode Hw Hu. destruct (wif_facts _ Hw) as (Ha & Hnl & _ & z & Hl & _ & Hz).
  assert (Hc : (x0a ∉ comment_line node) ∧ (length (comment_line node) <= 100)%nat ∧
    list.last (comment_line node) = Some x79 ∧ is_ascii (comment_line node) = false ∧ has_prefix (comment_line node) (lit "#") = true ∧
    comment_line node ≠ []).
  { destruct Hnode as [-> | ->]; (split_and!; [by apply (bool_decide_unpack _); vm_compute|apply Nat.leb_le; by vm_compute|by vm_compute..|done]). }
  destruct Hc as (Hc1 & Hc2 & Hc3 & Hc4 & Hc5 & Hc6).
  assert (He : identity_file node wif = comment_line node ++ [x0a] ++ (lit "ANVIL_IDENTITY_WIF=" ++ wif) ++ [x0a] ++ []).
  { unfold identity_file, unlines. cbn [fmap list_fmap concat]. fold (comment_line node). by rewrite <- !(assoc_L (++)). }
  assert (Hv : x0a ∉ lit "ANVIL_IDENTITY_WIF=" ++ wif).
  { rewrite not_elem_of_app. split; [by apply (bool_decide_unpack _); vm_compute|done]. }
  unfold text_lines. rewrite He, !split_on_app by done. cbn [split_on rev app].
  cbn [scan_lines]. rewrite Hc3, last_app, Hl. rewrite (bool_decide_false (Some x79 = Some x0d)), (bool_decide_false (Some z = Some x0d)) by congruence.
  assert ((max_line <? length (comment_line node)) = false)%nat as -> by (apply Nat.ltb_ge; unfold max_line; lia).
  assert ((max_line <? length (lit "ANVIL_IDENTITY_WIF=" ++ wif)) = false)%nat as ->.
  { apply Nat.ltb_ge. rewrite length_app. destruct Hw as (_ & _ & Hlen). change (length (lit "ANVIL_IDENTITY_WIF=")) with 19%nat. unfold max_line. lia. }
  cbn [omap list_omap]. rewrite identity_env_line by done.
  assert (env_line uni (comment_line node) = None) as ->; [|done].
  unfold env_line, trim_space. rewrite Hc4, Hu, Hc5. by rewrite orb_true_r.
Qed.

Section identity.
Context (uni : bytes → bytes) (identity_of : bytes → option bytes) (w : Site) (o : Options) (node wif pub : bytes).

Definition env_file : bytes := node_file (op_configDir o) node (lit ".env").

(** The node is one of those deployed, it has no identity file and no link to
    one, and its identity file is none of the directories and files made. *)
Record fresh (m : fs) : Prop := {
  fr_node : node ∈ parseNodeList uni (op_nodes o);
  fr_live : op_dryRun o = false;
  fr_absent : m !! env_file = None;
  fr_unlinked : ∀ q, m !! q ≠ Some (Symlink env_file);
  fr_paths : (env_file ∉ overwritten o) ∧ op_configDir o ≠ env_file;
  fr_dirs : ∀ n sub, n ∈ [lit "a"; lit "b"] → sub ∈ subdirs → filepath_Join (nodeDataDir (op_dataBase o) n) sub ≠ env_file
}.

Definition absent (m : fs) : Prop := m !! env_file = None ∧ ∀ q, m !! q ≠ Some (Symlink env_file).
Abbreviation made := (kept env_file (identity_file node wif)).
Abbreviation free := (λ _, True).
Abbreviation ended := (λ _ _, True).

Lemma absent_insert q n m : q ≠ env_file → n ≠ Symlink env_file → absent m → absent (<[q := n]> m).
Proof.
  intros Hq Hn [Hm Hl]. split; [by rewrite lookup_insert_ne|]. intros q'.
  destruct (decide (q = q')) as [<-|]; [rewrite lookup_insert_eq; congruence|]. by rewrite lookup_insert_ne.
Qed.

Lemma mkdir_absent ok q : q ≠ env_file → runs (E:=dp_err) free absent (os_MkdirAll ok q) (λ _, absent) ended.
Proof. intros Hq. apply runs_MkdirAll; [done|]. intros. by apply absent_insert. Qed.

Lemma preflight_dirs_absent n : n ∈ [lit "a"; lit "b"] →
  (∀ sub, sub ∈ subdirs → filepath_Join (nodeDataDir (op_dataBase o) n) sub ≠ env_file) →
  runs (E:=dp_err) free absent (for_each (preflight_dir w (nodeDataDir (op_dataBase o) n) false) subdirs) (λ _, absent) ended.
Proof.
  intros Hn Hd. apply runs_for_each. intros sub Hsub. eapply (runs_seq _ _ absent); [|apply runs_exec].
  apply mkdir_absent. auto.
Qed.

Lemma node_file_inj c n n' ext : x2f ∉ n → x2f ∉ n' → x2f ∉ ext → node_file c n ext = node_file c n' ext → n = n'.
Proof.
  unfold node_file. intros Hn Hn' He. destruct (filepath_Join_pre c) as [pre Hpre].
  assert (Hpl : ∀ k, x2f ∉ k → plain_element (lit "node-" ++ k ++ ext)).
  { intros k Hk. split; [|by split_and!]. rewrite !not_elem_of_app. split_and!; [|done..].
    by apply (bool_decide_unpack _); vm_compute. }
  rewrite !Hpre by auto. intros ?%app_inv_head%app_inv_head. by eapply app_inv_tail.
Qed.

Context (m0 : fs) (Hfresh : fresh m0) (Hkey : si_key w node = Some (wif, pub)).
Context (Hwritten : si_write w env_file = Written).

Lemma node_ab : node = lit "a" ∨ node = lit "b".
Proof. exact (parse_nodes _ _ _ (fr_node _ Hfresh)). Qed.

Lemma no_slash n : n = lit "a" ∨ n = lit "b" → x2f ∉ n.
Proof. intros [-> | ->]; by apply (bool_decide_unpack _); vm_compute. Qed.

Lemma preflight_other n : n ∈ parseNodeList uni (op_nodes o) → n ≠ node →
  runs free absent (preflight w n (op_configDir o) (nodeDataDir (op_dataBase o) n) false) (λ _, absent) ended.
Proof.
  intros Hn Hne. pose proof (parse_nodes _ _ _ Hn) as Hab. assert (Hin : n ∈ [lit "a"; lit "b"]) by (destruct Hab as [-> | ->]; set_solver).
  eapply (runs_seq _ _ absent); [apply preflight_dirs_absent; [done|intros; by apply (fr_dirs _ Hfresh)]|].
  eapply runs_bind; [apply runs_get_fs|]. intros m'. apply (runs_pre _ absent); [by intros m [? _]|].
  apply runs_when; [intros _|done]. eapply (runs_seq _ _ absent).
  - apply mkdir_absent, (fr_paths _ Hfresh).
  - destruct (si_key w n) as [[k ?]|]; [|by apply runs_exit]. eapply (runs_seq _ _ absent); [|apply runs_exec].
    apply runs_WriteFile. intros m b' Hm. split; [done|]. apply absent_insert; [|done|done].
    unfold follow. destruct (m !! node_file (op_configDir o) n (lit ".env")) as [[| |t]|] eqn:Em.
    3: { intros ->. by apply (proj2 Hm) in Em. }
    all: intros He; apply Hne; eapply node_file_inj, He; auto using no_slash, node_ab;
      by apply (bool_decide_unpack _); vm_compute.
Qed.

Lemma put_made b m : follow m env_file = env_file → (∀ q, m !! q ≠ Some (Symlink env_file)) →
  kept env_file b (<[follow m env_file := File b]> m).
Proof.
  intros -> Hl. split; [by rewrite lookup_insert_eq|]. intros q.
  destruct (decide (env_file = q)) as [<-|]; [by rewrite lookup_insert_eq|by rewrite lookup_insert_ne].
Qed.

Lemma preflight_this :
  runs free absent (preflight w node (op_configDir o) (nodeDataDir (op_dataBase o) node) false) (λ _, made) ended.
Proof.
  assert (Hin : node ∈ [lit "a"; lit "b"]) by (destruct node_ab as [-> | ->]; set_solver).
  eapply (runs_seq _ _ absent); [apply preflight_dirs_absent; [done|intros; by apply (fr_dirs _ Hfresh)]|].
  eapply runs_bind; [apply runs_get_fs|]. intros m'. fold env_file. apply (runs_assume _ (absent m')); [by intros m [? ->]|].
  intros Hm'. assert (exists_at m' env_file = false) as ->.
  { unfold exists_at, follow. rewrite (proj1 Hm'), bool_decide_false; [done|]. rewrite (proj1 Hm'). by intros [? ?]. }
  cbn [negb when]. apply (runs_pre _ absent); [by intros m [? _]|]. eapply (runs_seq _ _ absent).
  { apply mkdir_absent, (fr_paths _ Hfresh). }
  rewrite Hkey, Hwritten. eapply (runs_seq _ _ made); [|apply runs_exec]. cbn [os_WriteFile].
  eapply (runs_seq _ _ (kept env_file [])).
  { apply runs_put. intros m [Hm ?]. split; [done|]. apply put_made; [|done]. unfold follow. by rewrite Hm. }
  eapply (runs_seq _ _ made); [|by apply runs_ret]. apply runs_put. intros m [Hm ?]. split; [done|]. apply put_made; [|done]. unfold follow. by rewrite Hm.
Qed.

Lemma deploy_makes_identity : runs free (λ m, m = m0) (cmdDeploy uni identity_of w o) (λ _, made) ended.
Proof.
  assert (Hmono : ∀ (s : script dp_err ()), runs made made s (λ _, made) (kept_exit env_file (identity_file node wif)) →
    runs free made s (λ _, made) ended) by (intros s; by apply runs_mono).
  pose proof (proj1 (fr_paths _ Hfresh)) as Hp.
  unfold cmdDeploy. rewrite (fr_live _ Hfresh). cbn [negb andb].
  eapply runs_bind; [by apply runs_exit_when|]. intros [].
  eapply runs_bind; [by apply runs_exit_when|]. intros [].
  apply (runs_pre _ absent); [intros m [[-> _] _]; split; apply Hfresh|].
  eapply (runs_seq _ _ absent); [unfold ensureUser; case_match; [by apply runs_ret|apply runs_exec]|].
  eapply (runs_seq _ _ made).
  { apply (runs_for_each_reach _ _ _ node); [apply (fr_node _ Hfresh)|intros; by apply preflight_other|apply preflight_this|].
    intros. apply Hmono, preflight_kept. }
  eapply (runs_seq _ _ made); [apply Hmono; by eapply install_kept|].
  eapply (runs_seq _ _ made); [apply Hmono, runs_for_each; intros n Hn; by eapply deployNode_kept, parse_nodes|].
  eapply (runs_seq _ _ made).
  - apply runs_for_each. intros n _. eapply runs_seq; [apply runs_exec|]. eapply runs_seq; apply runs_exec.
  - case_match; by apply runs_ret.
Qed.
End identity.

(** The files that the configuration is read from. *)
Definition contents (m : fs) : environ := omap (λ n, match n with File b => Some b | _ => None end) m.

(** C27: when the write of the identity of a node succeeds and the run comes to
    its end, the [.env] file beside the configuration of the node has the key that
    was drawn: the commands that read the file, [anvil token], [doctor] and
    [info], find it in [ANVIL_IDENTITY_WIF], in every environment that does not
    set it. The other calls may fail; the node had no identity file before and
    its path is none of the others that are written ([fresh]). What the node
    itself starts with is what systemd makes of the same file. *)
Theorem deployed_identity_loads uni identity_of w o node wif pub h h' e env :
  fresh uni o node (h_fs h) → si_key w node = Some (wif, pub) → si_write w (env_file o node) = Written →
  wif_text wif → uni (comment_line node) = comment_line node →
  cmdDeploy uni identity_of w o h = (h', inr e) → getenv wif_var env = [] →
  getenv wif_var (loadEnvFile uni (contents (h_fs h')) (node_file (op_configDir o) node (lit ".toml")) env) = wif.
Proof.
  intros Hf Hk Hs Hw Hu Hr He. pose proof (node_ab _ _ _ _ Hf) as Hab.
  destruct (deploy_makes_identity uni identity_of w o node wif pub _ Hf Hk Hs _ _ _ Hr eq_refl) as [_ [Hm _]].
  rewrite loadEnvFile_spec, He, bool_decide_true, env_path_node by auto using no_slash.
  assert (contents (h_fs h') !! node_file (op_configDir o) node (lit ".env") = Some (identity_file node wif)) as ->
    by (unfold contents; by rewrite lookup_omap; fold (env_file o node); rewrite Hm).
  unfold default, id.
  rewrite identity_file_lines by done. cbn [first_value]. rewrite !bool_decide_true, !bool_decide_false by (done || apply (wif_facts _ Hw) || apply Hw).
  by destruct (env_key wif_var) eqn:Ek; [|by vm_compute in Ek].
Qed.

(** ** Deployments *)

Definition sample_site : Site :=
  MkSite true false (lit "/tmp/anvil") (λ _ _, CopyDone) (λ n, Some (lit "KwifFor" ++ n, lit "02ab")) (Some (lit "host"))
    [None; Some (lit " 10.0.0.1 "); Some (lit "8.8.4.4")] (λ _ i, if decide (i = 2%nat) then Some 200 else None)
    (λ _, Written) (λ _, true) (λ _, true) true.
Definition sample_options (dryRun : bool) : Options :=
  MkOptions (lit "/etc/anvil") (lit "/var/lib") (lit "/opt/anvil") (lit " AB") [] [] [] dryRun false.
Definition site_fs : fs := <[lit "/tmp/anvil" := File (lit "binary")]> (<[lit "/etc/anvil/node-b.toml" := File (lit "mine")]> ∅).
Abbreviation deploy_sample dryRun := (cmdDeploy id (λ _, None) sample_site (sample_options dryRun) (MkHost site_fs [] [] [])).

Example deploy_sample_runs :
  (deploy_sample false).2 = inr (Checked true) ∧
  h_fs (deploy_sample false).1 !! lit "/opt/anvil/anvil" = Some (File (lit "binary")) ∧
  h_fs (deploy_sample false).1 !! lit "/etc/anvil/node-b.toml" = Some (File (lit "mine")) ∧
  match h_fs (deploy_sample false).1 !! lit "/etc/anvil/node-a.toml" with
  | Some (File t) => contains t (lit "public_url = " ++ quoted (lit "http://8.8.4.4:9333")) = true | _ => False end.
Proof. vm_compute. done. Qed.

Lemma deploy_keeps_witness : (lit "/etc/anvil/node-b.toml" ∉ overwritten (sample_options false)) ∧
  Forall (λ m, m !! lit "/etc/anvil/node-b.toml" = Some (File (lit "mine"))) (h_log (deploy_sample false).1).
Proof.
  assert (Hp : lit "/etc/anvil/node-b.toml" ∉ overwritten (sample_options false)) by (apply (bool_decide_unpack _); vm_compute; exact I).
  split; [exact Hp|].
  refine (proj1 (deploy_keeps id (λ _, None) sample_site (sample_options false) _ _ (MkHost site_fs [] [] []) _ _ Hp _ _ eq_refl (surjective_pairing _))).
  - vm_compute. reflexivity.
  - intros q. unfold h_fs, site_fs. destruct (decide (lit "/tmp/anvil" = q)) as [<-|Hq]; [rewrite lookup_insert_eq; discriminate|].
    rewrite lookup_insert_ne by exact Hq. destruct (decide (lit "/etc/anvil/node-b.toml" = q)) as [<-|Hq'].
    + rewrite lookup_insert_eq. discriminate.
    + rewrite lookup_insert_ne by exact Hq'. rewrite lookup_empty. discriminate.
Defined.

Lemma dry_run_writes_nothing_witness : (deploy_sample true).2 = inr DryRun ∧ h_log (deploy_sample true).1 = [] ∧
  h_cmds (deploy_sample true).1 = [[lit "chown"; lit "-R"; lit "anvil:anvil"; lit "/var/lib/anvil"];
                                   [lit "chown"; lit "-R"; lit "anvil:anvil"; lit "/var/lib/anvil-b"]].
Proof.
  assert (Hn : parseNodeList id (op_nodes (sample_options true)) ≠ []) by (vm_compute; discriminate).
  destruct (dry_run_writes_nothing id (λ _, None) sample_site (sample_options true) (MkHost site_fs [] [] []) _ _
    eq_refl eq_refl eq_refl Hn (surjective_pairing _)) as (Hr & _ & Hl & _).
  split; [exact Hr|]. split; [exact Hl|]. vm_compute. reflexivity.
Defined.

Lemma deployed_identity_loads_witness : fresh id (sample_options false) (lit "a") site_fs ∧
  getenv wif_var (loadEnvFile id (contents (h_fs (deploy_sample false).1)) (node_file (op_configDir (sample_options false)) (lit "a") (lit ".toml")) ∅) = lit "KwifFora".
Proof.
  assert (Hf : fresh id (sample_options false) (lit "a") site_fs).
  { constructor.
    - apply (bool_decide_unpack _). vm_compute. exact I.
    - reflexivity.
    - vm_compute. reflexivity.
    - intros q. unfold site_fs. destruct (decide (lit "/tmp/anvil" = q)) as [<-|Hq]; [rewrite lookup_insert_eq; discriminate|].
      rewrite lookup_insert_ne by exact Hq. destruct (decide (lit "/etc/anvil/node-b.toml" = q)) as [<-|Hq'].
      + rewrite lookup_insert_eq. discriminate.
      + rewrite lookup_insert_ne by exact Hq'. rewrite lookup_empty. discriminate.
    - split; [apply (bool_decide_unpack _); vm_compute; exact I|vm_compute; discriminate].
    - intros n sub Hn Hs.
      assert (Hall : forallb (λ n, forallb (λ sub, negb (bool_decide
        (filepath_Join (nodeDataDir (op_dataBase (sample_options false)) n) sub = env_file (sample_options false) (lit "a"))))
        subdirs) [lit "a"; lit "b"] = true) by (vm_compute; reflexivity).
      rewrite forallb_forall in Hall. specialize (Hall n (proj1 (list_elem_of_In _ _) Hn)).
      rewrite forallb_forall in Hall. specialize (Hall sub (proj1 (list_elem_of_In _ _) Hs)).
      by apply negb_true_iff, bool_decide_eq_false in Hall. }
  split; [exact Hf|].
  assert (Hr : (deploy_sample false).2 = inr (Checked true)) by (vm_compute; reflexivity).
  apply (deployed_identity_loads id (λ _, None) sample_site (sample_options false) (lit "a") (lit "KwifFora") (lit "02ab")
    (MkHost site_fs [] [] []) (deploy_sample false).1 (Checked true) ∅ Hf).
  - vm_compute. reflexivity.
  - reflexivity.
  - split; [discriminate|split; [|vm_compute; lia]]. apply (bool_decide_unpack _). vm_compute. exact I.
  - reflexivity.
  - rewrite <- Hr. apply surjective_pairing.
  - vm_compute. reflexivity.
Defined.

(** A copy that is cut off goes unnoticed. *)
Definition full_disk : Site :=
  MkSite true true (lit "/tmp/anvil") (λ _ _, CopyCut 3) (λ n, Some (lit "KwifFor" ++ n, lit "02ab")) None [] (λ _ _, None)
    (λ _, Written) (λ _, true) (λ _, true) true.
Example truncated_binary :
  let '(h, r) := cmdDeploy id (λ _, None) full_disk (sample_options false) (MkHost site_fs [] [] []) in
  r = inr (Deploy.Checked false) ∧ h_fs h !! lit "/opt/anvil/anvil" = Some (File (lit "bin")) ∧
  bool_decide ([lit "systemctl"; lit "start"; lit "anvil-a"] ∈ h_cmds h) = true.
Proof. vm_compute. by split_and!. Qed.

(** Both identities fail to be written, the one of node [b] after some bytes. *)
Definition no_identity : Site :=
  MkSite true true (lit "/tmp/anvil") (λ _ _, CopyDone) (λ n, Some (lit "KwifFor" ++ n, lit "02ab")) None [] (λ _ _, None)
    (λ p, if decide (p = lit "/etc/anvil/node-a.env") then NotOpened else if decide (p = lit "/etc/anvil/node-b.env") then Cut 14 else Written)
    (λ _, true) (λ _, true) true.
(** The deployment goes on all the same and starts the services. *)
Example failed_identity_unnoticed :
  let '(h, r) := cmdDeploy id (λ _, None) no_identity (sample_options false) (MkHost site_fs [] [] []) in
  r = inr (Deploy.Checked false) ∧ h_fs h !! lit "/etc/anvil/node-a.env" = None ∧
  h_fs h !! lit "/etc/anvil/node-b.env" = Some (File (lit "# Anvil Node B")) ∧
  bool_decide ([lit "systemctl"; lit "start"; lit "anvil-a"] ∈ h_cmds h) = true.
Proof. vm_compute. by split_and!. Qed.

(** With [--install-dir /usr/local/bin] the binary is removed for a link to
    itself. *)
Example deploy_into_link_dir :
  let o := MkOptions (lit "/etc/anvil") (lit "/var/lib") (lit "/usr/local/bin") (lit "a") [] [] [] false true in
  let '(h, r) := cmdDeploy id (λ _, None) sample_site o (MkHost site_fs [] [] []) in
  r = inr NotChecked ∧ h_fs h !! symlink_path = Some (Symlink symlink_path) ∧ read_file (h_fs h) symlink_path = None.
Proof. vm_compute. by split_and!. Qed.
