(* ===== verification/Doctor.v ===== *)
(** * The doctor ([cmd/anvil/doctor.go])

    The checks of [anvil doctor], in their order, as steps on a report: the
    lines that are printed and the issues that are counted. *)

From Stdlib Require Import Init.Byte Strings.Byte Strings.String Lia ZArith.
From stdpp Require Import base gmap sets list strings numbers.
From S2P Require Import Prelude GoStd LevelDB GoText Http Config Host Release.
Open Scope Z_scope.

(** ** Texts *)

(** [strings.Replace] of the first occurrence. *)
Definition replace_first (s old new : bytes) : bytes :=
  match bytes_index s old with Some i => take i s ++ new ++ drop (i + length old) s | None => s end.

Definition last_of (l : list bytes) : bytes := default [] (list.last l).
Definition normalizePort (listen : bytes) : bytes :=
  if negb (contains listen (lit ":")) then lit ":" ++ listen else lit ":" ++ last_of (split_on x3a listen).
Definition guessServiceName (cfg : Config) : bytes :=
  let port := normalizePort (nc_APIListen (cf_Node cfg)) in
  if bool_decide (lit ":9334" `suffix_of` port) then lit "anvil-b" else lit "anvil-a".

(** [s[8:]] panics when the seed is shorter than that. *)
Definition meshSeedToAPI (seed : bytes) : res Z bytes :=
  let s := replace_first seed (lit "wss://") (lit "https://") in
  let s := replace_first s (lit "ws://") (lit "http://") in
  rest ← slice_from s 8;
  let s := match bytes_index rest (lit "/") with Some idx => take (8 + idx) s | None => s end in
  let s := replace_first s (lit ":8333") (lit ":9333") in
  Ok (replace_first s (lit ":8334") (lit ":9334")).

(** ** The report *)

Inductive mark := Pass | Fail | Warn.
Record Report := MkReport { rp_issues : Z; rp_lines : list (mark * bytes) }.
Definition print (k : mark) (msg : bytes) (r : Report) : Report := MkReport (rp_issues r) (rp_lines r ++ [(k, msg)]).
Definition add_issue (r : Report) : Report := MkReport (rp_issues r + 1) (rp_lines r).

(** A step can panic, and the first one can exit. *)
Definition step : Type := Report → res Z Report.
Definition skip : step := λ r, Ok r.
Definition pass (msg : bytes) : step := λ r, Ok (print Pass msg r).
Definition warn (msg : bytes) : step := λ r, Ok (print Warn msg r).
(** [fail] only prints: each place that fails counts its issue by a statement
    of its own ([issues++]). *)
Definition fail (msg : bytes) : step := λ r, Ok (print Fail msg r).
Definition count_issue : step := λ r, Ok (add_issue r).
Definition steps (l : list step) : step := λ r, foldl (λ acc (s : step), acc ≫= s) (Ok r) l.
Definition verify (c : bool) (yes no : step) : step := if c then yes else no.
Definition on {A : Type} (o : option A) (f : A → step) : step := match o with Some a => f a | None => skip end.

(** ** What the checks see *)

(** The value of a member, the last one of its name. *)
Definition member (k : bytes) (j : json) : option json :=
  match j with JObj fields => list.last (omap (λ f, if bool_decide (f.1 = k) then Some f.2 else None) fields) | _ => None end.
Definition as_num (j : json) : option Z := match j with JNum n => Some n | _ => None end.
Definition as_obj (j : json) : option json := match j with JObj _ => Some j | _ => None end.
Definition as_list (j : json) : option (list json) := match j with JArr l => Some l | _ => None end.

Record Clinic := MkClinic {
  cl_http : bytes → option (Z * option json); cl_http_auth : bytes → bytes → option (Z * option json);
  cl_cors : bytes → bool; cl_resolves : bytes → bool; cl_owner : bytes → option bytes; cl_status : bytes → bytes;
  cl_latest : option (Z * option bytes)
}.

Section doctor.
Context (toml_unmarshal : bytes → Config → option Config) (uni : bytes → bytes).
Context (c : Clinic) (m : fs) (files env : environ).

(** A body that is not an object decodes to the nil map. *)
Definition ok_object (resp : option (Z * option json)) : option json :=
  match resp with Some (code, Some (JObj f)) => if code =? 200 then Some (JObj f) else None | _ => None end.
Definition httpGet (url : bytes) : option json := ok_object (cl_http c url).
Definition httpGetAuth (url token : bytes) : option json := ok_object (cl_http_auth c url token).
Definition corsOK (url : bytes) : bool := cl_cors c url.
Definition fileOwner (path : bytes) : bytes := match cl_owner c path with Some out => trim_space uni out | None => [] end.
Definition serviceStatus (name : bytes) : bytes := trim_space uni (cl_status c name).
Definition doctorCheckLatest : bytes := match cl_latest c with Some (200, Some tag) => tag | _ => [] end.

(** ** The checks *)

Definition nonempty (s : bytes) : bool := negb (bool_decide (s = [])).

(** A slice of the text in the line. *)
Definition pass_prefix (n : Z) (s : bytes) : step := λ r, p ← slice s 0 n; pass p r.

Definition check_config (cfg : Config) : step := steps [
  verify (nonempty (cf_WIF cfg)) (pass_prefix 8 (cf_WIF cfg)) 
    (steps [fail (lit "no identity WIF configured"); count_issue]);
  verify (nonempty (api_AuthToken (cf_API cfg))) (pass_prefix 12 (api_AuthToken (cf_API cfg))) 
    (steps [fail (lit "auth token not derived"); count_issue]);
  match mc_Seeds (cf_Mesh cfg) with
  | [] => warn (lit "no mesh seeds configured")
  | seeds => steps (pass (lit "mesh seeds configured") ::
      ((λ seed, verify (has_prefix seed (lit "wss://")) skip (warn (lit "mesh seed is not wss:// " ++ seed))) <$> seeds))
  end].

Definition check_version : step := steps [
  pass (lit "running v" ++ Version);
  verify (nonempty doctorCheckLatest)
    (verify (versionNewerOrEqual Version (trim_prefix doctorCheckLatest (lit "v")))
       (pass (lit "up to date")) (warn (lit "update available: " ++ doctorCheckLatest)))
    (warn (lit "could not check GitHub for latest release"))].

Definition requiredDirs : list bytes :=
  [lit "headers"; lit "envelopes"; lit "overlay"; lit "wallet"; lit "invoices"; lit "proofs"].
Definition check_dir (dataDir sub : bytes) : step :=
  let dir := filepath_Join dataDir sub in
  match m !! follow m dir with
  | None => steps [fail (dir ++ lit ": does not exist"); count_issue]
  | Some Dir => pass dir
  | Some _ => steps [fail (dir ++ lit ": not a directory"); count_issue]
  end.
Definition check_dirs (cfg : Config) : step :=
  let dataDir := nc_DataDir (cf_Node cfg) in
  let dataOwner := fileOwner dataDir in
  steps ((check_dir dataDir <$> requiredDirs) ++
    [verify (negb (bool_decide (dataOwner = lit "anvil")) && nonempty dataOwner) (warn (dataDir ++ lit " owned by " ++ dataOwner)) skip]).

Definition check_service (cfg : Config) : step :=
  let svcName := guessServiceName cfg in
  verify (nonempty svcName)
    (let status := serviceStatus svcName in
     if bool_decide (status = lit "active") then pass (svcName ++ lit " is running")
     else if bool_decide (status = lit "inactive") || bool_decide (status = lit "failed")
          then steps [fail (svcName ++ lit " is " ++ status); count_issue] else warn (svcName ++ lit " status: " ++ status))
    (warn (lit "could not determine systemd service name")).

Definition api_url (cfg : Config) : bytes := lit "http://127.0.0.1" ++ normalizePort (nc_APIListen (cf_Node cfg)).
Definition statusResp (cfg : Config) : option json := httpGet (api_url cfg ++ lit "/status").

Definition check_headers (h : json) : step := steps [
  on (member (lit "height") h ≫= as_num) (λ n, pass (lit "header height: " ++ itoa n));
  on (member (lit "sync_lag_secs") h ≫= as_num) (λ n, verify (1800 <? n) (warn (lit "header sync lag: " ++ itoa n)) (pass (lit "header sync lag: " ++ itoa n)))].
Definition check_spv (s : json) : step := steps [
  on (member (lit "proofs_stored") s ≫= as_num) (λ n, pass (lit "stored proofs: " ++ itoa n));
  on (member (lit "validations") s ≫= as_obj) (λ v,
    on (member (lit "invalid") v ≫= as_num) (λ n, verify (0 <? n) (warn (lit "SPV invalid count observed: " ++ itoa n)) skip))].
Definition check_api (cfg : Config) : step :=
  match statusResp cfg with
  | None => steps [fail (lit "API not responding at " ++ api_url cfg); count_issue]
  | Some status => steps [
      pass (lit "API responding at " ++ api_url cfg);
      on (member (lit "headers") status ≫= as_obj) check_headers;
      on (member (lit "spv") status ≫= as_obj) check_spv;
      on (member (lit "warnings") status ≫= as_list) (λ l, steps ((λ _, warn (lit "node warning")) <$> l))]
  end.
Definition check_discovery (cfg : Config) : step :=
  let x402 := httpGet (api_url cfg ++ lit "/.well-known/x402") in
  steps [
    verify (corsOK (api_url cfg ++ lit "/status")) (pass (lit "CORS headers present")) (warn (lit "no CORS headers on /status"));
    verify (0 <? api_PaymentSatoshis (cf_API cfg))
      (verify (bool_decide (is_Some x402)) (pass (lit "x402 discovery responding"))
         (steps [fail (lit "x402 discovery not responding"); count_issue]))
      (verify (bool_decide (is_Some x402)) skip (pass (lit "x402 disabled")))].

Definition check_external (cfg : Config) : step := steps (
  ((λ node, verify (cl_resolves c (default [] (head (split_on x3a node))))
      (pass (lit "BSV node reachable: " ++ node)) 
      (steps [fail (lit "BSV node unreachable: " ++ node); count_issue])) <$> cf_Nodes cfg) ++
  [verify (ac_Enabled (cf_ARC cfg))
     (verify (bool_decide (is_Some (httpGet (ac_URL (cf_ARC cfg) ++ lit "/v1/policy"))))
        (pass (lit "ARC responding")) (warn (lit "ARC not responding"))) skip;
   verify (bool_decide (is_Some (httpGet (lit "https://api.whatsonchain.com/v1/bsv/main/chain/info"))))
     (pass (lit "WhatsOnChain API reachable")) (warn (lit "WhatsOnChain unreachable"))]).

Definition check_seed (seed : bytes) : step := λ r,
  api ← meshSeedToAPI seed;
  verify (nonempty api)
    (verify (bool_decide (is_Some (httpGet (api ++ lit "/status"))))
       (pass (lit "mesh peer responding: " ++ api)) (warn (lit "mesh peer not responding: " ++ api))) skip r.
Definition check_mesh (cfg : Config) : step :=
  let meshResp := httpGet (api_url cfg ++ lit "/mesh/status") in
  steps ([
    verify (bool_decide (is_Some (statusResp cfg)) && bool_decide (is_Some (httpGet (api_url cfg ++ lit "/data?topic=*&limit=0"))))
      (pass (lit "envelope store responding")) skip;
    on (resp ← meshResp; mesh ← member (lit "mesh") resp; mesh ← as_obj mesh; n ← member (lit "peers") mesh; as_num n) (λ n,
      if 0 <? n then pass (lit "live mesh peers: " ++ itoa n)
      else verify (bool_decide (mc_Seeds (cf_Mesh cfg) = [])) skip (warn (lit "live mesh peers: 0")))] ++
    (check_seed <$> mc_Seeds (cf_Mesh cfg))).

Definition balance (outputs : list json) : Z :=
  foldl (λ sats o, match (o ← as_obj o; s ← member (lit "satoshis") o; as_num s) with Some s => sats + s | None => sats end) 0 outputs.
Definition check_wallet (cfg : Config) : step :=
  verify (nonempty (api_AuthToken (cf_API cfg)))
    match httpGetAuth (api_url cfg ++ lit "/wallet/outputs") (api_AuthToken (cf_API cfg)) with
    | None => warn (lit "wallet not responding")
    | Some wallet => on (member (lit "totalOutputs") wallet ≫= as_num) (λ n, steps [
        pass (lit "wallet responding: " ++ itoa n);
        on (member (lit "outputs") wallet ≫= as_list) (λ l,
          verify (0 <? balance l) (pass (lit "wallet balance: " ++ itoa (balance l))) (warn (lit "wallet has 0 sats")))])
    end skip.

Definition checkups (cfg : Config) : list step :=
  [check_config cfg; check_version; check_dirs cfg; check_service cfg; check_api cfg; check_discovery cfg;
   check_external cfg; check_mesh cfg; check_wallet cfg].

(** The report and the exit code. *)
Definition cmdDoctor (configPath : bytes) : res Z (Report * Z) :=
  let env := loadEnvFile uni files configPath env in
  match Load toml_unmarshal files env configPath with
  | Panic => Panic
  | Err _ => Err 1
  | Ok cfg =>
      r ← steps (pass (lit "config loaded from " ++ configPath) :: checkups cfg) (MkReport 0 []);
      Ok (r, if rp_issues r =? 0 then 0 else 1)
  end.
End doctor.
