(* ===== verification/DoctorProps.v ===== *)
(** * What the doctor reports

    Every failure it prints is counted as an issue, it finds no issue exactly
    when the node is healthy, and it comes to its end unless a text it shortens
    is too short. *)

From Stdlib Require Import Init.Byte Strings.Byte Strings.String Lia ZArith.
From stdpp Require Import base gmap sets list strings numbers.
From S2P Require Import Prelude GoStd LevelDB GoText Http Config Host Release Doctor.
Open Scope Z_scope.

(** ** Steps *)

Definition is_fail (l : mark * bytes) : bool := match l.1 with Fail => true | _ => false end.
Definition failures (l : list (mark * bytes)) : Z := Z.of_nat (length (filter (λ l, is_fail l = true) l)).

Lemma failures_snoc l k msg : failures (l ++ [(k, msg)]) = failures l + (if is_fail (k, msg) then 1 else 0).
Proof.
  unfold failures. rewrite list.filter_app, length_app. destruct k; cbn; case_decide; cbn; done || lia.
Qed.

(** [n] failures are printed and counted between two reports. *)
Definition found (n : Z) (r r' : Report) : Prop :=
  rp_issues r' = rp_issues r + n ∧ failures (rp_lines r') = failures (rp_lines r) + n.
(** A step that comes to its end, counts the failures it prints, and finds none
    exactly when [P]. *)
Definition judges (P : Prop) (s : step) : Prop :=
  ∀ r, ∃ r' n, s r = Ok r' ∧ 0 ≤ n ∧ found n r r' ∧ (n = 0 ↔ P).
Definition stops (s : step) : Prop := ∀ r, s r = Panic.

Lemma judges_iff P Q s : judges P s → (P ↔ Q) → judges Q s.
Proof. intros HP HPQ r. destruct (HP r) as (r' & n & ?&?&?&?). exists r', n. split; [done|]. split; [done|]. split; [done|]. tauto. Qed.
Lemma judges_print k msg : is_fail (k, msg) = false → judges True (λ r, Ok (print k msg r)).
Proof.
  intros Hk r. exists (print k msg r), 0. split; [done|]. split; [done|]. split; [|done]. unfold found. cbn. rewrite failures_snoc, Hk. lia.
Qed.
Lemma judges_pass msg : judges True (pass msg).
Proof. by apply judges_print. Qed.
Lemma judges_warn msg : judges True (warn msg).
Proof. by apply judges_print. Qed.
Lemma judges_skip : judges True skip.
Proof. intros r. exists r, 0. unfold found. split; [done|]. split; [done|]. split; [lia|done]. Qed.
(** A failure and its count. *)
Lemma judges_failed msg : judges False (steps [fail msg; count_issue]).
Proof.
  intros r. exists (add_issue (print Fail msg r)), 1. split; [done|]. split; [done|]. split; [|by split].
  unfold found. cbn. rewrite failures_snoc. cbn. lia.
Qed.

Lemma steps_cons s l r : steps (s :: l) r = (s r ≫= steps l).
Proof.
  unfold steps. cbn [foldl]. change (Ok r ≫= s) with (s r). destruct (s r) as [r'|e|]; [done|..]; cbn [mbind res_mbind];
    induction l as [|t l IH]; cbn [foldl mbind res_mbind]; auto.
Qed.
Lemma found_trans n k r1 r2 r3 : found n r1 r2 → found k r2 r3 → found (n + k) r1 r3.
Proof. unfold found. lia. Qed.

Lemma judges_nil : judges True (steps []).
Proof. intros r. exists r, 0. unfold found. split; [done|]. split; [done|]. split; [lia|done]. Qed.
Lemma judges_cons P Q s l : judges P s → judges Q (steps l) → judges (P ∧ Q) (steps (s :: l)).
Proof.
  intros HP HQ r. destruct (HP r) as (r1 & n & E1 & Hn & F1 & I1). destruct (HQ r1) as (r2 & k & E2 & Hk & F2 & I2).
  exists r2, (n + k). rewrite steps_cons, E1. split; [done|]. split; [lia|]. split; [by eapply found_trans|].
  rewrite <- I1, <- I2. lia.
Qed.
Lemma judges_map {A : Type} (P : A → Prop) (f : A → step) (l : list A) :
  Forall (λ a, judges (P a) (f a)) l → judges (Forall P l) (steps (f <$> l)).
Proof.
  induction 1 as [|a l Ha Hl IH]; [eapply judges_iff; [apply judges_nil|by rewrite list.Forall_nil]|].
  eapply judges_iff; [by apply judges_cons|]. by rewrite list.Forall_cons.
Qed.
Lemma judges_app P Q l k : judges P (steps l) → judges Q (steps k) → judges (P ∧ Q) (steps (l ++ k)).
Proof.
  intros HP HQ r. destruct (HP r) as (r1 & n & E1 & Hn & F1 & I1). destruct (HQ r1) as (r2 & j & E2 & Hj & F2 & I2).
  exists r2, (n + j). split; [|split; [lia|split; [by eapply found_trans|rewrite <- I1, <- I2; lia]]].
  clear - E1 E2. revert r E1. induction l as [|s l IH]; intros r; [by intros [= ->]|].
  rewrite steps_cons. intros (r3 & E & H)%res_bind_Ok. cbn [app]. rewrite steps_cons, E. by apply IH.
Qed.
Lemma judges_verify (b : bool) P Q yes no :
  (b = true → judges P yes) → (b = false → judges Q no) → judges (if b then P else Q) (verify b yes no).
Proof. destruct b; auto. Qed.

(** The steps that never fail. *)
Lemma quiet_verify b yes no : judges True yes → judges True no → judges True (verify b yes no).
Proof. by destruct b. Qed.
Lemma quiet_on {A : Type} (o : option A) (f : A → step) : (∀ a, judges True (f a)) → judges True (on o f).
Proof. intros Hf. destruct o; [apply Hf|apply judges_skip]. Qed.
Lemma quiet_steps l : Forall (judges True) l → judges True (steps l).
Proof. induction 1; [apply judges_nil|]. eapply judges_iff; [by apply judges_cons|done]. Qed.
Lemma quiet_map {A : Type} (f : A → step) (l : list A) : (∀ a, judges True (f a)) → Forall (judges True) (f <$> l).
Proof. intros Hf. induction l; constructor; auto. Qed.

Create HintDb doctor.
#[local] Hint Resolve judges_pass judges_warn judges_skip judges_failed quiet_verify quiet_on quiet_steps quiet_map : doctor.
Ltac by_steps :=
  repeat first [ solve [eauto with doctor] | apply quiet_verify | apply quiet_on; intros ? | apply quiet_steps | apply quiet_map; intros ?
    | apply Forall_app; split | constructor | case_match ].

(** A list of steps that come to their ends or stop, one of which stops. *)
Lemma steps_stop l : Forall (λ s, (∃ P, judges P s) ∨ stops s) l → Exists stops l → stops (steps l).
Proof.
  induction 1 as [|s l Hs Hl IH]; intros He r; [by apply List.Exists_nil in He|]. rewrite steps_cons.
  apply List.Exists_cons in He. destruct Hs as [[P Hs]|Hs]; [|by rewrite Hs].
  destruct (Hs r) as (r' & _ & -> & _). cbn [mbind res_mbind]. destruct He as [He|He]; [|by apply IH].
  specialize (He r). destruct (Hs r) as (? & ? & ? & _). congruence.
Qed.

Lemma nonempty_iff s : nonempty s = true ↔ s ≠ [].
Proof. unfold nonempty. case_bool_decide; naive_solver. Qed.

Section doctor.
Context (toml_unmarshal : bytes → Config → option Config) (uni : bytes → bytes) (c : Clinic) (m : fs) (files env : environ).

(** ** The checks *)

(** A text of which at least [n] characters are there when there is one. *)
Definition holds_prefix (n : Z) (s : bytes) : Prop := s = [] ∨ n ≤ zlen s.
#[global] Instance holds_prefix_dec n s : Decision (holds_prefix n s).
Proof. unfold holds_prefix. apply _. Defined.

Lemma pass_prefix_judges n s : 0 ≤ n ≤ zlen s → judges True (pass_prefix n s).
Proof.
  intros Hn r. unfold pass_prefix, slice. rewrite (proj2 (Z.leb_le 0 n)), (proj2 (Z.leb_le 0 0)), (proj2 (Z.leb_le n (zlen s))) by lia.
  cbn [andb mbind res_mbind]. apply judges_pass.
Qed.
Lemma pass_prefix_stops n s : zlen s < n → stops (pass_prefix n s).
Proof.
  intros Hn r. unfold pass_prefix, slice. rewrite (proj2 (Z.leb_gt n (zlen s))), !andb_false_r by lia. done.
Qed.
Lemma check_text_judges n s msg : 0 ≤ n → holds_prefix n s →
  judges (s ≠ []) (verify (nonempty s) (pass_prefix n s) (steps [fail msg; count_issue])).
Proof.
  intros Hn Hs. eapply judges_iff; [apply (judges_verify _ True False)|].
  - intros Hne%nonempty_iff. apply pass_prefix_judges. destruct Hs; [done|lia].
  - intros _. apply judges_failed.
  - pose proof (nonempty_iff s). destruct (nonempty s); naive_solver.
Qed.
Lemma check_text_stops n s no : ¬ holds_prefix n s → stops (verify (nonempty s) (pass_prefix n s) no).
Proof.
  unfold holds_prefix. intros Hs. rewrite (proj2 (nonempty_iff s)) by tauto. cbn. apply pass_prefix_stops. lia.
Qed.

Definition warn_seeds (cfg : Config) : step :=
  match mc_Seeds (cf_Mesh cfg) with
  | [] => warn (lit "no mesh seeds configured")
  | seeds => steps (pass (lit "mesh seeds configured") ::
      ((λ seed, verify (has_prefix seed (lit "wss://")) skip (warn (lit "mesh seed is not wss:// " ++ seed))) <$> seeds))
  end.
Lemma warn_seeds_quiet cfg : judges True (warn_seeds cfg).
Proof. unfold warn_seeds. by_steps. Qed.

Lemma check_config_judges cfg :
  holds_prefix 8 (cf_WIF cfg) → holds_prefix 12 (api_AuthToken (cf_API cfg)) →
  judges (cf_WIF cfg ≠ [] ∧ api_AuthToken (cf_API cfg) ≠ []) (check_config cfg).
Proof.
  intros Hw Ht. eapply judges_iff.
  - eapply judges_cons; [by apply check_text_judges|]. eapply judges_cons; [by apply check_text_judges|].
    eapply judges_cons; [apply (warn_seeds_quiet cfg)|apply judges_nil].
  - tauto.
Qed.
Lemma check_config_stops cfg :
  ¬ holds_prefix 8 (cf_WIF cfg) ∨ ¬ holds_prefix 12 (api_AuthToken (cf_API cfg)) → stops (check_config cfg).
Proof.
  intros Hs. unfold check_config. fold (warn_seeds cfg).
  assert (∀ n s msg, 0 ≤ n →
    (∃ P, judges P (verify (nonempty s) (pass_prefix n s) (steps [fail msg; count_issue]))) ∨
    stops (verify (nonempty s) (pass_prefix n s) (steps [fail msg; count_issue]))) as Hor.
  { intros n s msg Hn. destruct (decide (holds_prefix n s)); [left; eexists; by apply check_text_judges|right; by apply check_text_stops]. }
  apply steps_stop.
  - rewrite !list.Forall_cons. split; [by apply Hor|]. split; [by apply Hor|]. split; [|done]. left. eexists. apply warn_seeds_quiet.
  - destruct Hs; [left|right; left]; by apply check_text_stops.
Qed.

Lemma check_version_quiet : judges True (check_version c).
Proof. unfold check_version. by_steps. Qed.
Lemma check_wallet_quiet cfg : judges True (check_wallet c cfg).
Proof. unfold check_wallet. by_steps. Qed.

Definition dir_there (cfg : Config) (sub : bytes) : Prop :=
  m !! follow m (filepath_Join (nc_DataDir (cf_Node cfg)) sub) = Some Dir.
Lemma check_dirs_judges cfg : judges (Forall (dir_there cfg) requiredDirs) (check_dirs uni c m cfg).
Proof.
  eapply judges_iff.
  - apply judges_app.
    + apply (judges_map (dir_there cfg)), list.Forall_true. intros sub. unfold check_dir, dir_there.
      destruct (m !! _) as [[]|]; (eapply judges_iff; [first [apply judges_pass|apply judges_failed]|naive_solver]).
    + apply (quiet_steps [_]). by_steps.
  - tauto.
Qed.

Definition service_up (cfg : Config) : Prop :=
  serviceStatus uni c (guessServiceName cfg) ≠ lit "inactive" ∧ serviceStatus uni c (guessServiceName cfg) ≠ lit "failed".
Lemma check_service_judges cfg : judges (service_up cfg) (check_service uni c cfg).
Proof.
  unfold check_service, service_up. rewrite (proj2 (nonempty_iff _)) by (unfold guessServiceName; case_match; discriminate). cbn [verify].
  set (status := serviceStatus _ _ _). clearbody status. repeat case_bool_decide; cbn [orb];
    (eapply judges_iff; [first [apply judges_failed|apply judges_pass|apply judges_warn]|]); naive_solver.
Qed.

Lemma check_api_judges cfg : judges (is_Some (statusResp c cfg)) (check_api c cfg).
Proof.
  unfold check_api. destruct (statusResp c cfg) as [status|].
  - apply (judges_iff True); [unfold check_headers, check_spv; by_steps|]. split; [by eexists|done].
  - eapply judges_iff; [apply judges_failed|]. by rewrite is_Some_alt.
Qed.

Definition x402_up (cfg : Config) : Prop :=
  0 < api_PaymentSatoshis (cf_API cfg) → is_Some (httpGet c (api_url cfg ++ lit "/.well-known/x402")).
Lemma check_discovery_judges cfg : judges (x402_up cfg) (check_discovery c cfg).
Proof.
  unfold check_discovery, x402_up. eapply judges_iff.
  - apply (judges_cons True); [by_steps|]. eapply judges_cons; [|apply judges_nil].
    eapply (judges_verify _ _ True); intros _; [|by_steps].
    apply (judges_verify _ True False); intros _; [apply judges_pass|apply judges_failed].
  - destruct (Z.ltb_spec 0 (api_PaymentSatoshis (cf_API cfg))); [|naive_solver lia]. case_bool_decide; naive_solver.
Qed.

Definition node_resolves (node : bytes) : Prop := cl_resolves c (default [] (head (split_on x3a node))) = true.
Lemma check_external_judges cfg : judges (Forall node_resolves (cf_Nodes cfg)) (check_external c cfg).
Proof.
  unfold check_external. eapply judges_iff.
  - apply judges_app.
    + apply (judges_map node_resolves), list.Forall_true. intros node. eapply judges_iff;
        [apply (judges_verify _ True False); intros _; [apply judges_pass|apply judges_failed]|].
      unfold node_resolves. destruct (cl_resolves _ _); naive_solver.
    + apply quiet_steps. by_steps.
  - tauto.
Qed.

(** A seed that the doctor can turn into an address. *)
Definition long_seed (seed : bytes) : bool :=
  8 <=? zlen (replace_first (replace_first seed (lit "wss://") (lit "https://")) (lit "ws://") (lit "http://")).
Lemma check_seed_quiet seed : long_seed seed = true → judges True (check_seed c seed).
Proof.
  unfold long_seed, check_seed, meshSeedToAPI. intros Hl r. unfold slice_from, slice.
  rewrite Hl, Z.leb_refl. cbn [andb Z.leb Z.compare mbind res_mbind].
  match goal with |- ∃ r' n, ?s r = _ ∧ _ => assert (judges True s) as Hs by by_steps end. apply Hs.
Qed.
Lemma check_seed_stops seed : long_seed seed = false → stops (check_seed c seed).
Proof.
  unfold long_seed, check_seed, meshSeedToAPI. intros Hl r. unfold slice_from, slice. by rewrite Hl, !andb_false_r.
Qed.
Lemma check_seed_either seed : (∃ P, judges P (check_seed c seed)) ∨ stops (check_seed c seed).
Proof. destruct (long_seed seed) eqn:E; [left; eexists; by apply check_seed_quiet|right; by apply check_seed_stops]. Qed.

Abbreviation seeds_long cfg := (Forall (λ seed, long_seed seed = true) (mc_Seeds (cf_Mesh cfg))).
Lemma check_mesh_quiet cfg : seeds_long cfg → judges True (check_mesh c cfg).
Proof.
  intros Hs. unfold check_mesh. apply quiet_steps, Forall_app. split; [by_steps|].
  induction Hs; constructor; auto using check_seed_quiet.
Qed.
Lemma check_mesh_stops cfg : ¬ seeds_long cfg → stops (check_mesh c cfg).
Proof.
  intros Hs. unfold check_mesh. apply steps_stop.
  - apply Forall_app. split.
    + rewrite !list.Forall_cons. split; [left; exists True; by_steps|]. split; [left; exists True; by_steps|done].
    + apply list.Forall_fmap, list.Forall_true. apply check_seed_either.
  - apply list.Exists_app. right. apply list.Exists_fmap. apply (not_Forall_Exists _) in Hs.
    eapply list.Exists_impl; [exact Hs|]. intros seed Hn. cbn. apply check_seed_stops. by apply not_true_is_false.
Qed.

(** ** The whole visit *)

(** The texts the doctor shortens are empty or long enough. *)
Definition long_enough (cfg : Config) : Prop :=
  holds_prefix 8 (cf_WIF cfg) ∧ holds_prefix 12 (api_AuthToken (cf_API cfg)) ∧ seeds_long cfg.
(** What the doctor asks of a node, in the terms of the machine and of the
    configuration. *)
Definition healthy (cfg : Config) : Prop :=
  (cf_WIF cfg ≠ [] ∧ api_AuthToken (cf_API cfg) ≠ []) ∧ Forall (dir_there cfg) requiredDirs ∧ service_up cfg ∧
  is_Some (statusResp c cfg) ∧ x402_up cfg ∧ Forall node_resolves (cf_Nodes cfg).

Abbreviation visit path cfg := (steps (pass (lit "config loaded from " ++ path) :: checkups uni c m cfg)).
Lemma visit_judges path cfg : long_enough cfg → judges (healthy cfg) (visit path cfg).
Proof.
  intros (Hw & Ht & Hs). unfold healthy, checkups. eapply judges_iff.
  - repeat (eapply judges_cons;
      [first [apply judges_pass|by apply check_config_judges|apply check_version_quiet|apply check_dirs_judges|apply check_service_judges
        |apply check_api_judges|apply check_discovery_judges|apply check_external_judges|by apply check_mesh_quiet|apply check_wallet_quiet]|]).
    apply judges_nil.
  - tauto.
Qed.
Lemma visit_stops path cfg : ¬ long_enough cfg → stops (visit path cfg).
Proof.
  intros Hl.
  assert (Hc : (∃ P, judges P (check_config cfg)) ∨ stops (check_config cfg)).
  { destruct (decide (holds_prefix 8 (cf_WIF cfg))), (decide (holds_prefix 12 (api_AuthToken (cf_API cfg))));
      [left; eexists; by apply check_config_judges|right; apply check_config_stops; tauto..]. }
  assert (Hm : (∃ P, judges P (check_mesh c cfg)) ∨ stops (check_mesh c cfg)).
  { destruct (decide (seeds_long cfg)); [left; eexists; by apply check_mesh_quiet|right; by apply check_mesh_stops]. }
  apply steps_stop; unfold checkups.
  - rewrite !list.Forall_cons. repeat (split; [first [done|left; eexists;
      first [apply judges_pass|apply check_version_quiet|apply check_dirs_judges|apply check_service_judges
        |apply check_api_judges|apply check_discovery_judges|apply check_external_judges|apply check_wallet_quiet]]|]). done.
  - destruct (decide (holds_prefix 8 (cf_WIF cfg))) as [Hw|Hw]; [|apply Exists_cons_tl, Exists_cons_hd, check_config_stops; by left].
    destruct (decide (holds_prefix 12 (api_AuthToken (cf_API cfg)))) as [Ht|Ht];
      [|apply Exists_cons_tl, Exists_cons_hd, check_config_stops; by right].
    do 8 apply Exists_cons_tl. apply Exists_cons_hd, check_mesh_stops. intros Hs. by apply Hl.
Qed.

(** C22: when the configuration loads and the identity, the token and the seeds
    are not shorter than the part of them that the doctor prints, the doctor
    comes to its end; every failure it has printed is counted as one issue, and
    it exits with 0 or 1, with 0 exactly when the node is healthy: identity and
    token configured, the six data directories there, the service neither
    inactive nor failed, the API answering, the x402 document served when a
    price is set, and every BSV node's name resolving. When one of those texts
    is shorter (and a text is there) the doctor panics instead. *)
Theorem doctor_reports path cfg :
  Load toml_unmarshal files (loadEnvFile uni files path env) path = Ok cfg →
  (long_enough cfg → ∃ r code, cmdDoctor toml_unmarshal uni c m files env path = Ok (r, code) ∧
    rp_issues r = failures (rp_lines r) ∧ (code = 0 ∨ code = 1) ∧ (code = 0 ↔ healthy cfg)) ∧
  (¬ long_enough cfg → cmdDoctor toml_unmarshal uni c m files env path = Panic).
Proof.
  intros HL. unfold cmdDoctor. rewrite HL. split; intros Hl; [|by rewrite (visit_stops path cfg Hl)].
  destruct (visit_judges path cfg Hl (MkReport 0 [])) as (r & n & -> & Hn & [Hi Hf] & Hh). cbn [mbind res_mbind].
  eexists r, _. split; [done|]. rewrite <- Hh, Hi. split; [rewrite Hf; reflexivity|]. cbn [rp_issues].
  destruct (Z.eqb_spec (0 + n) 0); lia.
Qed.
End doctor.

(** ** Visits *)

Definition sample_clinic : Clinic :=
  MkClinic (λ url, if contains url (lit "/status") then Some (200, Some (JObj [(lit "headers", JObj [(lit "height", JNum 900000); (lit "sync_lag_secs", JNum 4000)])]))
                   else None)
    (λ _ _, None) (λ _, true) (λ host, negb (bool_decide (host = lit "seed.cascharia.com"))) (λ _, Some (lit "anvil"))
    (λ _, lit "active") (Some (200, Some (lit "v0.9.0"))).
Definition data_dirs : fs := foldr (λ sub (m : fs), <[filepath_Join (lit "/var/lib/anvil") sub := Dir]> m) ∅ (take 5 requiredDirs).
Definition sample_toml (data : bytes) (cfg : Config) : option Config :=
  if has_prefix data (lit "token=") then Some (set_token (drop 6 data) cfg)
  else if has_prefix data (lit "seed=") then Some (set_mesh (MkMeshConfig [drop 5 data] 0 [] []) cfg)
  else Some (set_wif data cfg).
Definition node_toml (data : bytes) : environ := {[ lit "anvil.toml" := data ]}.
Abbreviation doctor_sample data := (cmdDoctor sample_toml id sample_clinic data_dirs (node_toml data) ∅ (lit "anvil.toml")).

Example doctor_sample_code : match doctor_sample (lit "L1aW4aubDFB7yfras2S1") with Ok (r, code) => code = 1 ∧ rp_issues r = 2 | _ => False end.
Proof. vm_compute. done. Qed.

(** A token or a seed that the configuration allows, and the doctor stops with a
    panic. *)
Example doctor_panics : doctor_sample (lit "token=secret") = Panic ∧ doctor_sample (lit "seed=node:1") = Panic ∧ doctor_sample (lit "wif") = Panic.
Proof. vm_compute. done. Qed.

Example mesh_seed_examples :
  meshSeedToAPI (lit "wss://anvil.sendbsv.com/mesh") = Ok (lit "https://anvil.sendbsv.com") ∧
  meshSeedToAPI (lit "ws://127.0.0.1:8333") = Ok (lit "http://127.0.0.1:9333") ∧
  normalizePort (lit "0.0.0.0:9334") = lit ":9334" ∧ normalizePort (lit "9333") = lit ":9333".
Proof. vm_compute. done. Qed.

Lemma doctor_reports_witness : ∃ cfg r code,
  Load sample_toml (node_toml (lit "L1aW4aubDFB7yfras2S1")) (loadEnvFile id (node_toml (lit "L1aW4aubDFB7yfras2S1")) (lit "anvil.toml") ∅)
    (lit "anvil.toml") = Ok cfg ∧ long_enough cfg ∧
  doctor_sample (lit "L1aW4aubDFB7yfras2S1") = Ok (r, code) ∧ rp_issues r = failures (rp_lines r).
Proof.
  eexists (derive_token (set_wif (lit "L1aW4aubDFB7yfras2S1") defaults)).
  assert (HL : Load sample_toml (node_toml (lit "L1aW4aubDFB7yfras2S1"))
    (loadEnvFile id (node_toml (lit "L1aW4aubDFB7yfras2S1")) (lit "anvil.toml") ∅) (lit "anvil.toml") =
    Ok (derive_token (set_wif (lit "L1aW4aubDFB7yfras2S1") defaults))) by (vm_compute; reflexivity).
  assert (Hl : long_enough (derive_token (set_wif (lit "L1aW4aubDFB7yfras2S1") defaults))).
  { split; [right; vm_compute; discriminate|]. split; [right; vm_compute; discriminate|]. vm_compute. constructor. }
  destruct (proj1 (doctor_reports sample_toml id sample_clinic data_dirs (node_toml (lit "L1aW4aubDFB7yfras2S1")) ∅ (lit "anvil.toml") _ HL) Hl)
    as (r & code & Hr & Hi & _).
  exists r, code. split; [exact HL|]. split; [exact Hl|]. split; [exact Hr|exact Hi].
Defined.
