(* ===== verification/Feeds.v ===== *)
(** * The built-in feeds ([internal/feeds/feeds.go])

    The publisher that signs an envelope with the key of the node, stores it and
    hands it to the mesh; the heartbeat and the announcement of new tips, each a
    step on what a tick of its timer finds. *)

From Stdlib Require Import Init.Byte Strings.Byte Strings.String Lia ZArith.
From stdpp Require Import base gmap sets list strings numbers sorting.
From S2P Require Import Prelude GoStd Sha256 LevelDB Http Float Ec Envelope EnvelopeStore.
Open Scope Z_scope.

Record HeartbeatPayload := MkHeartbeatPayload {
  hp_Node : bytes; hp_Version : bytes; hp_Height : Z; hp_Peers : Z; hp_Topics : list bytes; hp_Timestamp : Z
}.
Record BlockTipPayload := MkBlockTipPayload { bt_Height : Z; bt_Hash : bytes; bt_Node : bytes }.

Section feeds.
Context {DB : Type} `{LevelDB DB} `{EC} `{JsonCodec Envelope} `{SortSlice} `{MapOrder}.
Context `{JsonCodec HeartbeatPayload} `{JsonCodec BlockTipPayload}.

Record Publisher := MkPublisher {
  pb_key : PrivateKey; pb_broadcast : bool; pb_nodeName : bytes; pb_version : bytes
}.
Definition NewPublisher (key : PrivateKey) (broadcast : bool) (nodeName version : bytes) : Publisher :=
  MkPublisher key broadcast nodeName version.

(** The store, what was handed to the mesh, and how many publications failed. *)
Record Feed := MkFeed { fd_store : Store DB; fd_sent : list Envelope; fd_failed : nat }.

Definition publish (p : Publisher) (now : Z) (topic payload : bytes) (ttl : Z) (f : Feed) : res env_err Feed :=
  env ← Sign (pb_key p) (MkEnvelope (lit "data") topic payload [] [] ttl false (unix now) false None None);
  let '(s, env, r) := Ingest now (fd_store f) env in
  match r with
  | Err _ => Ok (MkFeed s (fd_sent f) (S (fd_failed f)))
  | Ok _ => Ok (MkFeed s (if pb_broadcast p then fd_sent f ++ [env] else fd_sent f) (fd_failed f))
  | Panic => Panic
  end.

(** [string(data)] is empty when the value did not marshal. *)
Definition marshal_text {A} `{JsonCodec A} (a : A) : bytes := default [] (json_marshal a).

(** ** The heartbeat *)

(** What a tick finds: the time, the height, the peers and the topics. *)
Record Vitals := MkVitals { vt_now : Z; vt_height : Z; vt_peers : Z; vt_topics : gmap bytes Z }.

Definition heartbeat_payload (p : Publisher) (v : Vitals) : HeartbeatPayload :=
  MkHeartbeatPayload (pb_nodeName p) (pb_version p) (vt_height v) (vt_peers v) ((map_order (vt_topics v)).*1) (unix (vt_now v)).
Definition heartbeat_topic : bytes := lit "mesh:heartbeat".
Definition publishHeartbeat (p : Publisher) (ttl : Z) (v : Vitals) (f : Feed) : res env_err Feed :=
  publish p (vt_now v) heartbeat_topic (marshal_text (heartbeat_payload p v)) ttl f.

Definition heartbeat_ttl (interval : Z) : Z :=
  let ttl := f64_to_int (seconds interval) * 5 in if ttl <? 300 then 300 else ttl.
(** The first one at the start, then one at each tick. *)
Definition RunHeartbeat (p : Publisher) (interval : Z) (start : Vitals) (ticks : list Vitals) (f : Feed) : res env_err Feed :=
  foldl (λ acc v, acc ≫= publishHeartbeat p (heartbeat_ttl interval) v) (Ok f) (start :: ticks).

(** ** New tips *)

(** What a poll finds: the time, the height, and the hashes by height, empty
    when the lookup failed. *)
Record Poll := MkPoll { pl_now : Z; pl_height : Z; pl_hash : Z → bytes }.

Definition tip_payload (p : Publisher) (q : Poll) : BlockTipPayload :=
  MkBlockTipPayload (pl_height q) (pl_hash q (pl_height q)) (pb_nodeName p).
Definition tip_topic : bytes := lit "mesh:blocks".
Definition tip_poll (p : Publisher) (q : Poll) (st : Z * Feed) : res env_err (Z * Feed) :=
  let '(lastHeight, f) := st in
  if lastHeight <? pl_height q then
    if bool_decide (pl_hash q (pl_height q) = []) then Ok (lastHeight, f)
    else
      f ← publish p (pl_now q) tip_topic (marshal_text (tip_payload p q)) 300 f;
      Ok (pl_height q, f)
  else Ok (lastHeight, f).
Definition RunBlockTip (p : Publisher) (startHeight : Z) (polls : list Poll) (f : Feed) : res env_err (Z * Feed) :=
  foldl (λ acc q, acc ≫= tip_poll p q) (Ok (startHeight, f)) polls.

Definition truncateHash (s : bytes) : bytes := if (16 <? length s)%nat then take 16 s else s.
End feeds.
Arguments MkFeed {DB}.
Arguments fd_store {DB}.
Arguments fd_sent {DB}.
Arguments fd_failed {DB}.
Arguments Feed : clear implicits.

(** * What the feeds publish

    Every heartbeat and every new tip becomes one envelope under the node's own
    signature, stored as it is sent; the heights announced only rise. *)

From stdpp Require Import fin_maps.
From S2P Require Import EnvelopeProps.

Section feeds.
Context {DB : Type} `{LevelDBLaws DB} `{ECLaws} `{JsonCodecLaws Envelope} `{SortSliceLaws} `{MapOrder}.
Context `{JsonCodec HeartbeatPayload} `{JsonCodec BlockTipPayload}.
Context (p : Publisher).
Implicit Types (f : Feed DB) (e : Envelope).

(** An envelope of the node's on a topic, as it is stored and sent. *)
Definition published (topic payload : bytes) (ttl now : Z) e : Prop :=
  Topic e = topic ∧ Payload e = payload ∧ TTL e = ttl ∧ Durable e = false ∧ Timestamp e = unix now ∧
  Pubkey e = hex_encode (Compressed (PubKey (pb_key p))) ∧ Validate e = Ok () ∧ ReceivedAt e = Some now.

Definition held (s : Store DB) e : Prop := es_ephemeral s !! key_of e = Some e.

Lemma publish_Ok now topic payload ttl f : topic ≠ [] → payload ≠ [] → 0 < ttl ≤ es_maxEphemeralTTL (fd_store f) →
  ∃ e s', publish p now topic payload ttl f = Ok (MkFeed s' (if pb_broadcast p then fd_sent f ++ [e] else fd_sent f) (fd_failed f)) ∧
    published topic payload ttl now e ∧ s' = set_ephemeral (<[key_of e := e]> (es_ephemeral (fd_store f))) (fd_store f).
Proof.
  intros Ht Hp Httl. unfold publish.
  set (e0 := MkEnvelope (lit "data") topic payload [] [] ttl false (unix now) false None None).
  destruct (Sign_signed (pb_key p) e0) as (sig & Hs & _). rewrite Hs. cbn [mbind res_mbind].
  assert (Hw : well_formed e0) by (split_and!; [done|done|cbn; lia|cbn; lia|done]).
  pose proof (Sign_Validate _ _ _ e0 Hs Hw eq_refl) as HV. cbn [Signature Pubkey set_signature e0] in HV.
  set (e1 := set_signature (hex_encode (SerializeDER sig)) (hex_encode (Compressed (PubKey (pb_key p)))) e0) in *.
  unfold Ingest. replace (Validate e1) with (Ok (E:=env_err) ()) by (by rewrite <- HV). cbv iota.
  change (Durable (set_received (Some now) e1)) with false. cbv iota.
  unfold storeEphemeral. change (TTL (set_received (Some now) e1)) with ttl.
  rewrite (proj2 (Z.ltb_ge _ _)) by lia.
  assert (HV2 : Validate (set_received (Some now) e1) = Ok ()) by (rewrite Validate_received; by rewrite <- HV).
  rewrite (Validate_Key_ok _ HV2). eexists (set_received (Some now) e1), _. split; [done|]. split; [|done].
  by split_and!.
Qed.

Lemma publish_too_long now topic payload ttl f : topic ≠ [] → payload ≠ [] → 0 < ttl → es_maxEphemeralTTL (fd_store f) < ttl →
  publish p now topic payload ttl f = Ok (MkFeed (fd_store f) (fd_sent f) (S (fd_failed f))).
Proof.
  intros Ht Hp Httl Hmax. unfold publish.
  set (e0 := MkEnvelope (lit "data") topic payload [] [] ttl false (unix now) false None None).
  destruct (Sign_signed (pb_key p) e0) as (sig & Hs & _). rewrite Hs. cbn [mbind res_mbind].
  unfold Ingest. destruct (Validate _) as [[]|err|] eqn:HV; [|done|by apply Validate_not_panic in HV].
  change (Durable (set_received (Some now) (set_signature _ _ e0))) with false. cbv iota.
  unfold storeEphemeral. change (TTL (set_received (Some now) _)) with ttl. by rewrite (proj2 (Z.ltb_lt _ _)).
Qed.

Lemma foldl_stuck {A : Type} (step : A → Feed DB → res env_err (Feed DB)) l r :
  (∀ f, r ≠ Ok f) → foldl (λ acc a, acc ≫= step a) r l = r.
Proof. intros Hr. induction l as [|a l IH]; [done|]. cbn. destruct r; [by destruct (Hr a0)|done|done]. Qed.

(** The limits of the store stay. *)
Lemma publish_max now topic payload ttl f f' : publish p now topic payload ttl f = Ok f' →
  es_maxEphemeralTTL (fd_store f') = es_maxEphemeralTTL (fd_store f).
Proof.
  unfold publish. destruct (Sign _ _) as [e| |]; [|done..]. cbn [mbind res_mbind].
  destruct (Ingest now (fd_store f) e) as [[s e'] r] eqn:HI.
  assert (Hm : es_maxEphemeralTTL s = es_maxEphemeralTTL (fd_store f)).
  { revert HI. unfold Ingest, storeDurable, storeEphemeral. repeat case_match; intros; by simplify_eq/=. }
  destruct r; intros; by simplify_eq/=.
Qed.
Lemma RunHeartbeat_max ttl l f f' v0 :
  foldl (λ acc v, acc ≫= publishHeartbeat p ttl v) (Ok f) (v0 :: l) = Ok f' →
  es_maxEphemeralTTL (fd_store f') = es_maxEphemeralTTL (fd_store f).
Proof.
  generalize (v0 :: l). clear v0 l. intros l. revert f. induction l as [|v l IH]; intros f; cbn [foldl]; [by intros [= ->]|].
  change (Ok f ≫= publishHeartbeat p ttl v) with (publishHeartbeat p ttl v f).
  destruct (publishHeartbeat p ttl v f) as [f1|e|] eqn:E1.
  - intros HH. rewrite (IH f1 HH). by eapply publish_max.
  - rewrite foldl_stuck by done. done.
  - rewrite foldl_stuck by done. done.
Qed.

(** What a sequence of publications leaves: as many envelopes as there were
    payloads, in order, each the node's own. *)
Definition batch (topic : bytes) (ttl : Z) (items : list (Z * bytes)) (l : list Envelope) : Prop :=
  Forall2 (λ it e, published topic it.2 ttl it.1 e) items l.

(** The heartbeat publishes one envelope when it starts and one at every
    tick, in order, each signed by the node and valid, with what was found at
    that moment; the last one is in the store of the node. With a store whose
    limit is below the lifetime of a heartbeat (at least five minutes) it
    publishes nothing. *)
Theorem RunHeartbeat_publishes interval start ticks f :
  pb_broadcast p = true → (∀ v, marshal_text (heartbeat_payload p v) ≠ []) →
  ∃ f', RunHeartbeat p interval start ticks f = Ok f' ∧ 300 ≤ heartbeat_ttl interval ∧
    if heartbeat_ttl interval <=? es_maxEphemeralTTL (fd_store f)
    then fd_failed f' = fd_failed f ∧ ∃ l e, fd_sent f' = fd_sent f ++ l ++ [e] ∧ held (fd_store f') e ∧
      batch heartbeat_topic (heartbeat_ttl interval)
        ((λ v, (vt_now v, marshal_text (heartbeat_payload p v))) <$> (start :: ticks)) (l ++ [e])
    else fd_failed f' = (fd_failed f + S (length ticks))%nat ∧ fd_sent f' = fd_sent f ∧ fd_store f' = fd_store f.
Proof.
  intros Hb Hm. assert (Httl : 300 ≤ heartbeat_ttl interval) by (unfold heartbeat_ttl; case_match; lia).
  unfold RunHeartbeat. set (ttl := heartbeat_ttl interval) in *.
  rewrite <- (rev_involutive ticks). induction (rev ticks) as [|v l IH].
  - cbn [rev foldl mbind res_mbind]. unfold publishHeartbeat.
    destruct (Z.leb_spec ttl (es_maxEphemeralTTL (fd_store f))) as [Hle|Hgt].
    + destruct (publish_Ok (vt_now start) heartbeat_topic (marshal_text (heartbeat_payload p start)) ttl f) as (e & s' & -> & He & ->);
        [done|apply Hm|lia|]. rewrite Hb. eexists. split_and!; [done|done|done|]. exists [], e. split_and!; [done| |constructor; [exact He|constructor]].
      unfold held. cbn. by rewrite lookup_insert_eq.
    + rewrite publish_too_long by (done || apply Hm || lia). eexists. split_and!; [done..|cbn; lia|done|done].
  - destruct IH as (f1 & Hf & _ & Hf1). cbn [rev]. rewrite app_comm_cons, foldl_app, Hf. cbn [foldl mbind res_mbind]. unfold publishHeartbeat.
    destruct (Z.leb_spec ttl (es_maxEphemeralTTL (fd_store f))) as [Hle|Hgt].
    + destruct Hf1 as (Hx & l1 & e1 & Hs & Hh & Hba).
      destruct (publish_Ok (vt_now v) heartbeat_topic (marshal_text (heartbeat_payload p v)) ttl f1) as (e & s' & -> & He & ->);
        [done|apply Hm| |].
      { split; [lia|]. rewrite (RunHeartbeat_max _ _ _ _ _ Hf). done. }
      rewrite Hb. eexists. split_and!; [done|done|done|]. exists (l1 ++ [e1]), e. split_and!.
      * cbn. by rewrite Hs, <- !(assoc_L (++)).
      * unfold held. cbn. by rewrite lookup_insert_eq.
      * unfold batch in *. rewrite fmap_app. apply Forall2_app; [done|constructor; [exact He|constructor]].
    + destruct Hf1 as (Hx & Hs & Hst). rewrite publish_too_long by (done || apply Hm || lia || (rewrite Hst; lia)). eexists.
      split_and!; [done|done| |done|done]. cbn. rewrite Hx, length_app. cbn. lia.
Qed.

(** ** New tips *)

(** The polls that are announced: those that find a higher tip, with its hash,
    than any announced before. *)
Fixpoint new_tips (last : Z) (polls : list Poll) : list Poll :=
  match polls with
  | [] => []
  | q :: polls =>
      if (last <? pl_height q) && negb (bool_decide (pl_hash q (pl_height q) = [])) then q :: new_tips (pl_height q) polls
      else new_tips last polls
  end.
Definition last_height (start : Z) (polls : list Poll) : Z := foldl (λ _ q, pl_height q) start (new_tips start polls).

Lemma new_tips_sorted last polls :
  Forall (λ q, last < pl_height q) (new_tips last polls) ∧ StronglySorted (λ a b, pl_height a < pl_height b) (new_tips last polls).
Proof.
  revert last. induction polls as [|q polls IH]; intros last; cbn [new_tips]; [by split; constructor|].
  destruct (Z.ltb_spec last (pl_height q)) as [Hlt|]; cbn [andb]; [|apply IH].
  destruct (negb _); [|apply IH]. destruct (IH (pl_height q)) as [Ha Hs]. split.
  - constructor; [done|]. eapply Forall_impl; [exact Ha|]. cbn. intros; lia.
  - by constructor.
Qed.

Lemma last_height_ge start polls : start ≤ last_height start polls.
Proof.
  unfold last_height. revert start. induction polls as [|q polls IH]; intros start; cbn [new_tips foldl]; [done|].
  destruct (Z.ltb_spec start (pl_height q)); cbn [andb]; [|done]. destruct (negb _); [|done]. cbn [foldl].
  specialize (IH (pl_height q)). lia.
Qed.
(** Nothing higher than the last announcement was found with its hash. *)
Lemma last_height_covers start polls q : q ∈ polls → pl_hash q (pl_height q) ≠ [] → pl_height q ≤ last_height start polls.
Proof.
  intros Hq Hh. revert start. induction polls as [|q' polls IH]; intros start; [by apply elem_of_nil in Hq|].
  unfold last_height in *. cbn [new_tips]. apply elem_of_cons in Hq as [->|Hq].
  - rewrite (bool_decide_false (pl_hash q' (pl_height q') = [])) by done.
    pose proof (last_height_ge (pl_height q') polls) as H1'. pose proof (last_height_ge start polls) as H2'. unfold last_height in *.
    destruct (Z.ltb_spec start (pl_height q')); cbn [andb negb foldl]; lia.
  - case_match; cbn [foldl]; by apply IH.
Qed.

Definition tip_batch (polls : list Poll) (l : list Envelope) : Prop :=
  batch tip_topic 300 ((λ q, (pl_now q, marshal_text (tip_payload p q))) <$> polls) l.

(** The store after these envelopes. *)
Definition store_with (l : list Envelope) (s : Store DB) : Store DB :=
  set_ephemeral (foldl (λ m e, <[key_of e := e]> m) (es_ephemeral s) l) s.

(** What a publication of a short-lived payload does, by the limit of the store. *)
Lemma publish_300 now payload f : payload ≠ [] →
  if 300 <=? es_maxEphemeralTTL (fd_store f)
  then ∃ e, published tip_topic payload 300 now e ∧
    publish p now tip_topic payload 300 f =
      Ok (MkFeed (store_with [e] (fd_store f)) (fd_sent f ++ if pb_broadcast p then [e] else []) (fd_failed f))
  else publish p now tip_topic payload 300 f = Ok (MkFeed (fd_store f) (fd_sent f) (S (fd_failed f))).
Proof.
  intros Hp. destruct (Z.leb_spec 300 (es_maxEphemeralTTL (fd_store f))) as [Hle|Hgt].
  - destruct (publish_Ok now tip_topic payload 300 f) as (e & s' & -> & He & ->); [done|done|lia|].
    exists e. split; [done|]. unfold store_with. cbn [foldl]. destruct (pb_broadcast p); [done|]. by rewrite app_nil_r.
  - by apply publish_too_long.
Qed.

(** What a run leaves, by the limit of the store. *)
Definition announced (start : Z) (polls : list Poll) f f' : Prop :=
  if 300 <=? es_maxEphemeralTTL (fd_store f)
  then ∃ l, tip_batch (new_tips start polls) l ∧ fd_store f' = store_with l (fd_store f) ∧
    fd_sent f' = fd_sent f ++ (if pb_broadcast p then l else []) ∧ fd_failed f' = fd_failed f
  else fd_store f' = fd_store f ∧ fd_sent f' = fd_sent f ∧ fd_failed f' = (fd_failed f + length (new_tips start polls))%nat.

Lemma announced_cons start q polls f f1 f' :
  new_tips start (q :: polls) = q :: new_tips (pl_height q) polls →
  (if 300 <=? es_maxEphemeralTTL (fd_store f)
   then ∃ e, published tip_topic (marshal_text (tip_payload p q)) 300 (pl_now q) e ∧
     f1 = MkFeed (store_with [e] (fd_store f)) (fd_sent f ++ if pb_broadcast p then [e] else []) (fd_failed f)
   else f1 = MkFeed (fd_store f) (fd_sent f) (S (fd_failed f))) →
  announced (pl_height q) polls f1 f' → announced start (q :: polls) f f'.
Proof.
  intros Hn. unfold announced. rewrite Hn. destruct (300 <=? es_maxEphemeralTTL (fd_store f)) eqn:Ec.
  - intros (e & He & ->). cbn [fd_store fd_sent fd_failed]. change (es_maxEphemeralTTL (store_with [e] (fd_store f))) with (es_maxEphemeralTTL (fd_store f)).
    rewrite Ec. intros (l & Hb & Hs & Hse & Hf). exists (e :: l). split; [by constructor|]. split; [by rewrite Hs|].
    split; [|done]. rewrite Hse, <- (assoc_L (++)). by destruct (pb_broadcast p).
  - intros ->. cbn [fd_store fd_sent fd_failed]. rewrite Ec. intros (-> & -> & ->). split_and!; [done..|]. cbn [length]. lia.
Qed.

Lemma RunBlockTip_from start polls f : (∀ q, marshal_text (tip_payload p q) ≠ []) →
  ∃ f', RunBlockTip p start polls f = Ok (last_height start polls, f') ∧ announced start polls f f'.
Proof.
  intros Hm. unfold RunBlockTip, last_height. revert start f. induction polls as [|q polls IH]; intros start f.
  - exists f. split; [done|]. unfold announced. cbn [new_tips length]. case_match; [|split_and!; [done..|lia]].
    exists []. split_and!; [constructor| |by case_match; rewrite app_nil_r|done]. unfold store_with. cbn [foldl]. by destruct (fd_store f).
  - assert (Hskip : new_tips start (q :: polls) = new_tips start polls →
      ∃ f', foldl (λ acc q, acc ≫= tip_poll p q) (Ok (start, f)) polls =
        Ok (foldl (λ _ q, pl_height q) start (new_tips start (q :: polls)), f') ∧ announced start (q :: polls) f f').
    { intros E. unfold announced. rewrite E. apply (IH start f). }
    cbn [foldl]. change (Ok (start, f) ≫= tip_poll p q) with (tip_poll p q (start, f)). unfold tip_poll at 2. cbn [new_tips] in Hskip |- *.
    destruct (start <? pl_height q) eqn:Eh; cbn [andb] in *; [|by apply Hskip].
    destruct (decide (pl_hash q (pl_height q) = [])) as [Hh|Hh]; [rewrite !bool_decide_true in * by done; by apply Hskip|].
    rewrite !bool_decide_false in * by done. cbn [negb]. clear Hskip.
    assert (Hn : new_tips start (q :: polls) = q :: new_tips (pl_height q) polls) by (cbn [new_tips]; by rewrite Eh, bool_decide_false).
    pose proof (publish_300 (pl_now q) (marshal_text (tip_payload p q)) f (Hm q)) as Hpub.
    assert (∃ f1, publish p (pl_now q) tip_topic (marshal_text (tip_payload p q)) 300 f = Ok f1 ∧
      ∀ f', announced (pl_height q) polls f1 f' → announced start (q :: polls) f f') as (f1 & -> & Hf1).
    { pose proof (announced_cons start q polls f) as HC. destruct (300 <=? es_maxEphemeralTTL (fd_store f)).
      - destruct Hpub as (e & He & ->). eexists. split; [done|]. intros f' Hf'. eapply HC; [done| |done]. by exists e.
      - rewrite Hpub. eexists. split; [done|]. intros f' Hf'. by eapply HC. }
    cbn [mbind res_mbind foldl]. destruct (IH (pl_height q) f1) as (f' & Hr & Ha). exists f'. split; [exact Hr|by apply Hf1].
Qed.

Lemma new_tips_polls start polls :
  new_tips start polls `sublist_of` polls ∧ Forall (λ q, pl_hash q (pl_height q) ≠ []) (new_tips start polls).
Proof.
  revert start. induction polls as [|q polls IH]; intros start; cbn [new_tips]; [by split; constructor|].
  case_match eqn:E; [|split; [constructor; apply IH|apply IH]].
  apply andb_true_iff in E as [_ ?%negb_true_iff%bool_decide_eq_false]. by split; constructor; try apply IH.
Qed.

(** C23: the feed of new tips takes up exactly the polls that find, with its
    hash, a higher tip than any taken up before: their heights rise, above the
    one it started at, and no poll found a higher one, with its hash, than the
    last. When the store takes envelopes that live for five minutes, each is
    one envelope signed by the node with the height and hash of the poll, kept
    in the store and, when there is a mesh, sent; when the store does not,
    nothing is kept or sent, each counts as a failure, and the feed goes on from
    the height it failed to announce. Blocks between two polls are not taken up
    ([tips_between_polls]). *)
Theorem RunBlockTip_announces start polls f :
  (∀ q, marshal_text (tip_payload p q) ≠ []) →
  let qs := new_tips start polls in
  ∃ last f', RunBlockTip p start polls f = Ok (last, f') ∧
    (if 300 <=? es_maxEphemeralTTL (fd_store f)
     then ∃ l, tip_batch qs l ∧ fd_store f' = store_with l (fd_store f) ∧
       fd_sent f' = fd_sent f ++ (if pb_broadcast p then l else []) ∧ fd_failed f' = fd_failed f
     else fd_store f' = fd_store f ∧ fd_sent f' = fd_sent f ∧ fd_failed f' = (fd_failed f + length qs)%nat) ∧
    qs `sublist_of` polls ∧ Forall (λ q, start < pl_height q ∧ pl_hash q (pl_height q) ≠ []) qs ∧
    StronglySorted (λ a b, pl_height a < pl_height b) qs ∧
    (∀ q, q ∈ polls → pl_hash q (pl_height q) ≠ [] → pl_height q ≤ last).
Proof.
  intros Hm qs. destruct (RunBlockTip_from start polls f Hm) as (f' & Hr & Ha).
  destruct (new_tips_sorted start polls) as [Hgt Hso], (new_tips_polls start polls) as [Hsub Hh].
  exists (last_height start polls), f'. split; [exact Hr|]. split; [exact Ha|]. split; [exact Hsub|].
  split; [by apply Forall_and|]. split; [exact Hso|]. by intros; apply last_height_covers.
Qed.
End feeds.

(** ** A node's feeds *)

#[local] Instance envelope_text : JsonCodec Envelope := countable_codec (set_received None).
#[local] Instance envelope_text_laws : JsonCodecLaws Envelope := countable_codec_laws _.
#[local] Instance heartbeat_text : JsonCodec HeartbeatPayload :=
  { json_marshal h := Some (lit "h" ++ itoa (hp_Height h) ++ lit "p" ++ itoa (hp_Peers h)); json_unmarshal _ := None; json_norm h := h }.
#[local] Instance tip_text : JsonCodec BlockTipPayload :=
  { json_marshal t := Some (lit "h" ++ itoa (bt_Height t) ++ bt_Hash t); json_unmarshal _ := None; json_norm t := t }.

Definition feed_key : PrivateKey := x07.
Definition feed_node : Publisher := NewPublisher feed_key true (lit "anvil") (lit "0.7.3").
Definition new_feed : Feed (gmap bytes bytes) := MkFeed (MkStore ∅ ∅ 3600 65536) [] 0.
Definition vitals (now h : Z) : Vitals := MkVitals (now * 1000000000) h 2 {[ lit "rates" := 1 ]}.
Definition poll (now h : Z) (found : bool) : Poll := MkPoll (now * 1000000000) h (λ h, if found then itoa h else []).

Lemma RunHeartbeat_publishes_witness : ∃ f', RunHeartbeat feed_node (60 * second) (vitals 1 100) [vitals 61 101; vitals 121 101] new_feed = Ok f' ∧
  fd_failed f' = 0%nat ∧ ∃ l e, fd_sent f' = l ++ [e] ∧ held (fd_store f') e ∧
    batch feed_node heartbeat_topic 300
      [(1000000000, lit "h100p2"); (61000000000, lit "h101p2"); (121000000000, lit "h101p2")] (l ++ [e]).
Proof.
  destruct (RunHeartbeat_publishes feed_node (60 * second) (vitals 1 100) [vitals 61 101; vitals 121 101] new_feed) as (f' & Hr & Ht & Hf).
  - reflexivity.
  - intros v. vm_compute. discriminate.
  - assert (Httl : heartbeat_ttl (60 * second) = 300) by (vm_compute; reflexivity).
    rewrite Httl in Hf. change (300 <=? es_maxEphemeralTTL (fd_store new_feed)) with true in Hf.
    destruct Hf as (Hf & l & e & Hs & Hh & Hb). exists f'. split; [exact Hr|]. split; [exact Hf|].
    exists l, e. split; [exact Hs|]. split; [exact Hh|]. exact Hb.
Defined.

Definition tip_polls : list Poll :=
  [poll 10 100 true; poll 20 101 true; poll 30 103 false; poll 40 102 true; poll 50 99 true; poll 60 102 true].
Definition tip_run := RunBlockTip feed_node 100 tip_polls new_feed.

Lemma RunBlockTip_announces_witness : ∃ last f' l, tip_run = Ok (last, f') ∧
  tip_batch feed_node [poll 20 101 true; poll 40 102 true] l ∧ fd_sent f' = l ∧ fd_failed f' = 0%nat.
Proof.
  destruct (RunBlockTip_announces feed_node 100 tip_polls new_feed) as (last & f' & Hr & (l & Hb & _ & Hs & Hf) & _).
  - intros q. vm_compute. discriminate.
  - exists last, f', l. split; [exact Hr|]. split; [exact Hb|]. split; [exact Hs|exact Hf].
Defined.

(** Four blocks between two polls: one announcement. *)
Example tips_between_polls :
  map pl_height (new_tips 100 [poll 10 101 true; poll 20 105 true]) = [101; 105].
Proof. reflexivity. Qed.

(** A store that takes envelopes for a minute: the tip is not announced, and a
    later poll of the same height does not try again. *)
Example failed_tip_not_retried :
  match RunBlockTip feed_node 100 [poll 10 101 true; poll 20 101 true] (MkFeed (MkStore ∅ ∅ 60 65536) [] 0) with
  | Ok (last, f) => last = 101 ∧ fd_sent f = [] ∧ fd_failed f = 1%nat
  | _ => False
  end.
Proof. vm_compute. done. Qed.
