(* ===== verification/WalletServices.v ===== *)
(** * The services of the wallet ([internal/wallet/services.go])

    What the wallet library asks of the node: block headers, proofs, raw
    transactions and broadcasts, answered from the header store, the proof store
    and the broadcaster. *)

From Stdlib Require Import Init.Byte Strings.Byte Strings.String Lia ZArith.
From stdpp Require Import base gmap sets list strings numbers.
From S2P Require Import Prelude GoStd Sha256 LevelDB GoText Http Pow HeaderStore Tx TxRelay Spv.
Open Scope Z_scope.

(** The fields of a header that only these answers show; [hdr_time] is
    [Timestamp.Unix()]. *)
Class WireFields (H : Type) := { hdr_version : H → Z; hdr_time : H → Z; hdr_nonce : H → Z }.

(** [FindTransaction] of a BEEF, and the Merkle path of the transaction a BEEF
    is for. *)
Class BeefLookup `{BeefLib} := {
  FindTransaction : Beef → bytes → option Transaction;
  BeefMerklePath : bytes → option MerklePath
}.

(** [Hash.String]. *)
Definition hash_string (h : bytes) : bytes := hex_encode (rev h).

Record ChainBlockHeader := MkChainHeader {
  ch_Version : Z; ch_PreviousHash : bytes; ch_MerkleRoot : bytes; ch_Time : Z; ch_Bits : Z; ch_Nonce : Z;
  ch_Height : Z; ch_Hash : bytes
}.
Inductive PostedTxID := PostedSuccess (txid : bytes) | PostedError (txid : bytes) (e : option bc_err).
Record TxStatusDetail := MkTxStatus { td_TxID : bytes; td_Status : bytes }.

Section services.
Context {DB : Type} `{LevelDB DB} {Hdr : Type} `{WireHeader Hdr} `{WireFields Hdr} `{TxLib} `{BeefLookup}.

Record AnvilServices := MkServices {
  sv_headers : HeaderStore.Store DB; sv_proofs : DB; sv_broadcaster : option Broadcaster
}.
Definition NewAnvilServices (headers : HeaderStore.Store DB) (proofs : DB) (b : option Broadcaster) : AnvilServices :=
  MkServices headers proofs b.

(** ** The chain tracker and the headers *)

Definition sv_IsValidRootForHeight (s : AnvilServices) (root : bytes) (height : Z) : res store_err bool :=
  IsValidRootForHeight (sv_headers s) root height.
Definition sv_CurrentHeight (s : AnvilServices) : Z := CurrentHeight (sv_headers s).

Definition ChainHeaderByHeight (s : AnvilServices) (height : Z) : res store_err ChainBlockHeader :=
  raw ← HeaderAtHeight (sv_headers s) height;
  hdr ← res_of_option (ErrDeserialize height) (hdr_deserialize (H:=Hdr) raw);
  Ok (MkChainHeader (u32 (hdr_version hdr)) (hash_string (hdr_prev hdr)) (hash_string (hdr_merkle hdr))
        (u32 (hdr_time hdr)) (hdr_bits hdr) (hdr_nonce hdr) height (hash_string (hdr_hash hdr))).
Definition FindChainTipHeader (s : AnvilServices) : res store_err ChainBlockHeader :=
  ChainHeaderByHeight s (Tip (sv_headers s)).

(** ** Broadcasting *)

Definition post_one (beef : Beef) (txid : bytes) (b : Broadcaster) : Broadcaster * PostedTxID :=
  match FindTransaction beef txid with
  | None => (b, PostedError txid None)
  | Some tx =>
      match BroadcastRaw (TxBytes tx) b with
      | (b, Ok br) => (b, PostedSuccess (br_TxID br))
      | (b, Err e) => (b, PostedError txid (Some e))
      | (b, Panic) => (b, PostedError txid None)
      end
  end.
(** [None] is the error of a broadcaster that is missing. *)
Definition PostFromBEEF (beef : Beef) (txids : list bytes) (s : AnvilServices) : AnvilServices * option (list PostedTxID) :=
  match sv_broadcaster s with
  | None => (s, None)
  | Some b =>
      let '(b, results) := foldl (λ '(b, l) txid, let '(b, r) := post_one beef txid b in (b, l ++ [r])) (b, []) txids in
      (MkServices (sv_headers s) (sv_proofs s) (Some b), Some results)
  end.

(** ** Proofs and transactions *)

(** Any failure is an answer without a path. *)
Definition sv_MerklePath (s : AnvilServices) (txid : bytes) : option MerklePath :=
  match GetBEEF txid (sv_proofs s) with
  | inl _ => None
  | inr beef => match NewTransactionFromBEEF beef with None => None | Some _ => BeefMerklePath beef end
  end.
(** Likewise without a transaction. *)
Definition sv_RawTx (s : AnvilServices) (txid : bytes) : bytes :=
  match GetBEEF txid (sv_proofs s) with
  | inl _ => []
  | inr beef => match NewTransactionFromBEEF beef with None => [] | Some tx => TxBytes tx end
  end.
Definition sv_GetBEEF (s : AnvilServices) (txid : bytes) : option Beef :=
  match GetBEEF txid (sv_proofs s) with inl _ => None | inr beef => NewBeefFromBytes beef end.
Definition NLockTimeIsFinal (s : AnvilServices) : bool := true.
Definition GetStatusForTxIDs (s : AnvilServices) (txids : list bytes) : list TxStatusDetail :=
  (λ txid, MkTxStatus txid (if HasBEEF txid (sv_proofs s) then lit "completed" else lit "unknown")) <$> txids.
End services.

(** * What the wallet sees

    The headers that the wallet library is given are the chain of the header
    store, and what it posts is in the pool of the node. *)

From S2P Require Import HeaderChain.

Section headers.
Context {DB : Type} `{LevelDBLaws DB} `{!LevelDBReliable DB} {Hdr : Type} `{WireHeaderLaws Hdr} `{WireFields Hdr}.
Implicit Types (s : AnvilServices (DB:=DB)).

Lemma linked_lookup g c i x y : linked_from (hi_hash g) c → (g :: c) !! i = Some x → (g :: c) !! S i = Some y → hi_prev y = hi_hash x.
Proof.
  revert g i. induction c as [|z c IH]; intros g i Hl Hx Hy; [by destruct i|]. destruct Hl as [Hz Hl].
  destruct i as [|i]; [by simplify_eq/=|]. by apply (IH z i).
Qed.

(** The header of the chain at a height, as the wallet gets it. *)
Definition shows (hd : ChainBlockHeader) (h : Z) (x : hdr_info) : Prop :=
  ch_Height hd = h ∧ ch_Hash hd = hash_string (hi_hash x) ∧ ch_PreviousHash hd = hash_string (hi_prev x) ∧
  ch_MerkleRoot hd = hash_string (hi_merkle x) ∧ ch_Bits hd = hi_bits x.

Lemma ChainHeaderByHeight_shows s g c h x : store_ok (Hdr:=Hdr) (sv_headers s) g c → 0 ≤ h → (g :: c) !! Z.to_nat h = Some x →
  ∃ hd, ChainHeaderByHeight (Hdr:=Hdr) s h = Ok hd ∧ shows hd h x.
Proof.
  intros Hok Hh Hx. destruct (vo_header _ _ (so_view _ _ _ Hok) _ _ Hx) as (raw & hd & Hraw & Hd & <-).
  rewrite Z2Nat.id in Hraw by lia. unfold ChainHeaderByHeight, HeaderAtHeight. rewrite db_get_total, Hraw.
  cbn [mbind res_mbind]. rewrite Hd. cbn [res_of_option mbind res_mbind]. eexists. split; [done|]. by split_and!.
Qed.

(** The wallet is shown the chain of the header store: at every height up to
    the tip it gets that header, whose Merkle root the store holds valid there
    and whose predecessor is the header shown one below; above the tip it gets
    an error; and the tip it finds is the last header. *)
Theorem wallet_sees_chain s g c :
  store_ok (Hdr:=Hdr) (sv_headers s) g c →
  (∀ h x, 0 ≤ h → (g :: c) !! Z.to_nat h = Some x →
     ∃ hd, ChainHeaderByHeight (Hdr:=Hdr) s h = Ok hd ∧ shows hd h x ∧ sv_IsValidRootForHeight s (hi_merkle x) h = Ok true) ∧
  (∀ h, Z.of_nat (length (g :: c)) ≤ h < 2 ^ 32 → ∃ e, ChainHeaderByHeight (Hdr:=Hdr) s h = Err e) ∧
  (∀ h hd hd', 0 ≤ h → ChainHeaderByHeight (Hdr:=Hdr) s h = Ok hd → ChainHeaderByHeight (Hdr:=Hdr) s (h + 1) = Ok hd' →
     h + 1 ≤ Z.of_nat (length c) → ch_PreviousHash hd' = ch_Hash hd) ∧
  ∃ hd, FindChainTipHeader (Hdr:=Hdr) s = Ok hd ∧ ch_Height hd = sv_CurrentHeight s ∧ ch_Hash hd = hash_string (tip_hash g c).
Proof.
  intros Hok. split_and!.
  - intros h x Hh Hx. destruct (ChainHeaderByHeight_shows _ _ _ _ _ Hok Hh Hx) as (hd & ? & ?). exists hd. split_and!; [done..|].
    unfold sv_IsValidRootForHeight, IsValidRootForHeight. rewrite db_get_total.
    pose proof (vo_merkle _ _ (so_view _ _ _ Hok) _ _ Hx) as E. rewrite Z2Nat.id in E by lia. by rewrite E, bool_decide_true.
  - intros h Hh. destruct (vo_above _ _ (so_view _ _ _ Hok) h) as [E _]; [exact Hh|].
    unfold ChainHeaderByHeight, HeaderAtHeight. rewrite db_get_total, E. by eexists.
  - intros h hd hd' Hh H1' H2' Hle.
    destruct (lookup_lt_is_Some_2 (g :: c) (Z.to_nat h)) as [x Hx]; [cbn [length]; lia|].
    destruct (lookup_lt_is_Some_2 (g :: c) (S (Z.to_nat h))) as [y Hy]; [cbn [length]; lia|].
    destruct (ChainHeaderByHeight_shows _ _ _ _ _ Hok Hh Hx) as (e & E1 & _ & Hsh & _).
    assert (Hy' : (g :: c) !! Z.to_nat (h + 1) = Some y) by (replace (Z.to_nat (h + 1)) with (S (Z.to_nat h)) by lia; done).
    destruct (ChainHeaderByHeight_shows s g c (h + 1) y Hok ltac:(lia) Hy') as (e' & E2 & _ & _ & Hp & _).
    rewrite E1 in H1'. rewrite E2 in H2'. simplify_eq. rewrite Hsh, Hp. f_equal.
    eapply linked_lookup; [apply (so_linked _ _ _ Hok)|exact Hx|exact Hy].
  - unfold FindChainTipHeader, Tip, sv_CurrentHeight, CurrentHeight. rewrite (so_tip _ _ _ Hok).
    destruct (ChainHeaderByHeight_shows s g c (Z.of_nat (length c)) (default g (list.last c)) Hok) as (hd & E & Hh & Hs & _).
    + lia.
    + rewrite Nat2Z.id. apply tip_lookup.
    + exists hd. by split_and!.
Qed.
End headers.

(** ** Broadcasting *)

Section posting.
Context {DB : Type} `{TxLibLaws} `{!BeefLib} `{!BeefLookup}.
Context (beef : Beef).

(** What is answered for an id. *)
Definition posted (txid : bytes) : PostedTxID :=
  match FindTransaction beef txid with Some tx => PostedSuccess (TxID tx) | None => PostedError txid None end.
(** What an id adds to the pool. *)
Definition pooled (m : Mempool) (txid : bytes) : Mempool :=
  match FindTransaction beef txid with Some tx => (mempool_add (TxID tx) (TxBytes tx) m).1 | None => m end.

Lemma post_one_spec txid b : post_one beef txid b = (set_mempool (pooled (bc_mempool b) txid) b, posted txid).
Proof.
  unfold post_one, pooled, posted, BroadcastRaw. destruct (FindTransaction beef txid) as [tx|]; [|by destruct b].
  rewrite tx_roundtrip. by destruct (mempool_add _ _ _).
Qed.

Lemma pooled_keeps txid m k v : m !! k = Some v → pooled m txid !! k = Some v.
Proof.
  intros Hk. unfold pooled, mempool_add. destruct (FindTransaction beef txid) as [tx|]; [|done].
  destruct (m !! TxID tx) eqn:Et; [done|]. cbn. rewrite lookup_insert_ne; [done|]. intros <-. congruence.
Qed.
Lemma foldl_pooled_keeps l m k v : m !! k = Some v → foldl pooled m l !! k = Some v.
Proof. revert m. induction l as [|a l IH]; intros m Hk; [done|]. by apply IH, pooled_keeps. Qed.

(** Posting a BEEF answers for each id, in order: success with the id of the
    transaction that the BEEF has for it, which is then in the pool of the node,
    and an error where it has none; nothing that was in the pool is lost or
    changed. *)
Theorem PostFromBEEF_posts (s : AnvilServices (DB:=DB)) txids b :
  sv_broadcaster s = Some b →
  ∃ b', PostFromBEEF beef txids s = (MkServices (sv_headers s) (sv_proofs s) (Some b'), Some (posted <$> txids)) ∧
    (∀ txid tx, txid ∈ txids → FindTransaction beef txid = Some tx → is_Some (mempool_get (TxID tx) (bc_mempool b'))) ∧
    (∀ k raw, mempool_get k (bc_mempool b) = Some raw → mempool_get k (bc_mempool b') = Some raw) ∧
    (∀ k raw, mempool_get k (bc_mempool b') = Some raw → mempool_get k (bc_mempool b) = Some raw ∨
       ∃ txid tx, txid ∈ txids ∧ FindTransaction beef txid = Some tx ∧ k = TxID tx ∧ raw = TxBytes tx).
Proof.
  intros Hb. unfold PostFromBEEF. rewrite Hb.
  assert (Hf : ∀ l l0 b0, foldl (λ '(b, l) txid, let '(b, r) := post_one beef txid b in (b, l ++ [r])) (b0, l0) l =
    (set_mempool (foldl pooled (bc_mempool b0) l) b0, l0 ++ (posted <$> l))).
  { induction l as [|a l IH]; intros l0 b0; cbn [foldl fmap list_fmap]; [rewrite app_nil_r; by destruct b0|].
    rewrite post_one_spec, IH. cbn. by rewrite <- (assoc_L (++)). }
  rewrite Hf. cbn [app]. eexists. split; [done|]. unfold mempool_get. cbn [bc_mempool set_mempool].
  generalize (bc_mempool b). intros m. clear Hf Hb. split_and!.
  - revert m. induction txids as [|a l IH]; intros m txid tx; [by intros ?%elem_of_nil|].
    intros [->|Hin]%elem_of_cons Hft; cbn [foldl]; [|by eapply IH].
    destruct (pooled m a !! TxID tx) as [v|] eqn:Ep; [exists v; by apply foldl_pooled_keeps|].
    unfold pooled, mempool_add in Ep. rewrite Hft in Ep. destruct (m !! TxID tx) eqn:Em; cbn in Ep; [congruence|].
    by rewrite lookup_insert_eq in Ep.
  - intros k raw. apply foldl_pooled_keeps.
  - revert m. induction txids as [|a l IH]; intros m k raw; cbn [foldl]; [by left|]. intros Hk.
    destruct (IH _ _ _ Hk) as [Hp|(txid & tx & Hin & Hft & -> & ->)]; [|right; exists txid, tx; split_and!; [by right|done..]].
    unfold pooled, mempool_add in Hp. destruct (FindTransaction beef a) as [tx|] eqn:Ea; [|by left].
    destruct (m !! TxID tx) eqn:Em; cbn in Hp; [by left|].
    destruct (decide (TxID tx = k)) as [<-|Hne]; [rewrite lookup_insert_eq in Hp|rewrite lookup_insert_ne in Hp by done; by left].
    right. exists a, tx. simplify_eq. split_and!; [by left|done..].
Qed.
End posting.
