(* ===== verification/WalletLib.v ===== *)
(** * The wallet and script libraries

    The interface of the wallet (BRC-100, go-sdk [wallet.Interface] as
    implemented by go-wallet-toolbox) and of the P2PKH scripts and addresses, as
    far as the node uses them. An error is its text. *)

From Stdlib Require Import Init.Byte Strings.Byte Strings.String Lia ZArith.
From stdpp Require Import base gmap sets list strings numbers.
From S2P Require Import Prelude GoStd LevelDB GoText Http Ec Tx.
Open Scope Z_scope.

(** An output by the text of its transaction id and its index. *)
Record Outpoint := MkOutpoint { op_Txid : bytes; op_Index : Z }.
#[export] Instance Outpoint_eq_dec : EqDecision Outpoint.
Proof. solve_decision. Defined.

Record ActionInput := MkActionInput { ai_Outpoint : Outpoint; ai_Description : bytes; ai_UnlockingScriptLength : Z }.
Record ActionOutput := MkActionOutput { ac_LockingScript : bytes; ac_Satoshis : Z; ac_Description : bytes }.
Record CreateActionArgs := MkCreateArgs {
  ca_Description : bytes; ca_InputBEEF : bytes; ca_Inputs : list ActionInput; ca_Outputs : list ActionOutput;
  ca_Labels : list bytes; ca_TrustSelf : bytes
}.
(** The reference and the BEEF of a transaction that is to be signed. *)
Record SignableTransaction := MkSignable { sn_Reference : bytes; sn_Tx : bytes }.
Record CreateActionResult := MkCreateResult { cr_Txid : bytes; cr_Signable : option SignableTransaction }.
(** The unlocking scripts by input. *)
Record SignActionArgs := MkSignArgs { sa_Reference : bytes; sa_Spends : list (Z * bytes) }.
Record WalletOutput := MkWalletOutput {
  wo_Outpoint : Outpoint; wo_Satoshis : Z; wo_LockingScript : bytes; wo_CustomInstructions : bytes
}.
Inductive Counterparty (K : Type) := CounterpartySelf | CounterpartyAnyone | CounterpartyOther (key : K).
Arguments CounterpartySelf {K}.
Arguments CounterpartyAnyone {K}.
Arguments CounterpartyOther {K}.

Class WalletLib `{EC} := {
  WalletState : Type;
  wl_GetPublicKey : bytes → bytes → Counterparty PublicKey → WalletState → bytes + PublicKey;
  wl_CreateAction : CreateActionArgs → WalletState → WalletState * (bytes + CreateActionResult);
  wl_SignAction : SignActionArgs → WalletState → WalletState * (bytes + bytes);
  wl_ListOutputs : bytes → WalletState → bytes + list WalletOutput;
  (** The BEEF of the arguments, the arguments themselves, the answer. *)
  InternalizeArgs : Type;
  ia_Tx : InternalizeArgs → bytes;
  wl_InternalizeAction : InternalizeArgs → WalletState → WalletState * (bytes + json)
}.

Class ScriptLib `{EC} := {
  Address : Type;
  AddressString : Address → bytes;
  NewAddressFromPublicKey : PublicKey → option Address;
  NewAddressFromString : bytes → option Address;
  p2pkh_Lock : Address → option bytes;
  (** [Sign] of a transaction with the template of a key on one input, whose
      source is a transaction: the unlocking script of the input. *)
  p2pkh_sign : PrivateKey → Transaction → nat → Transaction → option bytes
}.
