(* ===== verification/Scanner.v ===== *)
(** * The scanner of payments ([internal/wallet/scanner.go])

    For each unspent output that WhatsOnChain has for an address: the raw
    transaction and its Merkle proof, a BEEF, and an action of the wallet that
    spends the output to itself. *)

From Stdlib Require Import Init.Byte Strings.Byte Strings.String Lia ZArith.
From stdpp Require Import base gmap sets list strings numbers.
From S2P Require Import Prelude GoStd Sha256 LevelDB GoText Http Ec Tx TxRelay Spv WalletLib.
Open Scope Z_scope.

Record wocUTXO := MkUTXO { ux_TxHash : bytes; ux_TxPos : Z; ux_Value : Z; ux_Height : Z }.
Record wocUnspentResponse := MkUnspent { un_Result : list wocUTXO; un_Error : bytes }.
Record ScanDetail := MkDetail { sd_TxID : bytes; sd_Vout : Z; sd_Satoshis : Z; sd_Status : bytes; sd_Error : bytes }.
Record ScanResult := MkScan {
  sr_Address : bytes; sr_UTXOsFound : Z; sr_Internalized : Z; sr_AlreadyKnown : Z; sr_Errors : Z;
  sr_TotalSatoshis : Z; sr_Details : list ScanDetail
}.

Section scanner.
Context `{WalletLib} `{!ScriptLib} `{TxLib} `{BeefLib} `{JsonCodec ARCResponse}.
Context (decode_unspent : bytes → option wocUnspentResponse) (decode_proofs : bytes → option (list tscProof)).

Record Scanner := MkScanner { sc_identityKey : PrivateKey; sc_arcClient : option ARCClient; sc_httpClient : HttpClient }.
Definition NewScanner (key : PrivateKey) (arc : option ARCClient) (c : HttpClient) : Scanner := MkScanner key arc c.

(** ** Requests *)

Definition woc_base : bytes := lit "https://api.whatsonchain.com/v1/bsv/main".
(** A GET whose answer must be 200, of at most [limit] bytes. *)
Definition scan_get (s : Scanner) (limit : nat) (what url : bytes) : res bytes bytes :=
  match sc_httpClient s (lit "GET") url ∅ [] with
  | None => Err (what ++ lit "request")
  | Some (code, body) =>
      let body := take limit body in
      if negb (code =? StatusOK) then Err (what ++ lit "returned " ++ itoa code ++ lit ": " ++ body) else Ok body
  end.

Definition fetchUTXOs (s : Scanner) (address : bytes) : res bytes (list wocUTXO) :=
  body ← scan_get s mib (lit "WoC ") (woc_base ++ lit "/address/" ++ address ++ lit "/unspent/all");
  wrapped ← res_of_option (lit "parse UTXOs") (decode_unspent body);
  _ ← guard_err (negb (bool_decide (un_Error wrapped = []))) (lit "WoC error: " ++ un_Error wrapped);
  Ok (un_Result wrapped).

Definition scan_fetchRawTx (s : Scanner) (txid : bytes) : res bytes bytes :=
  scan_get s (10 * mib) (lit "WoC ") (woc_base ++ lit "/tx/" ++ txid ++ lit "/hex").

(** ** Merkle proofs *)

Definition reverseBytes (b : bytes) : bytes := rev b.
Definition scan_tscNode (node : bytes) (offset : Z) : PathElement :=
  if bool_decide (node = lit "*") then MkElement offset None false true
  else
    let nodeBytes := reverseBytes (hex_decode_string node).1 in
    MkElement offset (if bool_decide (length nodeBytes = 32%nat) then Some nodeBytes else None) false false.

(** The loop over the levels: those built so far, and the offset. *)
Definition scan_level (txidHash : option bytes) (nodes : list bytes) (st : list (list PathElement) * Z) (level : nat)
    : list (list PathElement) * Z :=
  let '(path, offset) := st in
  let sibOffset := Z.lxor offset 1 in
  let node := default [] (nodes !! level) in
  let elements :=
    if (level =? 0)%nat then
      if offset <? sibOffset then [MkElement offset txidHash true false; scan_tscNode node sibOffset]
      else [scan_tscNode node sibOffset; MkElement offset txidHash true false]
    else [scan_tscNode node sibOffset] in
  (path ++ [elements], offset / 2).
Definition scan_path (proof : tscProof) : list (list PathElement) :=
  (foldl (scan_level (NewHashFromHex (tsc_TxOrID proof)) (tsc_Nodes proof)) ([], tsc_Index proof)
     (seq 0 (length (tsc_Nodes proof)))).1.

Definition scan_fetchMerkleProofFromWoC (s : Scanner) (txid : bytes) (blockHeight : Z) : res bytes bytes :=
  body ← scan_get s mib (lit "WoC TSC ") (woc_base ++ lit "/tx/" ++ txid ++ lit "/proof/tsc");
  proofs ← res_of_option (lit "parse TSC proof") (decode_proofs body);
  match proofs with
  | [] => Err (lit "no TSC proof returned for " ++ txid)
  | proof :: _ => Ok (hex_encode (MerklePathBytes (MkMerklePath blockHeight (scan_path proof))))
  end.

Definition scan_fetchMerkleProof (s : Scanner) (txid : bytes) (blockHeight : Z) : res bytes bytes :=
  match sc_arcClient s with
  | Some arc =>
      match QueryStatus arc txid with
      | Ok resp => if bool_decide (ar_MerklePath resp = []) then scan_fetchMerkleProofFromWoC s txid blockHeight else Ok (ar_MerklePath resp)
      | _ => scan_fetchMerkleProofFromWoC s txid blockHeight
      end
  | None => scan_fetchMerkleProofFromWoC s txid blockHeight
  end.

Definition buildBEEFFromTx (tx : Transaction) (merklePathHex : bytes) : res bytes bytes :=
  mp ← res_of_option (lit "parse merkle path") (NewMerklePathFromHex merklePathHex);
  res_of_option (lit "build beef from tx") (BeefFromTransaction tx mp).

(** ** The wallet *)

(** The key of an output in the set of known ones. *)
Definition utxo_key (txid : bytes) (index : Z) : bytes := txid ++ lit ":" ++ itoa index.
Definition buildKnownSet (w : WalletState) : gset bytes :=
  match wl_ListOutputs (lit "default") w with
  | inl _ => ∅
  | inr outs => list_to_set ((λ o, utxo_key (op_Txid (wo_Outpoint o)) (op_Index (wo_Outpoint o))) <$> outs)
  end.

(** The first input that spends the output. *)
Fixpoint find_input (txid : bytes) (pos : Z) (i : nat) (inputs : list TxInput) : option nat :=
  match inputs with
  | [] => None
  | inp :: inputs =>
      if bool_decide (in_SourceTXID inp = Some txid) && (in_SourceTxOutIndex inp =? pos) then Some i
      else find_input txid pos (S i) inputs
  end.

(** An output that the transaction does not have makes the slice index panic. *)
Definition signAndComplete (s : Scanner) (st : SignableTransaction) (parsedTx : Transaction) (utxo : wocUTXO)
    (w : WalletState) : WalletState * res bytes () :=
  match NewTransactionFromBEEF (sn_Tx st) with
  | None => (w, Err (lit "parse signable tx from BEEF"))
  | Some stTx =>
      match find_input (TxID parsedTx) (ux_TxPos utxo) 0 (tx_Inputs stTx) with
      | None => (w, Err (lit "could not find outpoint in signable transaction inputs"))
      | Some inputIndex =>
          if bool_decide (tx_Outputs parsedTx !! Z.to_nat (ux_TxPos utxo) = None) then (w, Panic)
          else match p2pkh_sign (sc_identityKey s) stTx inputIndex parsedTx with
               | None => (w, Err (lit "sign"))
               | Some unlockScript =>
                   match wl_SignAction (MkSignArgs (sn_Reference st) [(Z.of_nat inputIndex, unlockScript)]) w with
                   | (w, inl e) => (w, Err (lit "sign action: " ++ e))
                   | (w, inr _) => (w, Ok ())
                   end
               end
      end
  end.

Definition import_args (parsedTx : Transaction) (beef txHash16 : bytes) (utxo : wocUTXO) : CreateActionArgs :=
  MkCreateArgs (lit "Import P2PKH UTXO " ++ utxo_key txHash16 (ux_TxPos utxo)) beef
    [MkActionInput (MkOutpoint (TxID parsedTx) (ux_TxPos utxo)) (lit "fund wallet from P2PKH") 108] []
    [lit "p2pkh-funding"] (lit "known").

(** Fetching and building, up to the wallet. *)
Definition prepare (s : Scanner) (utxo : wocUTXO) : res bytes (Transaction * bytes) :=
  rawTxHex ← res_map_err (λ e, lit "fetch raw tx: " ++ e) (scan_fetchRawTx s (ux_TxHash utxo));
  txBytesRaw ← res_of_option (lit "decode raw tx") (hex_decode rawTxHex);
  parsedTx ← res_of_option (lit "parse tx") (NewTransactionFromBytes txBytesRaw);
  merkleHex ← res_map_err (λ e, lit "fetch merkle proof: " ++ e) (scan_fetchMerkleProof s (ux_TxHash utxo) (u32 (ux_Height utxo)));
  beef ← res_map_err (λ e, lit "build BEEF: " ++ e) (buildBEEFFromTx parsedTx merkleHex);
  Ok (parsedTx, beef).

(** The import of one output. *)
Definition import (s : Scanner) (utxo : wocUTXO) (w : WalletState) : WalletState * res bytes () :=
  match prepare s utxo with
  | Err e => (w, Err e)
  | Panic => (w, Panic)
  | Ok (parsedTx, beef) =>
      match slice (E:=bytes) (ux_TxHash utxo) 0 16 with
      | Ok txHash16 =>
          match wl_CreateAction (import_args parsedTx beef txHash16 utxo) w with
          | (w, inl e) => (w, Err (lit "create action: " ++ e))
          | (w, inr car) =>
              match cr_Signable car with
              | None => (w, Ok ())
              | Some st => let '(w, r) := signAndComplete s st parsedTx utxo w in (w, res_map_err (λ e, lit "sign action: " ++ e) r)
              end
          end
      | _ => (w, Panic)
      end
  end.

(** ** The scan *)

Definition add_detail (status err : bytes) (utxo : wocUTXO) (r : ScanResult) : ScanResult :=
  MkScan (sr_Address r) (sr_UTXOsFound r)
    (if bool_decide (status = lit "internalized") then sr_Internalized r + 1 else sr_Internalized r)
    (if bool_decide (status = lit "already_known") then sr_AlreadyKnown r + 1 else sr_AlreadyKnown r)
    (if bool_decide (status = lit "error") then sr_Errors r + 1 else sr_Errors r)
    (if bool_decide (status = lit "internalized") then u64 (sr_TotalSatoshis r + ux_Value utxo) else sr_TotalSatoshis r)
    (sr_Details r ++ [MkDetail (ux_TxHash utxo) (ux_TxPos utxo) (ux_Value utxo) status err]).

(** One turn of the loop; [None] is a panic. *)
Definition scan_one (s : Scanner) (knownSet : gset bytes) (utxo : wocUTXO) (st : WalletState * ScanResult)
    : WalletState * option ScanResult :=
  let '(w, r) := st in
  if bool_decide (utxo_key (ux_TxHash utxo) (ux_TxPos utxo) ∈ knownSet) then (w, Some (add_detail (lit "already_known") [] utxo r))
  else if ux_Height utxo <=? 0 then
    (w, Some (add_detail (lit "skipped") (lit "unconfirmed — need merkle proof for BEEF") utxo r))
  else match import s utxo w with
       | (w, Err e) => (w, Some (add_detail (lit "error") e utxo r))
       | (w, Ok _) => (w, Some (add_detail (lit "internalized") [] utxo r))
       | (w, Panic) => (w, None)
       end.
Fixpoint scan_all (s : Scanner) (knownSet : gset bytes) (utxos : list wocUTXO) (w : WalletState) (r : ScanResult)
    : WalletState * option ScanResult :=
  match utxos with
  | [] => (w, Some r)
  | utxo :: utxos =>
      match scan_one s knownSet utxo (w, r) with
      | (w, Some r) => scan_all s knownSet utxos w r
      | (w, None) => (w, None)
      end
  end.

Definition ScanAddress (s : Scanner) (address : bytes) (w : WalletState) : WalletState * res bytes ScanResult :=
  match fetchUTXOs s address with
  | Err e => (w, Err (lit "fetch UTXOs from WhatsOnChain: " ++ e))
  | Panic => (w, Panic)
  | Ok utxos =>
      let result := MkScan address (Z.of_nat (length utxos)) 0 0 0 0 [] in
      if bool_decide (utxos = []) then (w, Ok result)
      else match scan_all s (buildKnownSet w) utxos w result with
           | (w, Some r) => (w, Ok r)
           | (w, None) => (w, Panic)
           end
  end.

Definition Scan (s : Scanner) (w : WalletState) : WalletState * res bytes ScanResult :=
  match NewAddressFromPublicKey (PubKey (sc_identityKey s)) with
  | None => (w, Err (lit "derive address"))
  | Some addr => ScanAddress s (AddressString addr) w
  end.

(** Used by no handler. *)
Definition buildLockingScript (addr : Address) : option bytes := p2pkh_Lock addr.
End scanner.
