(* ===== verification/ScannerProps.v ===== *)
(** * What a scan reports

    The counters of a scan are those of its details, one for each output found;
    and its conversion of Merkle proofs is that of the proof fetcher. *)

From Stdlib Require Import Init.Byte Strings.Byte Strings.String Lia ZArith.
From stdpp Require Import base gmap sets list strings numbers.
From S2P Require Import Prelude GoStd Sha256 LevelDB GoText Http Ec Tx TxRelay Spv WalletLib Scanner.
Open Scope Z_scope.

(** ** Merkle proofs *)

Section paths.
Context `{TxLib} `{BeefLib} `{JsonCodec ARCResponse}.

Lemma scan_tscNode_eq node offset : scan_tscNode node offset = tscNodeToElement node offset.
Proof. done. Qed.

Lemma scan_levels txid pre nodes path offset :
  (foldl (scan_level txid (pre ++ nodes)) (path, offset) (seq (length pre) (length nodes))).1 =
  path ++ build_path (length pre) txid nodes offset.
Proof.
  revert pre path offset. induction nodes as [|node nodes IH]; intros pre path offset; cbn [seq length foldl build_path].
  { by rewrite app_nil_r. }
  unfold scan_level at 2. rewrite lookup_app_r, Nat.sub_diag by done. cbn [lookup list_lookup default].
  specialize (IH (pre ++ [node]) (path ++ [path_level (length pre) txid node offset]) (offset / 2)).
  rewrite length_app in IH. cbn [length] in IH. rewrite Nat.add_1_r, <- (assoc_L (++)) in IH. cbn [app] in IH.
  rewrite <- (assoc_L (++)) in IH. cbn [app] in IH.
  rewrite <- IH. do 4 f_equal. unfold path_level. by destruct pre.
Qed.

(** The two conversions of a proof agree. *)
Lemma scan_path_eq proof : scan_path proof = build_path 0 (NewHashFromHex (tsc_TxOrID proof)) (tsc_Nodes proof) (tsc_Index proof).
Proof. unfold scan_path. exact (scan_levels _ [] (tsc_Nodes proof) [] (tsc_Index proof)). Qed.
End paths.

Section scanner.
Context `{WalletLib} `{!ScriptLib} `{TxLib} `{BeefLib} `{JsonCodec ARCResponse}.
Context (decode_unspent : bytes → option wocUnspentResponse) (decode_proofs : bytes → option (list tscProof)).

(** The part of the proof fetcher with the same clients. *)
Definition same_fetcher (s : Scanner) : ProofFetcher := NewProofFetcher (sc_arcClient s) (sc_httpClient s).
(** The same outcome, whatever the texts of the errors. *)
Definition same_outcome {E E' A : Type} (x : res E A) (y : res E' A) : Prop :=
  match x, y with Ok a, Ok b => a = b | Err _, Err _ => True | Panic, Panic => True | _, _ => False end.

(** The scanner's own copy of the Merkle proof code answers what the proof
    fetcher of the SPV package answers with the same clients: the same ARC path
    or the same path converted from the same TSC proof, and an error in the same
    cases. *)
Theorem scan_proof_is_fetchers (s : Scanner) txid height :
  same_outcome (scan_fetchMerkleProof decode_proofs s txid height) (fetchMerkleProof decode_proofs (same_fetcher s) txid height).
Proof.
  assert (Hw : same_outcome (scan_fetchMerkleProofFromWoC decode_proofs s txid height)
    (fetchMerkleProofFromWoC decode_proofs (same_fetcher s) txid height)).
  { unfold scan_fetchMerkleProofFromWoC, fetchMerkleProofFromWoC, scan_get, woc_get, same_fetcher, NewProofFetcher. cbn.
    destruct (sc_httpClient s _ _ _ _) as [[code body]|]; [|done]. cbn. destruct (code =? StatusOK); [|done]. cbn.
    destruct (decode_proofs (take mib body)) as [[|proof l]|]; [done| |done]. cbn. unfold tsc_path. by rewrite scan_path_eq. }
  unfold scan_fetchMerkleProof, fetchMerkleProof. cbn. destruct (sc_arcClient s) as [arc|]; [|done].
  destruct (QueryStatus arc txid) as [resp| |]; [|done..]. by case_bool_decide.
Qed.

(** ** Accounts *)

Definition count_status (status : bytes) (l : list ScanDetail) : Z :=
  Z.of_nat (length (filter (λ d, sd_Status d = status) l)).
Definition internalized_sats (l : list ScanDetail) : Z :=
  zsum (sd_Satoshis <$> filter (λ d, sd_Status d = lit "internalized") l).
Definition statuses : list bytes := [lit "internalized"; lit "already_known"; lit "error"; lit "skipped"].

(** What the counters of a result say of its details. *)
Record accounted (r : ScanResult) : Prop := {
  ac_internalized : sr_Internalized r = count_status (lit "internalized") (sr_Details r);
  ac_known : sr_AlreadyKnown r = count_status (lit "already_known") (sr_Details r);
  ac_errors : sr_Errors r = count_status (lit "error") (sr_Details r);
  ac_total : sr_TotalSatoshis r = u64 (internalized_sats (sr_Details r));
  ac_statuses : Forall (λ d, sd_Status d ∈ statuses) (sr_Details r)
}.

Lemma count_snoc status l d : count_status status (l ++ [d]) = count_status status l + (if bool_decide (sd_Status d = status) then 1 else 0).
Proof.
  unfold count_status. rewrite list.filter_app, length_app, list.filter_cons. case_decide as E.
  - rewrite bool_decide_true by done. cbn. lia.
  - rewrite bool_decide_false by done. cbn. lia.
Qed.
Lemma sats_snoc l d : internalized_sats (l ++ [d]) =
  internalized_sats l + (if bool_decide (sd_Status d = lit "internalized") then sd_Satoshis d else 0).
Proof.
  unfold internalized_sats. rewrite list.filter_app, fmap_app, zsum_app, list.filter_cons. case_decide as E.
  - rewrite bool_decide_true by done. cbn. lia.
  - rewrite bool_decide_false by done. cbn. lia.
Qed.

Lemma add_detail_accounted status err utxo r : status ∈ statuses → accounted r → accounted (add_detail status err utxo r).
Proof.
  intros Hs [A1 A2 A3 A4 A5]. unfold add_detail.
  constructor; cbn [sr_Internalized sr_AlreadyKnown sr_Errors sr_TotalSatoshis sr_Details].
  - rewrite count_snoc. cbn [sd_Status]. case_bool_decide; lia.
  - rewrite count_snoc. cbn [sd_Status]. case_bool_decide; lia.
  - rewrite count_snoc. cbn [sd_Status]. case_bool_decide; lia.
  - rewrite sats_snoc. cbn [sd_Status sd_Satoshis]. case_bool_decide; rewrite ?A4; [|f_equal; lia]. unfold u64, wrapU. by rewrite Zplus_mod_idemp_l.
  - apply Forall_app. by split; [|constructor].
Qed.

Definition outpoint_of (d : ScanDetail) : bytes * Z * Z := (sd_TxID d, sd_Vout d, sd_Satoshis d).
Definition outpoint_of_utxo (u : wocUTXO) : bytes * Z * Z := (ux_TxHash u, ux_TxPos u, ux_Value u).

(** What one output adds. *)
Lemma scan_one_detail s known utxo w r w' r' : scan_one decode_proofs s known utxo (w, r) = (w', Some r') →
  ∃ status err, r' = add_detail status err utxo r ∧ status ∈ statuses.
Proof.
  unfold scan_one. assert (Hst : ∀ b, b ∈ statuses → b ∈ statuses) by done.
  case_bool_decide; [intros [= <- <-]; eexists _, _; split; [done|]; by apply (bool_decide_unpack _); vm_compute|].
  case_match; [intros [= <- <-]; eexists _, _; split; [done|]; by apply (bool_decide_unpack _); vm_compute|].
  destruct (import _ _ _ _) as [w1 [[]|e|]]; intros; simplify_eq; eexists _, _; (split; [done|]; by apply (bool_decide_unpack _); vm_compute).
Qed.

Lemma scan_all_accounts s known utxos w r w' r' : accounted r → scan_all decode_proofs s known utxos w r = (w', Some r') →
  accounted r' ∧ sr_Address r' = sr_Address r ∧ sr_UTXOsFound r' = sr_UTXOsFound r ∧
  ∃ l, sr_Details r' = sr_Details r ++ l ∧ outpoint_of <$> l = outpoint_of_utxo <$> utxos.
Proof.
  revert w r. induction utxos as [|u utxos IH]; intros w r Ha; cbn [scan_all].
  { intros [= <- <-]. split_and!; [done..|]. exists []. by rewrite app_nil_r. }
  destruct (scan_one decode_proofs s known u (w, r)) as [w1 [r1|]] eqn:E1; [|done]. intros Hr.
  destruct (scan_one_detail _ _ _ _ _ _ _ E1) as (status & err & -> & Hs).
  destruct (IH _ _ (add_detail_accounted _ _ _ _ Hs Ha) Hr) as (Ha' & Hadr & Hf & l & Hl & Ho). split_and!; [done..|].
  eexists (_ :: l). rewrite Hl. cbn. rewrite <- (assoc_L (++)). split; [done|]. by rewrite Ho.
Qed.

Lemma statuses_total l : Forall (λ d, sd_Status d ∈ statuses) l →
  Z.of_nat (length l) = count_status (lit "internalized") l + count_status (lit "already_known") l +
    count_status (lit "error") l + count_status (lit "skipped") l.
Proof.
  induction l as [|d l IH] using rev_ind; [done|]. intros [Hl Hd]%Forall_app. rewrite length_app, !count_snoc. specialize (IH Hl).
  rewrite list.Forall_singleton in Hd. unfold statuses in Hd. rewrite !elem_of_cons, elem_of_nil in Hd.
  destruct Hd as [-> |[-> |[-> |[-> |[]]]]]; cbn [length]; repeat case_bool_decide; try done; lia.
Qed.

(** A scan that comes to its end has one detail for each output that was
    found, in order; each is imported, known already, skipped or in error; the
    counters are those of the details, so outputs that were skipped make up the
    difference to the number found; and the total is that of what was imported,
    in 64 bits. *)
Theorem scan_accounts s address w w' r :
  ScanAddress decode_unspent decode_proofs s address w = (w', Ok r) →
  ∃ utxos, fetchUTXOs decode_unspent s address = Ok utxos ∧ accounted r ∧ sr_Address r = address ∧
    sr_UTXOsFound r = Z.of_nat (length utxos) ∧ outpoint_of <$> sr_Details r = outpoint_of_utxo <$> utxos ∧
    sr_UTXOsFound r = sr_Internalized r + sr_AlreadyKnown r + sr_Errors r + count_status (lit "skipped") (sr_Details r).
Proof.
  unfold ScanAddress. destruct (fetchUTXOs decode_unspent s address) as [utxos|e|] eqn:Eu; [|done..]. cbv zeta.
  set (r0 := MkScan address (Z.of_nat (length utxos)) 0 0 0 0 []).
  assert (Ha0 : accounted r0) by (constructor; by try constructor).
  assert (Hend : ∀ w1 r1, scan_all decode_proofs s (buildKnownSet w) utxos w r0 = (w1, Some r1) → accounted r1 ∧ sr_Address r1 = address ∧
    sr_UTXOsFound r1 = Z.of_nat (length utxos) ∧ outpoint_of <$> sr_Details r1 = outpoint_of_utxo <$> utxos ∧
    sr_UTXOsFound r1 = sr_Internalized r1 + sr_AlreadyKnown r1 + sr_Errors r1 + count_status (lit "skipped") (sr_Details r1)).
  { intros w1 r1 Hr. destruct (scan_all_accounts _ _ _ _ _ _ _ Ha0 Hr) as (Ha & Hadr & Hf & l & Hl & Ho). cbn in Hl. rewrite Hl in *.
    split_and!; [done..|]. rewrite Hf, (ac_internalized _ Ha), (ac_known _ Ha), (ac_errors _ Ha), Hl.
    pose proof (ac_statuses _ Ha) as Hst. rewrite Hl in Hst. pose proof (statuses_total _ Hst) as Ht.
    apply (f_equal length) in Ho. rewrite !length_fmap in Ho. change (sr_UTXOsFound r0) with (Z.of_nat (length utxos)). lia. }
  case_bool_decide as Hn.
  - intros [= <- <-]. exists utxos. split; [done|]. apply (Hend w). by rewrite Hn.
  - destruct (scan_all _ _ _ _ _ _) as [w1 [r1|]] eqn:Es; [|done]. intros [= <- <-]. exists utxos. split; [done|]. by apply (Hend w1).
Qed.
End scanner.
