(* ===== verification/Wallet.v ===== *)
(** * The node wallet ([internal/wallet/wallet.go])

    The wallet library behind the node's endpoints: invoices, which are kept in
    a LevelDB of their own under numbers that only grow, payments, the scanner,
    and imports that pass the SPV validator first. The allocation of an
    invoice's number and the rest of its handler are two operations, since the
    lock is held for the first only. *)

From Stdlib Require Import Init.Byte Strings.Byte Strings.String Lia ZArith.
From stdpp Require Import base gmap sets list strings numbers.
From S2P Require Import Prelude GoStd Sha256 LevelDB GoText Http Ec Pow HeaderStore Tx TxRelay Spv WalletServices WalletLib Scanner.
Open Scope Z_scope.

Record Invoice := MkInvoice {
  inv_ID : bytes; inv_Address : bytes; inv_PublicKey : bytes; inv_Description : bytes;
  inv_Counterparty : bytes; inv_Protocol : bytes; inv_KeyID : bytes
}.

(** The body of [POST /wallet/invoice] and of [POST /wallet/send]. *)
Record InvoiceRequest := MkInvoiceReq { iq_Counterparty : bytes; iq_Description : bytes }.
Record SendRequest := MkSendReq { sq_To : bytes; sq_Satoshis : Z; sq_Description : bytes }.

Section wallet.
Context `{WalletLib} `{!ScriptLib} `{TxLib} `{BeefLib} `{JsonCodec ARCResponse} `{JsonCodec Invoice}.
Context {DB : Type} `{LevelDB DB}.

Record NodeWallet := MkWallet {
  nw_inner : WalletState;
  nw_validator : ValidationStats;
  nw_scanner : option Scanner;
  nw_invoiceDB : DB;
  nw_nextID : Z
}.
Definition set_inner (w : WalletState) (nw : NodeWallet) : NodeWallet :=
  MkWallet w (nw_validator nw) (nw_scanner nw) (nw_invoiceDB nw) (nw_nextID nw).
Definition set_validator (v : ValidationStats) (nw : NodeWallet) : NodeWallet :=
  MkWallet (nw_inner nw) v (nw_scanner nw) (nw_invoiceDB nw) (nw_nextID nw).
Definition set_invoiceDB (d : DB) (nw : NodeWallet) : NodeWallet :=
  MkWallet (nw_inner nw) (nw_validator nw) (nw_scanner nw) d (nw_nextID nw).

(** ** Start-up *)

(** The number of the last invoice, from the keys of the store: a key that is
    no number is passed over, and so is an error of the iterator. *)
Definition max_id (keys : list bytes) : Z :=
  foldl (λ maxID key, match atoi key with Some id => if maxID <? id then id else maxID | None => maxID end) 0 keys.
Definition recover_id (d : DB) : Z := max_id (db_iter d []).1.*1.

Section start.
(** The wallet library's storage and constructor, the parser of keys and the
    store that is opened; an error is its text. *)
Context {Services Storage : Type}
  (NewGORMProvider : Services → bytes → bytes + Storage)
  (PrivateKeyFromWif : bytes → bytes + PrivateKey)
  (Migrate : bytes → bytes → Storage → bytes + Storage)
  (wallet_New : bytes → Storage → Services → bytes + WalletState)
  (OpenFile : bytes → bytes + DB) (http : HttpClient).

Definition try_err {A} (what : bytes) (r : bytes + A) : res bytes A :=
  match r with inl e => Err (what ++ e) | inr a => Ok a end.

Definition New (wif dataDir : bytes) (services : Services) (arcClient : option ARCClient) : res bytes NodeWallet :=
  storage ← try_err (lit "create wallet storage: ") (NewGORMProvider services (dataDir ++ lit "/wallet.db"));
  identityKey ← try_err (lit "parse identity WIF: ") (PrivateKeyFromWif wif);
  storage ← try_err (lit "migrate wallet storage: ")
    (Migrate (lit "anvil") (hex_encode (Compressed (PubKey identityKey))) storage);
  w ← try_err (lit "create wallet: ") (wallet_New wif storage services);
  invoiceDB ← try_err (lit "open invoice store: ") (OpenFile (dataDir ++ lit "/invoices"));
  let scanner := match arcClient with Some arc => Some (NewScanner identityKey (Some arc) http) | None => None end in
  Ok (MkWallet w NewValidator scanner invoiceDB (recover_id invoiceDB)).
End start.

(** ** The invoice store *)

Definition saveInvoice (inv : Invoice) (nw : NodeWallet) : NodeWallet * option bytes :=
  match json_marshal inv with
  | None => (nw, Some (lit "marshal"))
  | Some data =>
      let '(d, e) := db_put (nw_invoiceDB nw) (inv_ID inv) data in
      (set_invoiceDB d nw, (λ _, lit "write") <$> e)
  end.

Definition loadInvoice (id : bytes) (nw : NodeWallet) : option Invoice :=
  match db_get (nw_invoiceDB nw) id with
  | inl _ => None
  | inr data => json_unmarshal data
  end.

(** ** Handlers *)

Context (invoice_request : bytes → bytes + InvoiceRequest) (send_request : bytes → bytes + SendRequest)
  (create_request : bytes → bytes + CreateActionArgs) (sign_request : bytes → bytes + SignActionArgs)
  (address_request : bytes → bytes + bytes) (internalize_request : bytes → bytes + InternalizeArgs)
  (outputs_json : list WalletOutput → json) (created_json : CreateActionResult → json) (signed_json : bytes → json)
  (decode_unspent : bytes → option wocUnspentResponse) (decode_proofs : bytes → option (list tscProof))
  (tracker : ChainTracker).

Definition bad_json (e : bytes) : Response := writeError StatusBadRequest (lit "invalid JSON: " ++ e).

Definition handleListOutputs : Handler NodeWallet := λ r nw,
  (nw, Some match wl_ListOutputs (query_param r (lit "basket")) (nw_inner nw) with
            | inl e => writeError StatusInternalServerError e
            | inr outs => writeJSON StatusOK (outputs_json outs)
            end).

(** *** Invoices *)

(** The payer of the request: "anyone" when none is named. *)
Definition invoice_counterparty (cp : bytes) : bytes + Counterparty PublicKey :=
  if bool_decide (cp = []) then inr CounterpartyAnyone
  else match hex_decode cp with
       | Some cpBytes =>
           if negb (Nat.eqb (length cpBytes) 33) then inl (lit "counterparty must be 33-byte compressed pubkey hex")
           else match PublicKeyFromBytes cpBytes with
                | None => inl (lit "invalid counterparty pubkey: ")
                | Some cpKey => inr (CounterpartyOther cpKey)
                end
       | None => inl (lit "counterparty must be 33-byte compressed pubkey hex")
       end.

(** Under the lock: the next number, an [int]. *)
Definition alloc_invoice (nw : NodeWallet) : NodeWallet * bytes :=
  let id := i64 (nw_nextID nw + 1) in
  (MkWallet (nw_inner nw) (nw_validator nw) (nw_scanner nw) (nw_invoiceDB nw) id, itoa id).

Definition invoice_protocol : bytes := lit "invoice payment".

(** After it: the key of the invoice, its address, the record and the answer. *)
Definition make_invoice (req : InvoiceRequest) (cp : Counterparty PublicKey) (invoiceID : bytes) (nw : NodeWallet)
    : bytes + Invoice :=
  match wl_GetPublicKey invoice_protocol invoiceID cp (nw_inner nw) with
  | inl e => inl (lit "derive key: " ++ e)
  | inr key =>
      match NewAddressFromPublicKey key with
      | None => inl (lit "generate address: ")
      | Some addr => inr (MkInvoice invoiceID (AddressString addr) (hex_encode (Compressed key)) (iq_Description req)
                            (iq_Counterparty req) invoice_protocol invoiceID)
      end
  end.
Definition finish_invoice (req : InvoiceRequest) (cp : Counterparty PublicKey) (invoiceID : bytes) (nw : NodeWallet)
    : NodeWallet * Response :=
  match make_invoice req cp invoiceID nw with
  | inl e => (nw, writeError StatusInternalServerError e)
  | inr inv =>
      match saveInvoice inv nw with
      | (nw, Some e) => (nw, writeError StatusInternalServerError (lit "persist invoice: " ++ e))
      | (nw, None) =>
          (nw, writeJSON StatusOK (JObj [(lit "id", JStr invoiceID); (lit "address", JStr (inv_Address inv));
            (lit "public_key", JStr (inv_PublicKey inv)); (lit "description", JStr (inv_Description inv))]))
      end
  end.

(** What the request asks for, before a number is allocated. *)
Definition begin_invoice (r : Request) : Response + InvoiceRequest * Counterparty PublicKey :=
  match invoice_request (read_limited mib r) with
  | inl e => inl (bad_json e)
  | inr req => match invoice_counterparty (iq_Counterparty req) with
               | inl e => inl (writeError StatusBadRequest e)
               | inr cp => inr (req, cp)
               end
  end.
Definition handleInvoice : Handler NodeWallet := λ r nw,
  match begin_invoice r with
  | inl w => (nw, Some w)
  | inr (req, cp) => let '(nw, invoiceID) := alloc_invoice nw in
                     let '(nw, w) := finish_invoice req cp invoiceID nw in (nw, Some w)
  end.

(** The script that pays the key of an invoice. *)
Definition invoice_script (inv : Invoice) : option bytes :=
  if bool_decide (inv_PublicKey inv = []) then None
  else hex_decode (inv_PublicKey inv) ≫= λ pkBytes, PublicKeyFromBytes pkBytes ≫= λ pk,
       NewAddressFromPublicKey pk ≫= λ invAddr, p2pkh_Lock invAddr.
Definition pays (inv : Invoice) (out : WalletOutput) : bool :=
  match invoice_script inv with
  | Some script => bool_decide (hex_encode (wo_LockingScript out) = hex_encode script)
  | None => false
  end || bool_decide (wo_CustomInstructions out = inv_Address inv).
Fixpoint first_payment (inv : Invoice) (outs : list WalletOutput) : option WalletOutput :=
  match outs with
  | [] => None
  | out :: outs => if pays inv out then Some out else first_payment inv outs
  end.

(** The fields of the answer; those of the payment come only with one. *)
Definition invoice_status (inv : Invoice) (payment : option WalletOutput) : json :=
  JObj ([(lit "id", JStr (inv_ID inv)); (lit "address", JStr (inv_Address inv)); (lit "description", JStr (inv_Description inv));
         (lit "paid", JBool (bool_decide (is_Some payment)))] ++
        match payment with
        | Some out => [(lit "txid", JStr (op_Txid (wo_Outpoint out))); (lit "amount", JNum (wo_Satoshis out))]
        | None => []
        end).
Definition handleGetInvoice (id : bytes) : Handler NodeWallet := λ _ nw,
  (nw, Some (
    if bool_decide (id = []) then writeError StatusBadRequest (lit "invoice id required")
    else match loadInvoice id nw with
         | None => writeError StatusNotFound (lit "invoice not found")
         | Some inv =>
             match wl_ListOutputs (lit "default") (nw_inner nw) with
             | inl e => writeError StatusInternalServerError (lit "list outputs: " ++ e)
             | inr outs => writeJSON StatusOK (invoice_status inv (first_payment inv outs))
             end
         end)).

(** *** Payments *)

Definition sent (txid : bytes) (req : SendRequest) : Response :=
  writeJSON StatusOK (JObj [(lit "txid", JStr txid); (lit "satoshis", JNum (sq_Satoshis req)); (lit "to", JStr (sq_To req));
    (lit "note", JStr (lit "tx added to local mempool; P2P peer relay not yet implemented"))]).
Definition send_args (req : SendRequest) (script : bytes) : CreateActionArgs :=
  MkCreateArgs (sq_Description req) [] [] [MkActionOutput script (sq_Satoshis req) (sq_Description req)] [] [].

Definition send_action (req : SendRequest) (script : bytes) (nw : NodeWallet) : NodeWallet * Response :=
  match wl_CreateAction (send_args req script) (nw_inner nw) with
  | (w, inl e) => (set_inner w nw, writeError StatusInternalServerError (lit "create action: " ++ e))
  | (w, inr car) =>
      match cr_Signable car with
      | None => (set_inner w nw, sent (cr_Txid car) req)
      | Some st =>
          match wl_SignAction (MkSignArgs (sn_Reference st) []) w with
          | (w, inl e) => (set_inner w nw, writeError StatusInternalServerError (lit "sign action: " ++ e))
          | (w, inr txid) => (set_inner w nw, sent txid req)
          end
      end
  end.
Definition handleSend : Handler NodeWallet := λ r nw,
  match send_request (read_limited mib r) with
  | inl e => (nw, Some (bad_json e))
  | inr req =>
      if bool_decide (sq_To req = []) || (sq_Satoshis req =? 0) then
        (nw, Some (writeError StatusBadRequest (lit "to and satoshis required")))
      else match NewAddressFromString (sq_To req) with
           | None => (nw, Some (writeError StatusBadRequest (lit "invalid address: ")))
           | Some addr =>
               match p2pkh_Lock addr with
               | None => (nw, Some (writeError StatusInternalServerError (lit "build script: ")))
               | Some script => let '(nw, w) := send_action req script nw in (nw, Some w)
               end
           end
  end.

Definition handleCreateAction : Handler NodeWallet := λ r nw,
  match create_request (read_limited mib r) with
  | inl e => (nw, Some (bad_json e))
  | inr args => match wl_CreateAction args (nw_inner nw) with
                | (w, inl e) => (set_inner w nw, Some (writeError StatusInternalServerError e))
                | (w, inr result) => (set_inner w nw, Some (writeJSON StatusOK (created_json result)))
                end
  end.
Definition handleSignAction : Handler NodeWallet := λ r nw,
  match sign_request (read_limited mib r) with
  | inl e => (nw, Some (bad_json e))
  | inr args => match wl_SignAction args (nw_inner nw) with
                | (w, inl e) => (set_inner w nw, Some (writeError StatusInternalServerError e))
                | (w, inr result) => (set_inner w nw, Some (writeJSON StatusOK (signed_json result)))
                end
  end.

(** *** The scanner *)

Definition detail_json (d : ScanDetail) : json :=
  JObj ([(lit "txid", JStr (sd_TxID d)); (lit "vout", JNum (sd_Vout d)); (lit "satoshis", JNum (sd_Satoshis d));
         (lit "status", JStr (sd_Status d))] ++
        (if bool_decide (sd_Error d = []) then [] else [(lit "error", JStr (sd_Error d))])).
Definition scan_json (r : ScanResult) : json :=
  JObj ([(lit "address", JStr (sr_Address r)); (lit "utxos_found", JNum (sr_UTXOsFound r));
         (lit "internalized", JNum (sr_Internalized r)); (lit "already_known", JNum (sr_AlreadyKnown r));
         (lit "errors", JNum (sr_Errors r)); (lit "total_satoshis", JNum (sr_TotalSatoshis r))] ++
        (if bool_decide (sr_Details r = []) then [] else [(lit "details", JArr (detail_json <$> sr_Details r))])).

(** The address that is asked for, none when the body is empty, is not JSON or
    does not name one. *)
Definition scan_address (body : bytes) : bytes :=
  if bool_decide (body = []) then []
  else match address_request body with inl _ => [] | inr address => address end.
Definition handleScan : Handler NodeWallet := λ r nw,
  match nw_scanner nw with
  | None => (nw, Some (writeError StatusServiceUnavailable
                         (lit "scanner not available — ARC client required for merkle proofs")))
  | Some s =>
      let scanAddr := scan_address (read_limited mib r) in
      let '(w, result) := if bool_decide (scanAddr = []) then Scan decode_unspent decode_proofs s (nw_inner nw)
                          else ScanAddress decode_unspent decode_proofs s scanAddr (nw_inner nw) in
      (set_inner w nw,
       match result with
       | Ok result => Some (writeJSON StatusOK (scan_json result))
       | Err e => Some (writeError StatusInternalServerError (lit "scan failed: " ++ e))
       | Panic => None
       end)
  end.

(** *** Imports *)

Definition spv_refusal (r : Result) : Response :=
  writeJSON StatusUnprocessableEntity (JObj [(lit "error", JStr (lit "BEEF failed SPV validation"));
    (lit "confidence", JStr (rs_Confidence r)); (lit "message", JStr (rs_Message r))]).

(** The gate before the wallet: no BEEF, no check. The validator returns no
    error. *)
Definition spv_gate (now : Z) (beef : bytes) (v : ValidationStats) : ValidationStats * option Response :=
  if bool_decide (beef = []) then (v, None)
  else let '(v, result) := ValidateBEEF tracker now beef v in
       (v, if bool_decide (rs_Confidence result = ConfidenceInvalid) then Some (spv_refusal result) else None).
Definition handleInternalize (now : Z) : Handler NodeWallet := λ r nw,
  match internalize_request (read_limited (10 * mib) r) with
  | inl e => (nw, Some (bad_json e))
  | inr args =>
      match spv_gate now (ia_Tx args) (nw_validator nw) with
      | (v, Some refusal) => (set_validator v nw, Some refusal)
      | (v, None) =>
          let nw := set_validator v nw in
          match wl_InternalizeAction args (nw_inner nw) with
          | (w, inl e) => (set_inner w nw, Some (writeError StatusInternalServerError e))
          | (w, inr result) => (set_inner w nw, Some (writeJSON StatusOK result))
          end
      end
  end.

(** The routes, each behind the authentication of the caller; the argument of
    a handler is the [id] of the path. *)
Definition RegisterRoutes (now : Z) (requireAuth : Handler NodeWallet → Handler NodeWallet)
    : list (bytes * (bytes → Handler NodeWallet)) :=
  [(lit "POST /wallet/invoice", λ _, requireAuth handleInvoice);
   (lit "GET /wallet/invoice/{id}", λ id, requireAuth (handleGetInvoice id));
   (lit "POST /wallet/send", λ _, requireAuth handleSend);
   (lit "POST /wallet/internalize", λ _, requireAuth (handleInternalize now));
   (lit "GET /wallet/outputs", λ _, requireAuth handleListOutputs);
   (lit "POST /wallet/scan", λ _, requireAuth handleScan);
   (lit "POST /wallet/create-action", λ _, requireAuth handleCreateAction);
   (lit "POST /wallet/sign-action", λ _, requireAuth handleSignAction)].
End wallet.
