(* ===== verification/WalletProps.v ===== *)
(** * What the wallet endpoints guarantee

    The numbers of invoices are never used twice, whatever is in flight and
    however often the node restarts; an invoice is paid when an output pays its
    key; and what fails the SPV check does not reach the wallet. *)

From Stdlib Require Import Init.Byte Strings.Byte Strings.String Lia ZArith.
From stdpp Require Import base gmap sets list strings numbers relations.
From S2P Require Import Prelude GoStd Sha256 LevelDB GoText Http Ec Pow HeaderStore RateLimit Tx TxRelay Spv.
From S2P Require Import WalletServices WalletLib Scanner Wallet.
Open Scope Z_scope.

(** ** The number of the last invoice *)

Lemma max_id_spec keys : 0 ≤ max_id keys ∧
  (∀ key id, key ∈ keys → atoi key = Some id → id ≤ max_id keys) ∧
  (max_id keys = 0 ∨ ∃ key, key ∈ keys ∧ atoi key = Some (max_id keys)).
Proof.
  unfold max_id. induction keys as [|key keys (H0 & Hle & Hin)] using rev_ind; cbn.
  { split_and!; [lia| |by left]. intros ? ? []%elem_of_nil. }
  rewrite foldl_snoc. set (m := foldl _ 0 keys) in *.
  assert (Hrest : ∀ m', m ≤ m' → (∀ id, atoi key = Some id → id ≤ m') →
    ∀ k id, k ∈ keys ++ [key] → atoi k = Some id → id ≤ m').
  { intros m' Hm Hk k id [Hk'| ->%list_elem_of_singleton]%elem_of_app Hid; [|by apply Hk]. etrans; [by eapply Hle|done]. }
  destruct (atoi key) as [id|] eqn:Ek.
  - destruct (Z.ltb_spec m id).
    + split_and!; [lia| |right; exists key; split; [apply elem_of_app; right; by left|done]].
      apply Hrest; [lia|]. intros ? [= ->]; lia.
    + split_and!; [lia|apply Hrest; [lia|]; intros ? [= ->]; lia|].
      destruct Hin as [?|(k & ? & ?)]; [by left|right; exists k; split; [|done]; apply elem_of_app; by left].
  - split_and!; [lia|by apply Hrest|].
    destruct Hin as [?|(k & ? & ?)]; [by left|right; exists k; split; [|done]; apply elem_of_app; by left].
Qed.

Section wallet.
Context `{WalletLib} `{!ScriptLib} `{TxLib} `{BeefLib} `{JsonCodec ARCResponse} `{JsonCodecLaws Invoice}.
Context {DB : Type} `{LevelDBLaws DB}.
Context (invoice_request : bytes → bytes + InvoiceRequest) (send_request : bytes → bytes + SendRequest)
  (create_request : bytes → bytes + CreateActionArgs) (sign_request : bytes → bytes + SignActionArgs)
  (address_request : bytes → bytes + bytes) (internalize_request : bytes → bytes + InternalizeArgs)
  (outputs_json : list WalletOutput → json) (created_json : CreateActionResult → json) (signed_json : bytes → json)
  (decode_unspent : bytes → option wocUnspentResponse) (decode_proofs : bytes → option (list tscProof))
  (tracker : ChainTracker).

Local Abbreviation NodeWallet := (NodeWallet (DB:=DB)).
Local Abbreviation routes := (RegisterRoutes (DB:=DB) invoice_request send_request create_request sign_request address_request
  internalize_request outputs_json created_json signed_json decode_unspent decode_proofs tracker).
Implicit Types nw : NodeWallet.

(** ** The invoice store under the handlers *)

(** The part of the wallet that the invoices live in. *)
Definition invoices_of nw : DB * Z := (nw_invoiceDB nw, nw_nextID nw).

Lemma route_invoices now pattern h id r nw :
  (pattern, h) ∈ routes now (λ h, h) → pattern ≠ lit "POST /wallet/invoice" → invoices_of (h id r nw).1 = invoices_of nw.
Proof.
  unfold RegisterRoutes. rewrite !elem_of_cons, elem_of_nil.
  intros [[= -> _]|[[= _ ->]|[[= _ ->]|[[= _ ->]|[[= _ ->]|[[= _ ->]|[[= _ ->]|[[= _ ->]|[]]]]]]]]] Hne; [done| | | | | | |].
  - done.
  - unfold handleSend. destruct (send_request _) as [|req]; [done|]. case_match; [done|].
    destruct (NewAddressFromString _) as [addr|]; [|done]. destruct (p2pkh_Lock addr) as [script|]; [|done].
    unfold send_action. destruct (wl_CreateAction _ _) as [w [e|car]]; [done|]. destruct (cr_Signable car) as [st|]; [|done].
    by destruct (wl_SignAction _ w) as [w' [e|t]].
  - unfold handleInternalize. destruct (internalize_request _) as [|args]; [done|]. destruct (spv_gate _ _ _ _) as [v [w|]]; [done|].
    cbn. by destruct (wl_InternalizeAction _ _) as [w [e|t]].
  - done.
  - unfold handleScan. destruct (nw_scanner nw); [|done]. by case_match.
  - unfold handleCreateAction. destruct (create_request _) as [|args]; [done|]. by destruct (wl_CreateAction _ _) as [w [e|t]].
  - unfold handleSignAction. destruct (sign_request _) as [|args]; [done|]. by destruct (wl_SignAction _ _) as [w [e|t]].
Qed.

(** ** The node with requests in flight *)

(** An invoice whose number is allocated and whose handler still runs. *)
Record Pending := MkPending { pd_request : InvoiceRequest; pd_payer : Counterparty PublicKey; pd_id : bytes }.
(** The wallet, the handlers in flight, and the invoices that were
    acknowledged so far. *)
Record System := MkSystem { sy_wallet : NodeWallet; sy_pending : list Pending; sy_acked : list Invoice }.

Inductive step (now : Z) : System → System → Prop :=
  (** A request for an invoice is read and gets its number. *)
  | StepAllocate nw pending acked r req cp nw' id :
      begin_invoice invoice_request r = inr (req, cp) → alloc_invoice nw = (nw', id) →
      step now (MkSystem nw pending acked) (MkSystem nw' (MkPending req cp id :: pending) acked)
  (** One of the handlers in flight goes on to its end. *)
  | StepFinish nw l1 p l2 acked nw' w :
      finish_invoice (pd_request p) (pd_payer p) (pd_id p) nw = (nw', w) →
      step now (MkSystem nw (l1 ++ p :: l2) acked)
        (MkSystem nw' (l1 ++ l2)
           (match make_invoice (pd_request p) (pd_payer p) (pd_id p) nw with
            | inr inv => if w_status w =? StatusOK then inv :: acked else acked
            | inl _ => acked
            end))
  (** Another endpoint is served. *)
  | StepOther nw pending acked pattern h id r :
      (pattern, h) ∈ routes now (λ h, h) → pattern ≠ lit "POST /wallet/invoice" →
      step now (MkSystem nw pending acked) (MkSystem (h id r nw).1 pending acked)
  (** The node stops and starts again with the store as it was left. *)
  | StepRestart nw pending acked (Services Storage : Set) gorm wif_key migrate wallet_new open http wif dataDir services arc nw' d :
      New (Services:=Services) (Storage:=Storage) gorm wif_key migrate wallet_new open http wif dataDir services arc = Ok nw' →
      open (dataDir ++ lit "/invoices") = inr d → db_view d = db_view (nw_invoiceDB nw) → (db_iter d []).2 = None →
      step now (MkSystem nw pending acked) (MkSystem nw' [] acked).

(** A node that has never issued an invoice. *)
Definition no_invoices (s : System) : Prop :=
  db_view (nw_invoiceDB (sy_wallet s)) = ∅ ∧ nw_nextID (sy_wallet s) = 0 ∧ sy_pending s = [] ∧ sy_acked s = [].

(** A number that was allocated. *)
Definition issued (next : Z) (id : bytes) : Prop := ∃ i, id = itoa i ∧ 1 ≤ i ≤ next.

Record invoices_ok (n : nat) (s : System) : Prop := {
  io_next : 0 ≤ nw_nextID (sy_wallet s) ≤ Z.of_nat n;
  io_keys k v : db_view (nw_invoiceDB (sy_wallet s)) !! k = Some v → issued (nw_nextID (sy_wallet s)) k;
  io_issued : Forall (λ p, issued (nw_nextID (sy_wallet s)) (pd_id p)) (sy_pending s);
  io_free : Forall (λ p, db_view (nw_invoiceDB (sy_wallet s)) !! pd_id p = None) (sy_pending s);
  io_pending : NoDup (pd_id <$> sy_pending s);
  io_stored : Forall (λ inv, ∃ data, json_marshal inv = Some data ∧
    db_view (nw_invoiceDB (sy_wallet s)) !! inv_ID inv = Some data) (sy_acked s);
  io_acked : NoDup (inv_ID <$> sy_acked s)
}.

Lemma issued_mono next next' id : next ≤ next' → issued next id → issued next' id.
Proof. intros Hle (i & -> & Hi). exists i. split; [done|lia]. Qed.
Lemma issued_fresh next : ¬ issued next (itoa (next + 1)).
Proof. intros (i & E%(inj itoa) & Hi). lia. Qed.

Lemma invoices_ok_initial s : no_invoices s → invoices_ok 0 s.
Proof.
  intros (Hv & Hn & Hp & Ha). constructor; rewrite ?Hv, ?Hn, ?Hp, ?Ha; try by constructor.
  by intros k v; rewrite lookup_empty.
Qed.

(** Nothing happened to the invoices. *)
Lemma invoices_ok_same n s nw : invoices_of nw = invoices_of (sy_wallet s) → invoices_ok n s →
  invoices_ok (S n) (MkSystem nw (sy_pending s) (sy_acked s)).
Proof.
  unfold invoices_of. intros [= Ed En] [I1 I2 I3 I4 I5 I6 I7].
  constructor; cbn [sy_wallet sy_pending sy_acked]; rewrite ?Ed, ?En; try done. lia.
Qed.

Lemma invoices_ok_allocate n nw pending acked req cp nw' id :
  Z.of_nat (S n) < 2 ^ 63 → alloc_invoice nw = (nw', id) → invoices_ok n (MkSystem nw pending acked) →
  invoices_ok (S n) (MkSystem nw' (MkPending req cp id :: pending) acked).
Proof.
  intros Hn Ha [I1 I2 I3 I4 I5 I6 I7]. cbn [sy_wallet sy_pending sy_acked] in *. unfold alloc_invoice in Ha. injection Ha as <- <-.
  rewrite i64_small by lia. assert (Hmono : ∀ id, issued (nw_nextID nw) id → issued (nw_nextID nw + 1) id).
  { intros id. apply issued_mono. lia. }
  constructor; cbn [sy_wallet sy_pending sy_acked nw_nextID nw_invoiceDB fmap list_fmap pd_id]; [lia|eauto| | | |done|done].
  - constructor; [exists (nw_nextID nw + 1); split; [done|lia]|]. eapply Forall_impl; [exact I3|]. auto.
  - constructor; [|done]. cbn. apply eq_None_not_Some. intros [v Hv]. by apply I2, issued_fresh in Hv.
  - constructor; [|done]. intros (p & Ep & Hp)%list_elem_of_fmap. rewrite list.Forall_forall in I3.
    specialize (I3 p Hp). rewrite <- Ep in I3. by apply issued_fresh in I3.
Qed.

(** What one handler does to the store at its end. *)
Lemma finish_cases req cp id nw nw' w : finish_invoice req cp id nw = (nw', w) →
  (db_view (nw_invoiceDB nw') = db_view (nw_invoiceDB nw) ∧ nw_nextID nw' = nw_nextID nw ∧ w_status w = StatusInternalServerError) ∨
  (∃ inv data, make_invoice req cp id nw = inr inv ∧ inv_ID inv = id ∧ json_marshal inv = Some data ∧
    db_view (nw_invoiceDB nw') = <[id := data]> (db_view (nw_invoiceDB nw)) ∧ nw_nextID nw' = nw_nextID nw ∧ w_status w = StatusOK).
Proof.
  unfold finish_invoice. destruct (make_invoice req cp id nw) as [e|inv] eqn:Em; [intros [= <- <-]; by left|].
  assert (Hid : inv_ID inv = id).
  { unfold make_invoice in Em. repeat case_match; simplify_eq. done. }
  unfold saveInvoice. destruct (json_marshal inv) as [data|] eqn:Ej; [|intros [= <- <-]; by left].
  destruct (db_put (nw_invoiceDB nw) (inv_ID inv) data) as [d [e|]] eqn:Ep; intros [= <- <-]; cbn.
  - left. split_and!; [|done..]. by eapply db_put_err.
  - right. exists inv, data. split_and!; [done..| |done|done]. rewrite <- Hid. by eapply db_put_ok.
Qed.

Lemma invoices_ok_finish n nw l1 p l2 acked nw' w :
  finish_invoice (pd_request p) (pd_payer p) (pd_id p) nw = (nw', w) → invoices_ok n (MkSystem nw (l1 ++ p :: l2) acked) →
  invoices_ok (S n) (MkSystem nw' (l1 ++ l2)
    (match make_invoice (pd_request p) (pd_payer p) (pd_id p) nw with
     | inr inv => if w_status w =? StatusOK then inv :: acked else acked
     | inl _ => acked
     end)).
Proof.
  intros Hf [I1 I2 I3 I4 I5 I6 I7]. cbn [sy_wallet sy_pending sy_acked] in *.
  rewrite fmap_app, fmap_cons in I5. apply NoDup_app in I5 as (N1 & N2 & [N3 N4]%list.NoDup_cons).
  assert (Nl : NoDup (pd_id <$> l1 ++ l2)).
  { rewrite fmap_app. apply NoDup_app. split_and!; [done| |done]. intros x Hx Hx2. apply (N2 x Hx). by right. }
  apply Forall_app in I3 as [P1 [Pp P2]%list.Forall_cons], I4 as [F1 [Fp F2]%list.Forall_cons].
  destruct (finish_cases _ _ _ _ _ _ Hf) as [(Ev & En & Es)|(inv & data & Em & Eid & Ej & Ev & En & Es)].
  - assert (Ea : (match make_invoice (pd_request p) (pd_payer p) (pd_id p) nw with
      | inr inv => if w_status w =? StatusOK then inv :: acked else acked | inl _ => acked end) = acked).
    { rewrite Es. by destruct (make_invoice _ _ _ nw). }
    rewrite Ea. constructor; cbn [sy_wallet sy_pending sy_acked]; rewrite ?Ev, ?En; try done; [lia|by apply Forall_app..].
  - rewrite Em, Es. cbn [Z.eqb Pos.eqb StatusOK].
    constructor; cbn [sy_wallet sy_pending sy_acked]; rewrite ?Ev, ?En; try done; [lia| | | | |].
    + intros k v. destruct (decide (pd_id p = k)) as [<-|Hne]; [done|]. rewrite lookup_insert_ne by done. apply I2.
    + by apply Forall_app.
    + assert (Hfree : ∀ q, q ∈ l1 ++ l2 → pd_id q ≠ pd_id p).
      { intros q [Hq|Hq]%elem_of_app E.
        - apply (N2 (pd_id q)); [by apply list_elem_of_fmap_2|]. rewrite E. by left.
        - apply N3. rewrite <- E. by apply list_elem_of_fmap_2. }
      apply list.Forall_forall. intros q Hq. rewrite lookup_insert_ne by (by apply not_eq_sym, Hfree).
      apply elem_of_app in Hq as [Hq|Hq]; [rewrite list.Forall_forall in F1|rewrite list.Forall_forall in F2]; auto.
    + constructor; [exists data; rewrite Eid; split; [done|by rewrite lookup_insert_eq]|].
      eapply Forall_impl; [exact I6|]. intros i (d & Hd & Hl). exists d. split; [done|]. rewrite lookup_insert_ne; [done|].
      intros E. by rewrite <- E, Fp in Hl.
    + rewrite fmap_cons. constructor; [|done]. rewrite Eid. intros (i & Ei & Hi)%list_elem_of_fmap.
      rewrite list.Forall_forall in I6. destruct (I6 i Hi) as (d & _ & Hl). by rewrite <- Ei, Fp in Hl.
Qed.

(** The number that is recovered is at least every number in the store. *)
Lemma recover_id_spec (next : Z) d : 0 ≤ next < 2 ^ 63 → (db_iter d []).2 = None →
  (∀ k v, db_view d !! k = Some v → issued next k) →
  0 ≤ recover_id d ≤ next ∧ ∀ k v, db_view d !! k = Some v → issued (recover_id d) k.
Proof.
  intros Hn Hi Hk. unfold recover_id. destruct (db_iter d []) as [l e] eqn:El. cbn [fst snd] in Hi |- *. subst e.
  assert (Hkey : ∀ k, k ∈ l.*1 → ∃ v, db_view d !! k = Some v).
  { intros k ([k' v] & -> & Hin)%list_elem_of_fmap. exists v. by apply (db_iter_elem _ _ _ _ _ El) in Hin as [_ ?]. }
  destruct (max_id_spec l.*1) as (Hz & Hle & Hin). split.
  - split; [done|]. destruct Hin as [E|(k & Hin & Ha)]; [lia|]. destruct (Hkey k Hin) as [v Hv].
    destruct (Hk k v Hv) as (i & -> & Hi). rewrite atoi_itoa in Ha by lia. injection Ha as Ha. lia.
  - intros k v Hv. destruct (Hk k v Hv) as (i & -> & Hi). exists i. split; [done|]. split; [lia|].
    eapply (Hle (itoa i)); [|apply atoi_itoa; lia]. apply list_elem_of_fmap. exists (itoa i, v). split; [done|].
    apply (db_iter_elem _ _ _ _ _ El). split; [apply prefix_nil|done].
Qed.

Lemma New_store (Services Storage : Set) gorm wif_key migrate wallet_new open http wif dataDir services arc nw d :
  New (Services:=Services) (Storage:=Storage) gorm wif_key migrate wallet_new open http wif dataDir services arc = Ok nw →
  open (dataDir ++ lit "/invoices") = inr d → nw_invoiceDB nw = d ∧ nw_nextID nw = recover_id d.
Proof.
  unfold New, try_err. intros HN Ho. rewrite Ho in HN. destruct (gorm _ _); [done|]. cbn in HN. destruct (wif_key wif); [done|]. cbn in HN.
  destruct (migrate _ _ _); [done|]. cbn in HN. destruct (wallet_new _ _ _); [done|]. cbn in HN.
  by injection HN as <-.
Qed.

Lemma step_invoices_ok now n s s' : Z.of_nat (S n) < 2 ^ 63 → step now s s' → invoices_ok n s → invoices_ok (S n) s'.
Proof.
  intros Hn Hs.
  destruct Hs as [| | |nw pending acked Services Storage gorm wif_key migrate wallet_new open http wif dataDir services arc nw' d Hnew Ho Hv Hit].
  - by eapply invoices_ok_allocate.
  - by apply invoices_ok_finish.
  - apply (invoices_ok_same n (MkSystem nw pending acked)). by eapply route_invoices.
  - intros [I1 I2 I3 I4 I5 I6 I7]. cbn [sy_wallet sy_pending sy_acked] in *.
    destruct (New_store _ _ _ _ _ _ _ _ _ _ _ _ _ _ Hnew Ho) as [Ed En].
    destruct (recover_id_spec (nw_nextID nw) d) as [Hr Hk]; [lia|done|by rewrite Hv|].
    constructor; cbn [sy_wallet sy_pending sy_acked]; rewrite ?En, ?Ed; try done; [lia|constructor..|by rewrite Hv].
Qed.

(** C9: no invoice that was acknowledged is ever lost or replaced: in a node
    that began with an empty store, after any number of steps that a 64-bit
    counter can count, of requests whose handlers interleave after their numbers
    are allocated, of other requests, and of restarts, the numbers of the
    acknowledged invoices are all different and each is read back as it was
    stored, unless the disk fails to be read. *)
Theorem acknowledged_invoices_kept now n s0 s :
  no_invoices s0 → nsteps (step now) n s0 s → Z.of_nat n < 2 ^ 63 →
  NoDup (inv_ID <$> sy_acked s) ∧
  ∀ inv, inv ∈ sy_acked s →
    loadInvoice (inv_ID inv) (sy_wallet s) = Some (json_norm inv) ∨ db_get (nw_invoiceDB (sy_wallet s)) (inv_ID inv) = inl ErrIO.
Proof.
  intros Hs0 Hr Hn. assert (Hok : invoices_ok n s).
  { revert s Hr Hn. induction n as [|n IH]; intros s Hr Hn; inversion Hr; simplify_eq; [by apply invoices_ok_initial|].
    apply nsteps_inv_r in Hr as (s1 & Hr & Hs). eapply step_invoices_ok; [done|exact Hs|]. apply IH; [done|lia]. }
  split; [exact (io_acked _ _ Hok)|]. intros inv Hin. pose proof (io_stored _ _ Hok) as Hst.
  rewrite list.Forall_forall in Hst. destruct (Hst inv Hin) as (data & Hj & Hv). unfold loadInvoice.
  destruct (db_get _ _) as [[]|data'] eqn:Eg; [|by right|].
  - apply db_get_not_found in Eg. by rewrite Eg in Hv.
  - left. apply db_get_ok in Eg. rewrite Eg in Hv. injection Hv as ->. by apply json_roundtrip.
Qed.

(** ** Payments of an invoice *)

Lemma first_payment_some inv outs : is_Some (first_payment inv outs) ↔ ∃ out, out ∈ outs ∧ pays inv out = true.
Proof.
  induction outs as [|out outs IH]; cbn; [split; [by intros []|by intros (? & []%elem_of_nil & _)]|].
  destruct (pays inv out) eqn:Ep; [split; [intros _; exists out; split; [by left|done]|by eexists]|]. rewrite IH. split.
  - intros (o & Ho & Hp). exists o. split; [by right|done].
  - intros (o & [-> |Ho]%elem_of_cons & Hp); [by rewrite Ep in Hp|by exists o].
Qed.

(** The invoice that is issued carries the key the wallet derives under its
    own number for the payer, and that key's address; and the invoice counts as
    paid exactly when the wallet's default basket has an output with the P2PKH
    script of that address, or with the address in its custom instructions. *)
Theorem invoice_paid_iff `{!ECLaws} req cp id nw nw2 inv outs r :
  make_invoice req cp id nw = inr inv → id ≠ [] →
  loadInvoice id nw2 = Some inv → wl_ListOutputs (lit "default") (nw_inner nw2) = inr outs →
  ∃ key addr paid, wl_GetPublicKey invoice_protocol id cp (nw_inner nw) = inr key ∧ NewAddressFromPublicKey key = Some addr ∧
    handleGetInvoice id r nw2 = (nw2, Some (writeJSON StatusOK (invoice_status inv paid))) ∧
    (is_Some paid ↔ ∃ out, out ∈ outs ∧
      (Some (wo_LockingScript out) = p2pkh_Lock addr ∨ wo_CustomInstructions out = AddressString addr)).
Proof.
  intros Hm Hid Hl Ho. unfold make_invoice in Hm. destruct (wl_GetPublicKey _ _ _ _) as [|key] eqn:Ek; [done|].
  destruct (NewAddressFromPublicKey key) as [addr|] eqn:Ea; [|done]. injection Hm as <-.
  eexists key, addr, _. split_and!; [done..| |].
  { unfold handleGetInvoice. rewrite bool_decide_false by done. rewrite Hl, Ho. done. }
  rewrite first_payment_some. apply exist_proper; intros out. apply and_iff_compat_l.
  unfold pays, invoice_script. cbn [inv_PublicKey inv_Address]. rewrite bool_decide_false.
  2:{ intros E. apply (f_equal length) in E. rewrite length_hex_encode, compressed_length in E. done. }
  rewrite hex_decode_encode_Some. cbn. rewrite pub_from_compressed. cbn. rewrite Ea. cbn.
  rewrite orb_true_iff, bool_decide_eq_true. apply or_iff_compat_r.
  destruct (p2pkh_Lock addr) as [script|]; [|done]. rewrite bool_decide_eq_true. split; [by intros ->%(inj hex_encode)|by intros [= ->]].
Qed.

(** ** The gate before imports *)

(** C36: what the wallet is given to import passed the SPV validator, when there
    is a BEEF at all: if the validator finds the BEEF invalid the answer is 422,
    the wallet is as it was, and only the validator's counters have moved. *)
Theorem invalid_beef_not_imported now args r nw :
  internalize_request (read_limited (10 * mib) r) = inr args → ia_Tx args ≠ [] →
  rs_Confidence (check_beef tracker (ia_Tx args)).1 = ConfidenceInvalid →
  ∃ v w, handleInternalize internalize_request tracker now r nw = (set_validator v nw, Some w) ∧
    w_status w = StatusUnprocessableEntity ∧ vs_Valid v = vs_Valid (nw_validator nw).
Proof.
  intros Ha Htx Hc. unfold handleInternalize. rewrite Ha. unfold spv_gate. rewrite bool_decide_false by done.
  unfold ValidateBEEF. destruct (check_beef tracker (ia_Tx args)) as [res reason] eqn:Ec. cbn in Hc |- *.
  rewrite bool_decide_true by done. eexists _, _. split_and!; [done..|].
  unfold check_beef in Ec. unfold recordResult.
  repeat case_match; simplify_eq; try done; by vm_compute in Hc.
Qed.

(** ** The routes *)

(** No wallet route is open: with a token set, a request that does not carry
    it gets 401 and leaves the wallet alone, whichever the route. *)
Theorem wallet_routes_guarded authToken now pattern h id r nw :
  (pattern, h) ∈ routes now (requireAuth authToken) → r_method r ≠ MethodOptions →
  authToken = [] ∨ request_token r ≠ authToken →
  h id r nw = (nw, Some (if bool_decide (authToken = [])
    then writeError StatusForbidden (lit "no auth token configured — write endpoints disabled")
    else writeError StatusUnauthorized (lit "unauthorized"))).
Proof.
  intros Hin Hm Ht.
  assert (Hex : ∃ next : bytes → Handler NodeWallet, h = λ id, requireAuth authToken (next id)).
  { unfold RegisterRoutes in Hin. rewrite !elem_of_cons, elem_of_nil in Hin.
    destruct Hin as [[= _ ->]|[[= _ ->]|[[= _ ->]|[[= _ ->]|[[= _ ->]|[[= _ ->]|[[= _ ->]|[[= _ ->]|[]]]]]]]]];
      first [by eexists (λ _, _)|by eexists]. }
  destruct Hex as [next ->]. unfold requireAuth. rewrite bool_decide_false by done.
  case_bool_decide as E; [done|]. rewrite bool_decide_true; [done|]. by destruct Ht.
Qed.
End wallet.
