(* ===== verification/NonceProvider.v ===== *)
(** * Nonces from the wallet ([internal/api/nonce_provider.go])

    The provider that mints a nonce as an output of one satoshi to a key of the
    wallet's own, derived under a number that the process counts. *)

From Stdlib Require Import Init.Byte Strings.Byte Strings.String Lia ZArith.
From stdpp Require Import base gmap sets list strings numbers.
From S2P Require Import Prelude GoStd Sha256 LevelDB GoText Http Ec Envelope Tx Payment WalletLib.
Open Scope Z_scope.

Section provider.
Context `{WalletLib} `{!ScriptLib}.

(** The counter of the process, and the wallet. *)
Record WalletNonceProvider := MkProvider { wp_nonceSeq : Z; wp_wallet : WalletState }.
Definition NewWalletNonceProvider (w : WalletState) : WalletNonceProvider := MkProvider 0 w.
Definition set_wallet (w : WalletState) (p : WalletNonceProvider) : WalletNonceProvider := MkProvider (wp_nonceSeq p) w.

(** An atomic counter of 64 bits. *)
Definition nonceCounter (p : WalletNonceProvider) : WalletNonceProvider * Z :=
  let n := u64 (wp_nonceSeq p + 1) in (MkProvider n (wp_wallet p), n).

Definition nonce_key_id (n : Z) : bytes := lit "nonce-" ++ itoa n.
Definition nonce_protocol : bytes := lit "x402 nonce".
(** The script that the nonce of a number is locked with. *)
Definition nonce_script (n : Z) (w : WalletState) : bytes + bytes :=
  match wl_GetPublicKey nonce_protocol (nonce_key_id n) CounterpartySelf w with
  | inl e => inl (lit "derive nonce key: " ++ e)
  | inr key =>
      match NewAddressFromPublicKey key with
      | None => inl (lit "nonce address: ")
      | Some addr => match p2pkh_Lock addr with None => inl (lit "nonce script: ") | Some script => inr script end
      end
  end.
Definition nonce_action (script : bytes) : CreateActionArgs :=
  MkCreateArgs (lit "x402 nonce UTXO") [] [] [MkActionOutput script 1 (lit "x402 nonce output")] [] [].
(** "Our output is always first." *)
Definition nonce_output (txid script : bytes) : NonceUTXO := MkNonce txid 0 1 (hex_encode script).

Definition WalletMintNonce (p : WalletNonceProvider) : WalletNonceProvider * (bytes + NonceUTXO) :=
  let '(p, n) := nonceCounter p in
  match nonce_script n (wp_wallet p) with
  | inl e => (p, inl e)
  | inr script =>
      match wl_CreateAction (nonce_action script) (wp_wallet p) with
      | (w, inl e) => (set_wallet w p, inl (lit "create nonce UTXO: " ++ e))
      | (w, inr result) =>
          match cr_Signable result with
          | None => (set_wallet w p, inr (nonce_output (cr_Txid result) script))
          | Some st =>
              match wl_SignAction (MkSignArgs (sn_Reference st) []) w with
              | (w, inl e) => (set_wallet w p, inl (lit "sign nonce UTXO: " ++ e))
              | (w, inr txid) => (set_wallet w p, inr (nonce_output txid script))
              end
          end
      end
  end.

(** As the pool of nonces calls it. *)
Definition pool_mint (p : WalletNonceProvider) : WalletNonceProvider * option NonceUTXO :=
  match WalletMintNonce p with (p, inr n) => (p, Some n) | (p, inl _) => (p, None) end.

(** [n] nonces in a row. *)
Fixpoint mint_many (n : nat) (p : WalletNonceProvider) : WalletNonceProvider * list (bytes + NonceUTXO) :=
  match n with
  | O => (p, [])
  | S n => let '(p, r) := WalletMintNonce p in let '(p, rs) := mint_many n p in (p, r :: rs)
  end.

(** ** What is minted *)

(** The counter moves on whatever becomes of the nonce. *)
Lemma mint_counts p : wp_nonceSeq (WalletMintNonce p).1 = u64 (wp_nonceSeq p + 1).
Proof.
  unfold WalletMintNonce, nonceCounter. cbn. destruct (nonce_script _ _); [done|].
  destruct (wl_CreateAction _ _) as [w [e|r]]; [done|]. destruct (cr_Signable r); [|done].
  by destruct (wl_SignAction _ w) as [? [?|?]].
Qed.

(** Of one nonce: the script is that of the number drawn. *)
Lemma mint_nonce p p' u : WalletMintNonce p = (p', inr u) →
  ∃ script txid, nonce_script (u64 (wp_nonceSeq p + 1)) (wp_wallet p) = inr script ∧ u = nonce_output txid script.
Proof.
  unfold WalletMintNonce, nonceCounter. cbn. destruct (nonce_script _ _) as [|script] eqn:Es; [done|].
  destruct (wl_CreateAction _ _) as [w [e|r]]; [done|]. destruct (cr_Signable r); [|intros [= <- <-]; by eexists _, _].
  destruct (wl_SignAction _ w) as [? [?|?]]; [done|]. intros [= <- <-]. by eexists _, _.
Qed.

(** The wallet never derives the same script under two numbers. *)
Definition derives_apart : Prop := ∀ n n' w w' script,
  nonce_script n w = inr script → nonce_script n' w' = inr script → n = n'.

Lemma mint_many_scripts n p p' rs : 0 ≤ wp_nonceSeq p → wp_nonceSeq p + Z.of_nat n < 2 ^ 64 →
  mint_many n p = (p', rs) →
  ∀ i u, rs !! i = Some (inr u) → ∃ w script txid,
    nonce_script (wp_nonceSeq p + 1 + Z.of_nat i) w = inr script ∧ u = nonce_output txid script.
Proof.
  revert p p' rs. induction n as [|n IH]; intros p p' rs Hlo Hhi; cbn [mint_many].
  { intros [= <- <-]. by intros [] ?. }
  destruct (WalletMintNonce p) as [p1 r] eqn:E1. destruct (mint_many n p1) as [p2 rs2] eqn:E2. intros [= <- <-].
  pose proof (mint_counts p) as Hc. rewrite E1, u64_small in Hc by lia. cbn [fst] in Hc.
  intros [|i] u Hu; cbn in Hu.
  - injection Hu as ->. destruct (mint_nonce _ _ _ E1) as (script & txid & Hsc & ->). rewrite u64_small in Hsc by lia.
    exists (wp_wallet p), script, txid. split; [|done]. rewrite <- Hsc. f_equal. lia.
  - destruct (IH p1 p2 rs2 ltac:(lia) ltac:(lia) E2 i u Hu) as (w & script & txid & Hsc & ->). exists w, script, txid.
    split; [|done]. rewrite <- Hsc. f_equal. lia.
Qed.

(** The nonces that one process mints are each an output 0 of one satoshi,
    and no two of them are locked with the same script, up to the 2^64 numbers
    of the counter, provided the wallet never derives the same script under two
    numbers. *)
Theorem minted_nonces_apart n w p rs : derives_apart → Z.of_nat n < 2 ^ 64 →
  mint_many n (NewWalletNonceProvider w) = (p, rs) →
  (∀ i u, rs !! i = Some (inr u) → nu_Vout u = 0 ∧ nu_Satoshis u = 1) ∧
  ∀ i j u v, rs !! i = Some (inr u) → rs !! j = Some (inr v) → nu_LockingScriptHex u = nu_LockingScriptHex v → i = j.
Proof.
  intros Hda Hn Hm. pose proof (mint_many_scripts n (NewWalletNonceProvider w) p rs (Z.le_refl 0) Hn Hm) as Hr. split.
  - intros i u Hu. by destruct (Hr i u Hu) as (w' & script & txid & _ & ->).
  - intros i j u v Hu Hv E. destruct (Hr i u Hu) as (w1 & s1 & t1 & E1 & ->), (Hr j v Hv) as (w2 & s2 & t2 & E2 & ->).
    cbn in E. apply (inj hex_encode) in E as ->. pose proof (Hda _ _ _ _ _ E1 E2). lia.
Qed.
End provider.
