(* ===== verification/WalletRuns.v ===== *)
(** * The wallet at concrete headers, transactions and invoices

    The properties of the wallet files applied to the real header of block 1, the
    instances of the libraries and a wallet library whose answers are fixed. *)

From Stdlib Require Import Init.Byte Strings.Byte Strings.String Lia ZArith.
From stdpp Require Import base gmap sets list strings numbers relations.
From S2P Require Import Prelude GoStd Sha256 LevelDB GoText Http Pow RawHeader HeaderStore HeaderChain HeaderSync RawChain Tx TxRelay Spv SpvRuns.
From S2P Require Import Ec RateLimit WalletServices WalletLib Scanner ScannerProps Wallet WalletProps.
Open Scope Z_scope.

#[export] Instance raw_fields : WireFields raw_header := {
  hdr_version r := le_bytes_z (take 4 (rh_bytes r));
  hdr_time r := le_bytes_z (take 4 (drop 68 (rh_bytes r)));
  hdr_nonce r := le_bytes_z (take 4 (drop 76 (rh_bytes r)))
}.
Definition services1 : AnvilServices (DB:=gmap bytes bytes) := NewAnvilServices store1 ∅ None.

Lemma wallet_sees_chain_witness : ∃ hd,
  FindChainTipHeader (Hdr:=raw_header) services1 = Ok hd ∧ ch_Height hd = 1 ∧
  ch_Hash hd = lit "00000000839a8e6886ab5951d76f411475428afc90947ee320161bbf18eb6048" ∧ ch_Time hd = 1231469665.
Proof.
  destruct (wallet_sees_chain (Hdr:=raw_header) services1 (info genesis) [block1_info] store1_ok) as (_ & _ & _ & hd & Hf & Hh & Hs).
  exists hd. split; [exact Hf|]. split; [exact Hh|]. split.
  - rewrite Hs. vm_compute. reflexivity.
  - assert (Ht : match FindChainTipHeader (Hdr:=raw_header) services1 with Ok hd => ch_Time hd = 1231469665 | _ => False end)
      by (vm_compute; reflexivity).
    rewrite Hf in Ht. exact Ht.
Defined.

(** A BEEF that holds one transaction. *)
#[export] Instance toy_lookup : BeefLookup := {
  FindTransaction b txid := if bool_decide (TxID b = txid) then Some b else None;
  BeefMerklePath _ := None
}.
Definition coin : Transaction := MkTx [] [MkOutput 50 (Some (lit "script"))].
Definition coin_beef : Beef (BeefLib:=toy_beef) := coin.

Lemma PostFromBEEF_posts_witness : ∃ b',
  PostFromBEEF coin_beef [TxID coin; lit "other"] (MkServices (DB:=gmap bytes bytes) store1 ∅ (Some (NewBroadcaster ∅ None))) =
    (MkServices store1 ∅ (Some b'), Some [PostedSuccess (TxID coin); PostedError (lit "other") None]) ∧
  is_Some (mempool_get (TxID coin) (bc_mempool b')).
Proof.
  destruct (PostFromBEEF_posts coin_beef (MkServices (DB:=gmap bytes bytes) store1 ∅ (Some (NewBroadcaster ∅ None)))
    [TxID coin; lit "other"] (NewBroadcaster ∅ None) eq_refl) as (b' & Hp & Hin & _).
  exists b'. split.
  - rewrite Hp. unfold fmap, list_fmap, posted, FindTransaction, toy_lookup.
    rewrite bool_decide_true, bool_decide_false; [reflexivity| |reflexivity].
    intros E. pose proof (txid_length coin) as Hl. unfold coin_beef in E. rewrite E in Hl. discriminate.
  - apply (Hin (TxID coin) coin); [by left|]. unfold FindTransaction, toy_lookup. by rewrite bool_decide_true.
Defined.

(** ** A wallet with fixed answers

    The wallet is the list of its outputs; the key of an invoice is the last
    byte of its number. *)
Definition paid_output (i : nat) (o : ActionOutput) : WalletOutput :=
  MkWalletOutput (MkOutpoint (lit "sent") (Z.of_nat i)) (ac_Satoshis o) (ac_LockingScript o) [].

#[export] Instance toy_wallet : WalletLib := {
  WalletState := list WalletOutput;
  wl_GetPublicKey _ keyID _ _ := from_option inr (inl (lit "no key id")) (last keyID) : bytes + PublicKey;
  wl_CreateAction args w := (w ++ imap paid_output (ca_Outputs args), inr (MkCreateResult (lit "created") None));
  wl_SignAction _ w := (w, inr (lit "signed"));
  wl_ListOutputs _ w := inr w;
  InternalizeArgs := bytes;
  ia_Tx b := b;
  wl_InternalizeAction _ w := (w, inr (JBool true))
}.
#[export] Instance toy_script : ScriptLib := {
  Address := byte;
  AddressString k := lit "1" ++ [k];
  NewAddressFromPublicKey := Some;
  NewAddressFromString b := match b with [x31; k] => Some k | _ => None end;
  p2pkh_Lock k := Some [x76; xa9; k];
  p2pkh_sign _ _ _ _ := Some []
}.
#[export] Instance toy_arc : JsonCodec ARCResponse := {
  json_marshal _ := None; json_unmarshal _ := None; json_norm r := r
}.
Definition invoice_fields (i : Invoice) : list bytes :=
  [inv_ID i; inv_Address i; inv_PublicKey i; inv_Description i; inv_Counterparty i; inv_Protocol i; inv_KeyID i].
Definition fields_invoice (l : list bytes) : option Invoice :=
  match l with [a; b; c; d; e; f; g] => Some (MkInvoice a b c d e f g) | _ => None end.
#[export] Instance invoice_json : JsonCodec Invoice := frame_codec invoice_fields fields_invoice id.
#[export] Instance invoice_json_laws : JsonCodecLaws Invoice.
Proof. apply frame_codec_laws. by intros []. Qed.

(** *** A scan *)

(** A BEEF library that reads any Merkle path. *)
Definition wallet_beef : BeefLib := {|
  Beef := Transaction; NewBeefFromBytes := NewBeefFromBytes (BeefLib:=toy_beef); BUMPs := BUMPs (BeefLib:=toy_beef);
  Transactions := Transactions (BeefLib:=toy_beef); Verify := Verify (BeefLib:=toy_beef);
  MerklePathBytes := MerklePathBytes (BeefLib:=toy_beef); NewMerklePathFromHex _ := Some (MkMerklePath 0 []);
  BeefFromTransaction t _ := Some (x01 :: x00 :: toy_print t); NewHashFromHex := NewHashFromHex (BeefLib:=toy_beef)
|}.
Definition hash_a : bytes := replicate 64 x61.
Definition hash_b : bytes := replicate 64 x62.
(** One output known already, one unconfirmed, one imported and one whose
    transaction cannot be had. *)
Definition found : list wocUTXO :=
  [MkUTXO (lit "sent") 0 5 100; MkUTXO hash_a 0 7 0; MkUTXO hash_a 0 11 100; MkUTXO hash_b 0 13 100].
Definition woc : HttpClient := λ _ url _ _,
  if bool_decide (url = woc_base ++ lit "/tx/" ++ hash_b ++ lit "/hex") then Some (404, lit "none")
  else if bool_decide (url = woc_base ++ lit "/tx/" ++ hash_a ++ lit "/hex") then Some (200, hex_encode (toy_print coin)) else Some (200, lit "ok").
Definition scanner1 : Scanner := NewScanner x41 None woc.
Definition own_output : WalletOutput := MkWalletOutput (MkOutpoint (lit "sent") 0) 5 [] [].
Abbreviation scan1 := (ScanAddress (H0:=toy_wallet) (H1:=toy_script) (H2:=toy_tx) (H3:=wallet_beef) (H4:=toy_arc) (λ _, Some (MkUnspent found [])) (λ _, Some [MkTsc 0 (lit "t") []]) scanner1 (lit "1A")
  [own_output]).

Example scan_statuses : match scan1 with (_, Ok r) => sd_Status <$> sr_Details r | _ => [] end =
  [lit "already_known"; lit "skipped"; lit "internalized"; lit "error"].
Proof. vm_compute. reflexivity. Qed.

Lemma scan_accounts_witness : ∃ w' r, scan1 = (w', Ok r) ∧
  sr_UTXOsFound r = sr_Internalized r + sr_AlreadyKnown r + sr_Errors r + count_status (lit "skipped") (sr_Details r) ∧
  sr_UTXOsFound r = 4 ∧ sr_TotalSatoshis r = 11.
Proof.
  assert (Hc : match scan1 with (_, Ok r) => (sr_UTXOsFound r =? 4) && (sr_TotalSatoshis r =? 11) | _ => false end = true)
    by (vm_compute; reflexivity).
  destruct scan1 as [w' [r|e|]] eqn:E; [|discriminate Hc|discriminate Hc].
  exists w', r. split; [reflexivity|].
  destruct (scan_accounts (H3:=wallet_beef) _ _ scanner1 (lit "1A") _ w' r E) as (utxos & _ & _ & _ & _ & _ & Hs).
  split; [exact Hs|]. apply andb_prop in Hc as [H4 H11]. split; [exact (proj1 (Z.eqb_eq _ _) H4)|exact (proj1 (Z.eqb_eq _ _) H11)].
Defined.

(** *** Invoices in flight *)

Definition no_request {A} (b : bytes) : bytes + A := inl (lit "not asked").
Definition any_invoice (b : bytes) : bytes + InvoiceRequest := inr (MkInvoiceReq [] b).
Definition order (what : bytes) : Request := MkRequest (lit "POST") (lit "node") (lit "/wallet/invoice") [] ∅ what [].
Definition wallet0 : NodeWallet (DB:=gmap bytes bytes) := MkWallet [] NewValidator None ∅ 0.
Definition system0 : System (DB:=gmap bytes bytes) := MkSystem wallet0 [] [].
Abbreviation sstep := (step (DB:=gmap bytes bytes) any_invoice no_request no_request no_request no_request no_request
  (λ _, JNull) (λ _, JNull) (λ _, JNull) (λ _, None) (λ _, None) (λ _ _, None) 0).

Definition invoice_of (id : bytes) (what : bytes) (k : byte) : Invoice :=
  MkInvoice id (lit "1" ++ [k]) (hex_encode (Compressed k)) what [] invoice_protocol id.
Definition stored (i : Invoice) : bytes := default [] (json_marshal i).
Definition tea : Invoice := invoice_of (lit "1") (lit "tea") x31.
Definition milk : Invoice := invoice_of (lit "2") (lit "milk") x32.
Definition store2 : gmap bytes bytes := {[ lit "2" := stored milk ]}.
Definition store12 : gmap bytes bytes := <[lit "1" := stored tea]> store2.
Definition wallet12 (d : gmap bytes bytes) : NodeWallet (DB:=gmap bytes bytes) := MkWallet [] NewValidator None d 2.
Definition pending_of (what id : bytes) : Pending := MkPending (MkInvoiceReq [] what) CounterpartyAnyone id.

Lemma recover12 : recover_id store12 = 2.
Proof. vm_compute. reflexivity. Qed.

(** Two requests whose handlers end in the other order, and a restart. *)
Lemma two_invoices : nsteps sstep 5 system0 (MkSystem (wallet12 store12) [] [tea; milk]).
Proof.
  eapply nsteps_l. { eapply (StepAllocate _ _ _ _ _ _ _ _ _ _ _ _ 0 wallet0 [] [] (order (lit "tea"))); reflexivity. }
  eapply nsteps_l. { eapply (StepAllocate _ _ _ _ _ _ _ _ _ _ _ _ 0 _ _ [] (order (lit "milk"))); reflexivity. }
  eapply (nsteps_l _ _ _ (MkSystem (wallet12 store2) [pending_of (lit "tea") (lit "1")] [milk])).
  { refine (StepFinish _ _ _ _ _ _ _ _ _ _ _ _ 0 (wallet12 ∅) [] (pending_of (lit "milk") (lit "2"))
      [pending_of (lit "tea") (lit "1")] [] (wallet12 store2) _ eq_refl). }
  eapply (nsteps_l _ _ _ (MkSystem (wallet12 store12) [] [tea; milk])).
  { refine (StepFinish _ _ _ _ _ _ _ _ _ _ _ _ 0 (wallet12 store2) [] (pending_of (lit "tea") (lit "1")) [] [milk]
      (wallet12 store12) _ eq_refl). }
  apply nsteps_once.
  refine (StepRestart _ _ _ _ _ _ _ _ _ _ _ _ 0 (wallet12 store12) [] [tea; milk] unit unit
    (λ _ _, inr ()) (λ _, inr x41) (λ _ _ _, inr ()) (λ _ _ _, inr []) (λ _, inr store12) woc [] [] () None
    (wallet12 store12) store12 _ eq_refl eq_refl eq_refl).
  unfold wallet12. rewrite <- recover12. reflexivity.
Qed.

Lemma acknowledged_invoices_kept_witness :
  no_invoices system0 ∧ loadInvoice (lit "1") (wallet12 store12) = Some tea ∧ NoDup (inv_ID <$> [tea; milk]).
Proof.
  assert (H0 : no_invoices system0) by (split; [reflexivity|split; [reflexivity|split; reflexivity]]).
  destruct (acknowledged_invoices_kept _ _ _ _ _ _ _ _ _ _ _ _ 0 5 system0 _ H0 two_invoices eq_refl) as [Hnd Hl].
  split; [exact H0|split; [|exact Hnd]].
  destruct (Hl tea) as [Ht|Hio]; [by left|exact Ht|]. vm_compute in Hio. discriminate Hio.
Defined.

Lemma invoice_paid_iff_witness :
  let paid := MkWallet [MkWalletOutput (MkOutpoint (lit "sent") 1) 900 [x76; xa9; x31] []] NewValidator None store12 2 in
  ∃ out, handleGetInvoice (lit "1") (order []) paid = (paid, Some (writeJSON StatusOK (invoice_status tea (Some out)))) ∧
    wo_Satoshis out = 900.
Proof.
  intros paid. assert (Hl : loadInvoice (lit "1") paid = Some tea) by (vm_compute; reflexivity).
  destruct (invoice_paid_iff (MkInvoiceReq [] (lit "tea")) CounterpartyAnyone (lit "1") wallet0 paid tea
    [MkWalletOutput (MkOutpoint (lit "sent") 1) 900 [x76; xa9; x31] []] (order [])) as (key & addr & p & Hk & Ha & Hg & Hp).
  - reflexivity.
  - discriminate.
  - exact Hl.
  - reflexivity.
  - assert (Hs : is_Some p).
    { apply Hp. eexists. split; [by left|]. left. injection Hk as <-. injection Ha as <-. reflexivity. }
    destruct Hs as [out ->]. exists out. split; [exact Hg|].
    unfold handleGetInvoice in Hg. rewrite bool_decide_false in Hg by discriminate. rewrite Hl in Hg.
    cbn [wl_ListOutputs toy_wallet nw_inner paid] in Hg. injection Hg as _ Hsat. rewrite <- Hsat.
    vm_compute. reflexivity.
Defined.

(** The store is read to its end before a number is recovered, or numbers are
    used again: a store whose iterator fails at once, as the laws allow. *)
Definition broken_db : LevelDB (gmap bytes bytes) := {|
  db_view m := m; db_get := db_get; db_has := db_has; db_put := db_put; db_delete := db_delete; db_write := db_write;
  db_iter _ _ := ([], Some ErrIO)
|}.
Example broken_scan : LevelDBLaws (gmap bytes bytes) (H:=broken_db) ∧
  recover_id (H6:=broken_db) store12 = 0 ∧ recover_id store12 = 2.
Proof.
  split_and!; [|reflexivity|exact recover12].
  destruct mem_db_laws. split; try done.
  - intros d p l e [= <- _]. by intros x ?%elem_of_nil.
  - intros d p l e [= <- _]. constructor.
Qed.

(** *** Imports and routes *)

Definition as_beef (b : bytes) : bytes + InternalizeArgs := inr b.
Lemma invalid_beef_not_imported_witness :
  rs_Confidence (check_beef tracker1 bad_beef).1 = ConfidenceInvalid ∧
  ∃ v w, handleInternalize as_beef tracker1 7 (order bad_beef) wallet0 = (set_validator v wallet0, Some w) ∧ w_status w = 422.
Proof.
  assert (Hc : rs_Confidence (check_beef tracker1 bad_beef).1 = ConfidenceInvalid) by (vm_compute; reflexivity).
  split; [exact Hc|].
  destruct (invalid_beef_not_imported as_beef tracker1 7 bad_beef (order bad_beef) wallet0) as (v & w & Hh & Hs & _).
  - unfold read_limited. rewrite take_ge; [reflexivity|].
    assert (Hl : (length (r_body (order bad_beef)) <=? mib)%nat = true) by (vm_compute; reflexivity).
    apply Nat.leb_le in Hl. lia.
  - discriminate.
  - exact Hc.
  - exists v, w. split; [exact Hh|exact Hs].
Defined.

Lemma wallet_routes_guarded_witness :
  requireAuth (lit "s3cret") (handleInvoice (DB:=gmap bytes bytes) any_invoice) (order (lit "tea")) wallet0 =
    (wallet0, Some (writeError StatusUnauthorized (lit "unauthorized"))).
Proof.
  refine (wallet_routes_guarded any_invoice no_request no_request no_request no_request no_request (λ _, JNull) (λ _, JNull) (λ _, JNull)
    (λ _, None) (λ _, None) (λ _ _, None) (lit "s3cret") 0 (lit "POST /wallet/invoice")
    (λ _, requireAuth (lit "s3cret") (handleInvoice any_invoice)) [] (order (lit "tea")) wallet0 _ _ _).
  - left.
  - discriminate.
  - right. vm_compute. discriminate.
Defined.

(** * Minting nonces at a concrete wallet

    A wallet whose derived keys are the names they are derived under. *)

From S2P Require Import Envelope Payment NonceProvider.

Definition name_ec : EC := {|
  PrivateKey := bytes; PublicKey := bytes; ECSig := bytes; PublicKeyFromBytes := Some; Compressed k := k; PubKey k := k;
  SignDigest _ _ := None; SerializeDER s := s; FromDER := Some; VerifyDigest _ _ _ := false
|}.
(** The state counts the actions; every third one is refused. *)
Definition name_wallet : WalletLib (H:=name_ec) := {|
  WalletState := nat;
  wl_GetPublicKey _ keyID _ _ := inr keyID : bytes + @PublicKey name_ec;
  wl_CreateAction _ w := (S w, if Nat.eqb (w mod 3) 2 then inl (lit "no funds")
                               else inr (MkCreateResult (lit "tx" ++ itoa (Z.of_nat w)) None));
  wl_SignAction _ w := (w, inr (lit "signed"));
  wl_ListOutputs _ _ := inr [];
  InternalizeArgs := bytes; ia_Tx b := b; wl_InternalizeAction _ w := (w, inr JNull)
|}.
#[local] Existing Instance name_ec.
#[local] Existing Instance name_wallet.
Definition name_script : ScriptLib (H:=name_ec) := {|
  Address := bytes; AddressString a := a; NewAddressFromPublicKey k := Some k; NewAddressFromString := Some;
  p2pkh_Lock a := Some (x76 :: a); p2pkh_sign _ _ _ _ := None
|}.
Definition mint4 := mint_many (H0:=name_wallet) (H1:=name_script) 4 (NewWalletNonceProvider (H0:=name_wallet) 0%nat).

Lemma names_apart : derives_apart (H0:=name_wallet) (H1:=name_script).
Proof.
  intros n n' w w' script. unfold nonce_script, nonce_key_id. cbn [wl_GetPublicKey name_wallet NewAddressFromPublicKey p2pkh_Lock name_script].
  intros [= <-] [= E%itoa_inj]. done.
Qed.

Lemma minted_nonces_apart_witness : derives_apart (H0:=name_wallet) (H1:=name_script) ∧
  (∀ i j u v, mint4.2 !! i = Some (inr u) → mint4.2 !! j = Some (inr v) → nu_LockingScriptHex u = nu_LockingScriptHex v → i = j) ∧
  (λ r : bytes + NonceUTXO, match r with inr u => nu_TxID u | inl e => e end) <$> mint4.2 =
    [lit "tx0"; lit "tx1"; lit "create nonce UTXO: no funds"; lit "tx3"].
Proof.
  split; [exact names_apart|]. split.
  - exact (proj2 (minted_nonces_apart (H0:=name_wallet) (H1:=name_script) 4 0%nat mint4.1 mint4.2 names_apart eq_refl
      (surjective_pairing mint4))).
  - vm_compute. reflexivity.
Defined.

(** The counter begins again with the process, and so do the keys. *)
Example restart_reuses_key : 
  (nu_LockingScriptHex <$> (pool_mint (H1:=name_script) (NewWalletNonceProvider (H0:=name_wallet) 0%nat)).2) =
  (nu_LockingScriptHex <$> (pool_mint (H1:=name_script) (NewWalletNonceProvider (H0:=name_wallet) 3%nat)).2).
Proof. vm_compute. reflexivity. Qed.
