(* ===== verification/Status.v ===== *)
(** * The status of the node ([internal/api/handlers_status.go], [mesh_status.go], [server.go])

    The server as its components, what it says of their state, the documents by
    which a client discovers it, and the table of its routes. *)

From Stdlib Require Import Init.Byte Strings.Byte Strings.String Lia ZArith.
From stdpp Require Import base gmap sets list strings numbers sorting fin_maps.
From S2P Require Import Prelude GoStd Sha256 LevelDB GoText Float Http Ec Pow HeaderStore HeaderSync Envelope EnvelopeStore Slash Gossip Brc Directory.
From S2P Require Import Tx TxRelay Spv RateLimit Payment TokenGate Server Bond MeshNodes Release WalletServices.
Open Scope Z_scope.

(** [strings.TrimRight] of one byte. *)
Fixpoint skip_byte (c : byte) (l : bytes) : bytes :=
  match l with [] => [] | d :: l' => if decide (d = c) then skip_byte c l' else l end.
Definition trim_right_byte (c : byte) (s : bytes) : bytes := rev (skip_byte c (rev s)).

(** ** JSON of the records that are shown *)

Definition str_omitempty (name s : bytes) : list (bytes * json) := if bool_decide (s = []) then [] else [(name, JStr s)].
(** A map, which is written with its keys in order. *)
Definition json_map {A} (f : A → json) (m : gmap bytes A) : json :=
  JObj ((λ kv, (kv.1, f kv.2)) <$> merge_sort (λ x y : bytes * A, bytes_le x.1 y.1 = true) (map_to_list m)).
Definition map_omitempty (name : bytes) (m : gmap bytes Z) : list (bytes * json) :=
  if bool_decide (m = ∅) then [] else [(name, json_map JNum m)].

Definition json_of_peer (p : PeerInfo) : json :=
  JObj ([(lit "identity", JStr (pi_Identity p)); (lit "endpoint", JStr (pi_Endpoint p))] ++
        num_omitempty (lit "bond_sats") (pi_BondSats p) ++ str_omitempty (lit "version") (pi_Version p) ++
        str_omitempty (lit "connected_at") (pi_ConnectedAt p) ++ num_omitempty (lit "uptime_secs") (pi_UptimeSecs p)).
Definition json_of_connection (e : ConnectionEvent) : json :=
  JObj ([(lit "timestamp", JStr (ce_Timestamp e))] ++ str_omitempty (lit "direction") (ce_Direction e) ++
        [(lit "event", JStr (ce_Event e))] ++ str_omitempty (lit "endpoint") (ce_Endpoint e) ++
        str_omitempty (lit "identity") (ce_Identity e) ++ num_omitempty (lit "bond_sats") (ce_BondSats e) ++
        num_omitempty (lit "peer_count") (ce_PeerCount e) ++ str_omitempty (lit "connected_at") (ce_ConnectedAt e) ++
        num_omitempty (lit "duration_secs") (ce_DurationSecs e) ++ str_omitempty (lit "reason") (ce_Reason e)).
Definition json_of_warning (w : SlashWarningPayload) : json :=
  JObj ([(lit "target", JStr (w_Target w)); (lit "reason", JStr (w_Reason w))] ++ str_omitempty (lit "evidence") (w_Evidence w) ++
        [(lit "timestamp", JNum (w_Timestamp w)); (lit "reporter", JStr (w_Reporter w))]).
Definition json_of_sync (s : SyncStats) : json :=
  JObj (str_omitempty (lit "last_source") (LastSource s) ++ str_omitempty (lit "last_attempt_at") (LastAttemptAt s) ++
        str_omitempty (lit "last_success_at") (LastSuccessAt s) ++ str_omitempty (lit "last_error") (LastError s) ++
        num_omitempty (lit "last_tip") (LastTip s)).
Definition json_of_validations (v : ValidationStats) : json :=
  JObj ([(lit "total", JNum (vs_Total v)); (lit "valid", JNum (vs_Valid v)); (lit "invalid", JNum (vs_Invalid v))] ++
        str_omitempty (lit "last_validated_at") (vs_LastValidatedAt v) ++ str_omitempty (lit "last_error") (vs_LastError v) ++
        map_omitempty (lit "by_confidence") (vs_ByConfidence v) ++ map_omitempty (lit "failure_by_reason") (vs_FailureByReason v)).

Section status.
Context {DB Dir : Type} `{LevelDB DB} {Hdr : Type} `{WireHeader Hdr} `{WireFields Hdr}.
Context `{EC} `{JsonCodec Envelope} `{JsonCodec PeerEntry} `{MapOrder} `{OverlayDirectory Dir}.
(** The ephemeral envelopes in the order in which the store is ranged over. *)
Context (visit : EnvelopeStore.Store DB → list (bytes * Envelope)).

(** ** The server *)

Record ApiServer := MkApi {
  as_headerStore : HeaderStore.Store DB;
  as_proofStore : option DB;
  as_envelopeStore : option (EnvelopeStore.Store DB);
  as_overlayDir : option (Directory DB);
  as_validator : option ValidationStats;
  as_gossipMgr : option (Manager DB Dir);
  as_rateLimiter : option RateLimiter;
  as_paymentGate : option PaymentGate;
  as_tokenGate : option TokenGate;
  as_authToken : bytes;
  as_nodeName : bytes;
  as_identityPub : bytes;
  as_bondChecker : option Checker;
  as_explorerOrigin : bytes;
  as_publicURL : bytes;
  as_meshTopicCache : topicCache;
  as_headerSyncStatus : option SyncStats;
  as_spvProofSource : bytes
}.

(** What the constructor is given; the components come with their state. *)
Record ServerConfig := MkServerConfig {
  sc_HeaderStore : HeaderStore.Store DB;
  sc_ProofStore : option DB;
  sc_EnvelopeStore : option (EnvelopeStore.Store DB);
  sc_OverlayDir : option (Directory DB);
  sc_Validator : option ValidationStats;
  sc_GossipMgr : option (Manager DB Dir);
  sc_AuthToken : bytes;
  sc_RateLimit : Z;
  sc_TrustProxy : bool;
  sc_Payment : PaymentGateConfig;
  sc_AllowTokenGating : bool;
  sc_NodeName : bytes;
  sc_IdentityPub : bytes;
  sc_BondChecker : option Checker;
  sc_ExplorerOrigin : bytes;
  sc_PublicURL : bytes;
  sc_HeaderSyncStatus : option SyncStats;
  sc_SPVProofSource : bytes
}.

(** The resolver of topic prices is always there, so the token gate is there
    when it is allowed. *)
Definition NewServer (cfg : ServerConfig) : ApiServer :=
  MkApi (sc_HeaderStore cfg) (sc_ProofStore cfg) (sc_EnvelopeStore cfg) (sc_OverlayDir cfg) (sc_Validator cfg) (sc_GossipMgr cfg)
    (if 0 <? sc_RateLimit cfg then Some (NewRateLimiter (sc_RateLimit cfg) (sc_TrustProxy cfg)) else None)
    (NewPaymentGate (sc_Payment cfg)) (NewTokenGate true (sc_AllowTokenGating cfg)) (sc_AuthToken cfg)
    (if bool_decide (sc_NodeName cfg = []) then lit "anvil" else sc_NodeName cfg) (sc_IdentityPub cfg) (sc_BondChecker cfg)
    (sc_ExplorerOrigin cfg) (trim_right_byte x2f (sc_PublicURL cfg)) (newTopicCache (10 * second))
    (sc_HeaderSyncStatus cfg) (sc_SPVProofSource cfg).

(** ** What is said of the headers and of the proofs *)

Definition fields := list (bytes * json).
(** A field that is there when [x] is. *)
Definition when {A} (x : option A) (f : A → fields) : fields := from_option f [] x.

Definition stale_secs : Z := 1800.
(** The seconds since the time of the tip, none below 0. *)
Definition sync_lag (now : Z) (hdr : Hdr) : Z :=
  let lag := f64_to_int (seconds (since now (hdr_time hdr * second))) in if lag <? 0 then 0 else lag.
(** The header of the tip, when it is stored and can be read. *)
Definition tip_header (s : ApiServer) : option Hdr :=
  match HeaderAtHeight (as_headerStore s) (Tip (as_headerStore s)) with
  | Ok raw => hdr_deserialize (H:=Hdr) raw
  | _ => None
  end.

Definition buildHeaderStatus (now : Z) (s : ApiServer) : fields * list bytes :=
  let tip := Tip (as_headerStore s) in
  let hash := match HashAtHeight (Hdr:=Hdr) (as_headerStore s) tip with
              | Ok hash => [(lit "hash", JStr (hash_string hash))] | _ => [] end in
  let time := when (tip_header s) (λ hdr,
    [(lit "tip_time", JStr (rfc3339 (hdr_time hdr * second))); (lit "sync_lag_secs", JNum (sync_lag now hdr))]) in
  let stale := from_option (λ hdr, if stale_secs <? sync_lag now hdr
    then [lit "headers are stale (sync lag " ++ itoa (sync_lag now hdr) ++ lit "s)"] else []) [] (tip_header s) in
  let sync := when (as_headerSyncStatus s) (λ st, [(lit "sync", json_of_sync st)]) in
  let failed := from_option (λ st, if bool_decide (LastError st = []) then []
    else [lit "latest header sync failed: " ++ LastError st]) [] (as_headerSyncStatus s) in
  ([(lit "height", JNum tip); (lit "work", JStr (itoa (Work (as_headerStore s))))] ++ hash ++ time ++ sync, stale ++ failed).

Definition buildSPVStatus (s : ApiServer) : fields * list bytes :=
  let info :=
    (if bool_decide (as_spvProofSource s = []) then [] else [(lit "proof_source", JStr (as_spvProofSource s))]) ++
    when (as_proofStore s) (λ db, [(lit "proofs_stored", JNum (Spv.Count db))]) ++
    when (as_validator s) (λ v, [(lit "validations", json_of_validations (Stats v))]) in
  (info, from_option (λ v, if 0 <? vs_Invalid (Stats v)
     then [lit "SPV validation failures observed (" ++ itoa (vs_Invalid (Stats v)) ++ lit " invalid)"] else []) [] (as_validator s)).
Definition spv_part (s : ApiServer) : fields * list bytes :=
  let '(info, warnings) := buildSPVStatus s in
  if bool_decide (length info = 0%nat) then ([], []) else ([(lit "spv", JObj info)], warnings).

Definition recent (limit : Z) (m : Manager DB Dir) : fields :=
  match RecentConnections limit m with [] => [] | l => [(lit "recent_connections", JArr (json_of_connection <$> l))] end.
Definition no_peers (m : option (Manager DB Dir)) : list bytes :=
  from_option (λ m, if PeerCount m =? 0 then [lit "mesh has zero connected peers"] else []) [] m.
Definition warnings_field (l : list bytes) : fields :=
  match l with [] => [] | _ => [(lit "warnings", JArr (JStr <$> l))] end.
Definition about_node (s : ApiServer) (headers : fields) : fields :=
  [(lit "node", JStr (as_nodeName s)); (lit "version", JStr Release.Version); (lit "headers", JObj headers)].

Definition handleStatus (now : Z) : Handler ApiServer := λ _ s,
  let '(headersInfo, warnings) := buildHeaderStatus now s in
  let '(spv, spvWarnings) := spv_part s in
  let mesh := when (as_gossipMgr s) (λ m, [(lit "mesh", JObj ((lit "peers", JNum (PeerCount m)) :: recent 5 m))]) in
  (s, Some (writeJSON StatusOK (JObj (about_node s headersInfo ++ spv ++ mesh ++
    warnings_field (warnings ++ spvWarnings ++ no_peers (as_gossipMgr s)))))).

Definition bond_part (s : ApiServer) : fields :=
  match as_bondChecker s with
  | Some c => if Required c then [(lit "bond", JObj [(lit "required", JBool true); (lit "min_sats", JNum (MinSats c))])] else []
  | None => []
  end.
Definition overlay_part (s : ApiServer) : fields :=
  when (as_overlayDir s) (λ d, [(lit "overlay", JObj [(lit "ship_count", JNum (CountSHIP d))])]).

Definition set_gossip (m : option (Manager DB Dir)) (s : ApiServer) : ApiServer :=
  MkApi (as_headerStore s) (as_proofStore s) (as_envelopeStore s) (as_overlayDir s) (as_validator s) m (as_rateLimiter s)
    (as_paymentGate s) (as_tokenGate s) (as_authToken s) (as_nodeName s) (as_identityPub s) (as_bondChecker s) (as_explorerOrigin s) (as_publicURL s)
    (as_meshTopicCache s) (as_headerSyncStatus s) (as_spvProofSource s).
Definition set_topic_cache (tc : topicCache) (s : ApiServer) : ApiServer :=
  MkApi (as_headerStore s) (as_proofStore s) (as_envelopeStore s) (as_overlayDir s) (as_validator s) (as_gossipMgr s) (as_rateLimiter s)
    (as_paymentGate s) (as_tokenGate s) (as_authToken s) (as_nodeName s) (as_identityPub s) (as_bondChecker s) (as_explorerOrigin s) (as_publicURL s)
    tc (as_headerSyncStatus s) (as_spvProofSource s).

(** The warnings of the slash tracker, which drops the old ones when asked. *)
Definition slash_part (now : Z) (m : option (Manager DB Dir)) : option (Manager DB Dir) * fields :=
  match m with
  | None => (None, [])
  | Some m =>
      let '(st, warnings) := allActive now (g_slashTracker m) in
      (Some (set_slashTracker st m),
       if bool_decide (warnings = ∅) then [] else [(lit "slash_warnings", json_map (λ l, JArr (json_of_warning <$> l)) warnings)])
  end.

Definition handleStats (now : Z) : Handler ApiServer := λ _ s,
  let '(headersInfo, warnings) := buildHeaderStatus now s in
  let envelopes := when (as_envelopeStore s) (λ es, [(lit "envelopes", JObj
    [(lit "ephemeral", JNum (CountEphemeral es)); (lit "durable", JNum (CountDurable es));
     (lit "topics", json_map JNum (Topics now (visit es) es))])]) in
  let mesh := when (as_gossipMgr s) (λ m, [(lit "mesh", JObj (
    [(lit "peers", JNum (PeerCount m)); (lit "peer_list", JArr (json_of_peer <$> PeerList now m))] ++ recent 10 m))]) in
  let '(gossip, slash) := slash_part now (as_gossipMgr s) in
  let '(spv, spvWarnings) := spv_part s in
  (set_gossip gossip s, Some (writeJSON StatusOK (JObj (about_node s headersInfo ++ envelopes ++ mesh ++ overlay_part s ++
    bond_part s ++ slash ++ spv ++ warnings_field (warnings ++ no_peers (as_gossipMgr s) ++ spvWarnings))))).

Definition handleHeadersTip : Handler ApiServer := λ _ s,
  let tip := Tip (as_headerStore s) in
  (s, Some match HashAtHeight (Hdr:=Hdr) (as_headerStore s) tip with
           | Ok hash => writeJSON StatusOK (JObj [(lit "height", JNum tip); (lit "hash", JStr (hash_string hash))])
           | _ => writeError StatusInternalServerError (lit "failed to get tip hash")
           end).

(** ** The mesh *)

(** A topic: how many envelopes, and how old the newest is. *)
Definition topic_json (now : Z) (latest : gmap bytes Z) (tc : bytes * Z) : json :=
  let nowSecs := now / second in
  JObj ([(lit "topic", JStr tc.1); (lit "count", JNum tc.2)] ++
        match latest !! tc.1 with
        | Some ts => if 0 <? ts then (lit "latest_at", JStr (rfc3339 (ts * second))) :: num_omitempty (lit "age_secs") (i64 (nowSecs - ts)) else []
        | None => []
        end).

(** [now] and [later] are the times before and after the store is read. *)
Definition handleMeshStatus (now later : Z) : Handler ApiServer := λ _ s,
  let identity := str_omitempty (lit "identity") (as_identityPub s) in
  let gossip := when (as_gossipMgr s) (λ m,
    let peers := PeerList now m in
    let activity := Activity now m in
    [(lit "mesh", JObj [(lit "peers", JNum (Z.of_nat (length peers))); (lit "peer_list", JArr (json_of_peer <$> peers));
       (lit "started_at", JStr (as_StartedAt activity)); (lit "uptime_secs", JNum (as_UptimeSecs activity))])] ++
    recent 10 m ++
    [(lit "activity", JObj [(lit "envelopes_received", JNum (as_EnvsReceived activity));
       (lit "envelopes_sent", JNum (as_EnvsSent activity))])]) in
  let '(s', topics) := match as_envelopeStore s with
    | None => (s, [])
    | Some es =>
        let '(tc, (counts, latest)) :=
          get now later (Topics now (visit es) es) (LatestByTopic now (visit es) es) (as_meshTopicCache s) in
        (set_topic_cache tc s, [(lit "topics", JArr (topic_json now latest <$> map_order counts))])
    end in
  (s', Some (writeJSON StatusOK (JObj (
    [(lit "node", JStr (as_nodeName s)); (lit "version", JStr Release.Version);
     (lit "headers", JObj [(lit "height", JNum (Tip (as_headerStore s))); (lit "work", JStr (itoa (Work (as_headerStore s))))])] ++
    identity ++ gossip ++ topics ++ overlay_part s)))).
End status.
