(* ===== verification/Discovery.v ===== *)
(** * Discovery ([internal/api/server.go])

    The documents by which a client finds what the node offers, to whom it
    belongs and what it charges, and the table of the routes with what guards
    each. *)

From Stdlib Require Import Init.Byte Strings.Byte Strings.String Lia ZArith.
From stdpp Require Import base gmap sets list strings numbers sorting fin_maps.
From S2P Require Import Prelude GoStd Sha256 LevelDB GoText Float Http Ec Pow HeaderStore HeaderSync Envelope EnvelopeStore Slash Gossip Brc Directory.
From S2P Require Import Tx TxRelay Spv RateLimit Payment TokenGate Server Bond MeshNodes Release WalletServices Status.
Open Scope Z_scope.

(** ** What is announced *)

(** An endpoint as it is announced. *)
Record Announced := MkAnnounced { an_Path : bytes; an_Price : Z; an_Description : bytes; an_Note : bytes }.
Definition json_of_announced (a : Announced) : json :=
  JObj ([(lit "method", JStr (lit "GET")); (lit "path", JStr (an_Path a)); (lit "price", JNum (an_Price a));
         (lit "description", JStr (an_Description a))] ++ str_omitempty (lit "note") (an_Note a)).

Section discovery.
Context {DB Dir : Type} `{LevelDB DB} {Hdr : Type} `{WireHeader Hdr} `{WireFields Hdr}.
Context `{EC} `{JsonCodec Envelope} `{JsonCodec PeerEntry} `{MapOrder} `{OverlayDirectory Dir}.
Context (visit : EnvelopeStore.Store DB → list (bytes * Envelope)).
Abbreviation ApiServer := (ApiServer (DB:=DB) (Dir:=Dir)).

Definition priceFor (s : ApiServer) (path : bytes) : Z := from_option (λ pg, priceForPath pg path) 0 (as_paymentGate s).

Definition gatedEndpoints (s : ApiServer) : list Announced :=
  [MkAnnounced (lit "/status") (priceFor s (lit "/status")) (lit "Node health, version, and current header height") [];
   MkAnnounced (lit "/stats") (priceFor s (lit "/status"))
     (lit "Extended node stats: envelope counts, active topics, mesh peers, overlay registrations") [];
   MkAnnounced (lit "/headers/tip") (priceFor s (lit "/headers/tip")) (lit "Current BSV header chain tip with block hash") [];
   MkAnnounced (lit "/tx/{txid}/beef") (priceFor s (lit "/tx/{txid}/beef"))
     (lit "SPV verification — returns transaction in BEEF format with merkle proof") [];
   MkAnnounced (lit "/data") (priceFor s (lit "/data")) (lit "Query signed data envelopes by topic. Use ?topic=<name>&limit=<n>")
     (lit "price may vary by topic monetization model");
   MkAnnounced (lit "/overlay/lookup") (priceFor s (lit "/overlay/lookup"))
     (lit "Discover other nodes in the mesh via overlay registrations. Use ?topic=anvil:mainnet") [];
   MkAnnounced (lit "/mesh/status") 0 (lit "Live mesh status: connected peers, active topics, data flow counters, uptime") [];
   MkAnnounced (lit "/.well-known/anvil") 0
     (lit "Machine-readable manifest of this node's capabilities, payment options, and mesh info") [];
   MkAnnounced (lit "/content/{txid}_{vout}") 0
     (lit "Serve on-chain inscription content directly. Decentralized CDN — no GorillaPool dependency.") []].

Definition payment_models (s : ApiServer) : list bytes :=
  [lit "node_merchant"] ++
  match as_paymentGate s with
  | Some pg => (if pg_allowPassthrough pg then [lit "passthrough"] else []) ++ (if pg_allowSplit pg then [lit "split"] else [])
  | None => []
  end ++
  match as_tokenGate s with Some _ => [lit "token"] | None => [] end.

Definition contact : fields := [(lit "contact", JStr (lit "https://x.com/SendBSV"))].
Definition handleX402Discovery : Handler ApiServer := λ _ s,
  (s, Some (writeJSON StatusOK (JObj (
    [(lit "version", JStr (lit "0.1")); (lit "network", JStr (lit "bsv-mainnet")); (lit "node", JStr (as_nodeName s));
     (lit "settlement", JStr (lit "BSV")); (lit "non_custodial", JBool true);
     (lit "endpoints", JArr (json_of_announced <$> gatedEndpoints s));
     (lit "payment_models", JArr (JStr <$> payment_models s))] ++ contact)))).

Definition identity_key (s : ApiServer) : fields := str_omitempty (lit "identity_key") (as_identityPub s).
Definition handleIdentity : Handler ApiServer := λ _ s,
  (s, Some (writeJSON StatusOK (JObj (
    [(lit "node", JStr (as_nodeName s)); (lit "version", JStr (lit "0.1.0"))] ++ identity_key s ++
    match bond_part s with [] => [(lit "bond", JObj [(lit "required", JBool false)])] | bond => bond end)))).

Definition x402_markdown : bytes := lit "# Anvil Node x402 Protocol

## How to pay for data on this node

This node accepts HTTP 402 micropayments in Bitcoin SV (BSV).

### Discovery
GET `/.well-known/x402` — returns endpoints with prices in satoshis.
GET `/.well-known/x402-info` — this document (JSON with Accept: application/json).

### Payment Method 1: Challenge-Proof (recommended)
1. Send your request without payment.
2. Receive 402 with `X402-Challenge` header (base64url JSON).
3. Build a BSV transaction spending the challenge's nonce UTXO, paying declared payees.
4. Resend request with `X402-Proof` header containing the signed proof.
5. Receive response with `X402-Receipt` header.

### Payment Method 2: Direct Payment
1. Discover pricing via `/.well-known/x402`.
2. Build a BSV transaction paying the node's payee script the required satoshis.
3. Send request with `X-Bsv-Payment` header containing the raw tx (hex or base64).
4. Node verifies outputs, broadcasts to ARC, returns response with receipt.

### Authentication
BRC-31 mutual authentication via secp256k1 identity keys.
BRC-42 key derivation for payment address generation.

### Settlement
All payments settle on BSV mainnet. Non-custodial — funds go directly to payees.
No stablecoins. No payment channels. No facilitator servers.
".
Definition serveX402InfoMarkdown : Response :=
  MkResponse StatusOK {[ content_type := lit "text/markdown; charset=utf-8"; allow_origin := lit "*" ]} (Text x402_markdown).

Definition info_endpoints (s : ApiServer) : list Announced :=
  [MkAnnounced (lit "/status") (priceFor s (lit "/status")) (lit "Node health and header height") [];
   MkAnnounced (lit "/stats") (priceFor s (lit "/status")) (lit "Extended stats: envelopes, peers, topics") [];
   MkAnnounced (lit "/data") (priceFor s (lit "/data")) (lit "Query signed data envelopes by topic") [];
   MkAnnounced (lit "/tx/{txid}/beef") (priceFor s (lit "/tx/{txid}/beef")) (lit "SPV proof in BEEF format") [];
   MkAnnounced (lit "/overlay/lookup") (priceFor s (lit "/overlay/lookup")) (lit "Discover mesh peers") []].
Definition handleX402Info : Handler ApiServer := λ r s,
  let accept := header r (lit "Accept") in
  (s, Some (
    if bool_decide (accept = lit "text/markdown") || bool_decide (accept = lit "text/plain") then serveX402InfoMarkdown
    else writeJSON StatusOK (JObj (
      [(lit "version", JStr (lit "0.1")); (lit "protocol", JStr (lit "anvil-x402")); (lit "network", JStr (lit "bsv-mainnet"));
       (lit "node", JStr (as_nodeName s)); (lit "endpoints", JArr (json_of_announced <$> info_endpoints s));
       (lit "payment", JObj [(lit "settlement", JStr (lit "BSV")); (lit "non_custodial", JBool true);
          (lit "methods", JArr [JStr (lit "X402-Challenge/Proof (nonce-bound, replay-safe)");
             JStr (lit "X-Bsv-Payment (direct raw tx in header, hex or base64)")]);
          (lit "discovery", JStr (lit "/.well-known/x402"))]);
       (lit "authentication", JObj [(lit "method", JStr (lit "BRC-31 mutual auth via auth.Peer"));
          (lit "key_derivation", JStr (lit "BRC-42"))])] ++ identity_key s ++ bond_part s)))).

(** *** The manifest *)

Definition feed_capability (s : ApiServer) (tc : bytes * Z) : json :=
  JObj [(lit "type", JStr (lit "data-feed")); (lit "topic", JStr tc.1); (lit "envelopes", JNum tc.2);
        (lit "access", JStr (lit "GET /data?topic=" ++ tc.1));
        (lit "payment", JStr (if 0 <? priceFor s (lit "/data") then lit "HTTP-402" else lit "free"))].
Definition static_capabilities (tip : Z) : list json :=
  [JObj [(lit "type", JStr (lit "spv-verification"));
         (lit "description", JStr (lit "Verify any BSV transaction with merkle proof against synced headers"));
         (lit "access", JStr (lit "GET /tx/{txid}/beef")); (lit "payment", JStr (lit "free"))];
   JObj [(lit "type", JStr (lit "header-chain")); (lit "description", JStr (lit "Full BSV header chain synced to tip"));
         (lit "height", JNum tip); (lit "access", JStr (lit "GET /headers/tip")); (lit "payment", JStr (lit "free"))]].
Definition handleAnvilManifest (now : Z) : Handler ApiServer := λ _ s,
  let feeds := match as_envelopeStore s with
               | Some es => feed_capability s <$> map_order (Topics now (visit es) es) | None => [] end in
  (s, Some (writeJSON StatusOK (JObj (
    [(lit "name", JStr (as_nodeName s)); (lit "protocol", JStr (lit "anvil-mesh")); (lit "version", JStr (lit "0.1.0"));
     (lit "network", JStr (lit "bsv-mainnet"));
     (lit "capabilities", JArr (feeds ++ static_capabilities (Tip (as_headerStore s))));
     (lit "payment", JObj [(lit "standard", JStr (lit "HTTP-402")); (lit "settlement", JStr (lit "BSV"));
        (lit "non_custodial", JBool true); (lit "discovery", JStr (lit "/.well-known/x402"))]);
     (lit "mesh", JObj ([(lit "gossip", JStr (lit "websocket")); (lit "discovery", JStr (lit "overlay-ship"))] ++
        when (as_gossipMgr s) (λ m, [(lit "peers", JNum (PeerCount m))]) ++
        when (as_overlayDir s) (λ d, [(lit "known_nodes", JNum (CountSHIP d))])))] ++ contact ++
    [(lit "source", JStr (lit "https://github.com/BSVanon/Anvil"))])))).
End discovery.

(** ** The routes *)

(** What stands before a handler. *)
Inductive Guard := Cors | OpenRead | RequireAuth | AuthOrPay.
#[export] Instance Guard_eq_dec : EqDecision Guard.
Proof. solve_decision. Defined.

(** The handlers by name. *)
Inductive Endpoint :=
  | EpRoot | EpStatus | EpStats | EpMeshStatus | EpMeshNodes | EpHeadersTip | EpGetBEEF | EpQueryData | EpSubscribe
  | EpDeleteData | EpOverlayLookup | EpX402Discovery | EpX402Info | EpAnvilManifest | EpIdentity | EpAppRedirect
  | EpExplorer | EpBootstrapBlock | EpServeContent | EpAddWatch | EpRemoveWatch | EpListWatch | EpWatchHistory
  | EpWatchSubscribe | EpBroadcast | EpPostData | EpNothing | EpOverlayRegister | EpOverlayDeregister
  | EpInvoice | EpGetInvoice | EpWalletSend | EpInternalize | EpListOutputs | EpScan | EpCreateAction | EpSignAction
  | EpOverlaySubmit | EpOverlayQuery | EpOverlayTopics | EpOverlayServices.

Record Route := MkRoute { rt_Method : bytes; rt_Pattern : bytes; rt_Guard : Guard; rt_Endpoint : Endpoint }.
Definition GET : bytes := lit "GET".
Definition POST : bytes := lit "POST".
Definition DELETE : bytes := lit "DELETE".
Definition routes : list Route :=
  [MkRoute GET (lit "/{$}") Cors EpRoot;
   MkRoute GET (lit "/status") OpenRead EpStatus;
   MkRoute GET (lit "/stats") OpenRead EpStats;
   MkRoute GET (lit "/mesh/status") Cors EpMeshStatus;
   MkRoute GET (lit "/mesh/nodes") Cors EpMeshNodes;
   MkRoute GET (lit "/headers/tip") OpenRead EpHeadersTip;
   MkRoute GET (lit "/tx/{txid}/beef") OpenRead EpGetBEEF;
   MkRoute GET (lit "/data") OpenRead EpQueryData;
   MkRoute GET (lit "/data/subscribe") OpenRead EpSubscribe;
   MkRoute DELETE (lit "/data") RequireAuth EpDeleteData;
   MkRoute GET (lit "/overlay/lookup") OpenRead EpOverlayLookup;
   MkRoute GET (lit "/.well-known/x402") Cors EpX402Discovery;
   MkRoute GET (lit "/.well-known/x402-info") Cors EpX402Info;
   MkRoute GET (lit "/.well-known/anvil") Cors EpAnvilManifest;
   MkRoute GET (lit "/.well-known/identity") Cors EpIdentity;
   MkRoute GET (lit "/app/{name}") Cors EpAppRedirect;
   MkRoute GET (lit "/explorer") Cors EpExplorer;
   MkRoute POST (lit "/bootstrap/block/{blockHash}") RequireAuth EpBootstrapBlock;
   MkRoute GET (lit "/content/{origin}") OpenRead EpServeContent;
   MkRoute POST (lit "/mempool/watch") RequireAuth EpAddWatch;
   MkRoute DELETE (lit "/mempool/watch") RequireAuth EpRemoveWatch;
   MkRoute GET (lit "/mempool/watch") OpenRead EpListWatch;
   MkRoute GET (lit "/mempool/watch/history") OpenRead EpWatchHistory;
   MkRoute GET (lit "/mempool/watch/subscribe") OpenRead EpWatchSubscribe;
   MkRoute POST (lit "/broadcast") RequireAuth EpBroadcast;
   MkRoute POST (lit "/data") AuthOrPay EpPostData;
   MkRoute MethodOptions (lit "/data") Cors EpNothing;
   MkRoute POST (lit "/overlay/register") RequireAuth EpOverlayRegister;
   MkRoute POST (lit "/overlay/deregister") RequireAuth EpOverlayDeregister].

(** The routes that the wallet and the overlay engine add to the same mux, when
    the node has them: the wallet behind the wrapper of the server's write
    endpoints, the engine behind CORS alone. *)
Definition wallet_routes : list Route :=
  [MkRoute POST (lit "/wallet/invoice") RequireAuth EpInvoice;
   MkRoute GET (lit "/wallet/invoice/{id}") RequireAuth EpGetInvoice;
   MkRoute POST (lit "/wallet/send") RequireAuth EpWalletSend;
   MkRoute POST (lit "/wallet/internalize") RequireAuth EpInternalize;
   MkRoute GET (lit "/wallet/outputs") RequireAuth EpListOutputs;
   MkRoute POST (lit "/wallet/scan") RequireAuth EpScan;
   MkRoute POST (lit "/wallet/create-action") RequireAuth EpCreateAction;
   MkRoute POST (lit "/wallet/sign-action") RequireAuth EpSignAction].
Definition overlay_routes : list Route :=
  [MkRoute POST (lit "/overlay/submit") Cors EpOverlaySubmit;
   MkRoute POST (lit "/overlay/query") Cors EpOverlayQuery;
   MkRoute GET (lit "/overlay/topics") Cors EpOverlayTopics;
   MkRoute GET (lit "/overlay/services") Cors EpOverlayServices;
   MkRoute MethodOptions (lit "/overlay/submit") Cors EpNothing;
   MkRoute MethodOptions (lit "/overlay/query") Cors EpNothing].
Definition mux_routes (nodeWallet overlayEngine : bool) : list Route :=
  routes ++ (if nodeWallet then wallet_routes else []) ++ (if overlayEngine then overlay_routes else []).

(** The root sends to the explorer. *)
Definition root_redirect {S} : Handler S := λ _ s,
  (s, Some (MkResponse StatusFound {[ lit "Location" := lit "/explorer" ]} NoBody)).

Section serve.
Context `{EC} `{TxLib} `{JsonCodec X402Challenge} `{JsonCodec X402Proof} `{JsonCodec X402Receipt} `{JsonCodec Envelope}.
Context (uni : bytes → bytes) (pay_text : pay_err → bytes) (tok_text : tok_err → bytes).

(** The state that the guards keep, and that of the handlers. *)
Abbreviation guarded S := (option RateLimiter * (option PaymentGate * S))%type.
Definition lift_inner {S} (h : Handler S) : Handler (guarded S) := λ r '(rl, (pg, s)),
  let '(s, w) := h r s in ((rl, (pg, s)), w).
Definition lift_paid {S} (h : Handler (option PaymentGate * S)) : Handler (guarded S) := λ r '(rl, st),
  let '(st, w) := h r st in ((rl, st), w).

(** A handler behind its guard. *)
Definition guard (ev : Env) (tg : option TokenGate) (authToken : bytes) {S} (g : Guard) (h : Handler S) : Handler (guarded S) :=
  match g with
  | Cors => lift_inner (cors h)
  | OpenRead => openRead uni pay_text tok_text ev tg h
  | RequireAuth => lift_inner (requireAuth authToken h)
  | AuthOrPay => lift_paid (authOrPay uni pay_text ev authToken h)
  end.
Definition serve (ev : Env) (tg : option TokenGate) (authToken : bytes) {S} (handlers : Endpoint → Handler S) (rt : Route)
    : Handler (guarded S) :=
  guard ev tg authToken (rt_Guard rt) (handlers (rt_Endpoint rt)).
End serve.
