(* ===== verification/StatusProps.v ===== *)
(** * What the node says of itself is so

    The status reads the chain of the header store; the prices that are announced
    are those that are charged; and every route that changes something is
    guarded. *)

From Stdlib Require Import Init.Byte Strings.Byte Strings.String Lia ZArith.
From stdpp Require Import base gmap sets list strings numbers sorting fin_maps.
From S2P Require Import Prelude GoStd Sha256 LevelDB GoText Float Http Ec Pow HeaderStore HeaderChain HeaderSync Envelope EnvelopeStore Slash Gossip Brc Directory.
From S2P Require Import Tx TxRelay Spv RateLimit Payment TokenGate Server Bond MeshNodes Release WalletServices Status Discovery.
From S2P Require Import WalletLib Wallet PaymentProps ServerProps.
Open Scope Z_scope.

(** ** The chain *)

Section status.
Context {DB Dir : Type} `{LevelDBLaws DB} `{!LevelDBReliable DB} {Hdr : Type} `{WireHeaderLaws Hdr} `{WireFields Hdr}.
Implicit Types s : ApiServer (DB:=DB) (Dir:=Dir).

Definition stale_warning (lag : Z) : bytes := lit "headers are stale (sync lag " ++ itoa lag ++ lit "s)".

Lemma tip_stored s g c : store_ok (Hdr:=Hdr) (as_headerStore s) g c →
  ∃ raw hdr, HeaderAtHeight (as_headerStore s) (Z.of_nat (length c)) = Ok raw ∧ hdr_deserialize raw = Some hdr ∧
    hdr_hash hdr = tip_hash g c ∧ HashAtHeight (Hdr:=Hdr) (as_headerStore s) (Z.of_nat (length c)) = Ok (tip_hash g c).
Proof.
  intros Hok. destruct (vo_header _ _ (so_view _ _ _ Hok) (length c) (default g (list.last c))) as (raw & hd & Hraw & Hd & Hi).
  { apply tip_lookup. }
  assert (Hh : hdr_hash hd = tip_hash g c) by (unfold tip_hash; by rewrite <- Hi).
  exists raw, hd. unfold HeaderAtHeight, HashAtHeight, hashAtHeight. rewrite db_get_total, Hraw, Hd. split_and!; [done..|by rewrite Hh].
Qed.

(** C24: the status of the node is that of its header chain: the tip endpoint and
    the header part of the status both give the height of the last header of the
    chain, its hash and the work of the chain; and the warning that the headers
    are stale is there exactly when that header is more than half an hour old. *)
Theorem status_reads_chain s g c now r :
  store_ok (Hdr:=Hdr) (as_headerStore s) g c →
  let height := (lit "height", JNum (Z.of_nat (length c))) in
  let hash := (lit "hash", JStr (hash_string (tip_hash g c))) in
  handleHeadersTip (Hdr:=Hdr) r s = (s, Some (writeJSON StatusOK (JObj [height; hash]))) ∧
  ∃ hdr, hdr_hash hdr = tip_hash g c ∧
    [height; (lit "work", JStr (itoa (st_work (as_headerStore s)))); hash; (lit "tip_time", JStr (rfc3339 (hdr_time hdr * second)));
     (lit "sync_lag_secs", JNum (sync_lag now hdr))] `prefix_of` (buildHeaderStatus (Hdr:=Hdr) now s).1 ∧
    (stale_warning (sync_lag now hdr) ∈ (buildHeaderStatus (Hdr:=Hdr) now s).2 ↔ 1800 < sync_lag now hdr).
Proof.
  intros Hok. destruct (tip_stored s g c Hok) as (raw & hdr & Hraw & Hd & Hh & Hhash). cbv zeta.
  unfold handleHeadersTip, buildHeaderStatus, tip_header, Tip. rewrite (so_tip _ _ _ Hok), Hraw, Hhash, Hd. split; [done|].
  exists hdr. split; [done|]. cbn [when from_option fst snd]. split; [by eexists|].
  rewrite elem_of_app. unfold stale_secs. destruct (Z.ltb_spec 1800 (sync_lag now hdr)) as [Hlt|Hge].
  - split; [done|]. intros _. left. by left.
  - split; [|lia]. intros [Hin|Hin]; [by apply elem_of_nil in Hin|]. exfalso.
    destruct (as_headerSyncStatus s) as [st|]; cbn in Hin; [|by apply elem_of_nil in Hin].
    case_bool_decide; [by apply elem_of_nil in Hin|]. apply list_elem_of_singleton in Hin.
    unfold stale_warning in Hin. discriminate Hin.
Qed.
End status.

(** ** Prices *)

Section prices.
Context {DB Dir : Type} `{LevelDB DB}.
Implicit Types s : ApiServer (DB:=DB) (Dir:=Dir).

(** What a route asks of a request without a topic. *)
Definition charges (pg : PaymentGate) (g : Guard) (path : bytes) : Z :=
  match g with OpenRead | AuthOrPay => priceForPath pg path | Cors | RequireAuth => 0 end.
Definition announced_as_is (a : Announced) : Prop :=
  (x7b ∉ an_Path a) ∧ an_Path a ≠ lit "/stats".
#[export] Instance announced_as_is_dec a : Decision (announced_as_is a).
Proof. unfold announced_as_is. apply _. Defined.

Lemma announced_routes s pg : as_paymentGate s = Some pg →
  ∀ a, a ∈ gatedEndpoints s ++ info_endpoints s → announced_as_is a →
  ∃ rt, rt ∈ routes ∧ rt_Method rt = GET ∧ rt_Pattern rt = an_Path a ∧ an_Price a = charges pg (rt_Guard rt) (an_Path a).
Proof.
  intros Hpg a Ha [Hb Hs].
  assert (Hall : Forall (λ a, announced_as_is a → ∃ rt, rt ∈ routes ∧ rt_Method rt = GET ∧ rt_Pattern rt = an_Path a ∧
    an_Price a = charges pg (rt_Guard rt) (an_Path a)) (gatedEndpoints s ++ info_endpoints s)).
  { unfold gatedEndpoints, info_endpoints, priceFor. rewrite Hpg. cbn [app from_option].
    repeat first [apply Forall_nil|apply list.Forall_cons; split]; try done; cbn [an_Path an_Price]; intros [Hbr Hst];
      try (exfalso; apply Hst; reflexivity); try (exfalso; apply Hbr; apply (bool_decide_unpack _); vm_compute; exact I).
    - exists (MkRoute GET (lit "/status") OpenRead EpStatus). split_and!; [right; left|done..].
    - exists (MkRoute GET (lit "/headers/tip") OpenRead EpHeadersTip). split_and!; [do 5 right; left|done..].
    - exists (MkRoute GET (lit "/data") OpenRead EpQueryData). split_and!; [do 7 right; left|done..].
    - exists (MkRoute GET (lit "/overlay/lookup") OpenRead EpOverlayLookup). split_and!; [do 10 right; left|done..].
    - exists (MkRoute GET (lit "/mesh/status") Cors EpMeshStatus). split_and!; [do 3 right; left|done..].
    - exists (MkRoute GET (lit "/.well-known/anvil") Cors EpAnvilManifest). split_and!; [do 13 right; left|done..].
    - exists (MkRoute GET (lit "/status") OpenRead EpStatus). split_and!; [right; left|done..].
    - exists (MkRoute GET (lit "/data") OpenRead EpQueryData). split_and!; [do 7 right; left|done..].
    - exists (MkRoute GET (lit "/overlay/lookup") OpenRead EpOverlayLookup). split_and!; [do 10 right; left|done..]. }
  rewrite list.Forall_forall in Hall. by apply Hall.
Qed.

(** C32: the prices that discovery announces are those that are charged: an
    announced endpoint other than [/stats] and the templates has a route, and a
    request to it without a topic is asked to pay the node exactly the announced
    price, or nothing when the price is zero or the route is not gated. *)
Theorem announced_prices_charged s pg a r resolve :
  as_paymentGate s = Some pg → pg_payeeScriptHex pg ≠ [] →
  a ∈ gatedEndpoints s ++ info_endpoints s → announced_as_is a →
  r_path r = an_Path a → query_param r (lit "topic") = [] →
  ∃ rt, rt ∈ routes ∧ rt_Method rt = GET ∧ rt_Pattern rt = an_Path a ∧
    (rt_Guard rt = Cors ∧ an_Price a = 0 ∨
     rt_Guard rt = OpenRead ∧ resolvePayees resolve pg r =
       ((if 0 <? an_Price a then [MkPayee (lit "infrastructure") (pg_payeeScriptHex pg) (an_Price a)] else []), false)).
Proof.
  intros Hpg Hpay Ha Hs Hp Ht. destruct (announced_routes s pg Hpg a Ha Hs) as (rt & Hrt & Hm & Hpat & Hc).
  exists rt. split_and!; [done..|]. unfold charges in Hc. destruct (rt_Guard rt) eqn:Eg.
  - by left.
  - right. split; [done|]. unfold resolvePayees, node_payee. rewrite Hp, Ht, <- Hc.
    rewrite (bool_decide_false (pg_payeeScriptHex pg = [])) by done. cbn [negb]. rewrite andb_true_r.
    destruct resolve; [rewrite bool_decide_true by done|]; by destruct (0 <? an_Price a).
  - exfalso. revert Hm Eg. clear -Hrt. unfold routes in Hrt. rewrite !elem_of_cons, elem_of_nil in Hrt.
    intros Hm Eg. repeat (destruct Hrt as [->|Hrt]; [by first [discriminate Hm|discriminate Eg]|]). done.
  - exfalso. revert Hm Eg. clear -Hrt. unfold routes in Hrt. rewrite !elem_of_cons, elem_of_nil in Hrt.
    intros Hm Eg. repeat (destruct Hrt as [->|Hrt]; [by first [discriminate Hm|discriminate Eg]|]). done.
Qed.
End prices.

(** ** The routes that change something *)

(** The routes of the wallet are those of [RegisterRoutes]. *)
Section wallet_table.
Context `{WalletLib} `{!ScriptLib} `{TxLib} `{BeefLib} `{JsonCodec ARCResponse} `{JsonCodec Invoice} {DB : Type} `{LevelDB DB}.
Lemma wallet_routes_registered a1 a2 a3 a4 a5 a6 a7 a8 a9 a10 a11 tracker now auth :
  (RegisterRoutes (DB:=DB) a1 a2 a3 a4 a5 a6 a7 a8 a9 a10 a11 tracker now auth).*1 =
  (λ rt, rt_Method rt ++ lit " " ++ rt_Pattern rt) <$> wallet_routes.
Proof. reflexivity. Qed.
End wallet_table.

Section guards.
Context `{EC} `{TxLib} `{JsonCodec X402Challenge} `{JsonCodec X402Proof} `{JsonCodec X402Receipt} `{JsonCodec Envelope}.
Context (uni : bytes → bytes) (pay_text : pay_err → bytes) (tok_text : tok_err → bytes).


End guards.
