(* ===== verification/Start.v ===== *)
(** * Start-up ([cmd/anvil/main.go], [setup_mempool.go])

    From the configuration and what the machine answers to the components of
    the node: which of them exist, what each is given, and the server over
    them. Opening a store, a listener or a connection is an answer of the
    machine; the loops that run later are in the files of their components. *)

From Stdlib Require Import Init.Byte Strings.Byte Strings.String Lia ZArith.
From stdpp Require Import base gmap sets list strings numbers sorting fin_maps.
From S2P Require Import Prelude GoStd Sha256 LevelDB GoText Float Http Ec Pow HeaderStore HeaderSync Envelope EnvelopeStore Slash Gossip Brc Directory.
From S2P Require Import Tx TxRelay Spv RateLimit Payment TokenGate Server Bond MeshNodes Release WalletServices WalletLib Scanner Status.
From S2P Require Import MempoolIndex Watcher P2P Config.
Open Scope Z_scope.

(** ** The command *)

Inductive Command :=
  | CmdDeploy (args : list bytes) | CmdDoctor (args : list bytes) | CmdToken (args : list bytes)
  | CmdInfo (args : list bytes) | CmdUpgrade (args : list bytes) | CmdHelp (args : list bytes) | CmdRun (args : list bytes).
(** The arguments after the name of the program. *)
Definition command (args : list bytes) : Command :=
  match args with
  | [] => CmdRun []
  | name :: rest =>
      if bool_decide (name = lit "deploy") then CmdDeploy rest
      else if bool_decide (name = lit "doctor") then CmdDoctor rest
      else if bool_decide (name = lit "token") then CmdToken rest
      else if bool_decide (name = lit "info") then CmdInfo rest
      else if bool_decide (name = lit "upgrade") then CmdUpgrade rest
      else if bool_decide (name ∈ [lit "help"; lit "--help"; lit "-h"]) then CmdHelp rest
      else CmdRun args
  end.

(** ** The first synchronisation *)

(** The nodes in turn until one has synchronised the store. *)
Fixpoint initial_sync {S E} (SyncFrom : bytes → S → S * res E Z) (nodes : list bytes) (s : S) : S * res E (option (bytes * Z)) :=
  match nodes with
  | [] => (s, Ok None)
  | node :: nodes =>
      match SyncFrom node s with
      | (s, Ok tip) => (s, Ok (Some (node, tip)))
      | (s, Err _) => initial_sync SyncFrom nodes s
      | (s, Panic) => (s, Panic)
      end
  end.

(** ** The mempool monitor *)

(** The first bytes of the transactions that are fetched. *)
Definition coverage (prefixes : list Z) : gset byte :=
  if bool_decide (prefixes = []) then list_to_set (z_byte <$> [0; 1; 2; 3; 4])
  else list_to_set (z_byte <$> filter (λ p, 0 ≤ p ≤ 255) prefixes).

Section mempool.
Context `{P2PLib} {Hdr : Type} `{WireLib} `{JsonCodec WatchHit} {DB : Type} `{LevelDB DB}.

Record mempoolComponents := MkComponents {
  mc_index : Index; mc_watcher : Watcher (DB:=DB); mc_monitor : option (MempoolMonitor (Hdr:=Hdr))
}.
(** The store of hits, when it opens; the connection of a monitor that has not
    started; and the connection to the first node, when there is one. *)
Definition setupMempool (cfg : Config) (watchDB : option DB) (idle : Conn) (dial : bytes → option Conn) : option mempoolComponents :=
  match cf_Nodes cfg with
  | [] => None
  | node :: _ =>
      if negb (mp_Enabled (cf_Mempool cfg)) then None
      else
        let monitor := NewMempoolMonitor (coverage (mp_Prefixes (cf_Mempool cfg))) (mp_MaxTxSize (cf_Mempool cfg)) idle in
        Some (match P2P.Start monitor (dial node) with
              | (_, Some _) => MkComponents NewIndex (NewWatcher watchDB) None
              | (monitor, None) => MkComponents NewIndex (NewWatcher watchDB) (Some monitor)
              end)
  end.

(** The callback of the monitor: into the index and past the watcher. *)
Definition on_tx (now : Z) (txHash raw : bytes) (mc : mempoolComponents) : mempoolComponents :=
  MkComponents (MempoolIndex.Add txHash (MkTxMeta now (u32 (zlen raw))) (mc_index mc)).1 (Watcher.CheckTx now txHash raw (mc_watcher mc)) (mc_monitor mc).

(** The periodic eviction. *)
Definition eviction_ttl (cfg : Config) : Z :=
  let ttl := i64 (mp_TTLSeconds (cf_Mempool cfg) * second) in if ttl =? 0 then hour else ttl.
Definition evict (cfg : Config) (now : Z) (mc : mempoolComponents) : mempoolComponents :=
  MkComponents (MempoolIndex.ExpireBefore (now - eviction_ttl cfg) (mc_index mc)).1 (mc_watcher mc) (mc_monitor mc).
End mempool.

(** ** The identity *)

(** The keys of this operator's nodes, each once, the node's own first. *)
Definition add_pubkey (pks : list bytes) (pk : bytes) : list bytes :=
  if bool_decide (pk = []) then pks else if bool_decide (pk ∈ pks) then pks else pks ++ [pk].
Definition local_pubkeys (uni : bytes → bytes) (identityPub : bytes) (configured : list bytes) : list bytes :=
  foldl add_pubkey (if bool_decide (identityPub = []) then [] else [identityPub])
    ((λ pk, to_lower uni (trim_space uni pk)) <$> configured).

Section node.
Context {DB : Type} `{LevelDB DB} `{SdkTokens} `{!WalletLib} `{!ScriptLib}.
Context `{JsonCodec PeerEntry} `{JsonCodec ProviderEntry} `{JsonCodec Envelope}.
Context (uni : bytes → bytes) (PrivateKeyFromWif : bytes → option PrivateKey).

(** The key of the configuration, when there is one and it can be read. *)
Definition identity (cfg : Config) : option PrivateKey :=
  if bool_decide (cf_WIF cfg = []) then None else PrivateKeyFromWif (cf_WIF cfg).
Definition pub_hex (key : PrivateKey) : bytes := hex_encode (Compressed (PubKey key)).
Definition identityPubHex (cfg : Config) : bytes := from_option pub_hex [] (identity cfg).

(** ** The directory at start-up *)

Definition boot_domain (cfg : Config) : bytes :=
  if bool_decide (nc_PublicURL (cf_Node cfg) = []) then nc_Listen (cf_Node cfg) else nc_PublicURL (cf_Node cfg).
(** The sweep of what is old and of the node's own earlier identities, then its
    registrations; nothing without an identity. *)
Definition boot_directory (now : Z) (cfg : Config) (d : Directory DB) : Directory DB * res dir_err unit :=
  match identity cfg with
  | None => (d, Ok ())
  | Some key =>
      let d := (CleanupOnBoot now {[ boot_domain cfg := pub_hex key ]} d).1 in
      Bootstrap now key (boot_domain cfg) (nc_Name (cf_Node cfg)) Release.Version (ov_Topics (cf_Overlay cfg)) d
  end.

(** ** The mesh *)

Definition mesh_wanted (cfg : Config) : bool :=
  (0 <? length (mc_Seeds (cf_Mesh cfg)))%nat || negb (bool_decide (nc_Listen (cf_Node cfg) = [])).
(** Whether the wallet was opened, and the identity it has. *)
Definition start_mesh (now : Z) (cfg : Config) (wallet : option bytes) (store : EnvelopeStore.Store DB)
    (dir : option (Directory DB)) (connLog : option ConnectionLog) (onEnvelope : N) : option (Manager DB (Directory DB)) :=
  match wallet with
  | Some w =>
      if mesh_wanted cfg then
        Some (Gossip.NewManager uni now (Some w) (Some store) [[]] 10000 [onEnvelope] dir
          [lit "anvil:catalog"; lit "mesh:heartbeat"; lit "mesh:blocks"]
          (local_pubkeys uni (identityPubHex cfg) (mc_LocalPubkeys (cf_Mesh cfg))) connLog)
      else None
  | None => None
  end.
Definition bond_checker (cfg : Config) (mesh : bool) : option Checker :=
  if mesh && (0 <? mc_MinBondSats (cf_Mesh cfg)) then Some (NewChecker (mc_MinBondSats (cf_Mesh cfg)) (mc_BondCheckURL (cf_Mesh cfg)))
  else None.

(** ** Payments *)

Inductive start_err := SeWIF | SeAddress | SeScript.
(** The price of a request, the script that is paid, and whether there is a
    provider of nonces. *)
Record Payments := MkPayments { pm_Satoshis : Z; pm_PayeeScriptHex : bytes; pm_Nonces : bool }.
Definition payments (cfg : Config) (wallet : bool) : res start_err Payments :=
  let paymentSatoshis := api_PaymentSatoshis (cf_API cfg) in
  if negb (bool_decide (cf_WIF cfg = [])) && wallet then
    payeeKey ← res_of_option SeWIF (PrivateKeyFromWif (cf_WIF cfg));
    addr ← res_of_option SeAddress (NewAddressFromPublicKey (PubKey payeeKey));
    lockScript ← res_of_option SeScript (p2pkh_Lock addr);
    Ok (MkPayments paymentSatoshis (hex_encode lockScript) true)
  else Ok (MkPayments (if 0 <? paymentSatoshis then 0 else paymentSatoshis) [] false).
(** The gate's configuration; the life of a challenge is the default. *)
Definition gate_config (cfg : Config) (arc : option ArcSubmit) (p : Payments) : PaymentGateConfig :=
  let app := api_AppPayments (cf_API cfg) in
  MkGateConfig (pm_Satoshis p) (pm_PayeeScriptHex p) (pm_Nonces p) 0 (api_RequireMempool (cf_API cfg)) arc
    (ap_AllowPassthrough app) (ap_AllowSplit app) (ap_MaxAppPriceSats app) (api_EndpointPrices (cf_API cfg)).

(** ** The server *)

(** What was opened: the stores, the directory after its boot, the wallet by
    its identity, the mesh, the status of the synchronisation. *)
Record Opened := MkOpened {
  op_headers : HeaderStore.Store DB; op_proofs : DB; op_envelopes : EnvelopeStore.Store DB;
  op_directory : option (Directory DB); op_wallet : option bytes; op_connLog : option ConnectionLog; op_sync : SyncStats
}.
Definition server_config (now : Z) (cfg : Config) (arc : option ArcSubmit) (o : Opened) (p : Payments) (hook : N)
    : ServerConfig (DB:=DB) (Dir:=Directory DB) :=
  let mesh := start_mesh now cfg (op_wallet o) (op_envelopes o) (op_directory o) (op_connLog o) hook in
  let api := cf_API cfg in
  MkServerConfig (op_headers o) (Some (op_proofs o)) (Some (op_envelopes o)) (op_directory o) (Some NewValidator) mesh
    (api_AuthToken api) (api_RateLimit api) (api_TrustProxy api) (gate_config cfg arc p)
    (ap_AllowTokenGating (api_AppPayments api)) (nc_Name (cf_Node cfg)) (identityPubHex cfg)
    (bond_checker cfg (bool_decide (is_Some (op_wallet o)) && mesh_wanted cfg)) (api_ExplorerOrigin api)
    (nc_PublicURL (cf_Node cfg)) (Some (op_sync o)) (if ac_Enabled (cf_ARC cfg) then lit "arc+woc-fallback" else lit "woc").
(** The server, or the fatal error before it. *)
Definition start (now : Z) (cfg : Config) (arc : option ArcSubmit) (o : Opened) (hook : N)
    : res start_err (ApiServer (DB:=DB) (Dir:=Directory DB)) :=
  p ← payments cfg (bool_decide (is_Some (op_wallet o)));
  Ok (NewServer (server_config now cfg arc o p hook)).
End node.

(** ** Properties *)

(** Bytes and their numbers. *)
Lemma covered b (l : list Z) : b ∈ z_byte <$> filter (λ p, 0 ≤ p ≤ 255) l ↔ byte_z b ∈ l.
Proof.
  pose proof (byte_z_bound b). rewrite list_elem_of_fmap. split.
  - intros (p & -> & [Hp Hin]%list_elem_of_filter). by rewrite byte_z_z, Z.mod_small by lia.
  - intros Hin. exists (byte_z b). rewrite z_byte_z, list_elem_of_filter. split; [done|]. split; [lia|done].
Qed.

(** The monitor fetches exactly the transactions whose first byte is among
    the configured prefixes, whatever numbers those are; and the first five
    bytes when none is configured. *)
Theorem coverage_iff prefixes b :
  b ∈ coverage prefixes ↔ (if bool_decide (prefixes = []) then byte_z b < 5 else byte_z b ∈ prefixes).
Proof.
  unfold coverage. case_bool_decide; rewrite elem_of_list_to_set.
  - pose proof (byte_z_bound b). pose proof (covered b [0; 1; 2; 3; 4]) as Hc. cbn [filter list_filter] in Hc.
    change (filter (λ p, 0 ≤ p ≤ 255) [0; 1; 2; 3; 4]) with [0; 1; 2; 3; 4] in Hc. rewrite Hc.
    rewrite !elem_of_cons, elem_of_nil. lia.
  - apply covered.
Qed.

Lemma add_pubkey_elem pks pk x : x ∈ add_pubkey pks pk ↔ x ∈ pks ∨ (x = pk ∧ pk ≠ []).
Proof.
  unfold add_pubkey. repeat case_bool_decide; rewrite ?elem_of_app, ?list_elem_of_singleton; naive_solver.
Qed.
Lemma add_pubkey_NoDup pks pk : NoDup pks → NoDup (add_pubkey pks pk).
Proof.
  intros Hn. unfold add_pubkey. repeat case_bool_decide; [done..|]. apply NoDup_app. split_and!; [done| |apply NoDup_singleton].
  intros x Hx ->%list_elem_of_singleton. done.
Qed.
Lemma add_pubkeys l pks : NoDup pks →
  NoDup (foldl add_pubkey pks l) ∧ (∀ x, x ∈ foldl add_pubkey pks l ↔ x ∈ pks ∨ (x ∈ l ∧ x ≠ [])) ∧ pks `prefix_of` foldl add_pubkey pks l.
Proof.
  revert pks. induction l as [|pk l IH]; intros pks Hn; cbn [foldl].
  { split_and!; [done| |done]. intros x. rewrite elem_of_nil. naive_solver. }
  destruct (IH (add_pubkey pks pk) (add_pubkey_NoDup _ _ Hn)) as (Hn' & Hin & Hp). split_and!; [done| |].
  - intros x. rewrite Hin, add_pubkey_elem, elem_of_cons. naive_solver.
  - etrans; [|exact Hp]. unfold add_pubkey. repeat case_bool_decide; [done..|by eexists].
Qed.

(** The keys that the mesh takes for this operator's own are the node's
    identity, first, and the configured ones trimmed and in lower case, each
    once and none empty. *)
Theorem local_pubkeys_spec uni identityPub configured :
  NoDup (local_pubkeys uni identityPub configured) ∧
  (∀ pk, pk ∈ local_pubkeys uni identityPub configured ↔
     pk ≠ [] ∧ (pk = identityPub ∨ ∃ c, c ∈ configured ∧ pk = to_lower uni (trim_space uni c))) ∧
  (identityPub = [] ∨ head (local_pubkeys uni identityPub configured) = Some identityPub).
Proof.
  unfold local_pubkeys. set (own := if bool_decide (identityPub = []) then [] else [identityPub]).
  assert (Hown : NoDup own ∧ ∀ x, x ∈ own ↔ x = identityPub ∧ x ≠ []).
  { subst own. case_bool_decide; [split; [constructor|]; intros x; rewrite elem_of_nil; naive_solver|].
    split; [apply NoDup_singleton|]. intros x. rewrite list_elem_of_singleton. naive_solver. }
  destruct Hown as [Hn Ho]. destruct (add_pubkeys ((λ pk, to_lower uni (trim_space uni pk)) <$> configured) own Hn) as (Hn' & Hin & Hp).
  split_and!; [done| |].
  - intros pk. rewrite Hin, Ho, list_elem_of_fmap. naive_solver.
  - destruct (decide (identityPub = [])) as [->|Hi]; [by left|right]. destruct Hp as [k ->]. subst own. by rewrite bool_decide_false.
Qed.

Section gate.
Context {DB : Type} `{LevelDB DB} `{SdkTokens} `{!WalletLib} `{!ScriptLib} `{BeefLib} `{JsonCodec ARCResponse}.
Context `{JsonCodec PeerEntry} `{JsonCodec ProviderEntry} `{JsonCodec Envelope}.
Context (uni : bytes → bytes) (PrivateKeyFromWif : bytes → option PrivateKey).
Context (decode_unspent : bytes → option wocUnspentResponse) (decode_proofs : bytes → option (list tscProof)).

(** C26: the server charges only when there is a wallet, whatever the
    configuration asks for: if it has a payment gate then the wallet was opened,
    the identity's key could be read, the price is the configured one, and the
    script that is to be paid is the P2PKH of the identity's address, which is
    the address that the wallet's scanner looks for payments at. *)
Theorem gate_needs_wallet now cfg arc (o : Opened (DB:=DB)) hook (srv : ApiServer (DB:=DB) (Dir:=Directory DB)) pg :
  start uni PrivateKeyFromWif now cfg arc o hook = Ok srv → as_paymentGate srv = Some pg →
  ∃ key addr script, is_Some (op_wallet o) ∧ identity PrivateKeyFromWif cfg = Some key ∧
    NewAddressFromPublicKey (PubKey key) = Some addr ∧ p2pkh_Lock addr = Some script ∧
    pg_payeeScriptHex pg = hex_encode script ∧ pg_priceSats pg = api_PaymentSatoshis (cf_API cfg) ∧
    ∀ s w, sc_identityKey s = key →
      Scan decode_unspent decode_proofs s w = ScanAddress decode_unspent decode_proofs s (AddressString addr) w.
Proof.
  unfold start, payments. destruct (op_wallet o) as [wk|] eqn:Ew.
  2:{ rewrite (bool_decide_false (is_Some None)) by (intros [? [=]]). rewrite andb_false_r. cbn [mbind res_mbind]. intros [= <-].
      cbn [as_paymentGate NewServer server_config sc_Payment]. unfold NewPaymentGate, gate_config.
      cbn [cfg_NonceProvider pm_Nonces negb]. by destruct (negb _ && negb _). }
  rewrite (bool_decide_true (is_Some (Some wk))) by done. rewrite andb_true_r. unfold identity.
  destruct (bool_decide (cf_WIF cfg = [])) eqn:Eb; cbn [negb].
  { cbn [mbind res_mbind]. intros [= <-]. cbn [as_paymentGate NewServer server_config sc_Payment]. unfold NewPaymentGate, gate_config.
    cbn [cfg_NonceProvider pm_Nonces negb]. by destruct (negb _ && negb _). }
  destruct (PrivateKeyFromWif (cf_WIF cfg)) as [key|]; [|done]. cbn [res_of_option mbind res_mbind].
  destruct (NewAddressFromPublicKey (PubKey key)) as [addr|] eqn:Ea; [|done]. cbn [res_of_option mbind res_mbind].
  destruct (p2pkh_Lock addr) as [script|] eqn:Es; [|done]. cbn [res_of_option mbind res_mbind]. intros [= <-] Hpg.
  exists key, addr, script. cbn [as_paymentGate NewServer server_config sc_Payment] in Hpg. unfold NewPaymentGate, gate_config in Hpg.
  split_and!; [done..| | |].
  - repeat case_match; simplify_eq. done.
  - repeat case_match; simplify_eq. done.
  - intros s w Hk. unfold Scan. by rewrite Hk, Ea.
Qed.
End gate.
