(* ===== verification/StatusRuns.v ===== *)
(** * The status of a node at concrete inputs

    A node on the real chain up to block 1, with a gate that charges. *)

From Stdlib Require Import Init.Byte Strings.Byte Strings.String Lia ZArith.
From stdpp Require Import base gmap sets list strings numbers.
From S2P Require Import Prelude GoStd Sha256 LevelDB GoText Http Pow RawHeader HeaderStore HeaderChain HeaderSync RawChain Ec Tx TxRelay Spv.
From S2P Require Import Envelope EnvelopeStore EnvelopeRuns RateLimit Payment TokenGate Server ServerRuns MeshNodes WalletServices WalletRuns.
From S2P Require Import Status Discovery ServerProps StatusProps.
Open Scope Z_scope.

(** One satoshi for a request, three for [/status] and seven for [/stats]. *)
Definition priced_gate : PaymentGateConfig :=
  MkGateConfig 1 (lit "76a9") true 0 false None true false 0 {[ lit "/status" := 3; lit "/stats" := 7 ]}.
Definition node1 : ApiServer (DB:=gmap bytes bytes) (Dir:=()) :=
  NewServer (MkServerConfig RawChain.store1 (Some ∅) None None (Some NewValidator) None (lit "s3cret") 0 false priced_gate true []
    (lit "02ab") None [] (lit "https://node.example/") None (lit "woc")).
Definition ask (method path : bytes) : Request := MkRequest method (lit "node") path [] ∅ [] [].

(** The time of block 1 and twenty minutes; and an hour. *)
Definition block1_time : Z := 1231469665 * second.

Lemma status_reads_chain_witness :
  handleHeadersTip (Hdr:=raw_header) (ask GET (lit "/headers/tip")) node1 =
    (node1, Some (writeJSON StatusOK (JObj [(lit "height", JNum 1);
      (lit "hash", JStr (lit "00000000839a8e6886ab5951d76f411475428afc90947ee320161bbf18eb6048"))]))) ∧
  (buildHeaderStatus (Hdr:=raw_header) (block1_time + hour) node1).2 = [stale_warning 3600] ∧
  (buildHeaderStatus (Hdr:=raw_header) (block1_time + 20 * minute) node1).2 = [].
Proof.
  destruct (status_reads_chain (Hdr:=raw_header) node1 (info genesis) [block1_info] 0 (ask GET (lit "/headers/tip")) RawChain.store1_ok)
    as [Ht _].
  split; [|split; vm_compute; reflexivity].
  rewrite Ht. assert (E : hash_string (tip_hash (info genesis) [block1_info]) =
    lit "00000000839a8e6886ab5951d76f411475428afc90947ee320161bbf18eb6048") by (vm_compute; reflexivity).
  rewrite E. reflexivity.
Defined.

Definition gate1 : PaymentGate := default gate (as_paymentGate node1).
Definition announced_status : Announced :=
  MkAnnounced (lit "/status") 3 (lit "Node health and header height") [].
Lemma announced_prices_charged_witness : ∃ rt, rt ∈ routes ∧ rt_Guard rt = OpenRead ∧
  resolvePayees None gate1 (ask GET (lit "/status")) = ([MkPayee (lit "infrastructure") (lit "76a9") 3], false).
Proof.
  destruct (announced_prices_charged node1 gate1 announced_status (ask GET (lit "/status")) None) as (rt & Hrt & _ & _ & Hc).
  - reflexivity.
  - discriminate.
  - apply elem_of_app. right. left.
  - split; [|discriminate]. apply (bool_decide_unpack _). vm_compute. exact I.
  - reflexivity.
  - reflexivity.
  - destruct Hc as [[_ Hz]|[Hg Hr]]; [discriminate Hz|]. exists rt. split; [exact Hrt|]. split; [exact Hg|exact Hr].
Defined.

(** The price announced for [/stats] is that of [/status]; and the price set for
    the template of the proofs is not that of any proof. *)
Example stats_price_differs :
  an_Price <$> filter (λ a, an_Path a = lit "/stats") (gatedEndpoints node1) = [3] ∧ priceForPath gate1 (lit "/stats") = 7.
Proof. vm_compute. done. Qed.
(** The manifest calls the header chain free, and the route charges. *)
Example free_is_charged :
  JObj [(lit "type", JStr (lit "header-chain")); (lit "description", JStr (lit "Full BSV header chain synced to tip"));
        (lit "height", JNum 1); (lit "access", JStr (lit "GET /headers/tip")); (lit "payment", JStr (lit "free"))]
    ∈ static_capabilities 1 ∧
  (resolvePayees None gate1 (ask GET (lit "/headers/tip"))).1 = [MkPayee (lit "infrastructure") (lit "76a9") 1].
Proof. split; [right; left|reflexivity]. Qed.
(** Prices of single endpoints are dropped when nothing else is charged. *)
Example endpoint_prices_dropped :
  NewPaymentGate (MkGateConfig 0 (lit "76a9") true 0 false None false false 0 {[ lit "/status" := 3 ]}) = None.
Proof. reflexivity. Qed.

Abbreviation guarded_count rt r := (serve id (λ _, []) (λ _, []) (MkEnv 0 (inl []) None) None (lit "s3cret")
  (λ _ _ n, (Datatypes.S n, None)) rt r (None, (None, 0%nat))).


(** The overlay engine takes a submission from anyone. *)
Example overlay_submit_open :
  (guarded_count (MkRoute POST (lit "/overlay/submit") Cors EpOverlaySubmit) (ask POST (lit "/overlay/submit"))).1 = (None, (None, 1%nat)).
Proof. vm_compute. reflexivity. Qed.

(** ** Start-up

    A node with an identity and a wallet that charges two satoshis, and the
    same configuration without a wallet. *)
From S2P Require Import SpvRuns Config Slash Gossip Brc Directory OverlayRuns WalletLib Scanner Start.

Definition paid_config : Config :=
  set_wif (lit "K") (MkConfig (cf_Node defaults) [] [] (MkMeshConfig [] 0 [] [lit " 02FF "; lit "02ff"]) (cf_Foundry defaults) [] (cf_ARC defaults)
    (cf_JungleBus defaults) (cf_Overlay defaults) (cf_Envelopes defaults) (cf_Mempool defaults)
    (MkAPI [] [] [] 100 false 2 false ∅ (MkAppPayments true true true 10000) [])).
Definition wif_key (wif : bytes) : option PrivateKey := match wif with [k] => Some k | _ => None end.
Definition opened (wallet : option bytes) : Opened (DB:=gmap bytes bytes) :=
  MkOpened RawChain.store1 ∅ (MkStore ∅ ∅ 3600 65536) None wallet None (MkSyncStats [] [] [] [] 0).

Lemma gate_needs_wallet_witness : ∃ srv pg, start (DB:=gmap bytes bytes) id wif_key 0 paid_config None (opened (Some (lit "w"))) 0%N = Ok srv ∧
  as_paymentGate srv = Some pg ∧ pg_priceSats pg = 2 ∧ pg_payeeScriptHex pg = lit "76a94b".
Proof.
  eexists. eexists. split; [reflexivity|]. split; [reflexivity|].
  edestruct (gate_needs_wallet (DB:=gmap bytes bytes) (H4:=toy_beef) id wif_key (λ _, None) (λ _, None) 0 paid_config None
    (opened (Some (lit "w"))) 0%N) as (key & addr & script & _ & Hk & Ha & Hs & Hp & Hc & _); [reflexivity|reflexivity|].
  split; [exact Hc|]. rewrite Hp. injection Hk as <-. injection Ha as <-. injection Hs as <-. vm_compute. reflexivity.
Defined.

Example no_wallet_no_gate :
  match start (DB:=gmap bytes bytes) id wif_key 0 paid_config None (opened None) 0%N with
  | Ok srv => as_paymentGate srv = None | _ => False end.
Proof. reflexivity. Qed.
Example own_keys : local_pubkeys id (lit "02aa") [lit " 02FF "; lit "02ff"; []] = [lit "02aa"; lit "02ff"].
Proof. vm_compute. reflexivity. Qed.
